(* ===== verification/_CoqProject ===== *)
-Q . S2P
Prelude.v
GoStrings.v
GoHttp.v
GoMime.v
GoBase64.v
GoNet.v
GoUrl.v
Rings.v
Routing.v
Inventory.v
Logging.v
Config.v
Passwords.v
Retention.v
GoCrypto.v
Secrets.v
Requestid.v
MapSums.v
Policy.v
Gateway.v
CacheEntry.v
CacheKeys.v
Generations.v
Valkey.v
CacheStore.v
Grants.v
Trace.v
Sessions.v
Playback.v
Spike.v
Capture.v
Warmer.v
WarmerView.v
Effects.v
Threads.v
ArtworkFiles.v
Onboarding.v
Panels.v
OnboardingSystem.v
PlexTV.v
SyncTables.v
SyncIndex.v
SyncCollections.v
SyncPass.v
Search.v
Database.v
Metrics.v
Artwork.v
ArtworkLogic.v
ArtworkSystem.v
Maintenance.v
Identity.v
Admin.v
AdminHandlers.v
AdminControl.v
AdminApi.v
PolicyAdmin.v
Proxy.v
ProxyLog.v
Startup.v
System.v
