(* ===== verification/Prelude.v ===== *)
(** * Replx Edge: a verification library

    Replx Edge is a gateway in front of a Plex Media Server (PMS).  Public
    clients talk to the gateway; it proxies control traffic, refuses or
    redirects bulk media, enforces a media policy at playback negotiation and
    at the media boundary, keeps a per-user response cache that a background
    warmer refreshes, an artwork cache on disk, an index of the server's
    libraries, and a private API for the administrator.  A second command
    reports an inventory of a server.  This library models both programs as
    Rocq definitions translated from the Go sources under src/internal and
    src/cmd, and proves what makes them correct.

    ** The parts and where they are modelled

    - This file: automation, notations, machine words, outcomes of fallible
      code, generic lemmas.  GoStrings, GoHttp, GoMime, GoBase64, GoCrypto,
      GoNet and GoUrl: what the sources use of Go's standard library
      (strings, strconv, net/http headers, content sniffing, base64, SHA-256,
      HMAC, literal addresses, parsing, resolution and printing of URLs),
      executable.  MapSums: sums over finite maps.  Rings: bounded buffers.
    - Effects: programs over atomic actions and what always holds at their
      actions.  Threads: any number of such programs interleaved on one
      shared state, with the safety theorem the components instantiate.
    - Policy (policy/policy.go, load.go): [Engine] has tri-state values, the
      merge of levels with provenance, screening, ranking and [Evaluate];
      [Load] has the fail-closed load from the database.
    - Gateway (gateway/media_classify.go): classification of request paths.
    - CacheEntry, CacheKeys, Generations, CacheStore (cache/): the binary
      encoding of stored responses; admission and keys; the invalidation
      generations as a class [GenerationStore] with laws, implemented by the
      in-process store and the durable table; the two response stores.
    - Valkey (valkey/client.go): command framing, reply parser and client.
    - Grants (identity/authorization.go): thirty-second leases that allow the
      reuse of a response.
    - Trace (trace/trace.go): tokens, fingerprints, sessions and items of a
      request.
    - Identity (identity/identity.go): which account and device a credential
      belongs to, from the in-process caches, the tables and plex.tv.
    - Sessions, Playback (playback/): the session store as a class with laws
      and two implementations; negotiation ([HandleDecision]) and the part
      and manifest boundary ([EnforcePart]).
    - Warmer (warmer/): jobs, credential contexts and the refresh pass as a
      state machine.  WarmerView: its statistics and the owner's scope.
    - Artwork, ArtworkLogic, ArtworkSystem (artwork/shared.go,
      operations.go): the shared artwork store over tables and files, with
      failures and crashes between any two effects; its program logic; the
      reachable states and the abstract cache it refines.  ArtworkFiles
      (artwork.go): the older store of one pair of files per key.
      Maintenance (artwork.go, retention/retention.go: Run): the loops that
      recover and sweep the shared store and purge old rows.
    - Proxy (proxy/proxy.go, streaming.go): [ServeHTTP] and all it calls, as
      programs over atomic actions; [InvalidateCacheContext] and a
      background refresh in the same form.  ProxyLog (proxy.go: emit): what
      a request leaves in the log and among the captured events.
    - System: any number of these programs interleaved on one shared state.
    - Passwords, Admin (admin/password.go, session.go, admin.go, missing.go):
      password records; sessions, login, logout, first-run setup, the
      authentication of every other route, the rate limiter.
    - AdminApi, PolicyAdmin (admin/missing.go, ops.go): listings with
      cursors, runtime settings, users and devices; the storage of policies
      together with the statements that load them.
    - Panels, AdminHandlers, AdminControl (admin/admin.go, missing.go,
      ops.go): the two HTML pages; every other handler as a program over
      atomic actions; the state they share (limiter, synchronization slot,
      warmer, captures, observations, audit table) with interleaved requests.
    - Retention (retention/retention.go): batched removal of old rows.
    - Inventory (inventory/inventory.go, cmd/replx-inventory): the paged
      counting client and its command.
    - Startup (cmd/replx-edge/main.go; proxy.go: New; valkey/valkey.go):
      commands, the bring-up loop, the owner's token for the workers, and
      what the parts are put together with.
    - Routing (routing/redirect.go, origin/origin.go,
      delegation/delegation.go): media locations, the redirect rules of the
      origin clients, the request for a transient token.  Spike (spike/): the
      resolver that turns a media request into a redirect, its events and the
      observations of clients.
    - Config (config/config.go): the environment and its validation; with it
      the address tests of the handlers.  Secrets (crypto/crypto.go): key
      derivation and the framing of ciphertexts.  Logging
      (logging/logging.go), Requestid (requestid/), Capture (capture/),
      Metrics (metrics/): redaction, request identifiers, targeted capture,
      counters and their export.  Database (database/database.go,
      health/health.go): migrations and readiness.
    - Onboarding, OnboardingSystem (onboarding/): sign-in with plex.tv,
      selection, verification and refresh of the owner's credential as
      programs over atomic actions; the world they act on, with interleaved
      calls, failing statements and restarts.  PlexTV (plextv/, pms/): the
      requests behind those actions.
    - SyncTables, SyncIndex, SyncCollections, SyncPass (sync/): the tables
      and a state-and-error monad whose statements may fail or be lost; the
      storage of one item; collection catalogs with two-phase publication;
      section sweeps, whole passes and event marks.  Search
      (search/search.go): candidates from these tables.

    ** How the code is translated

    Pure functions are functions with the source's names.  Stateful code
    passes its state; where operations of several threads interleave the
    operations are steps of a transition system and the theorems are about
    all reachable states or histories ([reached] in Grants, Warmer, Threads,
    System).  A lock makes an operation one step, and so does one SQL
    statement or transaction; a statement may succeed, fail without effect,
    or take effect with its answer lost.  Errors are values ([option],
    [outcome], an error type); a slice out of range is [Panic].  Counters and
    lengths are integers with the wrap-around of their width where it can
    matter.  Instants and durations are nanoseconds.  Iteration over a Go map
    and the order of rows without an ORDER BY are modelled by an arbitrary
    arrangement that is an argument of the operation, so that the theorems
    hold for every order.

    Code outside the sources is a parameter: JSON decoders, the origin's and
    other services' answers, the argon2 key derivation, AES-GCM and Ed25519,
    the execution of one DDL statement, text matching and ranking in SQL.  In
    programs over actions the answers of an action are universally
    quantified.  The theorems on collections assume that the content hash of
    a snapshot is injective; the witnesses take a concrete injective
    encoding.

    ** What the theorems show

    - System: a stored response that is served was fetched after every
      retirement acknowledged before its validation, and to a caller the
      origin answered within thirty seconds; after a failed retirement
      nothing is served until the mark is cleared; one flight per key.
    - Proxy: media never travels in tunnel mode, passes the boundary in
      direct mode; negotiations pass the engine; an acknowledged watch write
      is retired before it is relayed; what is stored; forwarded headers;
      flights are released.
    - ArtworkSystem: the byte budget holds in every reachable state, every
      file has an owner, the store refines a cache that may forget, eviction
      respects priorities, recovery ends.
    - Identity: the parts of a resolution agree; fresh and invalid
      credentials were judged so by plex.tv recently; devices are not
      confused; the caches are bounded.
    - Policy: selection is best among the permitted, fails exactly as
      specified, does not depend on order, is monotone, explains itself;
      precedence of levels; the load fails closed.
    - Playback, Sessions: what a negotiation records is permitted, and the
      boundary releases the negotiated media and nothing else; the two
      session stores are interchangeable.
    - Admin, Passwords: a protected handler ran only for someone who proved
      himself; guessing is bounded; one administrator; a password record
      verifies its password.
    - AdminControl, Panels: what administrators can make the edge do is
      rationed; changes need a request with CSRF protection and are audited,
      and nothing else is; nothing shown on a page becomes markup.
    - Startup: the workers get the token of the server that was bound; what
      is started is closed; failed attempts to bring the database up do no
      harm and the first that can succeed does.
    - Inventory: counts marked as measured are exact; the credential goes to
      the configured server only and errors repeat nothing it said.
    - ArtworkFiles, Maintenance: a hit is a whole body stored under its key;
      the shared store comes up by itself and stays up; the retention loop
      never takes what is active or young.
    - PolicyAdmin, AdminApi, Retention: a stored policy or setting is what
      the engine or the next pass uses; pages cover their table; a pass
      removes exactly what is due and ends.
    - CacheKeys, Generations: keys isolate users and generations and ignore
      tokens; retired keys never come back.
    - CacheEntry, CacheStore, Valkey: round trips, totality of the decoders
      on arbitrary bytes, synchronisation of the connection.
    - Grants, Warmer: bounds, and no use of a credential beyond its life.
    - SyncPass, SyncIndex, SyncCollections: a full sweep leaves exactly what
      the origin listed or loses nothing, and ends; items leave the index
      only for a reason; collections are published as whole catalogs and a
      refresh of one leaves the others alone.  Search: candidates only from
      an index completed within twelve hours.
    - OnboardingSystem, PlexTV: verified means checked; only the owner's
      server is bound; one identity; an identity is read from the configured
      origin only.
    - Routing, Spike: a delegation request never leaves its origin; media is
      redirected to the onboarded server with the delegated token.
    - Config, Logging, Capture, Requestid, Metrics, Database: the program
      starts only with a configuration that cannot expose it; logged queries
      show no token; capture ends by itself; identifiers carry their time;
      exported numbers are the counted ones; migrations are applied once.

    ** Bounds and fuel

    The reply parser runs on fuel one more than the number of bytes, proved
    to be enough.  The waiting loop of a request has forty turns: a
    turn sleeps fifty milliseconds and the deadline is two seconds.
    [stripSecrets] recurses on nested queries, each shorter than the one
    around it.  The page loop of a section runs on fuel and is [Panic] when
    it is used up; fuel beyond the length of an honest listing is proved to
    be enough.  The collection loops have the source's own bound of 100000
    pages.  The batch loops of the artwork recovery and of retention run
    on fuel one more than the number of rows, proved to be enough.  Theorems
    on generation counters assume fewer than [2^61] retirements, those on
    warmer sequence numbers fewer than [2^64] events.

    ** What is not modelled

    The contents of JSON error bodies beyond their code and message; the
    sums of durations among the metrics, which are floating-point numbers;
    the periods of timers, and the ticker loops that only repeat one
    operation (warmer, library sync, the file store); the connection of the
    event stream; listings that only copy rows (the sync status, the matrix
    of observations); the opening and pinging of database connections;
    goroutine start, signals and shutdown of the process.  The two requests
    of one library run at the same time in the inventory and one after the
    other in the model: they write different fields, and the network is
    arbitrary at each request. *)

From stdpp Require Export base gmap strings list pretty fin_maps sorting.
From Stdlib Require Export ZArith Ascii Lia.

(** ** Automation *)

(** The lemmas of this database discharge the routine side conditions of the
    components: word bounds, map look-ups, string tests. *)
Create HintDb replx.

(** Case analysis on every boolean test or match of the goal. *)
Ltac case_all := repeat (case_match; simplify_eq/=; try done).

(** Turn boolean tests on integers into propositions. *)
Ltac zbool :=
  repeat match goal with
  | H : (_ && _)%bool = true |- _ => apply andb_prop in H as [??]
  | H : (_ || _)%bool = false |- _ => apply orb_false_elim in H as [??]
  | H : negb _ = true |- _ => apply negb_true_iff in H
  | H : negb _ = false |- _ => apply negb_false_iff in H
  | H : (_ <? _)%Z = true |- _ => apply Z.ltb_lt in H
  | H : (_ <? _)%Z = false |- _ => apply Z.ltb_ge in H
  | H : (_ <=? _)%Z = true |- _ => apply Z.leb_le in H
  | H : (_ <=? _)%Z = false |- _ => apply Z.leb_gt in H
  | H : (_ =? _)%Z = true |- _ => apply Z.eqb_eq in H
  | H : (_ =? _)%Z = false |- _ => apply Z.eqb_neq in H
  | H : String.eqb _ _ = true |- _ => apply String.eqb_eq in H
  | H : String.eqb _ _ = false |- _ => apply String.eqb_neq in H
  | H : bool_decide _ = true |- _ => apply bool_decide_eq_true in H
  | H : bool_decide _ = false |- _ => apply bool_decide_eq_false in H
  end.

(** The string operations reduce on constructors. *)
#[global] Arguments String.append : simpl nomatch.

(** ** Notations *)

Declare Scope go_scope.
Delimit Scope go_scope with go.
(** Equality of Go strings. *)
Infix "=s" := String.eqb (at level 70, no associativity) : go_scope.
Open Scope go_scope.
Open Scope Z_scope.

(** ** Machine words

    Go's [int] is [int64] on the supported platforms and wraps around;
    [uint64] counters wrap modulo [2^64]. *)

Definition int64 (z : Z) : Z := (z + 2 ^ 63) mod 2 ^ 64 - 2 ^ 63.
Definition uint64 (z : Z) : Z := z mod 2 ^ 64.
Definition max_uint64 : Z := 2 ^ 64 - 1.

Definition is_int64 (z : Z) : Prop := - 2 ^ 63 <= z < 2 ^ 63.
Definition is_uint64 (z : Z) : Prop := 0 <= z < 2 ^ 64.

Lemma int64_id z : is_int64 z → int64 z = z.
Proof. unfold is_int64, int64. intros. rewrite Z.mod_small; lia. Qed.

Lemma int64_range z : is_int64 (int64 z).
Proof.
  unfold is_int64, int64.
  pose proof (Z.mod_pos_bound (z + 2 ^ 63) (2 ^ 64) ltac:(lia)). lia.
Qed.

Lemma uint64_id z : is_uint64 z → uint64 z = z.
Proof. unfold is_uint64, uint64. intros. apply Z.mod_small; lia. Qed.

Lemma uint64_range z : is_uint64 (uint64 z).
Proof. unfold is_uint64, uint64. apply Z.mod_pos_bound. lia. Qed.

#[export] Hint Resolve int64_range uint64_range : replx.

(** ** Time

    Instants are nanoseconds since Go's zero time (so the zero value
    [time.Time{}] is [0]), durations are nanoseconds. *)

Definition Second : Z := 1000000000.
Definition Minute : Z := 60 * Second.
Definition Hour : Z := 60 * Minute.

(** ** Fallible code

    The result of code that returns a value, returns an error, or panics. *)

Inductive outcome (A : Type) := Ok (a : A) | Err (msg : string) | Panic.
Arguments Ok {A} _.
Arguments Err {A} _.
Arguments Panic {A}.

Definition bind {A B} (x : outcome A) (f : A → outcome B) : outcome B :=
  match x with Ok a => f a | Err m => Err m | Panic => Panic end.

Notation "x <- c ;; k" := (bind c (λ x, k)) (at level 60, c at next level, right associativity) : go_scope.

(** [len(s)] of a byte string. *)
Definition slen (s : string) : Z := Z.of_nat (String.length s).

(** ** Generic lemmas on lists *)

Section lists.
Context {A : Type}.
Implicit Types (l : list A).

(** Selecting the first element that no later element strictly improves on:
    the shape of every "best of" loop of the code. *)
Fixpoint best_of (lt : A → A → bool) (best : A) (l : list A) : A :=
  match l with
  | [] => best
  | x :: r => best_of lt (if lt x best then x else best) r
  end.

Lemma best_of_elem lt x l : best_of lt x l = x ∨ best_of lt x l ∈ l.
Proof.
  revert x. induction l as [|y l IH]; intros x; simpl; [by left|].
  destruct (IH (if lt y x then y else x)) as [E|E].
  - rewrite E. destruct (lt y x); [right; set_solver|by left].
  - right. set_solver.
Qed.

Lemma best_of_in lt x l : best_of lt x l ∈ x :: l.
Proof. destruct (best_of_elem lt x l) as [->|]; set_solver. Qed.

(** For a strict order whose negation is transitive the result is minimal. *)
Lemma best_of_min (lt : A → A → bool) x l :
  (∀ a b c, lt a b = true → lt c b = false → lt a c = true) →
  (∀ a b, lt a b = true → lt b a = false) →
  ∀ y, y ∈ x :: l → lt y (best_of lt x l) = false.
Proof.
  intros Hneg Hasym.
  assert (Hirr : ∀ a, lt a a = false).
  { intros a. destruct (lt a a) eqn:E; [|done]. by rewrite (Hasym _ _ E) in E. }
  revert x. induction l as [|z l IH]; intros x y Hy; simpl.
  - apply list_elem_of_singleton in Hy as ->. apply Hirr.
  - assert (Hb : lt (if lt z x then z else x) (best_of lt (if lt z x then z else x) l) = false).
    { apply IH. set_solver. }
    assert (Hstep : ∀ w, lt w (if lt z x then z else x) = false →
              lt w (best_of lt (if lt z x then z else x) l) = false).
    { intros w Hw. destruct (lt w (best_of _ _ _)) eqn:E; [|done].
      by rewrite (Hneg _ _ _ E Hb) in Hw. }
    rewrite !elem_of_cons in Hy. destruct Hy as [->|[->|Hy]].
    + destruct (lt z x) eqn:E; [|apply Hstep; by rewrite Hirr].
      apply Hstep. by apply Hasym.
    + destruct (lt z x) eqn:E; apply Hstep; [apply Hirr|done].
    + apply IH. set_solver.
Qed.

End lists.

(** Two lists with the same elements, one of which bounds the other. *)
Lemma forall_elem_perm {A} (P : A → Prop) (l k : list A) :
  l ≡ₚ k → (∀ x, x ∈ l → P x) → ∀ x, x ∈ k → P x.
Proof. intros Hp H x Hx. apply H. by rewrite Hp. Qed.

Lemma existsb_false_forall {A} (f : A → bool) (l : list A) :
  existsb f l = false ↔ ∀ x, x ∈ l → f x = false.
Proof.
  split.
  - intros E x Hx. apply not_true_iff_false. intros Hf. apply not_true_iff_false in E. apply E.
    apply existsb_exists. exists x. split; [by apply list_elem_of_In|done].
  - intros H. apply not_true_iff_false. intros (x & Hx & E)%existsb_exists.
    apply list_elem_of_In, H in Hx. congruence.
Qed.
