(* ===== verification/GoStrings.v ===== *)
(** * Go's [strings], [strconv] and header canonicalisation

    The string functions the sources call, on byte strings ([string] is a
    list of 8-bit characters, as a Go string is a sequence of bytes).

    Case mapping is written for the tests the program makes, which all
    compare with ASCII literals: ASCII letters are mapped, the two non-ASCII
    code points that [strings.ToLower] maps to an ASCII letter (U+212A to
    [k], U+0130 to [i]) and the two that [strings.ToUpper] maps to one
    (U+0131 to [I], U+017F to [S]) are mapped, every other byte is kept.
    Go also maps the remaining non-ASCII letters to non-ASCII letters, which
    no test of the program observes.  [TrimSpace] trims ASCII white space. *)

From S2P Require Import Prelude.

(** ** Characters *)

Definition code (c : ascii) : N := N_of_ascii c.

Definition byte_is (c : ascii) (n : N) : bool := (code c =? n)%N.

Definition is_upper (c : ascii) : bool := ((65 <=? code c) && (code c <=? 90))%N.
Definition is_lower (c : ascii) : bool := ((97 <=? code c) && (code c <=? 122))%N.
Definition is_digit (c : ascii) : bool := ((48 <=? code c) && (code c <=? 57))%N.
Definition is_space (c : ascii) : bool := ((9 <=? code c) && (code c <=? 13))%N || byte_is c 32.

Definition lower_char (c : ascii) : ascii :=
  if is_upper c then ascii_of_N (code c + 32) else c.
Definition upper_char (c : ascii) : ascii :=
  if is_lower c then ascii_of_N (code c - 32) else c.

(** U+212A is the three bytes E2 84 AA; U+0130, U+0131 and U+017F are the
    two-byte sequences C4 B0, C4 B1 and C5 BF. *)
Definition kelvin (a b c : ascii) : bool := byte_is a 226 && byte_is b 132 && byte_is c 170.
Definition two_bytes (m n : N) (a b : ascii) : bool := byte_is a m && byte_is b n.

(** ** strings.ToLower, strings.ToUpper, strings.EqualFold *)

Fixpoint ToLower (s : string) : string :=
  match s with
  | EmptyString => EmptyString
  | String a r =>
      match r with
      | String b r' =>
          if two_bytes 196 176 a b then String "i" (ToLower r')
          else match r' with
               | String c r'' =>
                   if kelvin a b c then String "k" (ToLower r'')
                   else String (lower_char a) (ToLower r)
               | EmptyString => String (lower_char a) (ToLower r)
               end
      | EmptyString => String (lower_char a) EmptyString
      end
  end.

Fixpoint ToUpper (s : string) : string :=
  match s with
  | EmptyString => EmptyString
  | String a r =>
      match r with
      | String b r' =>
          if two_bytes 196 177 a b then String "I" (ToUpper r')
          else if two_bytes 197 191 a b then String "S" (ToUpper r')
          else String (upper_char a) (ToUpper r)
      | EmptyString => String (upper_char a) EmptyString
      end
  end.

(** Simple folding to a lower-case representative: U+212A folds with [k] and
    U+017F with [s]. *)
Fixpoint fold_case (s : string) : string :=
  match s with
  | EmptyString => EmptyString
  | String a r =>
      match r with
      | String b r' =>
          if two_bytes 197 191 a b then String "s" (fold_case r')
          else match r' with
               | String c r'' =>
                   if kelvin a b c then String "k" (fold_case r'')
                   else String (lower_char a) (fold_case r)
               | EmptyString => String (lower_char a) (fold_case r)
               end
      | EmptyString => String (lower_char a) EmptyString
      end
  end.

Definition EqualFold (s t : string) : bool := fold_case s =s fold_case t.

(** ** Prefixes, suffixes, substrings *)

Fixpoint HasPrefix (s p : string) {struct p} : bool :=
  match p, s with
  | EmptyString, _ => true
  | String a p', String b s' => Ascii.eqb a b && HasPrefix s' p'
  | String _ _, EmptyString => false
  end.

Fixpoint HasSuffix (s p : string) : bool :=
  (s =s p) || match s with EmptyString => false | String _ r => HasSuffix r p end.

Fixpoint Contains (s p : string) : bool :=
  HasPrefix s p || match s with EmptyString => false | String _ r => Contains r p end.

(** What remains of [s] after dropping its first [n] bytes. *)
Fixpoint sdrop (n : nat) (s : string) : string :=
  match n, s with
  | O, _ => s
  | S n', String _ r => sdrop n' r
  | S _, EmptyString => EmptyString
  end.

Fixpoint stake (n : nat) (s : string) : string :=
  match n, s with
  | S n', String c r => String c (stake n' r)
  | _, _ => EmptyString
  end.

Fixpoint Index (s p : string) : option nat :=
  if HasPrefix s p then Some O
  else match s with EmptyString => None | String _ r => S <$> Index r p end.

(** [strings.IndexAny] over a set of single-byte characters. *)
Fixpoint IndexAny (s chars : string) : option nat :=
  match s with
  | EmptyString => None
  | String c r => if Contains chars (String c EmptyString) then Some O else S <$> IndexAny r chars
  end.

Definition TrimPrefix (s p : string) : string :=
  if HasPrefix s p then sdrop (String.length p) s else s.
Definition TrimSuffix (s p : string) : string :=
  if HasSuffix s p then stake (String.length s - String.length p) s else s.

Fixpoint trim_left (s : string) : string :=
  match s with
  | EmptyString => EmptyString
  | String c r => if is_space c then trim_left r else s
  end.
Fixpoint trim_right (s : string) : string :=
  match s with
  | EmptyString => EmptyString
  | String c r =>
      let r' := trim_right r in
      if is_space c && (r' =s "") then EmptyString else String c r'
  end.
Definition TrimSpace (s : string) : string := trim_right (trim_left s).

(** ** strings.Split, strings.Cut and strings.Join on one-byte separators *)

Fixpoint Split (s : string) (sep : ascii) : list string :=
  match s with
  | EmptyString => [EmptyString]
  | String c r =>
      if Ascii.eqb c sep then EmptyString :: Split r sep
      else match Split r sep with
           | [] => [String c EmptyString]
           | h :: t => String c h :: t
           end
  end.

Fixpoint Cut (s : string) (sep : ascii) : option (string * string) :=
  match s with
  | EmptyString => None
  | String c r =>
      if Ascii.eqb c sep then Some (EmptyString, r)
      else match Cut r sep with
           | Some (a, b) => Some (String c a, b)
           | None => None
           end
  end.

Fixpoint Join (l : list string) (sep : string) : string :=
  match l with
  | [] => EmptyString
  | [s] => s
  | s :: r => s +:+ sep +:+ Join r sep
  end.

(** ** strconv *)

Definition digit_value (c : ascii) : Z := Z.of_N (code c) - 48.

Fixpoint digits_value (acc : Z) (s : string) : option Z :=
  match s with
  | EmptyString => Some acc
  | String c r => if is_digit c then digits_value (acc * 10 + digit_value c) r else None
  end.

Definition unsigned_value (s : string) : option Z :=
  match s with EmptyString => None | _ => digits_value 0 s end.

(** [strconv.Atoi]: optional sign, decimal digits, [int64] range. *)
Definition Atoi (s : string) : option Z :=
  let v := match s with
           | String "-" r => Z.opp <$> unsigned_value r
           | String "+" r => unsigned_value r
           | _ => unsigned_value s
           end in
  match v with
  | Some n => if (- 2 ^ 63 <=? n) && (n <? 2 ^ 63) then Some n else None
  | None => None
  end.

Definition Itoa (n : Z) : string := pretty n.

(** [strconv.ParseUint] in base ten for a width of [bits]. *)
Definition ParseUint (bits : Z) (s : string) : option Z :=
  n ← unsigned_value s; if n <? 2 ^ bits then Some n else None.

(** ** http.CanonicalHeaderKey

    A key of valid token characters has the first letter and the letters
    after a hyphen in upper case and the others in lower case; any other key
    is left alone. *)

Definition is_token_char (c : ascii) : bool :=
  is_digit c || is_upper c || is_lower c || Contains "!#$%&'*+-.^_`|~" (String c EmptyString).

Fixpoint all_chars (f : ascii → bool) (s : string) : bool :=
  match s with EmptyString => true | String c r => f c && all_chars f r end.

Fixpoint canonical_go (up : bool) (s : string) : string :=
  match s with
  | EmptyString => EmptyString
  | String c r =>
      String (if up then upper_char c else lower_char c) (canonical_go (byte_is c 45) r)
  end.

Definition CanonicalHeaderKey (s : string) : string :=
  if all_chars is_token_char s then canonical_go true s else s.

Example lower_ex : ToLower "/Library/PARTS/1" = "/library/parts/1".
Proof. reflexivity. Qed.
Example canonical_ex : CanonicalHeaderKey "x-plex-token" = "X-Plex-Token".
Proof. reflexivity. Qed.
Example atoi_ex : (Atoi "-12", Atoi "+7", Atoi "9223372036854775808", Atoi "1x", Atoi "") =
  (Some (-12), Some 7, None, None, None).
Proof. reflexivity. Qed.
Example split_ex : Split "/a//b" "/" = [""; "a"; ""; "b"].
Proof. reflexivity. Qed.
Example trim_ex : TrimSpace "  a b  " = "a b".
Proof. reflexivity. Qed.

(** ** Lemmas on appending *)

Lemma sapp_assoc (a b c : string) : (a +:+ b) +:+ c = a +:+ (b +:+ c).
Proof. induction a as [|x a IH]; simpl; [done|by rewrite IH]. Qed.

Lemma sapp_nil_r (a : string) : a +:+ "" = a.
Proof. induction a as [|x a IH]; simpl; [done|by rewrite IH]. Qed.

Lemma length_sapp (a b : string) :
  String.length (a +:+ b) = (String.length a + String.length b)%nat.
Proof. induction a as [|x a IH]; simpl; [done|by rewrite IH]. Qed.

Lemma sapp_inj_len (a b c d : string) :
  String.length a = String.length c → a +:+ b = c +:+ d → a = c ∧ b = d.
Proof.
  revert c. induction a as [|x a IH]; intros [|y c]; simpl; intros HL HE; try done.
  injection HE as -> HE. injection HL as HL.
  by destruct (IH c HL HE) as [-> ->].
Qed.

Lemma sapp_inj_len_r (a b c d : string) :
  String.length b = String.length d → a +:+ b = c +:+ d → a = c ∧ b = d.
Proof.
  intros HL HE. apply sapp_inj_len; [|done].
  apply (f_equal String.length) in HE. rewrite !length_sapp in HE. lia.
Qed.

Lemma sdrop_app (a b : string) : sdrop (String.length a) (a +:+ b) = b.
Proof. induction a as [|x a IH]; simpl; done. Qed.

Lemma stake_app (a b : string) : stake (String.length a) (a +:+ b) = a.
Proof. induction a as [|x a IH]; simpl; [by destruct b|by rewrite IH]. Qed.

Lemma stake_sdrop n (s : string) : stake n s +:+ sdrop n s = s.
Proof. revert s. induction n as [|n IH]; intros [|c s]; simpl; try done. by rewrite IH. Qed.

Lemma length_stake n (s : string) :
  (n <= String.length s)%nat → String.length (stake n s) = n.
Proof. revert s. induction n as [|n IH]; intros [|c s]; simpl; intros; try lia. rewrite IH; lia. Qed.

Lemma length_sdrop n s : String.length (sdrop n s) = (String.length s - n)%nat.
Proof. revert s. induction n as [|n IH]; intros [|c s]; simpl; try lia. by rewrite IH. Qed.

(** ** Specifications of the substring tests *)

Lemma HasPrefix_spec s p : HasPrefix s p = true ↔ ∃ r, s = p +:+ r.
Proof.
  revert s. induction p as [|a p IH]; intros s; simpl.
  - split; [intros _; by exists s|]. done.
  - destruct s as [|b s]; simpl.
    + split; [done|]. intros [r E]. discriminate.
    + rewrite andb_true_iff, Ascii.eqb_eq, IH. split.
      * intros [-> [r ->]]. by exists r.
      * intros [r E]. injection E as -> ->. split; [done|by exists r].
Qed.

Lemma Contains_spec s p : Contains s p = true ↔ ∃ a b, s = a +:+ p +:+ b.
Proof.
  induction s as [|c s IH]; simpl; rewrite orb_true_iff, HasPrefix_spec.
  - split; [intros [[r ->]|?]; [by exists "", r|done]|].
    intros (a & b & E). destruct a; [|discriminate]. left. by exists b.
  - rewrite IH. split.
    + intros [[r E]|(a & b & ->)]; [by exists "", r|by exists (String c a), b].
    + intros ([|x a] & b & E); simpl in E; [left; by exists b|].
      injection E as -> ->. right. by exists a, b.
Qed.

Lemma HasSuffix_eq s p :
  HasSuffix s p = (s =s p) || match s with EmptyString => false | String _ r => HasSuffix r p end.
Proof. by destruct s. Qed.

Lemma HasSuffix_spec s p : HasSuffix s p = true ↔ ∃ a, s = a +:+ p.
Proof.
  induction s as [|c s IH]; rewrite HasSuffix_eq, orb_true_iff, String.eqb_eq.
  - split; [intros [<-|?]; [by exists ""|done]|].
    intros [[|??] E]; [by left|discriminate].
  - rewrite IH. split.
    + intros [<-|[a ->]]; [by exists ""|by exists (String c a)].
    + intros [[|x a] E]; simpl in E; [by left|]. injection E as -> ->. right. by exists a.
Qed.

Lemma HasPrefix_app p r : HasPrefix (p +:+ r) p = true.
Proof. apply HasPrefix_spec. by exists r. Qed.

Lemma HasPrefix_Contains s p : HasPrefix s p = true → Contains s p = true.
Proof. rewrite HasPrefix_spec, Contains_spec. intros [r ->]. by exists "", r. Qed.

Lemma HasSuffix_Contains s p : HasSuffix s p = true → Contains s p = true.
Proof.
  rewrite HasSuffix_spec, Contains_spec. intros [a ->]. exists a, "". by rewrite sapp_nil_r.
Qed.

Lemma Contains_trans s p q : Contains s p = true → Contains p q = true → Contains s q = true.
Proof.
  rewrite !Contains_spec. intros (a & b & ->) (c & d & ->).
  exists (a +:+ c), (d +:+ b). by rewrite !sapp_assoc.
Qed.

Lemma TrimPrefix_app p r : TrimPrefix (p +:+ r) p = r.
Proof. unfold TrimPrefix. rewrite HasPrefix_app. apply sdrop_app. Qed.

(** ** [ToLower] is idempotent *)

Lemma lower_char_idemp c : lower_char (lower_char c) = lower_char c.
Proof. by destruct c as [[][][][][][][][]]. Qed.

Lemma lower_char_byte c n : (128 <= n)%N → byte_is (lower_char c) n = byte_is c n.
Proof.
  intros Hn. unfold lower_char, byte_is. destruct (is_upper c) eqn:E; [|done].
  unfold is_upper in E. apply andb_prop in E as [E1 E2].
  apply N.leb_le in E1, E2. unfold code at 1.
  rewrite N_ascii_embedding by lia.
  destruct (N.eqb_spec (code c + 32) n), (N.eqb_spec (code c) n); lia.
Qed.

(** The heads of a lowered string carry a non-ASCII byte only where the
    original does. *)
Lemma ToLower_head2 r a b t :
  ToLower r = String a (String b t) → (byte_is a 132 = true) → byte_is b 170 = true →
  ∃ a' b' t', r = String a' (String b' t') ∧ byte_is a' 132 = true ∧ byte_is b' 170 = true.
Proof.
  assert (Hhd : ∀ s c u n, (128 <= n)%N → ToLower s = String c u → byte_is c n = true →
     ∃ c' u', s = String c' u' ∧ byte_is c' n = true).
  { intros s c u n Hn E Hb. destruct s as [|x s]; [done|].
    assert (Hx : String.eqb (String c u) (ToLower (String x s)) = true) by (rewrite E; apply String.eqb_refl).
    exists x, s. split; [done|]. clear Hx. simpl in E.
    repeat case_match; injection E as <- ?; try by rewrite lower_char_byte in Hb.
    all: exfalso; revert Hb; unfold byte_is; rewrite N.eqb_eq; intros <-; vm_compute in Hn; done. }
  intros E Ha Hb.
  destruct (Hhd r a (String b t) 132%N ltac:(lia) E Ha) as (a' & r' & -> & Ha').
  assert (Hz : ToLower (String a' r') = String (lower_char a') (ToLower r')).
  { simpl. destruct r' as [|b' r']; [done|]. unfold two_bytes, kelvin.
    assert (byte_is a' 196 = false ∧ byte_is a' 226 = false) as [-> ->].
    { revert Ha'. unfold byte_is. rewrite N.eqb_eq. intros ->. done. }
    simpl. by destruct r'. }
  rewrite Hz in E. injection E as _ E.
  destruct (Hhd r' b t 170%N ltac:(lia) E Hb) as (b' & t' & -> & Hb').
  by exists a', b', t'.
Qed.

Lemma ToLower_cons a r :
  ToLower (String a r) = String (lower_char a) (ToLower r) ∨
  (∃ b r', r = String b r' ∧ ToLower (String a r) = String "i" (ToLower r')) ∨
  (∃ b c r', r = String b (String c r') ∧ ToLower (String a r) = String "k" (ToLower r')).
Proof. simpl. repeat case_match; simplify_eq; eauto 10. Qed.

Lemma ToLower_ascii a r :
  byte_is a 196 = false → byte_is a 226 = false →
  ToLower (String a r) = String (lower_char a) (ToLower r).
Proof.
  intros H1 H2. simpl. unfold two_bytes, kelvin. rewrite H1, H2. simpl. by repeat case_match.
Qed.

Lemma ToLower_idemp s : ToLower (ToLower s) = ToLower s.
Proof.
  remember (String.length s) as n eqn:Hn. revert s Hn.
  induction (lt_wf n) as [n _ IH]; intros [|a r] ->; [done|].
  destruct (ToLower_cons a r) as [E|[(b & r' & -> & E)|(b & c & r' & -> & E)]]; rewrite E.
  2, 3: rewrite ToLower_ascii by done; f_equal; eapply IH; [|done]; simpl; lia.
  assert (IHr : ToLower (ToLower r) = ToLower r) by (eapply IH; [|done]; simpl; lia).
  enough (ToLower (String (lower_char a) (ToLower r)) =
          String (lower_char (lower_char a)) (ToLower (ToLower r))) as ->
    by by rewrite lower_char_idemp, IHr.
  destruct (byte_is a 196) eqn:H1.
  - (* a lone C4 byte *)
    simpl. destruct (ToLower r) as [|b t] eqn:Er; [done|].
    destruct (two_bytes 196 176 (lower_char a) b) eqn:H2.
    + exfalso. unfold two_bytes in H2. apply andb_prop in H2 as [_ H2].
      destruct r as [|b' r']; [done|].
      assert (byte_is b' 176 = true) as Hb'.
      { destruct (ToLower_cons b' r') as [F|[(? & ? & _ & F)|(? & ? & ? & _ & F)]];
          rewrite F in Er; injection Er as <- _; [|done..].
        by rewrite lower_char_byte in H2. }
      simpl in E. unfold two_bytes in E. rewrite H1, Hb' in E. simpl in E.
      injection E as E _. apply (f_equal (λ x, byte_is x 196)) in E.
      rewrite lower_char_byte in E by done. by rewrite H1 in E.
    + destruct t as [|c t]; [done|]. unfold kelvin.
      rewrite lower_char_byte by done.
      apply N.eqb_eq in H1. unfold byte_is at 1. rewrite H1. simpl. done.
  - destruct (byte_is a 226) eqn:H2.
    2: { apply ToLower_ascii; by rewrite lower_char_byte. }
    simpl. destruct (ToLower r) as [|b t] eqn:Er; [done|].
    unfold two_bytes. rewrite lower_char_byte, H1 by done. simpl.
    destruct t as [|c t]; [done|].
    destruct (kelvin (lower_char a) b c) eqn:Hk; [|done]. exfalso.
    unfold kelvin in Hk. apply andb_prop in Hk as [Hk Hc]. apply andb_prop in Hk as [_ Hb].
    destruct (ToLower_head2 _ _ _ _ Er Hb Hc) as (b' & c' & t' & -> & Hb' & Hc').
    revert E. simpl. unfold two_bytes, kelvin. rewrite H1, H2, Hb', Hc'. simpl.
    intros E. injection E as E _. apply (f_equal (λ x, byte_is x 226)) in E.
    rewrite lower_char_byte in E by done. by rewrite H2 in E.
Qed.

(** ** Decimal printing *)

Lemma pretty_N_go_chars (f : ascii → bool) x s :
  (∀ n, (n < 10)%N → f (pretty_N_char n) = true) →
  all_chars f s = true → all_chars f (pretty_N_go x s) = true.
Proof.
  intros Hf. revert s. induction (N.lt_wf_0 x) as [x _ IH]; intros s Hs.
  assert (x = 0 ∨ 0 < x)%N as [->|Hx] by lia; [by rewrite pretty_N_go_0|].
  rewrite pretty_N_go_step by done. apply IH; [by apply N.div_lt|].
  cbn [all_chars]. rewrite Hf by (by apply N.mod_lt). done.
Qed.

(** A printed integer consists of digits and a sign. *)
Lemma Itoa_chars (f : ascii → bool) z :
  (∀ n, (n < 10)%N → f (pretty_N_char n) = true) → f "-"%char = true →
  all_chars f (Itoa z) = true.
Proof.
  intros Hf Hm.
  assert (Hp : ∀ p, all_chars f (pretty (Npos p)) = true).
  { intros p. unfold pretty, pretty_N. rewrite decide_False by done. by apply pretty_N_go_chars. }
  unfold Itoa. destruct z as [|p|p].
  - change (f (pretty_N_char 0) && true = true). by rewrite Hf.
  - apply Hp.
  - change (pretty (Z.neg p)) with ("-" +:+ pretty (Npos p)).
    cbn [String.append all_chars]. by rewrite Hm, Hp.
Qed.

(** ** Fields separated by one character *)

Definition free_of (c : ascii) (s : string) : Prop := all_chars (λ x, negb (Ascii.eqb x c)) s = true.

#[export] Instance free_of_dec c s : stdpp.base.Decision (free_of c s).
Proof. unfold free_of. apply _. Defined.

Lemma free_of_cons c x s : free_of c (String x s) ↔ x ≠ c ∧ free_of c s.
Proof.
  unfold free_of. cbn [all_chars]. rewrite andb_true_iff, negb_true_iff, Ascii.eqb_neq. done.
Qed.

Lemma free_of_app c a b : free_of c (a +:+ b) ↔ free_of c a ∧ free_of c b.
Proof.
  induction a as [|x a IH]; [naive_solver|].
  change (String x a +:+ b) with (String x (a +:+ b)). rewrite !free_of_cons, IH. naive_solver.
Qed.

Lemma not_free_of_sep c a b : ¬ free_of c (a +:+ String c b).
Proof. rewrite free_of_app, free_of_cons. naive_solver. Qed.

Lemma field_inj_l c a b x y :
  free_of c a → free_of c b → a +:+ String c x = b +:+ String c y → a = b ∧ x = y.
Proof.
  revert b. induction a as [|p a IH]; intros [|q b] Ha Hb E; simpl in E.
  - by injection E.
  - injection E as <- _. apply free_of_cons in Hb. naive_solver.
  - injection E as -> _. apply free_of_cons in Ha. naive_solver.
  - injection E as -> E. apply free_of_cons in Ha as [_ Ha]. apply free_of_cons in Hb as [_ Hb].
    by destruct (IH b Ha Hb E) as [-> ->].
Qed.

Lemma field_inj_r c a b x y :
  free_of c x → free_of c y → a +:+ String c x = b +:+ String c y → a = b ∧ x = y.
Proof.
  revert b. induction a as [|p a IH]; intros [|q b] Hx Hy E; simpl in E.
  - by injection E.
  - injection E as -> ->. by apply not_free_of_sep in Hx.
  - injection E as -> <-. by apply not_free_of_sep in Hy.
  - injection E as -> E. by destruct (IH b Hx Hy E) as [-> ->].
Qed.

(** ** Parsing what was printed *)

Lemma digits_value_pretty x s : digits_value 0 (pretty_N_go x s) = digits_value (Z.of_N x) s.
Proof.
  revert s. induction (N.lt_wf_0 x) as [x _ IH]; intros s.
  assert (x = 0 ∨ 0 < x)%N as [->|Hx] by lia; [by rewrite pretty_N_go_0|].
  rewrite pretty_N_go_step by done. rewrite IH by (by apply N.div_lt).
  cbn [digits_value].
  assert (Hc : ∀ m, (m < 10)%N → is_digit (pretty_N_char m) = true ∧
                     digit_value (pretty_N_char m) = Z.of_N m).
  { intros m Hm. assert (m = 0 ∨ m = 1 ∨ m = 2 ∨ m = 3 ∨ m = 4 ∨ m = 5 ∨ m = 6 ∨ m = 7 ∨ m = 8 ∨ m = 9)%N
      as Hd by lia. repeat (destruct Hd as [->|Hd]; [done|]). by subst m. }
  destruct (Hc (x mod 10)%N) as [-> ->]; [by apply N.mod_lt|].
  f_equal. pose proof (N.div_mod x 10 ltac:(done)). lia.
Qed.

Lemma pretty_N_go_nonempty x s : s ≠ "" → pretty_N_go x s ≠ "".
Proof.
  revert s. induction (N.lt_wf_0 x) as [x _ IH]; intros s Hs.
  assert (x = 0 ∨ 0 < x)%N as [->|Hx] by lia; [by rewrite pretty_N_go_0|].
  rewrite pretty_N_go_step by done. apply IH; [by apply N.div_lt|done].
Qed.

Lemma unsigned_value_Itoa n : 0 <= n → unsigned_value (Itoa n) = Some n.
Proof.
  intros Hn. destruct n as [|p|p]; [done| |lia].
  unfold Itoa, pretty, pretty_Z, pretty, pretty_positive, pretty, pretty_N. rewrite decide_False by done.
  assert (Hne : pretty_N_go (Npos p) "" ≠ "").
  { rewrite pretty_N_go_step by done. by apply pretty_N_go_nonempty. }
  unfold unsigned_value. destruct (pretty_N_go (Npos p) "") eqn:E; [done|]. rewrite <- E.
  by rewrite digits_value_pretty.
Qed.

Lemma Itoa_digits n : 0 <= n → all_chars is_digit (Itoa n) = true.
Proof.
  intros Hn. destruct n as [|p|p]; [done| |lia].
  unfold Itoa, pretty, pretty_Z, pretty, pretty_positive, pretty, pretty_N. rewrite decide_False by done.
  apply pretty_N_go_chars; [|done]. intros m Hm. unfold pretty_N_char. by repeat case_match.
Qed.

(** Reading back a printed non-negative integer. *)
Lemma Atoi_Itoa n : 0 <= n < 2 ^ 63 → Atoi (Itoa n) = Some n.
Proof.
  intros Hn. pose proof (unsigned_value_Itoa n ltac:(lia)) as Hu. pose proof (Itoa_digits n ltac:(lia)) as Hd.
  unfold Atoi. destruct (Itoa n) as [|c r] eqn:E; [done|].
  cbn [all_chars] in Hd. apply andb_prop in Hd as [Hc _].
  cbv zeta.
  replace (match String c r with
     | String "-" r => Z.opp <$> unsigned_value r | String "+" r => unsigned_value r
     | _ => unsigned_value (String c r) end) with (unsigned_value (String c r))
    by (by destruct c as [[][][][][][][][]]).
  rewrite Hu. replace ((- 2 ^ 63 <=? n) && (n <? 2 ^ 63)) with true; [done|].
  symmetry. rewrite andb_true_iff, Z.leb_le, Z.ltb_lt. lia.
Qed.
