(* ===== verification/GoHttp.v ===== *)
(** * Go's [net/url] and [net/http] values

    Query strings ([url.Values], [Encode], [ParseQuery]), headers and the
    parts of a request the gateway reads.  [url.Values] is a finite map from
    a name to its values in order; an [http.Header] is the list of its
    entries in the order in which a [range] loop visits them, so that a
    theorem can quantify over that order. *)

From S2P Require Import Prelude GoStrings.

(** ** Percent encoding of a query component *)

Definition hex_digit (n : N) : ascii :=
  if (n <? 10)%N then ascii_of_N (48 + n) else ascii_of_N (55 + n).

Definition unhex (c : ascii) : option N :=
  if is_digit c then Some (code c - 48)%N
  else if ((65 <=? code c) && (code c <=? 70))%N then Some (code c - 55)%N
  else if ((97 <=? code c) && (code c <=? 102))%N then Some (code c - 87)%N
  else None.

Definition unreserved (c : ascii) : bool :=
  is_digit c || is_upper c || is_lower c || Contains "-_.~" (String c EmptyString).

Definition escape_char (c : ascii) : string :=
  if unreserved c then String c EmptyString
  else if byte_is c 32 then "+"
  else String "%" (String (hex_digit (code c / 16)) (String (hex_digit (code c mod 16)) EmptyString)).

Fixpoint QueryEscape (s : string) : string :=
  match s with
  | EmptyString => EmptyString
  | String c r => escape_char c +:+ QueryEscape r
  end.

Fixpoint QueryUnescape (s : string) : option string :=
  match s with
  | EmptyString => Some EmptyString
  | String c r =>
      if byte_is c 37 then
        match r with
        | String a (String b r') =>
            match unhex a, unhex b, QueryUnescape r' with
            | Some x, Some y, Some t => Some (String (ascii_of_N (16 * x + y)) t)
            | _, _, _ => None
            end
        | _ => None
        end
      else
        t ← QueryUnescape r;
        Some (String (if byte_is c 43 then " "%char else c) t)
  end.

(** ** url.Values *)

Notation Values := (gmap string (list string)) (only parsing).

Definition values_of (q : Values) (k : string) : list string := default [] (q !! k).

(** [Values.Get]: the first value, or the empty string. *)
Definition QueryGet (q : Values) (k : string) : string :=
  match values_of q k with v :: _ => v | [] => "" end.

Definition QuerySet (q : Values) (k v : string) : Values := <[k := [v]]> q.

Definition key_le (x y : string * list string) : Prop := String.le x.1 y.1.
#[export] Instance key_le_dec : RelDecision key_le.
Proof. intros x y. unfold key_le. apply _. Defined.

Definition sorted_entries (q : Values) : list (string * list string) :=
  merge_sort key_le (map_to_list q).

Definition encode_entry (e : string * list string) : list string :=
  (λ v, QueryEscape e.1 +:+ "=" +:+ QueryEscape v) <$> e.2.

Definition Encode (q : Values) : string :=
  Join (sorted_entries q ≫= encode_entry) "&".

(** One setting of [ParseQuery]; malformed settings are skipped. *)
Definition parse_setting (m : Values) (s : string) : Values :=
  if Contains s ";" then m
  else if s =s "" then m
  else
    let '(k, v) := match Cut s "=" with Some kv => kv | None => (s, "") end in
    match QueryUnescape k, QueryUnescape v with
    | Some k', Some v' => <[k' := values_of m k' ++ [v']]> m
    | _, _ => m
    end.

Definition ParseQuery (s : string) : Values := foldl parse_setting ∅ (Split s "&").

(** ** http.Header *)

Notation Header := (list (string * list string)) (only parsing).

(** The entry stored under exactly the key [k]. *)
Fixpoint hlookup (h : Header) (k : string) : list string :=
  match h with
  | [] => []
  | (k', vv) :: r => if k =s k' then vv else hlookup r k
  end.

(** [Header.Values] and [Header.Get] canonicalise the name. *)
Definition HValues (h : Header) (k : string) : list string := hlookup h (CanonicalHeaderKey k).
Definition HGet (h : Header) (k : string) : string :=
  match HValues h k with v :: _ => v | [] => "" end.

Definition hdelete (h : Header) (k : string) : Header :=
  filter (λ e, e.1 ≠ k) h.
Definition HDel (h : Header) (k : string) : Header := hdelete h (CanonicalHeaderKey k).
Definition HSet (h : Header) (k v : string) : Header :=
  hdelete h (CanonicalHeaderKey k) ++ [(CanonicalHeaderKey k, [v])].

(** [Header.Add] appends to the values of the canonical key. *)
Fixpoint hadd (h : Header) (k v : string) : Header :=
  match h with
  | [] => [(k, [v])]
  | (k', vv) :: r => if k =s k' then (k', vv ++ [v]) :: r else (k', vv) :: hadd r k v
  end.
Definition HAdd (h : Header) (k v : string) : Header := hadd h (CanonicalHeaderKey k) v.

(** ** http.Request *)

Record Request := mkRequest {
  Method : string;
  Path : string;
  RawQuery : string;
  ReqHeader : list (string * list string);
  ContentLength : Z;
}.

#[global] Instance Request_eq_dec : EqDecision Request.
Proof. solve_decision. Defined.

Definition URLQuery (r : Request) : Values := ParseQuery (RawQuery r).

Example encode_ex : Encode {[ "b" := ["x y"; "&"]; "a" := ["1"] ]} = "a=1&b=x+y&b=%26".
Proof. reflexivity. Qed.
Example parse_ex : ParseQuery "b=x%20y&a=1&b=%26&;bad&c" =
  {[ "b" := ["x y"; "&"]; "a" := ["1"]; "c" := [""] ]}.
Proof. vm_compute. reflexivity. Qed.

(** ** Lemmas: escaping *)

Lemma escape_char_unescape c r :
  QueryUnescape (escape_char c +:+ r) = t ← QueryUnescape r; Some (String c t).
Proof.
  destruct c as [[][][][][][][][]];
    match goal with |- context [escape_char ?c] =>
      let v := eval vm_compute in (escape_char c) in change (escape_char c) with v end;
    cbn; destruct (QueryUnescape r); reflexivity.
Qed.

Lemma QueryUnescape_QueryEscape s : QueryUnescape (QueryEscape s) = Some s.
Proof.
  induction s as [|c s IH]; [done|]. cbn [QueryEscape].
  by rewrite escape_char_unescape, IH.
Qed.

(** No separator of the query syntax appears in an escaped component. *)
Definition sep_free (s : string) : bool :=
  all_chars (λ c, negb (byte_is c 38) && negb (byte_is c 61) && negb (byte_is c 59)) s.

Lemma all_chars_app f a b : all_chars f (a +:+ b) = all_chars f a && all_chars f b.
Proof. induction a as [|c a IH]; simpl; [done|]. by rewrite IH, andb_assoc. Qed.

Lemma sep_free_QueryEscape s : sep_free (QueryEscape s) = true.
Proof.
  unfold sep_free. induction s as [|c s IH]; [done|]. cbn [QueryEscape].
  rewrite all_chars_app, IH, andb_true_r. by destruct c as [[][][][][][][][]].
Qed.

Lemma all_chars_impl (f g : ascii → bool) s :
  (∀ c, f c = true → g c = true) → all_chars f s = true → all_chars g s = true.
Proof.
  intros Hfg. induction s as [|c s IH]; [done|]. simpl.
  rewrite !andb_true_iff. intros [??]. auto.
Qed.

Lemma Cut_free a sep b :
  all_chars (λ c, negb (Ascii.eqb c sep)) a = true →
  Cut (a +:+ String sep b) sep = Some (a, b).
Proof.
  induction a as [|c a IH]; simpl; [by rewrite Ascii.eqb_refl|].
  rewrite andb_true_iff, negb_true_iff. intros [-> Ha]. by rewrite IH.
Qed.

Lemma Cut_none a sep :
  all_chars (λ c, negb (Ascii.eqb c sep)) a = true → Cut a sep = None.
Proof.
  induction a as [|c a IH]; simpl; [done|].
  rewrite andb_true_iff, negb_true_iff. intros [-> Ha]. by rewrite IH.
Qed.

Lemma Split_free a sep :
  all_chars (λ c, negb (Ascii.eqb c sep)) a = true → Split a sep = [a].
Proof.
  induction a as [|c a IH]; simpl; [done|].
  rewrite andb_true_iff, negb_true_iff. intros [-> Ha]. by rewrite IH.
Qed.

Lemma Split_free_app a sep b :
  all_chars (λ c, negb (Ascii.eqb c sep)) a = true →
  Split (a +:+ String sep b) sep = a :: Split b sep.
Proof.
  induction a as [|c a IH]; simpl; [by rewrite Ascii.eqb_refl|].
  rewrite andb_true_iff, negb_true_iff. intros [-> Ha]. by rewrite IH.
Qed.

(** Splitting undoes joining on separator-free pieces. *)
Lemma Split_Join l sep :
  Forall (λ s, all_chars (λ c, negb (Ascii.eqb c sep)) s = true) l → l ≠ [] →
  Split (Join l (String sep EmptyString)) sep = l.
Proof.
  induction 1 as [|s l Hs Hl IH]; [done|]. intros _.
  destruct l as [|s' l]; [by apply Split_free|].
  change (Join (s :: s' :: l) (String sep EmptyString)) with
    (s +:+ String sep (Join (s' :: l) (String sep EmptyString))).
  rewrite Split_free_app by done. by rewrite IH.
Qed.

Lemma Contains_char s c :
  Contains s (String c EmptyString) = negb (all_chars (λ x, negb (Ascii.eqb x c)) s).
Proof.
  induction s as [|x s IH]; [done|]. cbn [Contains all_chars HasPrefix].
  rewrite IH, negb_andb, negb_involutive, andb_true_r. f_equal. apply Ascii.eqb_sym.
Qed.

(** ** Lemmas: a query survives printing and parsing *)

Lemma byte_is_eqb c n : (n < 256)%N → byte_is c n = Ascii.eqb c (ascii_of_N n).
Proof.
  intros Hn. unfold byte_is, code. destruct (Ascii.eqb_spec c (ascii_of_N n)) as [->|Hne].
  - rewrite N_ascii_embedding by done. apply N.eqb_refl.
  - apply N.eqb_neq. intros <-. apply Hne. by rewrite ascii_N_embedding.
Qed.

Lemma escaped_free (sep : ascii) s :
  sep ∈ ["&"%char; "="%char; ";"%char] →
  all_chars (λ c, negb (Ascii.eqb c sep)) (QueryEscape s) = true.
Proof.
  intros Hsep. eapply all_chars_impl, sep_free_QueryEscape.
  intros c. rewrite !andb_true_iff, !negb_true_iff, !byte_is_eqb by done.
  intros [[H1 H2] H3].
  do 3 (apply elem_of_cons in Hsep as [->|Hsep]; [done|]). by apply elem_of_nil in Hsep.
Qed.

Lemma parse_encoded m k v :
  parse_setting m (QueryEscape k +:+ "=" +:+ QueryEscape v) = <[k := values_of m k ++ [v]]> m.
Proof.
  unfold parse_setting.
  rewrite (Contains_char _ ";"), !all_chars_app, !escaped_free by set_solver.
  destruct (String.eqb_spec (QueryEscape k +:+ "=" +:+ QueryEscape v) "") as [E|_].
  { destruct (QueryEscape k); discriminate. }
  change ("=" +:+ QueryEscape v) with (String "=" (QueryEscape v)). cbn [negb andb all_chars].
  rewrite Cut_free by (apply escaped_free; set_solver).
  by rewrite !QueryUnescape_QueryEscape.
Qed.

Lemma values_of_insert q k vs : values_of (<[k := vs]> q) k = vs.
Proof. unfold values_of. by rewrite lookup_insert_eq. Qed.

Lemma parse_entry m k vs :
  foldl parse_setting m (encode_entry (k, vs)) =
  match vs with [] => m | _ => <[k := values_of m k ++ vs]> m end.
Proof.
  unfold encode_entry. cbn [fst snd]. revert m.
  induction vs as [|v vs IH]; intros m; [done|].
  rewrite fmap_cons. cbn [foldl]. rewrite parse_encoded, IH.
  destruct vs as [|v' vs]; [done|].
  rewrite values_of_insert, insert_insert_eq. f_equal. by rewrite <- (assoc_L (++)).
Qed.

Lemma parse_entries (l : list (string * list string)) m :
  NoDup l.*1 → (∀ k, k ∈ l.*1 → m !! k = None) →
  foldl parse_setting m (l ≫= encode_entry) =
  list_to_map (filter (λ e, e.2 ≠ []) l) ∪ m.
Proof.
  revert m. induction l as [|[k vs] l IH]; intros m Hd Hm; csimpl.
  { by rewrite map_empty_union. }
  apply NoDup_cons in Hd as [Hk Hd]. rewrite foldl_app, parse_entry, filter_cons. cbn [snd].
  destruct vs as [|v vs].
  - rewrite decide_False by (intros H; by apply H). apply IH; [done|]. set_solver.
  - rewrite decide_True by done.
    assert (Hmk : m !! k = None) by (apply Hm; set_solver).
    unfold values_of. rewrite Hmk. cbn [default from_option app].
    rewrite IH; [|done|].
    + csimpl. rewrite <- insert_union_l, insert_union_r; [done|].
      apply not_elem_of_list_to_map_1. intros (e & -> & He)%list_elem_of_fmap.
      apply list_elem_of_filter in He as [_ He]. apply Hk. exact (list_elem_of_fmap_2 fst l e He).
    + intros k' Hk'. rewrite lookup_insert_ne by set_solver. apply Hm. set_solver.
Qed.

(** The values an encoded query carries are those of the original. *)
Lemma ParseQuery_Encode (q : Values) k :
  values_of (ParseQuery (Encode q)) k = values_of q k.
Proof.
  unfold ParseQuery, Encode.
  assert (Hp : sorted_entries q ≡ₚ map_to_list q) by apply merge_sort_Permutation.
  assert (Hd : NoDup (sorted_entries q).*1) by (rewrite Hp; apply NoDup_fst_map_to_list).
  assert (Hf : foldl parse_setting ∅ (Split (Join (sorted_entries q ≫= encode_entry) "&") "&") =
               foldl parse_setting ∅ (sorted_entries q ≫= encode_entry)).
  { destruct (sorted_entries q ≫= encode_entry) as [|s l] eqn:E; [done|].
    rewrite Split_Join; [done| |done]. rewrite <- E. apply Forall_forall. intros x Hx.
    apply list_elem_of_bind in Hx as ([k' vs] & Hx & _). unfold encode_entry in Hx.
    apply list_elem_of_fmap in Hx as (v & -> & _). cbn [fst].
    rewrite !all_chars_app, !escaped_free by set_solver. done. }
  rewrite Hf, parse_entries by set_solver. rewrite map_union_empty.
  unfold values_of.
  assert (Hl : (list_to_map (sorted_entries q) : Values) = q).
  { rewrite (list_to_map_proper _ _ Hd Hp). apply list_to_map_to_list. }
  destruct (q !! k) as [vs|] eqn:Hq.
  - destruct (decide (vs = [])) as [->|Hne].
    + destruct (list_to_map _ !! k) as [ws|] eqn:E; [|done].
      apply elem_of_list_to_map_2, list_elem_of_filter in E as [Hw E].
      rewrite Hp, elem_of_map_to_list in E. by simplify_eq.
    + erewrite elem_of_list_to_map_1'; [done| |].
      * intros y. rewrite list_elem_of_filter, Hp, elem_of_map_to_list. intros [_ ?]. congruence.
      * apply list_elem_of_filter. split; [done|]. by rewrite Hp, elem_of_map_to_list.
  - rewrite not_elem_of_list_to_map_1; [done|].
    intros (e & -> & He)%list_elem_of_fmap. apply list_elem_of_filter in He as [_ He].
    destruct e as [k vs]. rewrite Hp, elem_of_map_to_list in He. by simplify_eq/=.
Qed.

(** Two queries with the same canonical encoding carry the same values. *)
Lemma Encode_inj q q' k : Encode q = Encode q' → values_of q k = values_of q' k.
Proof. intros E. by rewrite <- (ParseQuery_Encode q), E, ParseQuery_Encode. Qed.
