(* ===== verification/GoMime.v ===== *)
(** * Go's [mime.ParseMediaType]

    The media type of a Content-Type value, or nothing when the value is
    malformed.  Parameters are parsed for their errors only: the callers of
    this development use the type and whether there was an error. *)

From S2P Require Import Prelude GoStrings.

(** RFC 1521 special characters and token characters. *)
Definition quote_char : ascii := ascii_of_N 34.
Definition backslash : ascii := ascii_of_N 92.
Definition tspecials : string := "()<>@,;:/[]?=" +:+ String backslash (String quote_char "").
Definition isTSpecial (c : ascii) : bool := match Index tspecials (String c "") with Some _ => true | None => false end.
Definition isTokenChar (c : ascii) : bool := ((32 <? code c) && (code c <? 127))%N && negb (isTSpecial c).

Fixpoint consumeToken (v : string) : string * string :=
  match v with
  | EmptyString => ("", "")
  | String c r => if isTokenChar c then let '(t, rest) := consumeToken r in (String c t, rest) else ("", v)
  end.

(** The inside of a quoted string: [None] when it does not end. *)
Fixpoint consumeQuoted (v : string) : option (string * string) :=
  match v with
  | EmptyString => None
  | String c r =>
      if Ascii.eqb c quote_char then Some ("", r)
      else
        let plain :=
          if byte_is c 13 || byte_is c 10 then None
          else match consumeQuoted r with Some (b, rest) => Some (String c b, rest) | None => None end in
        match r with
        | String d r' =>
            if Ascii.eqb c backslash && isTSpecial d
            then match consumeQuoted r' with Some (b, rest) => Some (String d b, rest) | None => None end
            else plain
        | EmptyString => plain
        end
  end.

Definition consumeValue (v : string) : string * string :=
  match v with
  | EmptyString => ("", "")
  | String c r =>
      if Ascii.eqb c quote_char then match consumeQuoted r with Some x => x | None => ("", v) end
      else consumeToken v
  end.

Definition CutPrefix (s p : string) : option string :=
  if HasPrefix s p then Some (sdrop (String.length p) s) else None.

(** [consumeMediaParam]: the name, the value and the rest; [None] when the
    text does not start with a parameter. *)
Definition consumeMediaParam (v : string) : option (string * string * string) :=
  match CutPrefix (trim_left v) ";" with
  | None => None
  | Some rest =>
      let '(param, rest) := consumeToken (trim_left rest) in
      let param := ToLower param in
      if param =s "" then None
      else match CutPrefix (trim_left rest) "=" with
           | None => None
           | Some rest =>
               let rest := trim_left rest in
               let '(value, rest2) := consumeValue rest in
               if (value =s "") && (rest2 =s rest) then None else Some (param, value, rest2)
           end
  end.

(** [checkMediaTypeDisposition]: whether it reports no error. *)
Definition checkMediaTypeDisposition (s : string) : bool :=
  let '(typ, rest) := consumeToken s in
  if typ =s "" then false
  else match rest with
       | EmptyString => true
       | String c r =>
           if negb (Ascii.eqb c "/") then false
           else let '(subtype, rest) := consumeToken r in negb (subtype =s "") && (rest =s "")
       end.

(** The loop over the parameters; each pass consumes at least the semicolon,
    so the length of the text is fuel enough. *)
Fixpoint params_ok (fuel : nat) (seen : list (string * string)) (v : string) : bool :=
  match fuel with
  | O => true
  | S f =>
      let v := trim_left v in
      if v =s "" then true
      else match consumeMediaParam v with
           | None => TrimSpace v =s ";"
           | Some (key, value, rest) =>
               if existsb (λ kv, (kv.1 =s key) && negb (kv.2 =s value)) seen then false
               else params_ok f ((key, value) :: seen) rest
           end
  end.

Definition ParseMediaType (v : string) : option string :=
  let base := match Cut v ";" with Some (b, _) => b | None => v end in
  let mediatype := TrimSpace (ToLower base) in
  if negb (checkMediaTypeDisposition mediatype) then None
  else
    let v := sdrop (String.length base) v in
    if params_ok (String.length v) [] v then Some mediatype else None.

Example media_ex :
  (ParseMediaType "Image/JPEG; q=1", ParseMediaType "image/png;", ParseMediaType ("text/html; charset=" +:+ String quote_char ("a;b" +:+ String quote_char "")),
   ParseMediaType "image/", ParseMediaType "image/png; q=1; q=2", ParseMediaType "", ParseMediaType "image/png; =") =
  (Some "image/jpeg", Some "image/png", Some "text/html", None, None, None, None).
Proof. vm_compute. reflexivity. Qed.
