(* ===== verification/GoBase64.v ===== *)
(** * encoding/base64

    [RawStdEncoding] and [RawURLEncoding] of the standard library, and decoding
    of their padded variants.  Decoding
    skips line breaks, ignores the unused bits of the last character and
    rejects a rest of one character.  [DecodeString_EncodeToString] is the
    round trip the clients of this file rely on. *)

From S2P Require Import Prelude GoStrings GoHttp.

Definition common_alphabet : string := "ABCDEFGHIJKLMNOPQRSTUVWXYZabcdefghijklmnopqrstuvwxyz0123456789".
Definition std_alphabet : string := common_alphabet +:+ "+/".
Definition url_alphabet : string := common_alphabet +:+ "-_".

Section base64.
Context (alphabet : string).

Definition sextet (n : N) : ascii := default zero (String.get (N.to_nat n) alphabet).
Definition sextet_value (c : ascii) : option N := N.of_nat <$> Index alphabet (String c "").

Fixpoint EncodeToString64 (s : string) : string :=
  match s with
  | "" => ""
  | String a "" => String (sextet (code a / 4)) (String (sextet (code a mod 4 * 16)) "")
  | String a (String b "") =>
      String (sextet (code a / 4)) (String (sextet (code a mod 4 * 16 + code b / 16))
        (String (sextet (code b mod 16 * 4)) ""))
  | String a (String b (String c r)) =>
      String (sextet (code a / 4)) (String (sextet (code a mod 4 * 16 + code b / 16))
        (String (sextet (code b mod 16 * 4 + code c / 64)) (String (sextet (code c mod 64))
          (EncodeToString64 r))))
  end.

Definition byte1 (v1 v2 : N) : ascii := ascii_of_N (v1 * 4 + v2 / 16).
Definition byte2 (v2 v3 : N) : ascii := ascii_of_N (v2 mod 16 * 16 + v3 / 4).
Definition byte3 (v3 v4 : N) : ascii := ascii_of_N (v3 mod 4 * 64 + v4).

Fixpoint decode_quanta (s : string) : option string :=
  match s with
  | "" => Some ""
  | String _ "" => None
  | String c1 (String c2 "") =>
      v1 ← sextet_value c1; v2 ← sextet_value c2; Some (String (byte1 v1 v2) "")
  | String c1 (String c2 (String c3 "")) =>
      v1 ← sextet_value c1; v2 ← sextet_value c2; v3 ← sextet_value c3;
      Some (String (byte1 v1 v2) (String (byte2 v2 v3) ""))
  | String c1 (String c2 (String c3 (String c4 r))) =>
      v1 ← sextet_value c1; v2 ← sextet_value c2; v3 ← sextet_value c3; v4 ← sextet_value c4;
      t ← decode_quanta r;
      Some (String (byte1 v1 v2) (String (byte2 v2 v3) (String (byte3 v3 v4) t)))
  end.

Fixpoint skip_breaks (s : string) : string :=
  match s with
  | "" => ""
  | String c r => if byte_is c 10 || byte_is c 13 then skip_breaks r else String c (skip_breaks r)
  end.

Definition DecodeString64 (s : string) : option string := decode_quanta (skip_breaks s).

Fixpoint EncodePadded64 (s : string) : string :=
  match s with
  | "" => ""
  | String a "" => String (sextet (code a / 4)) (String (sextet (code a mod 4 * 16)) "==")
  | String a (String b "") =>
      String (sextet (code a / 4)) (String (sextet (code a mod 4 * 16 + code b / 16))
        (String (sextet (code b mod 16 * 4)) "="))
  | String a (String b (String c r)) =>
      String (sextet (code a / 4)) (String (sextet (code a mod 4 * 16 + code b / 16))
        (String (sextet (code b mod 16 * 4 + code c / 64)) (String (sextet (code c mod 64))
          (EncodePadded64 r))))
  end.

(** With padding ([StdEncoding], [URLEncoding]): whole quanta, the last one
    padded with one or two equal signs. *)
Fixpoint decode_padded (s : string) : option string :=
  match s with
  | "" => Some ""
  | String c1 (String c2 (String c3 (String c4 r))) =>
      v1 ← sextet_value c1; v2 ← sextet_value c2;
      if Ascii.eqb c3 "=" then if Ascii.eqb c4 "=" && (r =s "") then Some (String (byte1 v1 v2) "") else None
      else
        v3 ← sextet_value c3;
        if Ascii.eqb c4 "=" then if r =s "" then Some (String (byte1 v1 v2) (String (byte2 v2 v3) "")) else None
        else
          v4 ← sextet_value c4; t ← decode_padded r;
          Some (String (byte1 v1 v2) (String (byte2 v2 v3) (String (byte3 v3 v4) t)))
  | _ => None
  end.
Definition DecodePadded64 (s : string) : option string := decode_padded (skip_breaks s).

(** ** The round trip *)

(** What the proof uses of an alphabet: sixty-four different characters,
    none of them a line break. *)
Definition alphabet_ok : bool :=
  forallb (λ n, bool_decide (sextet_value (sextet n) = Some n) &&
                negb (byte_is (sextet n) 10) && negb (byte_is (sextet n) 13) && negb (Ascii.eqb (sextet n) "="))
    (N.of_nat <$> seq 0 64).

Context (Halphabet : alphabet_ok = true).

Lemma sextet_ok n :
  (n < 64)%N →
  sextet_value (sextet n) = Some n ∧ byte_is (sextet n) 10 || byte_is (sextet n) 13 = false ∧ Ascii.eqb (sextet n) "=" = false.
Proof.
  intros Hn. pose proof (proj1 (forallb_forall _ _) Halphabet n) as H. cbn beta in H.
  assert (Hin : In n (N.of_nat <$> seq 0 64)).
  { apply list_elem_of_In, list_elem_of_fmap. exists (N.to_nat n). split; [lia|]. apply elem_of_seq. lia. }
  specialize (H Hin). apply andb_prop in H as [[[H1%bool_decide_eq_true H2]%andb_prop H3]%andb_prop H4].
  apply negb_true_iff in H2, H3, H4. by rewrite H2, H3.
Qed.

Lemma code_lt c : (code c < 256)%N.
Proof. apply N_ascii_bounded. Qed.

Lemma decode_sextet {B} n (f : N → option B) : (n < 64)%N → (sextet_value (sextet n) ≫= f) = f n.
Proof. intros Hn. by rewrite (proj1 (sextet_ok n Hn)). Qed.

Lemma skip_sextet n r : (n < 64)%N → skip_breaks (String (sextet n) r) = String (sextet n) (skip_breaks r).
Proof. intros Hn. cbn [skip_breaks]. by rewrite (proj1 (proj2 (sextet_ok n Hn))). Qed.

Lemma sextet_pad n : (n < 64)%N → Ascii.eqb (sextet n) "=" = false.
Proof. intros Hn. exact (proj2 (proj2 (sextet_ok n Hn))). Qed.

Lemma byte_of c n : n = code c → ascii_of_N n = c.
Proof. intros ->. apply ascii_N_embedding. Qed.

(** Quotients and remainders of bytes. *)
#[local] Ltac bytes := zify; Z.to_euclidean_division_equations; lia.
#[local] Ltac sextets := rewrite ?skip_sextet, ?decode_sextet by bytes.

Lemma DecodeString64_EncodeToString64 s : DecodeString64 (EncodeToString64 s) = Some s.
Proof.
  unfold DecodeString64.
  induction s as [[|a [|b [|c r]]] IH] using (induction_ltof1 _ String.length). all: unfold ltof in IH.
  - done.
  - pose proof (code_lt a). cbn [EncodeToString64]. sextets. cbn [skip_breaks decode_quanta]. sextets.
    unfold byte1. rewrite (byte_of a) by bytes. done.
  - pose proof (code_lt a). pose proof (code_lt b). cbn [EncodeToString64]. sextets.
    cbn [skip_breaks decode_quanta]. sextets. unfold byte1, byte2.
    rewrite (byte_of a), (byte_of b) by bytes. done.
  - pose proof (code_lt a). pose proof (code_lt b). pose proof (code_lt c). cbn [EncodeToString64]. sextets.
    cbn [decode_quanta]. sextets. rewrite IH by (cbn; lia). cbn [mbind option_bind]. unfold byte1, byte2, byte3.
    rewrite (byte_of a), (byte_of b), (byte_of c) by bytes. done.
Qed.

Lemma DecodePadded64_EncodePadded64 s : DecodePadded64 (EncodePadded64 s) = Some s.
Proof.
  unfold DecodePadded64.
  induction s as [[|a [|b [|c r]]] IH] using (induction_ltof1 _ String.length). all: unfold ltof in IH.
  - done.
  - pose proof (code_lt a). cbn [EncodePadded64]. sextets. change (skip_breaks "==") with "==". cbn [decode_padded]. sextets.
    unfold byte1. cbn [Ascii.eqb Bool.eqb]. rewrite (byte_of a) by bytes. done.
  - pose proof (code_lt a). pose proof (code_lt b). cbn [EncodePadded64]. sextets. change (skip_breaks "=") with "=".
    cbn [decode_padded]. sextets. rewrite sextet_pad by bytes. sextets. unfold byte1, byte2.
    rewrite (byte_of a), (byte_of b) by bytes. done.
  - pose proof (code_lt a). pose proof (code_lt b). pose proof (code_lt c). cbn [EncodePadded64]. sextets.
    cbn [decode_padded]. sextets. rewrite !sextet_pad by bytes. sextets.
    rewrite IH by (cbn; lia). cbn [mbind option_bind]. unfold byte1, byte2, byte3.
    rewrite (byte_of a), (byte_of b), (byte_of c) by bytes. done.
Qed.

(** The encoding consists of characters of the alphabet. *)
Lemma EncodeToString64_chars (f : ascii → bool) s :
  (∀ n, (n < 64)%N → f (sextet n) = true) → all_chars f (EncodeToString64 s) = true.
Proof.
  intros Hf. induction s as [[|a [|b [|c r]]] IH] using (induction_ltof1 _ String.length); unfold ltof in IH;
    cbn [EncodeToString64 all_chars]; [done|..];
    repeat match goal with |- context [code ?x] => pose proof (code_lt x); generalize dependent (code x) end; intros;
    rewrite !Hf by bytes; cbn; [done..|]. apply IH. cbn. lia.
Qed.

End base64.

Lemma std_alphabet_ok : alphabet_ok std_alphabet = true.
Proof. vm_compute. reflexivity. Qed.
Lemma url_alphabet_ok : alphabet_ok url_alphabet = true.
Proof. vm_compute. reflexivity. Qed.
