(* ===== verification/GoNet.v ===== *)
(** * Addresses: net/netip and net

    [netip.ParseAddr] with the classes of addresses the sources test, and
    [net.ParseIP], [net.SplitHostPort].  An address is the value of its bits;
    an IPv6 address has an optional zone. *)

From S2P Require Import Prelude GoStrings GoHttp.

Inductive addr := V4 (bits : Z) | V6 (bits : Z) (zone : string).

#[export] Instance addr_eq_dec : EqDecision addr.
Proof. solve_decision. Defined.

(** ** Parsing *)

(** One field of a dotted address: digits without a leading zero, at most
    255. *)
Definition parse_octet (s : string) : option Z :=
  match s with
  | String "0" (String _ _) => None
  | _ => n ← unsigned_value s; if n <=? 255 then Some n else None
  end.

Definition parseIPv4Fields (s : string) : option Z :=
  match Split s "." with
  | [a; b; c; d] =>
      a ← parse_octet a; b ← parse_octet b; c ← parse_octet c; d ← parse_octet d;
      Some (((a * 256 + b) * 256 + c) * 256 + d)
  | _ => None
  end.

(** The hexadecimal digits a group starts with, and what follows them. *)
Fixpoint hex_group (n : nat) (acc : Z) (s : string) : nat * Z * string :=
  match s with
  | String c r => match unhex c with
                  | Some v => hex_group (S n) (acc * 16 + Z.of_N v) r
                  | None => (n, acc, s)
                  end
  | "" => (n, acc, s)
  end.

(** The loop of [parseIPv6]: [groups] are the groups read so far, [gap] how
    many of them precede the ellipsis.  A turn reads one group, so eight
    turns fill the address. *)
Fixpoint v6_loop (fuel : nat) (groups : list Z) (gap : option nat) (s : string) : option (list Z * option nat) :=
  match fuel with
  | O => if s =s "" then Some (groups, gap) else None
  | S f =>
      let '(n, acc, rest) := hex_group 0 0 s in
      if (n =? 0)%nat || (4 <? n)%nat then None
      else
        match rest with
        | String "." _ =>
            if (match gap with None => negb (length groups =? 6)%nat | Some _ => false end) || (6 <? length groups)%nat
            then None
            else v ← parseIPv4Fields s; Some (groups ++ [v / 65536; v mod 65536], gap)
        | "" => Some (groups ++ [acc], gap)
        | String ":" (String ":" rest') =>
            match gap with
            | Some _ => None
            | None => if rest' =s "" then Some (groups ++ [acc], Some (S (length groups)))
                      else v6_loop f (groups ++ [acc]) (Some (S (length groups))) rest'
            end
        | String ":" (String _ _ as rest') => v6_loop f (groups ++ [acc]) gap rest'
        | _ => None
        end
  end.

(** Eight groups, the ellipsis filled with zeros. *)
Definition v6_fill (groups : list Z) (gap : option nat) : option (list Z) :=
  if (length groups =? 8)%nat then match gap with None => Some groups | Some _ => None end
  else match gap with
       | None => None
       | Some k => Some (take k groups ++ replicate (8 - length groups) 0 ++ drop k groups)
       end.
Definition v6_value (groups : list Z) : Z := foldl (λ acc g, acc * 65536 + g) 0 groups.

Definition parseIPv6 (s : string) : option addr :=
  let '(s, zone, bad) := match Cut s "%" with Some (a, z) => (a, z, z =s "") | None => (s, "", false) end in
  if bad then None
  else
    let done_ l := g ← (let '(groups, gap) := l in v6_fill groups gap); Some (V6 (v6_value g) zone) in
    match s with
    | String ":" (String ":" "") => Some (V6 0 zone)
    | String ":" (String ":" r) => l ← v6_loop 8 [] (Some 0%nat) r; done_ l
    | _ => l ← v6_loop 8 [] None s; done_ l
    end.

(** [netip.ParseAddr]: the first dot, colon or percent sign decides. *)
Fixpoint first_mark (s : string) : option ascii :=
  match s with
  | "" => None
  | String c r => if byte_is c 46 || byte_is c 58 || byte_is c 37 then Some c else first_mark r
  end.
Definition ParseAddr (s : string) : option addr :=
  match first_mark s with
  | Some "."%char => V4 <$> parseIPv4Fields s
  | Some ":"%char => parseIPv6 s
  | _ => None
  end.

(** ** Classes of addresses *)

Definition Zone (a : addr) : string := match a with V4 _ => "" | V6 _ z => z end.

(** An IPv4 address in the notation of IPv6 counts as the IPv4 address. *)
Definition mapped_prefix : Z := 65535.
Definition Unmap (a : addr) : addr :=
  match a with V6 b _ => if b / 2 ^ 32 =? mapped_prefix then V4 (b mod 2 ^ 32) else a | V4 _ => a end.

(** The leading [n] bits of an address of [w] bits are those of [p]. *)
Definition in_prefix (w n p b : Z) : bool := b / 2 ^ (w - n) =? p / 2 ^ (w - n).
Definition ip4 (a b c d : Z) : Z := ((a * 256 + b) * 256 + c) * 256 + d.

Definition IsLoopback (a : addr) : bool :=
  match Unmap a with V4 b => in_prefix 32 8 (ip4 127 0 0 0) b | V6 b _ => b =? 1 end.
Definition IsPrivate (a : addr) : bool :=
  match Unmap a with
  | V4 b => in_prefix 32 8 (ip4 10 0 0 0) b || in_prefix 32 12 (ip4 172 16 0 0) b || in_prefix 32 16 (ip4 192 168 0 0) b
  | V6 b _ => b / 2 ^ 121 =? 126
  end.
Definition IsLinkLocalUnicast (a : addr) : bool :=
  match Unmap a with V4 b => in_prefix 32 16 (ip4 169 254 0 0) b | V6 b _ => b / 2 ^ 118 =? 1018 end.
Definition IsMulticast (a : addr) : bool :=
  match Unmap a with V4 b => b / 2 ^ 28 =? 14 | V6 b _ => b / 2 ^ 120 =? 255 end.
(** [netip] does not unmap here; [net.IP] does. *)
Definition IsUnspecified (a : addr) : bool := match a with V4 b => b =? 0 | V6 b z => (b =? 0) && (z =s "") end.

(** [netip.Prefix.Contains] for an IPv4 prefix: never an IPv6 address. *)
Definition prefix4_contains (n p : Z) (a : addr) : bool := match a with V4 b => in_prefix 32 n p b | V6 _ _ => false end.

(** [net.ParseIP] keeps an address without a zone; [net.IP] treats IPv4 and
    its IPv6 notation alike. *)
Definition ParseIP (s : string) : option addr :=
  a ← ParseAddr s; if Zone a =s "" then Some (Unmap a) else None.
Definition IsGlobalUnicast (a : addr) : bool :=
  negb (bool_decide (Unmap a = V4 (2 ^ 32 - 1))) && negb (IsUnspecified (Unmap a)) && negb (IsLoopback a) &&
  negb (IsMulticast a) && negb (IsLinkLocalUnicast a).

(** ** net.SplitHostPort *)

Fixpoint LastIndexByte (s : string) (c : ascii) : option nat :=
  match s with
  | "" => None
  | String x r => match LastIndexByte r c with
                  | Some n => Some (S n)
                  | None => if Ascii.eqb x c then Some O else None
                  end
  end.

Definition SplitHostPort (hostport : string) : option (string * string) :=
  i ← LastIndexByte hostport ":";
  let port := sdrop (S i) hostport in
  '(host, j, k) ←
    match hostport with
    | String "[" _ =>
        e ← Index hostport "]";
        if (S e =? i)%nat then Some (stake (e - 1) (sdrop 1 hostport), 1%nat, S e) else None
    | _ => let host := stake i hostport in if Contains host ":" then None else Some (host, 0%nat, 0%nat)
    end;
  if Contains (sdrop j hostport) "[" || Contains (sdrop k hostport) "]" then None else Some (host, port).

Example parse_addresses :
  ParseAddr <$> ["10.0.0.1"; "1.2.3"; "1.2.3.04"; "::1"; "fe80::1%en0"; "1:2:3:4:5:6:7:8"; "1:2:3:4:5:6:7:8:9"; "::ffff:1.2.3.4";
                 "1::2::3"; "::"; "1:2:3:4:5:6:7::"; "12345::"; "host"; "1:"; "1:2:3:4:5:6:1.2.3.4"; "1:2:3:4:5:6:7:1.2.3.4"] =
  [Some (V4 (ip4 10 0 0 1)); None; None; Some (V6 1 ""); Some (V6 (65152 * 2 ^ 112 + 1) "en0");
   Some (V6 (v6_value [1; 2; 3; 4; 5; 6; 7; 8]) ""); None; Some (V6 (65535 * 2 ^ 32 + ip4 1 2 3 4) ""); None; Some (V6 0 "");
   Some (V6 (v6_value [1; 2; 3; 4; 5; 6; 7; 0]) ""); None; None; None; Some (V6 (v6_value [1; 2; 3; 4; 5; 6; 258; 772]) ""); None].
Proof. vm_compute. reflexivity. Qed.

Example split_host_ports :
  SplitHostPort <$> ["10.0.0.1:80"; "[::1]:80"; "::1"; "host"; "[::1]"; "[::1]80:"; "a:b:c"; ":80"; "h:"; "[a]b:80"; "a]:1"] =
  [Some ("10.0.0.1", "80"); Some ("::1", "80"); None; None; None; None; None; Some ("", "80"); Some ("h", ""); None; None].
Proof. vm_compute. reflexivity. Qed.

(** ** Printing *)

Definition string4 (b : Z) : string :=
  Itoa (b / 2 ^ 24) +:+ "." +:+ Itoa (b / 2 ^ 16 mod 256) +:+ "." +:+ Itoa (b / 2 ^ 8 mod 256) +:+ "." +:+ Itoa (b mod 256).

Definition groups (b : Z) : list Z := (λ i, b / 2 ^ (16 * (7 - Z.of_nat i)) mod 65536) <$> seq 0 8.
Fixpoint leading_zeros (l : list Z) : nat :=
  match l with x :: r => if x =? 0 then S (leading_zeros r) else O | [] => O end.
(** The first longest run of at least two zero groups: start and length. *)
Definition better_run (l : list Z) (best : nat * nat) (i : nat) : nat * nat :=
  let n := leading_zeros (drop i l) in if (2 <=? n)%nat && (best.2 <? n)%nat then (i, n) else best.
Definition zero_run (l : list Z) : nat * nat := foldl (better_run l) (O, O) (seq 0 8).

Definition hex_nibble (n : Z) : ascii := if n <? 10 then ascii_of_N (48 + Z.to_N n) else ascii_of_N (87 + Z.to_N n).
Definition group_string (g : Z) : string :=
  let d := hex_nibble (g mod 16) in
  if g <? 16 then String d ""
  else if g <? 256 then String (hex_nibble (g / 16)) (String d "")
  else if g <? 4096 then String (hex_nibble (g / 256)) (String (hex_nibble (g / 16 mod 16)) (String d ""))
  else String (hex_nibble (g / 4096)) (String (hex_nibble (g / 256 mod 16)) (String (hex_nibble (g / 16 mod 16)) (String d ""))).
Definition string6 (b : Z) : string :=
  let l := groups b in
  let '(i, n) := zero_run l in
  if (n =? 0)%nat then Join (group_string <$> l) ":"
  else Join (group_string <$> take i l) ":" +:+ "::" +:+ Join (group_string <$> drop (i + n) l) ":".

(** [netip.Addr.String] *)
Definition AddrString (a : addr) : string :=
  match a with
  | V4 b => string4 b
  | V6 b z => (match Unmap a with V4 c => "::ffff:" +:+ string4 c | V6 _ _ => string6 b end) +:+ (if z =s "" then "" else "%" +:+ z)
  end.

Example addresses_printed :
  (λ s, AddrString <$> ParseAddr s) <$> ["10.0.0.1"; "0:0:1:0:0:0:2:3"; "::"; "::1"; "2001:DB8::"; "fe80::1%en0"; "1:0:0:2:0:0:3:4"; "::ffff:1.2.3.4"; "1:2:3:4:5:6:7:0"] =
  Some <$> ["10.0.0.1"; "0:0:1::2:3"; "::"; "::1"; "2001:db8::"; "fe80::1%en0"; "1::2:0:0:3:4"; "::ffff:1.2.3.4"; "1:2:3:4:5:6:7:0"].
Proof. vm_compute. reflexivity. Qed.

(** A private address is global unicast in the sense of [net.IP]. *)
Example private_is_global_unicast : IsGlobalUnicast (V4 (ip4 172 17 0 7)) = true ∧ IsPrivate (V4 (ip4 172 17 0 7)) = true.
Proof. vm_compute. done. Qed.
