(* ===== verification/GoUrl.v ===== *)
(** * net/url: parsing, printing and resolving URLs

    [url.Parse], [URL.String], [URL.ResolveReference] and what they call, as
    of Go 1.25.0, the version go.mod names. *)

From S2P Require Import Prelude GoStrings GoHttp GoNet.

(** ** Percent encoding by component *)

Inductive encoding := encodePath | encodePathSegment | encodeHost | encodeZone | encodeUserPassword | encodeFragment.

#[export] Instance encoding_eq_dec : EqDecision encoding.
Proof. solve_decision. Defined.

Definition alphanumeric (c : ascii) : bool := is_lower c || is_upper c || is_digit c.
Definition among (chars : string) (c : ascii) : bool := Contains chars (String c "").

Definition shouldEscape (c : ascii) (mode : encoding) : bool :=
  if alphanumeric c then false
  else if bool_decide (mode = encodeHost ∨ mode = encodeZone) && (among "!$&'()*+,;=:[]<>" c || byte_is c 34) then false
  else if among "-_.~" c then false
  else if among "$&+,/:;=?@" c then
    match mode with
    | encodePath => byte_is c 63
    | encodePathSegment => among "/;,?" c
    | encodeUserPassword => among "@/?:" c
    | encodeFragment => false
    | encodeHost | encodeZone => true
    end
  else if bool_decide (mode = encodeFragment) && among "!()*" c then false
  else true.

Definition percent (c : ascii) : string :=
  String "%" (String (hex_digit (code c / 16)) (String (hex_digit (code c mod 16)) "")).
Fixpoint escape (s : string) (mode : encoding) : string :=
  match s with
  | "" => ""
  | String c r => (if shouldEscape c mode then percent c else String c "") +:+ escape r mode
  end.

(** [unescape] in the modes other than a query component. *)
Fixpoint unescape (s : string) (mode : encoding) : option string :=
  match s with
  | "" => Some ""
  | String c r =>
      if byte_is c 37 then
        match r with
        | String a (String b r') =>
            match unhex a, unhex b with
            | Some x, Some y =>
                let v := ascii_of_N (16 * x + y) in
                let is25 := byte_is a 50 && byte_is b 53 in
                if bool_decide (mode = encodeHost) && (x <? 8)%N && negb is25 then None
                else if bool_decide (mode = encodeZone) && negb is25 && negb (byte_is v 32) && shouldEscape v encodeHost then None
                else t ← unescape r' mode; Some (String v t)
            | _, _ => None
            end
        | _ => None
        end
      else if bool_decide (mode = encodeHost ∨ mode = encodeZone) && (code c <? 128)%N && shouldEscape c mode then None
      else t ← unescape r mode; Some (String c t)
  end.

(** ** URLs *)

(** The user information of an authority. *)
Record Userinfo := mkUser { username : string; password : option string }.

Record URL := mkURL {
  Scheme : string; Opaque_ : string; User : option Userinfo; Host : string; UPath : string; RawPath : string;
  OmitHost : bool; ForceQuery : bool; URawQuery : string; Fragment : string; RawFragment : string;
}.

Definition set_path (u : URL) (p raw : string) : URL :=
  mkURL (Scheme u) (Opaque_ u) (User u) (Host u) p raw (OmitHost u) (ForceQuery u) (URawQuery u) (Fragment u) (RawFragment u).
Definition with_query (u : URL) (q : string) : URL :=
  mkURL (Scheme u) (Opaque_ u) (User u) (Host u) (UPath u) (RawPath u) (OmitHost u) (ForceQuery u) q (Fragment u) (RawFragment u).

(** *** Parsing *)

Fixpoint getScheme_go (first : bool) (s : string) : option (option (string * string)) :=
  match s with
  | "" => Some None
  | String c r =>
      if is_lower c || is_upper c then
        match getScheme_go false r with
        | Some (Some (a, b)) => Some (Some (String c a, b))
        | x => x
        end
      else if is_digit c || among "+-." c then
        if first then Some None
        else match getScheme_go false r with Some (Some (a, b)) => Some (Some (String c a, b)) | x => x end
      else if byte_is c 58 then if first then None else Some (Some ("", r))
      else Some None
  end.
(** The scheme and the rest; [None] is the error of a missing scheme. *)
Definition getScheme (raw : string) : option (string * string) :=
  match getScheme_go true raw with
  | None => None
  | Some None => Some ("", raw)
  | Some (Some p) => Some p
  end.

Definition validOptionalPort (port : string) : bool :=
  match port with
  | "" => true
  | String ":" r => all_chars is_digit r
  | _ => false
  end.

Definition LastIndex (s : string) (c : ascii) : option nat := LastIndexByte s c.

Definition parseHost (host : string) : option string :=
  if HasPrefix host "[" then
    i ← LastIndex host "]";
    if negb (validOptionalPort (sdrop (S i) host)) then None
    else match Index (stake i host) "%25" with
         | Some z =>
             h1 ← unescape (stake z host) encodeHost;
             h2 ← unescape (stake (i - z) (sdrop z host)) encodeZone;
             h3 ← unescape (sdrop i host) encodeHost;
             Some (h1 +:+ h2 +:+ h3)
         | None => unescape host encodeHost
         end
  else match LastIndex host ":" with
       | Some i => if validOptionalPort (sdrop i host) then unescape host encodeHost else None
       | None => unescape host encodeHost
       end.

Definition validUserinfo (s : string) : bool := all_chars (λ c, alphanumeric c || among "-._:~!$&'()*+,;=%@" c) s.

Definition parseAuthority (authority : string) : option (option Userinfo * string) :=
  match LastIndex authority "@" with
  | None => h ← parseHost authority; Some (None, h)
  | Some i =>
      h ← parseHost (sdrop (S i) authority);
      let info := stake i authority in
      if negb (validUserinfo info) then None
      else match Cut info ":" with
           | None => n ← unescape info encodeUserPassword; Some (Some (mkUser n None), h)
           | Some (n, p) =>
               n ← unescape n encodeUserPassword; p ← unescape p encodeUserPassword;
               Some (Some (mkUser n (Some p)), h)
           end
  end.

Definition setPath (u : URL) (p : string) : option URL :=
  path ← unescape p encodePath;
  Some (set_path u path (if p =s escape path encodePath then "" else p)).

Definition before (s : string) (sep : ascii) : string := match Cut s sep with Some (a, _) => a | None => s end.
Definition control_byte (c : ascii) : bool := (code c <? 32)%N || byte_is c 127.
(** [strings.Count(s, "?") == 1] for a string that ends in a question mark. *)
Definition lone_query (rest : string) : bool :=
  HasSuffix rest "?" && match Cut rest "?" with Some (_, b) => b =s "" | None => false end.

Definition parse_rest (scheme rest0 : string) : option URL :=
  let force := lone_query rest0 in
  let '(rest, q) := match Cut rest0 "?" with Some (a, b) => (a, b) | None => (rest0, "") end in
  let blank := mkURL scheme "" None "" "" "" false force q "" "" in
  if negb (HasPrefix rest "/") && negb (scheme =s "") then Some (mkURL scheme rest None "" "" "" false force q "" "")
  else if negb (HasPrefix rest "/") && Contains (before rest "/") ":" then None
  else if (negb (scheme =s "") || negb (HasPrefix rest "///")) && HasPrefix rest "//" then
    let a := sdrop 2 rest in
    let '(authority, p) := match Index a "/" with Some i => (stake i a, sdrop i a) | None => (a, "") end in
    '(user, host) ← parseAuthority authority;
    setPath (mkURL scheme "" user host "" "" false force q "" "") p
  else setPath (mkURL scheme "" None "" "" "" (negb (scheme =s "") && HasPrefix rest "/") force q "" "") rest.

Definition parse (raw : string) : option URL :=
  if negb (all_chars (λ c, negb (control_byte c)) raw) then None
  else if raw =s "*" then Some (mkURL "" "" None "" "*" "" false false "" "" "")
  else '(scheme, rest) ← getScheme raw; parse_rest (ToLower scheme) rest.

Definition Parse (raw : string) : option URL :=
  let '(a, frag) := match Cut raw "#" with Some (a, b) => (a, b) | None => (raw, "") end in
  u ← parse a;
  if frag =s "" then Some u
  else
    f ← unescape frag encodeFragment;
    Some (mkURL (Scheme u) (Opaque_ u) (User u) (Host u) (UPath u) (RawPath u) (OmitHost u) (ForceQuery u) (URawQuery u)
            f (if frag =s escape f encodeFragment then "" else frag)).

(** *** Printing *)

Definition validEncoded (s : string) (mode : encoding) : bool :=
  all_chars (λ c, among "!$&'()*+,;=:@[]%" c || negb (shouldEscape c mode)) s.

Definition EscapedPath (u : URL) : string :=
  if negb (RawPath u =s "") && validEncoded (RawPath u) encodePath && bool_decide (unescape (RawPath u) encodePath = Some (UPath u))
  then RawPath u
  else if UPath u =s "*" then "*"
  else escape (UPath u) encodePath.
Definition EscapedFragment (u : URL) : string :=
  if negb (RawFragment u =s "") && validEncoded (RawFragment u) encodeFragment &&
     bool_decide (unescape (RawFragment u) encodeFragment = Some (Fragment u))
  then RawFragment u
  else escape (Fragment u) encodeFragment.

Definition user_string (i : Userinfo) : string :=
  escape (username i) encodeUserPassword +:+
  match password i with None => "" | Some p => ":" +:+ escape p encodeUserPassword end.

(** What [String] writes between the scheme and the path. *)
Definition authority_string (u : URL) : string :=
  if (Scheme u =s "") && (Host u =s "") && bool_decide (User u = None) then ""
  else if OmitHost u && (Host u =s "") && bool_decide (User u = None) then ""
  else
    (if negb (Host u =s "") || negb (UPath u =s "") || negb (bool_decide (User u = None)) then "//" else "") +:+
    match User u with Some i => user_string i +:+ "@" | None => "" end +:+
    escape (Host u) encodeHost.

Definition hier_string (u : URL) : string :=
  let pre := (if Scheme u =s "" then "" else Scheme u +:+ ":") +:+ authority_string u in
  let path := EscapedPath u in
  pre +:+
  (if negb (path =s "") && negb (HasPrefix path "/") && negb (Host u =s "") then "/"
   else if (pre =s "") && Contains (before path "/") ":" then "./" else "") +:+
  path.

Definition URLString (u : URL) : string :=
  (if Opaque_ u =s "" then hier_string u
   else (if Scheme u =s "" then "" else Scheme u +:+ ":") +:+ Opaque_ u) +:+
  (if ForceQuery u || negb (URawQuery u =s "") then "?" +:+ URawQuery u else "") +:+
  (if Fragment u =s "" then "" else "#" +:+ EscapedFragment u).

(** *** Methods *)

Definition validPort_colon (hp : string) : option nat :=
  match LastIndex hp ":" with
  | Some i => if validOptionalPort (sdrop i hp) then Some i else None
  | None => None
  end.
(** [URL.Hostname]: the host without its port and the brackets of IPv6. *)
Definition Hostname (u : URL) : string :=
  let host := match validPort_colon (Host u) with Some i => stake i (Host u) | None => Host u end in
  if HasPrefix host "[" && HasSuffix host "]" then stake (String.length host - 2) (sdrop 1 host) else host.
Definition IsAbs (u : URL) : bool := negb (Scheme u =s "").
Definition UQuery (u : URL) : Values := ParseQuery (URawQuery u).

(** One element of the path, with what was written so far and whether the
    next element is the first one. *)
Definition resolve_step (st : string * bool) (elem : string) : string * bool :=
  let '(dst, first) := st in
  if elem =s "." then (dst, false)
  else if elem =s ".." then
    let str := sdrop 1 dst in
    match LastIndex str "/" with
    | None => ("/", true)
    | Some i => ("/" +:+ stake i str, first)
    end
  else (dst +:+ (if first then "" else "/") +:+ elem, false).

Definition resolvePath (base ref : string) : string :=
  let full := if ref =s "" then base
              else if HasPrefix ref "/" then ref
              else match LastIndex base "/" with Some i => stake (S i) base | None => "" end +:+ ref in
  if full =s "" then ""
  else
    let elems := Split full "/" in
    let '(dst, _) := foldl resolve_step ("/", true) elems in
    let e := default "" (last elems) in
    let r := dst +:+ (if (e =s ".") || (e =s "..") then "/" else "") in
    if HasPrefix r "//" then sdrop 1 r else r.

Definition or_self (u : URL) (v : option URL) : URL := default u v.

Definition ResolveReference (u ref : URL) : URL :=
  let scheme := if Scheme ref =s "" then Scheme u else Scheme ref in
  let url := mkURL scheme (Opaque_ ref) (User ref) (Host ref) (UPath ref) (RawPath ref) (OmitHost ref) (ForceQuery ref)
               (URawQuery ref) (Fragment ref) (RawFragment ref) in
  if negb (Scheme ref =s "") || negb (Host ref =s "") || negb (bool_decide (User ref = None)) then
    or_self url (setPath url (resolvePath (EscapedPath ref) ""))
  else if negb (Opaque_ ref =s "") then
    mkURL scheme (Opaque_ ref) None "" "" (RawPath ref) (OmitHost ref) (ForceQuery ref) (URawQuery ref) (Fragment ref) (RawFragment ref)
  else
    let bare := (UPath ref =s "") && negb (ForceQuery ref) && (URawQuery ref =s "") in
    let q := if bare then URawQuery u else URawQuery ref in
    let '(f, rf) := if bare && (Fragment ref =s "") then (Fragment u, RawFragment u) else (Fragment ref, RawFragment ref) in
    if (UPath ref =s "") && negb (Opaque_ u =s "") then
      mkURL scheme (Opaque_ u) None "" "" (RawPath ref) (OmitHost ref) (ForceQuery ref) q f rf
    else
      let url := mkURL scheme (Opaque_ ref) (User u) (Host u) (UPath ref) (RawPath ref) (OmitHost ref) (ForceQuery ref) q f rf in
      or_self url (setPath url (resolvePath (EscapedPath u) (EscapedPath ref))).

Definition reprint (s : string) : option string := URLString <$> Parse s.

Example reprints :
  reprint <$> ["https://Host.example:32400/a%2Fb/c d?x=1#frag"; "//h/p"; "///h/p"; "/a:b"; "a:b"; "mailto:x@y"; "HTTPS://u:p@h"; "https://h?";
               "http://[::1]:80/"; "http://a b/"; ":x"; "x y:z"; "*"; "http://h/%zz"; "http://h:8x/"] =
  [Some "https://Host.example:32400/a/b/c%20d?x=1#frag"; Some "//h/p"; Some "///h/p"; Some "/a:b"; Some "a:b"; Some "mailto:x@y";
   Some "https://u:p@h"; Some "https://h?"; Some "http://[::1]:80/"; None; None; None; Some "*"; None; None].
Proof. vm_compute. reflexivity. Qed.

Definition resolved (b r : string) : option string := b ← Parse b; r ← Parse r; Some (URLString (ResolveReference b r)).

(** The examples of RFC 3986, 5.4. *)
Example rfc3986 :
  resolved "http://a/b/c/d;p?q" <$> ["g:h"; "g"; "./g"; "g/"; "/g"; "//g"; "?y"; "g?y"; "#s"; "g#s"; ";x"; "g;x"; ""; "."; "./"; ".."; "../";
     "../g"; "../.."; "../../"; "../../g"; "../../../g"; "/./g"; "/../g"; "g."; "..g"; "./../g"; "g/./h"; "g/../h"] =
  Some <$> ["g:h"; "http://a/b/c/g"; "http://a/b/c/g"; "http://a/b/c/g/"; "http://a/g"; "http://g"; "http://a/b/c/d;p?y"; "http://a/b/c/g?y";
     "http://a/b/c/d;p?q#s"; "http://a/b/c/g#s"; "http://a/b/c/;x"; "http://a/b/c/g;x"; "http://a/b/c/d;p?q"; "http://a/b/c/"; "http://a/b/c/";
     "http://a/b/"; "http://a/b/"; "http://a/b/g"; "http://a/"; "http://a/"; "http://a/g"; "http://a/g"; "http://a/g"; "http://a/g";
     "http://a/b/c/g."; "http://a/b/c/..g"; "http://a/b/g"; "http://a/b/c/g/h"; "http://a/b/c/h"].
Proof. vm_compute. reflexivity. Qed.

(** ** Lemmas: where delimiters can appear *)

Lemma hex_digit_free c n : among "?#/@%:" c = true → (n < 16)%N → Ascii.eqb (hex_digit n) c = false.
Proof.
  intros Hc Hn. apply Ascii.eqb_neq. intros <-. revert Hc.
  assert (Hd : ∀ m, (m < 16)%nat → among "?#/@%:" (hex_digit (N.of_nat m)) = false).
  { intros m Hm. do 16 (destruct m as [|m]; [vm_compute; reflexivity|]). lia. }
  rewrite <- (N2Nat.id n), Hd by lia. done.
Qed.

Lemma code_div16 c : (code c / 16 < 16)%N.
Proof. apply N.Div0.div_lt_upper_bound. unfold code. destruct c as [[][][][][][][][]]; vm_compute; reflexivity. Qed.

(** A delimiter that is escaped in some mode does not survive it. *)
Lemma escape_free c mode s :
  among "?#/@:" c = true → shouldEscape c mode = true → free_of c (escape s mode).
Proof.
  intros Hc He. induction s as [|x s IH]; [done|]. cbn [escape]. apply free_of_app. split; [|done].
  assert (Hc' : among "?#/@%:" c = true).
  { unfold among in *. apply Contains_spec in Hc as (a & b & E). apply Contains_spec.
    destruct a as [|a1 [|a2 [|a3 [|a4 [|a5 a]]]]]; cbn in E; injection E; intros; subst.
    1: by exists "", "#/@%:". 1: by exists "?", "/@%:". 1: by exists "?#", "@%:". 1: by exists "?#/", "%:".
    1: by exists "?#/@%", "". destruct a; discriminate. }
  destruct (shouldEscape x mode) eqn:Ex.
  - unfold percent. rewrite !free_of_cons. split; [|split; [|split; [|done]]].
    + intros <-. vm_compute in Hc. discriminate.
    + apply Ascii.eqb_neq, hex_digit_free; [done|apply code_div16].
    + apply Ascii.eqb_neq, hex_digit_free; [done|by apply N.mod_lt].
  - apply free_of_cons. split; [|done]. intros ->. congruence.
Qed.

Lemma validEncoded_free c mode s :
  among "!$&'()*+,;=:@[]%" c = false → shouldEscape c mode = true → validEncoded s mode = true → free_of c s.
Proof.
  intros Hc He. unfold validEncoded. induction s as [|x s IH]; [done|]. cbn [all_chars]. rewrite andb_true_iff.
  intros [Hx Hs]. apply free_of_cons. split; [|by apply IH]. intros ->. by rewrite Hc, He in Hx.
Qed.

Lemma EscapedPath_free c u : c = "?"%char ∨ c = "#"%char → free_of c (EscapedPath u).
Proof.
  intros Hc. unfold EscapedPath. destruct (negb (RawPath u =s "") && validEncoded (RawPath u) encodePath) eqn:E.
  - apply andb_prop in E as [_ E]. cbn [andb]. case_match; [eapply validEncoded_free; [| |done]; by destruct Hc as [->| ->]|].
    destruct (UPath u =s "*"); [by destruct Hc as [->| ->]|]. apply escape_free; by destruct Hc as [->| ->].
  - cbn [andb]. destruct (UPath u =s "*"); [by destruct Hc as [->| ->]|]. apply escape_free; by destruct Hc as [->| ->].
Qed.

(** The user information and host as they are written. *)
Definition authority (u : URL) : string :=
  match User u with Some i => user_string i +:+ "@" | None => "" end +:+ escape (Host u) encodeHost.

Lemma authority_free c u : c = "?"%char ∨ c = "#"%char ∨ c = "/"%char → free_of c (authority u).
Proof.
  intros Hc. unfold authority. apply free_of_app. split.
  - destruct (User u) as [[n p]|]; [|done]. unfold user_string. cbn [username password]. rewrite !free_of_app.
    split_and!.
    + apply escape_free; by destruct Hc as [->|[->| ->]].
    + destruct p as [p|]; [|done]. apply free_of_app. split; [by destruct Hc as [->|[->| ->]]|].
      apply escape_free; by destruct Hc as [->|[->| ->]].
    + by destruct Hc as [->|[->| ->]].
  - apply escape_free; by destruct Hc as [->|[->| ->]].
Qed.

Lemma Encode_free c q : c = "?"%char ∨ c = "#"%char → free_of c (Encode q).
Proof.
  intros Hc. unfold Encode.
  assert (He : ∀ s, free_of c (QueryEscape s)).
  { induction s as [|x s IH]; [done|]. cbn [QueryEscape]. apply free_of_app. split; [|done].
    destruct Hc as [->| ->]; by destruct x as [[][][][][][][][]]. }
  assert (Hall : Forall (free_of c) (sorted_entries q ≫= encode_entry)).
  { apply Forall_forall. intros x Hx. apply list_elem_of_bind in Hx as ([k vs] & Hx & _). unfold encode_entry in Hx.
    apply list_elem_of_fmap in Hx as (v & -> & _). rewrite !free_of_app. split_and!; [apply He| |apply He].
    by destruct Hc as [->| ->]. }
  revert Hall. generalize (sorted_entries q ≫= encode_entry). intros l Hl. induction Hl as [|x l Hx Hl IH]; [done|].
  destruct l as [|y l]; [done|]. change (Join (x :: y :: l) "&") with (x +:+ "&" +:+ Join (y :: l) "&").
  rewrite !free_of_app. split_and!; [done| |done]. by destruct Hc as [->| ->].
Qed.

(** *** What a reader of a location sees *)

(** The query of an URL text: after the first question mark, up to a
    fragment. *)
Definition query_part (s : string) : string :=
  match Cut (before s "#") "?" with Some (_, q) => q | None => "" end.

Lemma before_free a sep b : free_of sep a → before (a +:+ String sep b) sep = a.
Proof. intros Ha. unfold before. by rewrite Cut_free. Qed.
Lemma before_none a sep : free_of sep a → before a sep = a.
Proof. intros Ha. unfold before. by rewrite Cut_none. Qed.

Lemma query_part_of pre q frag :
  free_of "?" pre → free_of "#" pre → free_of "#" q →
  query_part (pre +:+ ("?" +:+ q) +:+ (if Fragment frag =s "" then "" else "#" +:+ EscapedFragment frag)) = q.
Proof.
  intros H1 H2 H3. unfold query_part.
  assert (Hb : before (pre +:+ ("?" +:+ q) +:+ (if Fragment frag =s "" then "" else "#" +:+ EscapedFragment frag)) "#" =
               pre +:+ String "?" q).
  { destruct (Fragment frag =s "").
    - rewrite sapp_nil_r. apply before_none. rewrite free_of_app, free_of_cons. by split_and!.
    - rewrite <- sapp_assoc. change ("#" +:+ EscapedFragment frag) with (String "#" (EscapedFragment frag)).
      apply before_free. rewrite !free_of_app, free_of_cons. by split_and!. }
  by rewrite Hb, Cut_free.
Qed.

(** The authority of an [https] location: up to the path, query or
    fragment. *)
Definition authority_part (s : string) : option string :=
  if HasPrefix s "https://" then Some (before (before (before (sdrop 8 s) "#") "?") "/") else None.

Lemma before_app_free a b sep : free_of sep a → before (a +:+ b) sep = a +:+ before b sep.
Proof.
  intros Ha. induction a as [|x a IH]; [done|]. apply free_of_cons in Ha as [Hx Ha].
  change (String x a +:+ b) with (String x (a +:+ b)). unfold before in *. cbn [Cut].
  rewrite (proj2 (Ascii.eqb_neq _ _) Hx). specialize (IH Ha). cbn.
  destruct (Cut (a +:+ b) sep) as [[p q]|]; cbn in *; by rewrite IH.
Qed.

(** Where an authority ends. *)
Definition ends_authority (r : string) : Prop := r = "" ∨ ∃ c t, r = String c t ∧ among "/?#" c = true.

Lemma among_delims c : among "/?#" c = true → c = "/"%char ∨ c = "?"%char ∨ c = "#"%char.
Proof.
  unfold among. intros Hc. apply Contains_spec in Hc as (x & y & E).
  destruct x as [|x1 [|x2 [|x3 x]]]; cbn in E; injection E; intros; subst; auto. by destruct x.
Qed.

Lemma before_head sep r : before (String sep r) sep = "".
Proof. unfold before. cbn [Cut]. by rewrite Ascii.eqb_refl. Qed.
Lemma before_other c sep r : c ≠ sep → before (String c r) sep = String c (before r sep).
Proof. intros Hc. apply (before_app_free (String c "") r sep). by apply free_of_cons. Qed.

Lemma ends_authority_before r : ends_authority r → before (before (before r "#") "?") "/" = "".
Proof.
  intros [->|(c & t & -> & [->|[->| ->]]%among_delims)]; [done|..].
  - rewrite !(before_other "/") by done. apply before_head.
  - rewrite before_other by done. by rewrite before_head.
  - by rewrite before_head.
Qed.

Lemma authority_part_of a r :
  free_of "/" a → free_of "?" a → free_of "#" a → ends_authority r → authority_part ("https://" +:+ a +:+ r) = Some a.
Proof.
  intros H1 H2 H3 Hr. unfold authority_part. rewrite HasPrefix_app. f_equal.
  change 8%nat with (String.length "https://"). rewrite sdrop_app.
  rewrite !before_app_free by done. rewrite ends_authority_before by done. apply sapp_nil_r.
Qed.

(** ** Lemmas: the scheme and host of a text *)

Lemma before_split s sep : ∃ t, s = before s sep +:+ t ∧ free_of sep (before s sep) ∧ (t = "" ∨ ∃ r, t = String sep r).
Proof.
  induction s as [|c s (t & E & Hf & Ht)]; [exists ""; by split_and!; auto|].
  destruct (decide (c = sep)) as [->|Hc].
  - exists (String sep s). rewrite before_head. split_and!; [done|done|by right; exists s].
  - exists t. rewrite before_other by done. split_and!; [cbn; by rewrite <- E|by apply free_of_cons|done].
Qed.

Lemma Index_before s c :
  match Index s (String c "") with Some i => stake i s | None => s end = before s c.
Proof.
  induction s as [|x s IH]; [done|]. cbn [Index HasPrefix]. rewrite andb_true_r.
  destruct (Ascii.eqb_spec c x) as [->|Hx]; [by rewrite before_head|].
  rewrite before_other by congruence. rewrite <- IH. by destruct (Index s (String c "")).
Qed.

Definition scheme_char (c : ascii) : bool := is_lower c || is_upper c || is_digit c || among "+-." c.
Definition scheme_text (s : string) : bool :=
  match s with String c r => (is_lower c || is_upper c) && all_chars scheme_char r | "" => false end.


Lemma getScheme_go_inv first s a b :
  getScheme_go first s = Some (Some (a, b)) →
  s = a +:+ String ":" b ∧ if first then scheme_text a = true else all_chars scheme_char a = true.
Proof.
  revert first a. induction s as [|c s IH]; intros first a; [done|]. cbn [getScheme_go].
  destruct (is_lower c || is_upper c) eqn:El.
  - destruct (getScheme_go false s) as [[[a' b']|]|] eqn:E; [|done..]. intros [= <- <-].
    destruct (IH false a' E) as [-> Ha]. split; [done|].
    assert (Hc : scheme_char c = true) by (unfold scheme_char; by rewrite El).
    destruct first; unfold scheme_text; cbn [all_chars]; [by rewrite El|by rewrite Hc].
  - destruct (is_digit c || among "+-." c) eqn:Ed.
    + destruct first; [done|]. destruct (getScheme_go false s) as [[[a' b']|]|] eqn:E; [|done..]. intros [= <- <-].
      destruct (IH false a' E) as [-> Ha]. split; [done|].
      assert (Hc : scheme_char c = true) by (unfold scheme_char; by rewrite <- orb_assoc, Ed, orb_true_r).
      cbn [all_chars]. by rewrite Hc.
    + destruct (byte_is c 58) eqn:Ec; [|done]. destruct first; [done|]. intros [= <- <-]. split; [|done].
      rewrite byte_is_eqb in Ec by done. apply Ascii.eqb_eq in Ec. by subst.
Qed.

Lemma getScheme_go_rest s b : all_chars scheme_char s = true → getScheme_go false (s +:+ String ":" b) = Some (Some (s, b)).
Proof.
  induction s as [|c s IH]; [done|]. cbn [all_chars]. rewrite andb_true_iff. intros [Hc Hs].
  change (String c s +:+ String ":" b) with (String c (s +:+ String ":" b)). cbn [getScheme_go]. rewrite (IH Hs).
  unfold scheme_char in Hc. rewrite <- orb_assoc in Hc. destruct (is_lower c || is_upper c); [done|]. cbn [orb] in Hc. by rewrite Hc.
Qed.

Lemma getScheme_text s b : scheme_text s = true → getScheme (s +:+ String ":" b) = Some (s, b).
Proof.
  destruct s as [|c s]; [done|]. unfold scheme_text. rewrite andb_true_iff. intros [Hc Hs]. unfold getScheme.
  change (String c s +:+ String ":" b) with (String c (s +:+ String ":" b)). cbn [getScheme_go].
  by rewrite (getScheme_go_rest s b Hs), Hc.
Qed.

Lemma scheme_text_free c s : among "/?#" c = true → scheme_text s = true → free_of c s.
Proof.
  intros Hc Hs. assert (Ha : all_chars scheme_char s = true).
  { destruct s as [|x s]; [done|]. unfold scheme_text in Hs. apply andb_prop in Hs as [Hx Hs]. cbn [all_chars].
    unfold scheme_char at 1. by rewrite Hx. }
  clear Hs. induction s as [|x s IH]; [done|]. cbn [all_chars] in Ha. apply andb_prop in Ha as [Hx Ha].
  apply free_of_cons. split; [|by apply IH]. intros ->. apply among_delims in Hc as [->|[->| ->]]; done.
Qed.

(** The parts of a text with a scheme and an authority. *)
Record shape (s sch a tail : string) : Prop := mkShape {
  shape_text : s = sch +:+ "://" +:+ a +:+ tail;
  shape_scheme : scheme_text sch = true;
  shape_authority : free_of "/" a ∧ free_of "?" a ∧ free_of "#" a;
  shape_tail : ends_authority tail;
}.

Lemma setPath_parts u p u' :
  setPath u p = Some u' → Scheme u' = Scheme u ∧ Opaque_ u' = Opaque_ u ∧ User u' = User u ∧ Host u' = Host u.
Proof. unfold setPath. destruct (unescape p encodePath); [|done]. by intros [= <-]. Qed.

(** What [parse] finds as the authority of a text. *)
Lemma parse_rest_host scheme rest u :
  parse_rest scheme rest = Some u → scheme ≠ "" →
  Scheme u = scheme ∧
  if HasPrefix (before rest "?") "//"
  then parseAuthority (before (sdrop 2 (before rest "?")) "/") = Some (User u, Host u)
  else Host u = "".
Proof.
  unfold parse_rest. intros E Hs. apply String.eqb_neq in Hs. rewrite Hs in E.
  assert (Hr : ∃ q, (match Cut rest "?" with Some (a, b) => (a, b) | None => (rest, "") end) = (before rest "?", q)).
  { unfold before. destruct (Cut rest "?") as [[a b]|]; eauto. }
  destruct Hr as [q Hr]. rewrite Hr in E. clear Hr. set (r := before rest "?") in *. clearbody r. cbv zeta in E.
  cbn [negb] in E. rewrite andb_true_r in E. destruct (HasPrefix r "/") eqn:H1; cbn [negb andb] in E.
  - rewrite orb_true_l in E. cbn [andb] in E. destruct (HasPrefix r "//") eqn:H2.
    + rewrite <- (Index_before (sdrop 2 r) "/").
      destruct (Index (sdrop 2 r) "/") as [i|];
        (match type of E with context [parseAuthority ?a] => destruct (parseAuthority a) as [[us h]|] end; [|done]);
        cbn [mbind option_bind] in E; by apply setPath_parts in E as (-> & _ & -> & ->).
    + apply setPath_parts in E as (-> & _ & _ & ->). done.
  - injection E as <-. split; [done|]. destruct r as [|c r]; [done|]. destruct (HasPrefix (String c r) "//") eqn:H2; [|done].
    exfalso. apply HasPrefix_spec in H2 as [t H2]. injection H2 as -> ->. done.
Qed.

Lemma parse_rest_scheme scheme rest u : parse_rest scheme rest = Some u → Scheme u = scheme.
Proof.
  unfold parse_rest. destruct (match Cut rest "?" with Some (a, b) => (a, b) | None => (rest, "") end) as [r q].
  cbv zeta. destruct (_ && negb (scheme =s "")); [by intros [= <-]|]. destruct (_ && _); [done|]. destruct (_ && _).
  - match goal with |- context [let '(authority, p) := ?x in _] => destruct x as [a p] end.
    destruct (parseAuthority a) as [[us h]|]; [|done]. cbn [mbind option_bind]. intros E. by apply setPath_parts in E as (-> & _).
  - intros E. by apply setPath_parts in E as (-> & _).
Qed.

Lemma ToLower_nil s : ToLower s = "" → s = "".
Proof. destruct s as [|c s]; [done|]. destruct (ToLower_cons c s) as [->|[(? & ? & _ & ->)|(? & ? & ? & _ & ->)]]; discriminate. Qed.

Lemma Parse_parts s u :
  Parse s = Some u → ∃ v, parse (before s "#") = Some v ∧ Scheme u = Scheme v ∧ User u = User v ∧ Host u = Host v.
Proof.
  unfold Parse.
  assert (Hr : ∃ f, (match Cut s "#" with Some (a, b) => (a, b) | None => (s, "") end) = (before s "#", f)).
  { unfold before. destruct (Cut s "#") as [[a b]|]; eauto. }
  destruct Hr as [f ->]. destruct (parse (before s "#")) as [v|]; [|done]. cbn [mbind option_bind].
  destruct (f =s ""); [intros [= <-]; by exists v|]. destruct (unescape f encodeFragment); [|done].
  intros [= <-]. by exists v.
Qed.

(** A text with a scheme and a host has this shape, and *)
Lemma Parse_shape s u :
  Parse s = Some u → Scheme u ≠ "" → Host u ≠ "" →
  ∃ sch a tail, shape s sch a tail ∧ a ≠ "" ∧ Scheme u = ToLower sch ∧ parseAuthority a = Some (User u, Host u).
Proof.
  intros HP Hs Hh. destruct (Parse_parts s u HP) as (v & Hv & E1 & E2 & E3). rewrite E1 in Hs |- *. rewrite E2, E3 in *.
  destruct (before_split s "#") as (t0 & Es & F0 & T0). set (s1 := before s "#") in *. clearbody s1. subst s.
  unfold parse in Hv. destruct (negb _); [done|]. destruct (s1 =s "*"); [by injection Hv as <-|].
  unfold getScheme in Hv. destruct (getScheme_go true s1) as [[[sch rest]|]|] eqn:Eg; [| |done];
    cbn [mbind option_bind] in Hv.
  2:{ exfalso. apply Hs. by apply parse_rest_scheme in Hv. }
  destruct (getScheme_go_inv _ _ _ _ Eg) as [-> Hsch].
  destruct (parse_rest_host _ _ _ Hv) as [Esc Hau].
  { intros E%ToLower_nil. by subst. }
  destruct (HasPrefix (before rest "?") "//") eqn:Hp; [|done].
  destruct (before_split rest "?") as (t1 & Er & F1 & T1). set (r := before rest "?") in *. clearbody r. subst rest.
  apply HasPrefix_spec in Hp as [b ->]. change (sdrop 2 ("//" +:+ b)) with b in Hau.
  destruct (before_split b "/") as (t2 & Eb & F2 & T2). set (a := before b "/") in *. clearbody a. subst b.
  exists sch, a, (t2 +:+ t1 +:+ t0). split; [split|split; [|split; [done|done]]].
  - rewrite !sapp_assoc. f_equal.
    transitivity ("://" +:+ ((a +:+ t2 +:+ t1) +:+ t0)); [done|by rewrite !sapp_assoc].
  - done.
  - apply free_of_app in F1 as [_ [? _]%free_of_app]. apply free_of_app in F0 as [_ [_ F0]%free_of_cons].
    by apply free_of_app in F0 as [[_ [? _]%free_of_app]%free_of_app _].
  - destruct T2 as [->|[x ->]]; [|right; by eexists _, _].
    destruct T1 as [->|[x ->]]; [|right; by eexists _, _].
    destruct T0 as [->|[x ->]]; [by left|right; by eexists _, _].
  - intros ->. apply Hh. change (parseAuthority "") with (Some (None : option Userinfo, "")) in Hau. congruence.
Qed.

(** the shape decides the scheme and the host. *)
Lemma shape_Parse s sch a tail u :
  shape s sch a tail → Parse s = Some u → Scheme u = ToLower sch ∧ parseAuthority a = Some (User u, Host u).
Proof.
  intros [-> Hsch (A1 & A2 & A3) Ht] HP. destruct (Parse_parts _ _ HP) as (v & Hv & -> & -> & ->).
  assert (Hb : before (sch +:+ "://" +:+ a +:+ tail) "#" = sch +:+ String ":" ("//" +:+ a +:+ before tail "#")).
  { rewrite before_app_free by (by apply scheme_text_free). f_equal.
    change ("://" +:+ a +:+ tail) with (String ":" (String "/" (String "/" (a +:+ tail)))).
    rewrite !before_other by done. by rewrite before_app_free. }
  rewrite Hb in Hv. unfold parse in Hv. destruct (negb _); [done|]. destruct (String.eqb_spec (sch +:+ String ":" ("//" +:+ a +:+ before tail "#")) "*") as [E|_].
  { destruct sch as [|c [|d sch]]; [done| |discriminate]. by injection E. }
  rewrite getScheme_text in Hv by done. cbn [mbind option_bind] in Hv.
  destruct (parse_rest_host _ _ _ Hv) as [-> Hau].
  { intros E%ToLower_nil. by subst. }
  split; [done|].
  assert (Hq : before ("//" +:+ a +:+ before tail "#") "?" = "//" +:+ a +:+ before (before tail "#") "?").
  { rewrite before_app_free by done. by rewrite before_app_free. }
  rewrite Hq, HasPrefix_app in Hau. change 2%nat with (String.length "//") in Hau. rewrite sdrop_app in Hau.
  by rewrite before_app_free, ends_authority_before, sapp_nil_r in Hau.
Qed.

(** A path appended to a base keeps the scheme and the host. *)
Lemma TrimSuffix_app_char a b c : b ≠ "" → TrimSuffix (a +:+ b) (String c "") = a +:+ TrimSuffix b (String c "").
Proof.
  intros Hb. unfold TrimSuffix. assert (HasSuffix (a +:+ b) (String c "") = HasSuffix b (String c "")) as ->.
  { apply eq_true_iff_eq. rewrite !HasSuffix_spec. split; intros [x E].
    - destruct (decide (String.length a <= String.length x)%nat) as [Hl|Hl].
      + exists (sdrop (String.length a) x). rewrite <- (stake_sdrop (String.length a) x) in E. rewrite sapp_assoc in E.
        apply sapp_inj_len in E as [_ E]; [done|]. by rewrite length_stake.
      + exfalso. apply (f_equal String.length) in E. rewrite !length_sapp in E. cbn in E. destruct b; [done|]. cbn in E. lia.
    - exists (a +:+ x). by rewrite E, sapp_assoc. }
  destruct (HasSuffix b (String c "")) eqn:E; [|done].
  apply HasSuffix_spec in E as [x ->]. rewrite <- sapp_assoc, !length_sapp. cbn [String.length].
  replace (String.length a + String.length x + 1 - 1)%nat with (String.length (a +:+ x)) by (rewrite length_sapp; lia).
  replace (String.length x + 1 - 1)%nat with (String.length x) by lia. by rewrite !stake_app.
Qed.

Lemma TrimSuffix_cases s c : TrimSuffix s (String c "") = s ∧ HasSuffix s (String c "") = false ∨ s = TrimSuffix s (String c "") +:+ String c "".
Proof.
  unfold TrimSuffix. destruct (HasSuffix s (String c "")) eqn:E; [|by left]. right. apply HasSuffix_spec in E as [x ->].
  rewrite length_sapp. cbn [String.length]. replace (String.length x + 1 - 1)%nat with (String.length x) by lia. by rewrite stake_app.
Qed.

Lemma shape_extend s sch a tail p :
  shape s sch a tail → a ≠ "" → ∃ tail', shape (TrimSuffix s "/" +:+ String "/" p) sch a tail'.
Proof.
  intros [-> Hsch Ha Ht] Hne. destruct (decide (tail = "")) as [->|Htl].
  - exists (String "/" p). split; try done; [|by right; eexists _, _]. rewrite sapp_nil_r.
    destruct (TrimSuffix_cases (sch +:+ "://" +:+ a) "/") as [[-> _]|E]; [by rewrite !sapp_assoc|]. exfalso.
    rewrite <- sapp_assoc in E. rewrite TrimSuffix_app_char in E by done. rewrite !sapp_assoc in E.
    do 2 apply sapp_inj_len in E as [_ E]; try done. destruct Ha as [Ha _]. rewrite E in Ha. by apply not_free_of_sep in Ha.
  - exists (TrimSuffix tail "/" +:+ String "/" p). split; try done.
    + rewrite <- (sapp_assoc sch), <- (sapp_assoc (sch +:+ "://")), TrimSuffix_app_char by done. by rewrite !sapp_assoc.
    + destruct Ht as [->|(c & t & -> & Hc)]; [done|]. right.
      destruct t as [|d t]; [unfold TrimSuffix; destruct (HasSuffix (String c "") "/"); by eexists _, _|].
      rewrite (TrimSuffix_app_char (String c "") (String d t)) by done. by eexists _, _.
Qed.

Lemma Parse_extend s p u v :
  Parse s = Some u → Scheme u ≠ "" → Host u ≠ "" → Parse (TrimSuffix s "/" +:+ String "/" p) = Some v →
  Scheme v = Scheme u ∧ User v = User u ∧ Host v = Host u.
Proof.
  intros Hu Hs Hh Hv. destruct (Parse_shape s u Hu Hs Hh) as (sch & a & tail & Hsh & Hne & Es & Ea).
  destruct (shape_extend s sch a tail p Hsh Hne) as (tail' & Hsh').
  destruct (shape_Parse _ _ _ _ _ Hsh' Hv) as [Es' Ea']. rewrite Ea in Ea'. injection Ea' as -> ->. by rewrite Es, Es'.
Qed.

(** ** Lemmas: the query of a text *)

Lemma query_of_cut s : (match Cut s "?" with Some (a, b) => (a, b) | None => (s, "") end) = (before s "?", (match Cut s "?" with Some (_, q) => q | None => "" end)).
Proof. unfold before. by destruct (Cut s "?") as [[a b]|]. Qed.

(** Every field of an URL but these is escaped when it is printed. *)
Definition printable (u : URL) : Prop :=
  ∀ c, c = "?"%char ∨ c = "#"%char → free_of c (Scheme u) ∧ free_of c (Opaque_ u).

Lemma parse_rest_query scheme rest u :
  parse_rest scheme rest = Some u → (∀ c, c = "?"%char ∨ c = "#"%char → free_of c scheme) → free_of "#" rest →
  URawQuery u = (match Cut rest "?" with Some (_, q) => q | None => "" end) ∧ printable u.
Proof.
  unfold parse_rest. rewrite query_of_cut. set (q := match Cut rest "?" with Some (_, q) => q | None => "" end).
  destruct (before_split rest "?") as (t & Er & F1 & _). set (r := before rest "?") in *. clearbody r q. cbv zeta.
  intros E Hs Hf. rewrite Er in Hf. apply free_of_app in Hf as [F2 _].
  assert (Hp : ∀ v p, setPath v p = Some u → Scheme v = scheme → Opaque_ v = "" → URawQuery v = q → URawQuery u = q ∧ printable u).
  { intros v p E' <- Ho <-. unfold setPath in E'. destruct (unescape p encodePath); [|done]. injection E' as <-.
    split; [done|]. intros c Hc. cbn. rewrite Ho. by split; [apply Hs|]. }
  destruct (_ && negb (scheme =s "")) in E.
  { injection E as <-. split; [done|]. intros c Hc. cbn. split; [by apply Hs|by destruct Hc as [->| ->]]. }
  destruct (_ && _) in E; [done|]. destruct (_ && _) in E; [|by apply Hp in E].
  match type of E with context [let '(authority, p) := ?x in _] => destruct x as [a p] end.
  destruct (parseAuthority a) as [[us h]|]; [|done]. cbn [mbind option_bind] in E. by apply Hp in E.
Qed.

Definition after (s : string) (sep : ascii) : string := match Cut s sep with Some (_, q) => q | None => "" end.
Lemma after_app_free a b sep : free_of sep a → after (a +:+ b) sep = after b sep.
Proof.
  intros Ha. induction a as [|x a IH]; [done|]. apply free_of_cons in Ha as [Hx Ha].
  change (String x a +:+ b) with (String x (a +:+ b)). rewrite <- (IH Ha). unfold after. cbn [Cut].
  rewrite (proj2 (Ascii.eqb_neq _ _) Hx). by destruct (Cut (a +:+ b) sep) as [[p q]|].
Qed.

Lemma ToLower_free c s : c = "?"%char ∨ c = "#"%char → free_of c s → free_of c (ToLower s).
Proof.
  intros Hc. remember (String.length s) as n eqn:Hn. revert s Hn.
  induction n as [n IH] using (well_founded_induction lt_wf). intros [|a r] Hn Hf; [done|]. cbn in Hn. subst n.
  apply free_of_cons in Hf as [Ha Hr].
  destruct (ToLower_cons a r) as [->|[(b & r' & -> & ->)|(b & d & r' & -> & ->)]]; rewrite ?free_of_cons in *.
  - split; [|eapply IH; [|done|done]; lia].
    intros E. apply Ha. destruct Hc as [->| ->]; revert E; by destruct a as [[][][][][][][][]].
  - split; [by destruct Hc as [->| ->]|]. eapply IH; [|done|by destruct Hr]. cbn. lia.
  - split; [by destruct Hc as [->| ->]|]. eapply IH; [|done|by destruct Hr as (_ & _ & ?)]. cbn. lia.
Qed.

Lemma getScheme_inv s sch rest :
  getScheme s = Some (sch, rest) → sch = "" ∧ rest = s ∨ s = sch +:+ String ":" rest ∧ scheme_text sch = true.
Proof.
  unfold getScheme. destruct (getScheme_go true s) as [[[a b]|]|] eqn:E; [| |done].
  - intros [= <- <-]. right. by destruct (getScheme_go_inv _ _ _ _ E).
  - intros [= <- <-]. by left.
Qed.

Lemma parse_query s u :
  parse s = Some u → free_of "#" s →
  URawQuery u = (match Cut s "?" with Some (_, q) => q | None => "" end) ∧ printable u.
Proof.
  intros E Hf. unfold parse in E. destruct (negb _); [done|].
  destruct (String.eqb_spec s "*") as [->|_].
  { injection E as <-. split; [done|]. by intros c [->| ->]. }
  destruct (getScheme s) as [[sch rest]|] eqn:Eg; [|done]. cbn [mbind option_bind] in E.
  destruct (getScheme_inv _ _ _ Eg) as [[-> ->]|[-> Hs]].
  { apply parse_rest_query in E; [done| |done]. by intros c [->| ->]. }
  apply parse_rest_query in E.
  - destruct E as [-> Hp]. split; [|done]. change (after rest "?" = after (sch +:+ String ":" rest) "?").
    rewrite after_app_free by (by apply scheme_text_free). symmetry. by apply (after_app_free (String ":" "") rest "?").
  - intros c Hc. apply ToLower_free; [done|]. apply scheme_text_free; [|done]. by destruct Hc as [->| ->].
  - by apply free_of_app in Hf as [_ [_ ?]%free_of_cons].
Qed.

(** [Parse] reads the query where a reader does. *)
Lemma Parse_query s u : Parse s = Some u → query_part s = URawQuery u ∧ printable u.
Proof.
  unfold Parse.
  assert (Hr : ∃ f, (match Cut s "#" with Some (a, b) => (a, b) | None => (s, "") end) = (before s "#", f)).
  { unfold before. destruct (Cut s "#") as [[a b]|]; eauto. }
  destruct Hr as [f ->]. destruct (parse (before s "#")) as [v|] eqn:E; [|done]. cbn [mbind option_bind].
  destruct (before_split s "#") as (_ & _ & Hf & _). destruct (parse_query _ _ E Hf) as [Eq Hp].
  destruct (f =s ""); [by intros [= <-]|]. destruct (unescape f encodeFragment); [|done]. by intros [= <-].
Qed.

(** What is printed before the query. *)
Definition before_query (u : URL) : string :=
  if Opaque_ u =s "" then hier_string u else (if Scheme u =s "" then "" else Scheme u +:+ ":") +:+ Opaque_ u.

Lemma before_query_free c u : printable u → c = "?"%char ∨ c = "#"%char → free_of c (before_query u).
Proof.
  intros Hp Hc. destruct (Hp c Hc) as [H1 H2].
  assert (Hsch : free_of c (if Scheme u =s "" then "" else Scheme u +:+ ":")).
  { destruct (Scheme u =s ""); [done|]. apply free_of_app. split; [done|by destruct Hc as [->| ->]]. }
  unfold before_query. destruct (Opaque_ u =s ""); [|by apply free_of_app]. unfold hier_string. cbv zeta. rewrite !free_of_app. split_and!.
  - done.
  - unfold authority_string. destruct (_ && _); [done|]. destruct (_ && _); [done|]. apply free_of_app. split.
    + destruct (_ || _); by destruct Hc as [->| ->].
    + apply (authority_free c u). naive_solver.
  - destruct (_ && negb _); [by destruct Hc as [->| ->]|]. destruct (_ && _); by destruct Hc as [->| ->].
  - by apply EscapedPath_free.
Qed.

(** The query that is set is the query that is read. *)
Lemma URLString_query u q : printable u → query_part (URLString (with_query u (Encode q))) = Encode q.
Proof.
  intros Hp. pose proof (before_query_free "?" (with_query u (Encode q)) Hp (or_introl eq_refl)) as F1.
  pose proof (before_query_free "#" (with_query u (Encode q)) Hp (or_intror eq_refl)) as F2.
  change (URLString (with_query u (Encode q))) with (before_query (with_query u (Encode q)) +:+
    (if ForceQuery u || negb (Encode q =s "") then "?" +:+ Encode q else "") +:+
    (if Fragment u =s "" then "" else "#" +:+ EscapedFragment u)).
  set (pre := before_query _) in *. clearbody pre. destruct (ForceQuery u || negb (Encode q =s "")) eqn:E.
  - apply (query_part_of _ _ u); [done..|by apply Encode_free; right].
  - apply orb_false_elim in E as [_ E%negb_false_iff%String.eqb_eq]. rewrite E. unfold query_part.
    rewrite before_app_free by done.
    assert (before ("" +:+ (if Fragment u =s "" then "" else "#" +:+ EscapedFragment u)) "#" = "") as ->.
    { destruct (Fragment u =s ""); [done|]. apply before_head. }
    rewrite sapp_nil_r. by rewrite Cut_none.
Qed.

(** [URL.RequestURI] *)
Definition RequestURI (u : URL) : string :=
  (if Opaque_ u =s "" then (if EscapedPath u =s "" then "/" else EscapedPath u)
   else if HasPrefix (Opaque_ u) "//" then Scheme u +:+ ":" +:+ Opaque_ u else Opaque_ u) +:+
  (if ForceQuery u || negb (URawQuery u =s "") then "?" +:+ URawQuery u else "").
