(* ===== verification/Rings.v ===== *)
(** * Bounded logs

    The rings of recent events that several components keep: an event is
    appended and the oldest are cut off.  internal/spike/spike.go and
    internal/capture/capture.go both do
    [s.events = s.events[len(s.events)-maxEvents:]] after an append. *)

From S2P Require Import Prelude.

Section ring.
Context {A : Type}.

Definition push (limit : nat) (l : list A) (e : A) : list A :=
  let l' := l ++ [e] in
  if (limit <? length l')%nat then drop (length l' - limit) l' else l'.

Lemma push_length limit l e : (length (push limit l e) <= limit)%nat ∨ limit = O ∧ push limit l e = [].
Proof.
  unfold push. destruct (Nat.ltb_spec limit (length (l ++ [e]))) as [H|H]; [|by left].
  left. rewrite length_drop. lia.
Qed.

Lemma push_bound limit l e : (length (push limit l e) <= limit)%nat.
Proof. destruct (push_length limit l e) as [H|[-> ->]]; [done|]. cbn. lia. Qed.

Lemma push_last limit l e : (0 < limit)%nat → last (push limit l e) = Some e.
Proof.
  intros H. unfold push. destruct (Nat.ltb_spec limit (length (l ++ [e]))) as [Hl|Hl]; [|apply last_snoc].
  rewrite drop_app_le by (rewrite length_app in Hl |- *; cbn in *; lia). apply last_snoc.
Qed.

Lemma push_elem limit l e x : x ∈ push limit l e → x ∈ l ∨ x = e.
Proof.
  unfold push. intros Hx. assert (H : x ∈ l ++ [e]).
  { destruct (_ <? _)%nat; [|done]. eapply elem_of_sublist; [done|apply sublist_drop]. }
  apply elem_of_app in H as [H|H%list_elem_of_singleton]; auto.
Qed.

(** The ring of a sequence of events holds its latest ones. *)
Lemma push_suffix limit l : foldl (push limit) [] l = drop (length l - limit) l.
Proof.
  induction l as [|x l IH] using rev_ind; [done|]. rewrite foldl_app, IH. cbn [foldl]. unfold push.
  rewrite !length_app, length_drop. cbn [length].
  destruct (Nat.ltb_spec limit (length l - (length l - limit) + 1)) as [H|H].
  - replace (length l + 1 - limit)%nat with (length l - limit + (length l - (length l - limit) + 1 - limit))%nat by lia.
    rewrite <- drop_drop. f_equal. rewrite drop_app_le by lia. done.
  - replace (length l + 1 - limit)%nat with (length l - limit)%nat by lia. by rewrite drop_app_le by lia.
Qed.
End ring.
