(* ===== verification/Routing.v ===== *)
(** * Redirects to the origin and the trusted transport

    internal/routing/redirect.go: the location a client is redirected to for
    media, which carries a token.  internal/origin/origin.go: the HTTP client
    of every request that carries a credential, with its redirect policy.
    internal/delegation/delegation.go: the exchange of a caller's token for a
    transient one. *)

From S2P Require Import Prelude GoStrings GoHttp GoNet GoUrl.

Module Routing.

(** ** Locations *)

Definition BuildDirectOriginURL (originBase partPath token replxPublicHost : string) : outcome string :=
  if negb (HasPrefix partPath "/") then Err "part path must be absolute"
  else
    match Parse originBase with
    | None => Err "invalid origin base"
    | Some base =>
        if negb (Scheme base =s "https") then Err "origin base must be https"
        else if Host base =s "" then Err "origin base missing host"
        else if negb (replxPublicHost =s "") && EqualFold (Hostname base) replxPublicHost
        then Err "origin must not point back at replx-edge hostname"
        else if token =s "" then Err "media token is required"
        else
          match Parse partPath with
          | None => Err "invalid part path"
          | Some ref =>
              if IsAbs ref || negb (Host ref =s "") || negb (Opaque_ ref =s "")
              then Err "part path must be origin-relative, without authority"
              else
                let target := ResolveReference base ref in
                if negb (EqualFold (Hostname target) (Hostname base)) || negb (EqualFold (Scheme target) (Scheme base))
                then Err "redirect target escaped the configured origin"
                else Ok (URLString (with_query target (Encode (QuerySet (UQuery target) "X-Plex-Token" token))))
          end
    end.

(** [url.Values.Has] and the loop of [RedactedLocation]. *)
Definition QueryHas (q : Values) (k : string) : bool := bool_decide (is_Some (q !! k)).
Definition redact_key (q : Values) (k : string) : Values := if QueryHas q k then QuerySet q k "REDACTED" else q.
Definition RedactedLocation (location : string) : string :=
  match Parse location with
  | None => "<unparseable-location>"
  | Some u => URLString (with_query u (Encode (foldl redact_key (UQuery u) ["X-Plex-Token"; "token"; "authToken"])))
  end.

(** ** The trusted transport *)

(** The policy of [APIClient]: [via] is the number of requests made so
    far. *)
Definition CheckRedirect (base req : URL) (via : nat) : bool :=
  (via =? 0)%nat ||
  (EqualFold (Scheme req) (Scheme base) && EqualFold (Host req) (Host base) && (via <? 5)%nat).
Definition api_base (baseURL : string) : option URL :=
  b ← Parse baseURL; if (Scheme b =s "") || (Host b =s "") then None else Some b.

(** [http.Client.Do] with that policy: [server] answers a request for an URL
    with a location to go to, or finally.  Every URL asked is recorded. *)
Inductive answer := Redirect (location : string) | Final (status : Z) (body : string) | NoAnswer.
Definition with_fragment (u : URL) : URL :=
  mkURL (Scheme u) (Opaque_ u) (User u) (Host u) (UPath u) (RawPath u) (OmitHost u) (ForceQuery u) (URawQuery u) "" "".
Fixpoint client_do (fuel : nat) (base : URL) (server : list URL → URL → answer) (sent : list URL) (u : URL)
    : list URL * option (Z * string) :=
  let sent := sent ++ [u] in
  match server sent u with
  | NoAnswer => (sent, None)
  | Final s b => (sent, Some (s, b))
  | Redirect loc =>
      match Parse loc with
      | None => (sent, None)
      | Some l =>
          let next := ResolveReference u l in
          if CheckRedirect base next (length sent) then
            match fuel with O => (sent, None) | S f => client_do f base server sent next end
          else (sent, None)
      end
  end.

(** [TransparentClient] stops at the first answer. *)
Definition transparent_do (server : list URL → URL → answer) (u : URL) : list URL * answer := ([u], server [u] u).

(** ** Delegation *)

Section delegation.
(** [xml.Unmarshal] of the answer: its [token] attribute. *)
Context (token_attr : string → option string).

Definition delegation_url (originBase : string) : string :=
  TrimSuffix originBase "/" +:+ "/security/token?type=delegation&scope=all".

(** [base] is what the client's redirect policy was built from. *)
Definition FetchWithClient (base : URL) (server : list URL → URL → answer) (originBase userToken : string)
    : list URL * option string :=
  if userToken =s "" then ([], None)
  else match Parse (delegation_url originBase) with
       | None => ([], None)
       | Some u =>
           let '(sent, r) := client_do 5 base server [] u in
           (sent, '(status, body) ← r;
                  if (status <? 200) || (300 <=? status) then None
                  else t ← token_attr (stake (Z.to_nat 65536) body); if t =s "" then None else Some t)
       end.

Definition Fetch (server : list URL → URL → answer) (originBase userToken : string) : list URL * option string :=
  match api_base originBase with
  | None => ([], None)
  | Some base => FetchWithClient base server originBase userToken
  end.
End delegation.

(** ** A redirect stays at the origin *)

Lemma fold_case_nil s : fold_case s = "" → s = "".
Proof. destruct s as [|c s]; [done|]. cbn [fold_case]. repeat case_match; discriminate. Qed.

Lemma EqualFold_nil s : EqualFold "" s = true → s = "".
Proof. unfold EqualFold. intros E%String.eqb_eq. by apply fold_case_nil. Qed.

(** Only an URL without a host has an opaque part. *)
Lemma parse_rest_opaque scheme rest u : parse_rest scheme rest = Some u → Host u ≠ "" → Opaque_ u = "".
Proof.
  unfold parse_rest. destruct (match Cut rest "?" with Some (a, b) => (a, b) | None => (rest, "") end) as [r q].
  cbv zeta. destruct (negb (HasPrefix r "/") && negb (scheme =s "")); [intros [= <-]; done|].
  destruct (negb (HasPrefix r "/") && _); [done|].
  destruct ((negb (scheme =s "") || _) && _).
  - match goal with |- context [let '(authority, p) := ?x in _] => destruct x as [a p] end. destruct (parseAuthority a) as [[us h]|]; [|done].
    cbn [mbind option_bind]. intros E _. by destruct (setPath_parts _ _ _ E) as (_ & -> & _).
  - intros E _. by destruct (setPath_parts _ _ _ E) as (_ & -> & _).
Qed.

Lemma Parse_opaque raw u : Parse raw = Some u → Host u ≠ "" → Opaque_ u = "".
Proof.
  unfold Parse. destruct (match Cut raw "#" with Some (a, b) => (a, b) | None => (raw, "") end) as [a f].
  destruct (parse a) as [v|] eqn:E; [|done]. cbn [mbind option_bind].
  assert (Hv : Host v ≠ "" → Opaque_ v = "").
  { revert E. unfold parse. destruct (negb _); [done|]. destruct (a =s "*"); [by intros [= <-]|].
    destruct (getScheme a) as [[s r]|]; [|done]. cbn [mbind option_bind]. apply parse_rest_opaque. }
  destruct (f =s ""); [intros [= <-]; done|]. destruct (unescape f encodeFragment); [|done]. intros [= <-]. exact Hv.
Qed.

Lemma resolve_user_only base ref i : Scheme ref = "" → Host ref = "" → User ref = Some i → Host (ResolveReference base ref) = "".
Proof.
  intros H1 H2 H3. unfold ResolveReference. rewrite H1, H2, H3. cbn [String.eqb negb orb].
  rewrite bool_decide_eq_false_2 by done. cbn [negb]. unfold or_self.
  match goal with |- context [setPath ?u ?p] => destruct (setPath u p) as [t|] eqn:E end; [|done].
  by destruct (setPath_parts _ _ _ E) as (_ & _ & _ & H).
Qed.

Lemma resolve_no_authority base ref :
  Scheme ref = "" → Host ref = "" → User ref = None → Opaque_ ref = "" → Host base ≠ "" → Opaque_ base = "" →
  let t := ResolveReference base ref in
  Scheme t = Scheme base ∧ Opaque_ t = "" ∧ User t = User base ∧ Host t = Host base.
Proof.
  intros H1 H2 H3 H4 H5 H6. unfold ResolveReference. rewrite H1, H2, H3, H4, H6. cbn [String.eqb negb orb].
  rewrite bool_decide_eq_true_2 by done. cbn [negb]. cbv zeta.
  destruct (if _ && (Fragment ref =s "") then _ else _) as [f rf]. rewrite andb_false_r. unfold or_self.
  match goal with |- context [setPath ?u ?p] => destruct (setPath u p) as [t|] eqn:E end; cbn [default]; [|done].
  by apply setPath_parts in E.
Qed.

(** The text of an [https] URL with a host. *)
Lemma https_string u q :
  Scheme u = "https" → Host u ≠ "" → Opaque_ u = "" → Encode q ≠ "" →
  ∃ path, free_of "?" path ∧ free_of "#" path ∧ (path = "" ∨ ∃ t, path = String "/" t) ∧
    URLString (with_query u (Encode q)) =
    "https://" +:+ authority u +:+ path +:+ ("?" +:+ Encode q) +:+ (if Fragment u =s "" then "" else "#" +:+ EscapedFragment u).
Proof.
  intros Hs Hh Ho Hq. set (p := EscapedPath u). apply String.eqb_neq in Hh, Hq.
  exists ((if negb (p =s "") && negb (HasPrefix p "/") then "/" else "") +:+ p).
  assert (Hfree : ∀ c, c = "?"%char ∨ c = "#"%char →
    free_of c ((if negb (p =s "") && negb (HasPrefix p "/") then "/" else "") +:+ p)).
  { intros c Hc. apply free_of_app. split; [|by apply EscapedPath_free].
    destruct (_ && _); [|done]. by destruct Hc as [->| ->]. }
  split; [by apply Hfree; left|]. split; [by apply Hfree; right|]. split.
  { clearbody p. clear Hfree. destruct (String.eqb_spec p "") as [->|Hp]; [by left|]. right. cbn [negb andb].
    destruct (HasPrefix p "/") eqn:E; cbn [negb]; [apply HasPrefix_spec in E as [t ->]; by exists t|by exists p]. }
  unfold URLString. change (Opaque_ (with_query u (Encode q))) with (Opaque_ u).
  change (URawQuery (with_query u (Encode q))) with (Encode q). change (Fragment (with_query u (Encode q))) with (Fragment u).
  change (EscapedFragment (with_query u (Encode q))) with (EscapedFragment u). rewrite Ho, Hq. cbn [String.eqb negb].
  rewrite orb_true_r. unfold hier_string, authority_string.
  change (Scheme (with_query u (Encode q))) with (Scheme u). change (Host (with_query u (Encode q))) with (Host u).
  change (User (with_query u (Encode q))) with (User u). change (EscapedPath (with_query u (Encode q))) with p.
  change (OmitHost (with_query u (Encode q))) with (OmitHost u). change (UPath (with_query u (Encode q))) with (UPath u).
  rewrite Hs, Hh. cbn [String.eqb negb andb orb]. rewrite !andb_false_r, !andb_true_r. cbn [andb orb negb].
  change ("https" +:+ ":") with "https:". unfold authority.
  destruct (negb (p =s "") && negb (HasPrefix p "/")); [|change (String.eqb ("https:" +:+ _) "") with false];
    cbn [andb]; rewrite !sapp_assoc; reflexivity.
Qed.

(** A redirect never carries its token to another host: the location that is
    built from a public path, however it is written, has the scheme and the
    authority of the configured media origin, which is not the gateway
    itself, and its token parameter is the given one, once; every other
    parameter is one of the resolved reference. *)
Lemma BuildDirectOriginURL_spec originBase partPath token public loc base :
  BuildDirectOriginURL originBase partPath token public = Ok loc → Parse originBase = Some base → Hostname base ≠ "" →
  Scheme base = "https" ∧ (public ≠ "" → EqualFold (Hostname base) public = false) ∧ token ≠ "" ∧
  authority_part loc = Some (authority base) ∧
  values_of (ParseQuery (query_part loc)) "X-Plex-Token" = [token] ∧
  ∃ ref, Parse partPath = Some ref ∧ ∀ k, k ≠ "X-Plex-Token" →
    values_of (ParseQuery (query_part loc)) k = values_of (UQuery (ResolveReference base ref)) k.
Proof.
  intros Hb Hp Hne. unfold BuildDirectOriginURL in Hb. rewrite Hp in Hb. destruct (negb (HasPrefix partPath "/")); [done|].
  destruct (String.eqb_spec (Scheme base) "https") as [Hs|]; [|done]. destruct (String.eqb_spec (Host base) "") as [|Hh]; [done|].
  cbn [negb] in Hb. destruct (negb (public =s "") && EqualFold (Hostname base) public) eqn:Epub; [done|].
  destruct (String.eqb_spec token "") as [|Ht]; [done|]. destruct (Parse partPath) as [ref|] eqn:Er; [|done].
  destruct (IsAbs ref || negb (Host ref =s "") || negb (Opaque_ ref =s "")) eqn:Ea; [done|]. cbv zeta in Hb.
  destruct (negb (EqualFold (Hostname (ResolveReference base ref)) (Hostname base)) || _) eqn:Ef; [done|]. injection Hb as Hb.
  apply orb_false_elim in Ea as [[Ea1 Ea2%negb_false_iff%String.eqb_eq]%orb_false_elim Ea3%negb_false_iff%String.eqb_eq].
  apply negb_false_iff, String.eqb_eq in Ea1. apply orb_false_elim in Ef as [Ef%negb_false_iff _].
  assert (Hu : User ref = None).
  { destruct (User ref) as [i|] eqn:Eu; [|done]. exfalso. apply Hne, EqualFold_nil. rewrite <- Ef. f_equal.
    unfold Hostname at 1. by rewrite (resolve_user_only base ref i). }
  destruct (resolve_no_authority base ref Ea1 Ea2 Hu Ea3 Hh (Parse_opaque _ _ Hp Hh)) as (T1 & T2 & T3 & T4).
  set (t := ResolveReference base ref) in *. set (q := QuerySet (UQuery t) "X-Plex-Token" token) in *.
  assert (Hval : values_of (ParseQuery (Encode q)) "X-Plex-Token" = [token]).
  { rewrite ParseQuery_Encode. apply values_of_insert. }
  assert (Hq : Encode q ≠ "") by (intros E; by rewrite E in Hval).
  destruct (https_string t q) as (path & F1 & F2 & Hpath & E); [congruence..|done|]. rewrite E in Hb.
  assert (Hau : authority t = authority base) by (unfold authority; by rewrite T3, T4).
  split; [done|]. split.
  { intros Hpub. apply String.eqb_neq in Hpub. by rewrite Hpub in Epub. }
  split; [done|]. rewrite Hau in Hb.
  assert (Hqp : query_part loc = Encode q).
  { rewrite <- Hb, <- sapp_assoc, <- sapp_assoc. apply query_part_of; [| |by apply Encode_free; right];
      rewrite !free_of_app; split_and!; (done || apply authority_free; auto). }
  rewrite Hqp. split; [|split; [done|]].
  - rewrite <- Hb. apply authority_part_of; [apply authority_free; auto..|].
    right. destruct Hpath as [->|(s & ->)]; eexists _, _; split; reflexivity.
  - exists ref. split; [done|]. intros k Hk. rewrite ParseQuery_Encode. unfold q, QuerySet, values_of.
    by rewrite lookup_insert_ne by done.
Qed.

(** What is recorded of a location shows none of its tokens. *)
Lemma redact_key_lookup q k j : values_of (redact_key q k) j = if bool_decide (k = j ∧ is_Some (q !! k)) then ["REDACTED"] else values_of q j.
Proof.
  unfold redact_key, QueryHas, QuerySet, values_of. destruct (q !! k) as [v|] eqn:E; [rewrite bool_decide_eq_true_2 by done|].
  - destruct (decide (k = j)) as [<-|Hk]; [|by rewrite lookup_insert_ne, bool_decide_eq_false_2 by naive_solver].
    rewrite lookup_insert_eq. by rewrite bool_decide_eq_true_2.
  - rewrite (bool_decide_eq_false_2 (is_Some None)) by (intros [? [=]]). rewrite bool_decide_eq_false_2; [done|].
    intros [_ [? [=]]].
Qed.

Lemma redact_key_ok q k j : values_of q j = [] ∨ values_of q j = ["REDACTED"] → values_of (redact_key q k) j = [] ∨ values_of (redact_key q k) j = ["REDACTED"].
Proof. rewrite redact_key_lookup. case_bool_decide; auto. Qed.

Lemma redact_key_same q k : values_of (redact_key q k) k = [] ∨ values_of (redact_key q k) k = ["REDACTED"].
Proof.
  rewrite redact_key_lookup. case_bool_decide as H; [by right|]. left. unfold values_of.
  destruct (q !! k) eqn:E; [|done]. exfalso. naive_solver.
Qed.

Lemma RedactedLocation_hides loc k :
  k ∈ ["X-Plex-Token"; "token"; "authToken"] →
  values_of (ParseQuery (query_part (RedactedLocation loc))) k = [] ∨
  values_of (ParseQuery (query_part (RedactedLocation loc))) k = ["REDACTED"].
Proof.
  intros Hk. unfold RedactedLocation. destruct (Parse loc) as [u|] eqn:E; [|by left].
  destruct (Parse_query _ _ E) as [_ Hp]. rewrite URLString_query, ParseQuery_Encode by done. cbn [foldl].
  rewrite !elem_of_cons, elem_of_nil in Hk. destruct Hk as [->|[->|[->|[]]]];
    repeat first [apply redact_key_same|apply redact_key_ok].
Qed.

(** ** Credentials stay at the origin *)

Lemma client_do_spec fuel base server sent u :
  Forall (λ v, EqualFold (Scheme v) (Scheme base) = true ∧ EqualFold (Host v) (Host base) = true) (sent ++ [u]) →
  (length sent <= 4)%nat →
  let sent' := (client_do fuel base server sent u).1 in
  Forall (λ v, EqualFold (Scheme v) (Scheme base) = true ∧ EqualFold (Host v) (Host base) = true) sent' ∧ (length sent' <= 5)%nat.
Proof.
  revert sent u. induction fuel as [|f IH]; intros sent u Hf Hl; cbn [client_do];
    (assert (Hs : (length (sent ++ [u]) <= 5)%nat) by (rewrite length_app; cbn; lia));
    (destruct (server (sent ++ [u]) u) as [loc|s b|]; [|by split..]);
    (destruct (Parse loc) as [l|]; [|by split]);
    (destruct (CheckRedirect base (ResolveReference u l) (length (sent ++ [u]))) eqn:Ec; [|by split]); [by split|].
  unfold CheckRedirect in Ec. apply orb_prop in Ec as [Ec%Nat.eqb_eq|Ec]; [rewrite length_app in Ec; cbn in Ec; lia|].
  apply andb_prop in Ec as [[E1 E2]%andb_prop E3%Nat.ltb_lt]. apply IH; [|lia].
  apply Forall_app. split; [done|]. by repeat constructor.
Qed.

(** The policy stops a chain after five requests, so more fuel changes
    nothing. *)
Lemma client_do_fuel base server sent u f g :
  (1 <= length sent + f)%nat → (5 <= length sent + f)%nat → (f <= g)%nat →
  client_do g base server sent u = client_do f base server sent u.
Proof.
  revert sent u g. induction f as [|f IH]; intros sent u g H0 H5 Hg.
  - assert (Hc : ∀ v, CheckRedirect base v (length (sent ++ [u])) = false).
    { intros v. unfold CheckRedirect. rewrite length_app. cbn [length].
      rewrite (proj2 (Nat.eqb_neq _ _)), (proj2 (Nat.ltb_ge _ _)) by lia. apply andb_false_r. }
    destruct g; cbn [client_do]; destruct (server _ _); try done; destruct (Parse _); try done; by rewrite Hc.
  - destruct g as [|g]; [lia|]. cbn [client_do]. destruct (server _ _); try done. destruct (Parse _); try done.
    destruct (CheckRedirect _ _ _); [|done]. apply IH; rewrite ?length_app; cbn; lia.
Qed.

Lemma EqualFold_refl s : EqualFold s s = true.
Proof. unfold EqualFold. apply String.eqb_refl. Qed.

(** A caller's token leaves only for the configured origin: whatever the
    server answers, every request of a delegation, redirects included, goes
    to the scheme and the host of the configured base, there are at most five,
    none without a caller's token, and a transient token that is returned was
    read from a successful answer. *)
Theorem delegation_stays_home token_attr server originBase userToken base :
  Parse originBase = Some base →
  let '(sent, r) := Fetch token_attr server originBase userToken in
  Forall (λ v, EqualFold (Scheme v) (Scheme base) = true ∧ EqualFold (Host v) (Host base) = true) sent ∧
  (length sent <= 5)%nat ∧ (userToken = "" → sent = []) ∧
  ∀ t, r = Some t → t ≠ "" ∧ ∃ status body,
    (client_do 5 base server [] (default base (Parse (delegation_url originBase)))).2 = Some (status, body) ∧
    200 <= status < 300 ∧ token_attr (stake (Z.to_nat 65536) body) = Some t.
Proof.
  intros HP. unfold Fetch, api_base. rewrite HP. cbn [mbind option_bind].
  destruct (String.eqb_spec (Scheme base) "") as [|Hs]; [by split_and!; try done; cbn; try lia|].
  destruct (String.eqb_spec (Host base) "") as [|Hh]; [by split_and!; try done; cbn; try lia|]. cbn [orb]. unfold FetchWithClient.
  destruct (String.eqb_spec userToken "") as [|Hu]; [by split_and!; try done; cbn; try lia|].
  destruct (Parse (delegation_url originBase)) as [u|] eqn:Eu; [|by split_and!; try done; cbn; try lia]. cbn [default from_option id].
  destruct (Parse_extend _ _ _ _ HP Hs Hh Eu) as (E1 & _ & E3).
  destruct (client_do_spec 5 base server [] u) as [Hf Hl]; [|cbn; lia|].
  { repeat constructor; rewrite ?E1, ?E3; apply EqualFold_refl. }
  destruct (client_do 5 base server [] u) as [sent r]. split; [done|]. split; [done|]. split; [done|].
  intros t. destruct r as [[status body]|]; [|done]. cbn [mbind option_bind].
  destruct ((status <? 200) || (300 <=? status)) eqn:Est; [done|]. destruct (token_attr _) as [t'|] eqn:Et; [|done].
  cbn [mbind option_bind]. destruct (String.eqb_spec t' "") as [|Ht]; [done|]. intros [= <-]. split; [done|].
  exists status, body. apply orb_false_elim in Est as [?%Z.ltb_ge ?%Z.leb_gt]. split; [done|]. split; [lia|exact Et].
Qed.

(** A server that redirects to another host once it has been asked twice. *)
Definition wandering (sent : list URL) (u : URL) : answer :=
  if (length sent <? 2)%nat then Redirect "/security/token2" else Redirect "https://evil.example/take".
Lemma delegation_stays_home_witness :
  (length (Fetch (λ b, Some b) wandering "https://pms.example:32400/" "secret").1 <= 5)%nat ∧
  (Fetch (λ b, Some b) wandering "https://pms.example:32400/" "secret").2 = None.
Proof.
  split; [|vm_compute; reflexivity].
  pose proof (delegation_stays_home (λ b, Some b) wandering "https://pms.example:32400/" "secret"
    (mkURL "https" "" None "pms.example:32400" "/" "" false false "" "" "") eq_refl) as H.
  destruct (Fetch _ _ _ _) as [sent r]. exact (proj1 (proj2 H)).
Defined.

End Routing.
