(* ===== verification/Inventory.v ===== *)
(** * The inventory report

    internal/inventory/inventory.go: a command that counts what a server
    holds through read-only requests, bounded in number, and says of every
    count whether it was measured.

    The network is a parameter that answers the n-th request; JSON decoding
    is one too.  The two goroutines of a section write different fields and
    share nothing but the semaphore, so that what each of them does depends
    on the answers to its own requests only; they are run one after the
    other, under answers that are arbitrary. *)

From S2P Require Import Prelude GoStrings GoHttp GoNet GoUrl Routing.

Module Inventory.

Record Config := mkConfig {
  BaseURL : string; Token : string; PageSize : Z; Workers : Z; RequestTimeout : Z; MaxPages : Z }.
Record Client := mkClient { base : URL; token : string; pageSize : Z; workers : Z; maxPages : Z; timeout : Z }.
Record Count := mkCount { Value : Z; Status : string; Error : string }.
Record Section_ := mkSection {
  ID : string; Title : string; Type_ : string; Movies : Count; Shows : Count; Seasons : Count; Episodes : Count; Collections : Count }.
Record Report := mkReport {
  Sections : Count; AllMovies : Count; AllShows : Count; AllSeasons : Count; AllEpisodes : Count; AllCollections : Count;
  Libraries : list Section_ }.

Definition HasIncompleteCounts (r : Report) : bool :=
  let counts := [Sections r; AllMovies r; AllShows r; AllSeasons r; AllEpisodes r; AllCollections r] ++
    (Libraries r ≫= λ s, [Movies s; Shows s; Seasons s; Episodes s; Collections s]) in
  existsb (λ c, negb (Status c =s "measured")) counts.

Definition Second : Z := 1000000000.
Definition isLoopback (host : string) : bool :=
  EqualFold host "localhost" || match ParseIP host with Some ip => IsLoopback ip | None => false end.
Definition or_default (n d : Z) : Z := if n =? 0 then d else n.
Definition New (cfg : Config) : outcome Client :=
  if Token cfg =s "" then Err "inventory: PMS token is required"
  else match Parse (TrimSpace (BaseURL cfg)) with
  | None => Err "inventory: invalid PMS URL"
  | Some u =>
      if Host u =s "" then Err "inventory: invalid PMS URL"
      else if negb (bool_decide (User u = None)) || negb (URawQuery u =s "") || negb (Fragment u =s "")
      then Err "inventory: PMS URL must not contain credentials, query, or fragment"
      else if negb (Scheme u =s "https") && negb ((Scheme u =s "http") && isLoopback (Hostname u))
      then Err "inventory: PMS URL must use HTTPS (HTTP allowed only for loopback)"
      else
        let ps := or_default (PageSize cfg) 200 in
        let wk := or_default (Workers cfg) 4 in
        let tm := or_default (RequestTimeout cfg) (15 * Second) in
        let mp := or_default (MaxPages cfg) 10000 in
        if (ps <? 1) || (1000 <? ps) then Err "inventory: page size must be 1..1000"
        else if (wk <? 1) || (16 <? wk) then Err "inventory: workers must be 1..16"
        else if (tm <? Second) || (120 * Second <? tm) then Err "inventory: request timeout must be 1s..2m"
        else if (mp <? 1) || (100000 <? mp) then Err "inventory: max pages must be 1..100000"
        else Ok (mkClient u (Token cfg) ps wk mp tm)
  end.

Record item := mkItem { i_key : string; i_title : string; i_type : string; i_ratingKey : string }.
#[export] Instance item_eq_dec : EqDecision item.
Proof. solve_decision. Defined.
(** [container]; a missing [Metadata] is nil. *)
Record container := mkContainer { TotalSize : option Z; Offset : option Z; Directory : list item; Metadata : option (list item) }.

(** A request is a GET. *)
Record request := mkRequest { rq_url : string; rq_header : Header }.
Inductive reply := Canceled | Failed | Replied (status : Z) (body : string).

Definition count {A} (l : list A) : Z := Z.of_nat (length l).
Definition unknownCount : Count := mkCount 0 "unknown" "section type is not supported for this count".
Definition emptyCount : Count := mkCount 0 "measured" "".
Definition failedCount (total : Z) (e : string) : Count := mkCount total "error" e.
Definition safeError (s : string) : string :=
  if HasPrefix s "HTTP status " then s else if s =s "context canceled" then s else "request failed".

Fixpoint sum_measured (total : Z) (l : list Count) : Count :=
  match l with
  | [] => mkCount total "measured" ""
  | c :: l =>
      if negb (Status c =s "measured") then mkCount 0 "unknown" "one or more libraries could not be counted"
      else sum_measured (total + Value c) l
  end.
Definition sumCounts (sections : list Section_) (f : Section_ → Count) : Count := sum_measured 0 (f <$> sections).

(** ** Requests *)

Section run.
Context (c : Client) (net : nat → request → reply) (decode : string → option container).

(** How many requests were started, and those that were sent. *)
Definition St : Type := nat * list request.
Definition M (A : Type) : Type := St → St * A.
Definition ret {A} (a : A) : M A := λ s, (s, a).
Definition bindM {A B} (p : M A) (f : A → M B) : M B := λ s, let '(s, a) := p s in f a s.
Notation "x <- p ;; k" := (bindM p (λ x, k)) (at level 60, p at next level, right associativity).

Definition page_query (query : Values) (offset size : Z) : Values :=
  QuerySet (QuerySet query "X-Plex-Container-Start" (Itoa offset)) "X-Plex-Container-Size" (Itoa size).
Definition request_for (path : string) (q : Values) : request :=
  let u := with_query (set_path (base c) (TrimSuffix (UPath (base c)) "/" +:+ path) (RawPath (base c))) (Encode q) in
  mkRequest (URLString u)
    (HSet (HSet (HSet [] "Accept" "application/json") "X-Plex-Token" (token c)) "X-Plex-Client-Identifier" "replx-inventory").

Definition getJSON (path : string) (q : Values) : M (string + container) := λ '(n, sent),
  let r := request_for path q in
  let answer := net n r in
  match answer with
  | Canceled => ((S n, sent), inl "context canceled")
  | _ =>
      match Parse (rq_url r) with
      | None => ((S n, sent), inl "request construction failed")
      | Some _ =>
          ((S n, sent ++ [r]),
           match answer with
           | Replied status body =>
               if (status <? 200) || (300 <=? status) then inl ("HTTP status " +:+ Itoa status)
               else match decode (stake (Z.to_nat 8388608) body) with
                    | Some p => inr p
                    | None => inl "invalid or oversized JSON response"
                    end
           | _ => inl "request failed (network, TLS, or timeout)"
           end)
      end
  end.

Definition items_of (p : container) : list item := default (Directory p) (Metadata p).
Definition fetchPage (path : string) (query : Values) (offset size : Z) : M (string + (container * list item)) :=
  r <- getJSON path (page_query query offset size) ;;
  ret (match r with inl e => inl e | inr p => inr (p, items_of p) end).

(** The tests a page has to pass, with the page before it. *)
Definition page_error (p : container) (items : list item) (offset : Z) (previous : option (list item)) : option string :=
  if match Offset p with Some o => negb (o =? offset) | None => false end then Some "pagination offset mismatch"
  else if match TotalSize p with Some t => (offset + count items <? t) && (count items <? pageSize c) | None => false end
  then Some "pagination ended before reported total"
  else if (pageSize c <=? count items) && bool_decide (previous = Some items) then Some "pagination did not advance"
  else None.
Definition next_previous (items : list item) (previous : option (list item)) : option (list item) :=
  if pageSize c <=? count items then Some items else previous.
Definition page_is_last (p : container) (items : list item) (offset : Z) : bool :=
  (count items <? pageSize c) || match TotalSize p with Some t => t <=? offset + count items | None => false end.

Fixpoint list_from (pages : nat) (path : string) (query : Values) (pageNo : Z) (all : list item) (previous : option (list item))
    : M (list item * option string) :=
  match pages with
  | O => ret (all, Some "pagination page limit reached")
  | S pages =>
      let offset := pageNo * pageSize c in
      r <- fetchPage path query offset (pageSize c) ;;
      match r with
      | inl e => ret (all, Some e)
      | inr (p, page) =>
          match page_error p page offset previous with
          | Some e => ret (all, Some e)
          | None =>
              if page_is_last p page offset || (count page =? 0) then ret (all ++ page, None)
              else list_from pages path query (pageNo + 1) (all ++ page) (next_previous page previous)
          end
      end
  end.
Definition list_ (path : string) (query : Values) : M (list item * option string) :=
  list_from (Z.to_nat (maxPages c)) path query 0 [] None.

Fixpoint countPages_from (pages : nat) (path : string) (q : Values) (pageNo total : Z) (previous : option (list item)) : M Count :=
  match pages with
  | O => ret (failedCount total "pagination page limit reached")
  | S pages =>
      let offset := pageNo * pageSize c in
      r <- fetchPage path q offset (pageSize c) ;;
      match r with
      | inl e => ret (failedCount total (safeError e))
      | inr (p, items) =>
          match page_error p items offset previous with
          | Some e => ret (failedCount total e)
          | None =>
              if page_is_last p items offset then ret (mkCount (total + count items) "measured" "")
              else countPages_from pages path q (pageNo + 1) (total + count items) (next_previous items previous)
          end
      end
  end.
Definition countPages (path : string) (q : Values) : M Count := countPages_from (Z.to_nat (maxPages c)) path q 0 0 None.

Definition countItems (path : string) (q : Values) : M Count :=
  r <- fetchPage path q 0 1 ;;
  match r with
  | inl e => ret (failedCount 0 (safeError e))
  | inr (first, firstItems) =>
      if match Offset first with Some o => negb (o =? 0) | None => false end then ret (failedCount 0 "pagination offset mismatch")
      else match TotalSize first with
      | Some total =>
          if (total <? 0) || ((0 <? total) && (count firstItems =? 0)) || ((total =? 0) && (0 <? count firstItems))
          then ret (failedCount 0 "response contradicts reported total")
          else ret (mkCount total "measured" "")
      | None => countPages path q
      end
  end.

(** ** The report *)

Definition collections_path (id : string) : string := "/library/sections/" +:+ escape id encodePathSegment +:+ "/collections".
Definition all_path (id : string) : string := "/library/sections/" +:+ escape id encodePathSegment +:+ "/all".
Definition of_type (t : string) : Values := {["type" := [t]]}.

Definition section_report (raw : item) : M Section_ :=
  let id := i_key raw in
  if id =s "" then
    let failed := failedCount 0 "section entry has no key" in
    ret (mkSection "" (i_title raw) (i_type raw) failed failed failed failed failed)
  else
    collections <- countItems (collections_path id) ∅ ;;
    if i_type raw =s "movie" then
      movies <- countItems (all_path id) (of_type "1") ;;
      ret (mkSection id (i_title raw) (i_type raw) movies emptyCount emptyCount emptyCount collections)
    else if i_type raw =s "show" then
      shows <- countItems (all_path id) (of_type "2") ;;
      seasons <- countItems (all_path id) (of_type "3") ;;
      episodes <- countItems (all_path id) (of_type "4") ;;
      ret (mkSection id (i_title raw) (i_type raw) emptyCount shows seasons episodes collections)
    else ret (mkSection id (i_title raw) (i_type raw) unknownCount unknownCount unknownCount unknownCount collections).

Fixpoint section_reports (l : list item) : M (list Section_) :=
  match l with
  | [] => ret []
  | raw :: l => s <- section_report raw ;; rest <- section_reports l ;; ret (s :: rest)
  end.

Definition Inventory : M Report :=
  r <- list_ "/library/sections" ∅ ;;
  match r with
  | (_, Some e) => let failed := failedCount 0 (safeError e) in ret (mkReport failed failed failed failed failed failed [])
  | (sections, None) =>
      libraries <- section_reports sections ;;
      ret (mkReport (mkCount (count sections) "measured" "")
             (sumCounts libraries Movies) (sumCounts libraries Shows) (sumCounts libraries Seasons)
             (sumCounts libraries Episodes) (sumCounts libraries Collections) libraries)
  end.

(** ** What is measured is what the server holds *)

(** The server answers the pages of a listing truthfully, or not at all: a
    page may fail in any way, and may leave out the total. *)
Definition honest (path : string) (q : Values) (listing : list item) : Prop :=
  ∀ n offset size status body p,
    net n (request_for path (page_query q offset size)) = Replied status body → 200 <= status < 300 →
    decode (stake (Z.to_nat 8388608) body) = Some p →
    items_of p = take (Z.to_nat size) (drop (Z.to_nat offset) listing) ∧ ∀ t, TotalSize p = Some t → t = count listing.

Lemma fetchPage_honest path q L offset size s p items :
  honest path q L → (fetchPage path q offset size s).2 = inr (p, items) →
  items = take (Z.to_nat size) (drop (Z.to_nat offset) L) ∧ ∀ t, TotalSize p = Some t → t = count L.
Proof.
  intros Hh. unfold fetchPage, bindM, getJSON, ret. destruct s as [n sent]. cbv zeta.
  destruct (net n _) as [| |status body] eqn:En; [done|by destruct (Parse _)|].
  destruct (Parse _); [|done]. cbn [snd]. destruct ((status <? 200) || (300 <=? status)) eqn:Es; [done|].
  destruct (decode _) as [p'|] eqn:Ed; [|done]. intros [= <- <-]. eapply Hh; [done|lia|done].
Qed.

Lemma take_short {A} (k o : nat) (l : list A) : (o <= length l)%nat → (length (take k (drop o l)) < k)%nat → take k (drop o l) = drop o l.
Proof. intros Ho Hk. rewrite length_take, length_drop in Hk. apply take_ge. rewrite length_drop. lia. Qed.

(** A last page reaches the end. *)
Lemma last_page_ends p (L items : list item) (o : nat) :
  1 <= pageSize c → (o <= length L)%nat → items = take (Z.to_nat (pageSize c)) (drop o L) →
  (∀ t, TotalSize p = Some t → t = count L) → page_is_last p items (Z.of_nat o) = true → items = drop o L.
Proof.
  intros Hp Ho -> Ht [Hl|Hl]%orb_prop.
  - apply take_short; [done|]. unfold count in Hl. lia.
  - destruct (TotalSize p) as [t|]; [|done]. rewrite (Ht t eq_refl) in Hl. unfold count in Hl.
    rewrite length_take, length_drop in Hl. apply take_ge. rewrite length_drop. apply Z.leb_le in Hl. destruct (Nat.min_spec (Z.to_nat (pageSize c)) (length L - o)); lia.
Qed.

Lemma full_page p (L items : list item) (o : nat) :
  1 <= pageSize c → (o <= length L)%nat → items = take (Z.to_nat (pageSize c)) (drop o L) →
  page_is_last p items (Z.of_nat o) = false → length items = Z.to_nat (pageSize c) ∧ (o + length items <= length L)%nat.
Proof.
  intros Hp Ho -> [Hl _]%orb_false_elim. unfold count in Hl. rewrite length_take, length_drop in *. apply Z.ltb_ge in Hl. destruct (Nat.min_spec (Z.to_nat (pageSize c)) (length L - o)); lia.
Qed.

Lemma countPages_exact pages path q L k total previous s :
  honest path q L → 1 <= pageSize c → total = Z.of_nat k * pageSize c → total <= count L →
  Status (countPages_from pages path q (Z.of_nat k) total previous s).2 = "measured" →
  Value (countPages_from pages path q (Z.of_nat k) total previous s).2 = count L.
Proof.
  intros Hh Hp. revert k total previous s. induction pages as [|pages IH]; intros k total previous s Et Hle; [done|].
  cbn [countPages_from]. unfold bindM. destruct (fetchPage path q (Z.of_nat k * pageSize c) (pageSize c) s) as [s' r] eqn:Ef.
  destruct r as [e|[p items]]; [done|]. destruct (page_error _ _ _ _); [done|].
  destruct (fetchPage_honest path q L (Z.of_nat k * pageSize c) (pageSize c) s p items Hh) as [Ei Ht]; [by rewrite Ef|].
  assert (0 <= total) by nia. rewrite <- Et in *. replace total with (Z.of_nat (Z.to_nat total)) in * by lia. rewrite Nat2Z.id in Ei.
  set (o := Z.to_nat total) in *. clearbody o. unfold count in Hle.
  destruct (page_is_last p items (Z.of_nat o)) eqn:El.
  - intros _. cbn. apply (last_page_ends p L items o) in El; [|done|lia|done|done]. subst items. unfold count. rewrite El, length_drop. lia.
  - destruct (full_page p L items o) as [Hl1 Hl2]; [done|lia|done|done|].
    replace (Z.of_nat k + 1) with (Z.of_nat (S k)) by lia. apply IH; unfold count in *; [nia|lia].
Qed.

Lemma countItems_exact path q L s :
  honest path q L → 1 <= pageSize c → Status (countItems path q s).2 = "measured" → Value (countItems path q s).2 = count L.
Proof.
  intros Hh Hp. unfold countItems, bindM. destruct (fetchPage path q 0 1 s) as [s' [e|[p items]]] eqn:Ef; [done|].
  destruct (fetchPage_honest path q L 0 1 s p items Hh) as [_ Ht]; [by rewrite Ef|].
  destruct (match Offset p with Some o => _ | None => _ end); [done|]. destruct (TotalSize p) as [t|]; [|].
  - destruct (_ || _); [done|]. intros _. cbn. by apply Ht.
  - apply (countPages_exact _ path q L 0 0); [done|done|lia|unfold count; lia].
Qed.

Lemma list_exact pages path q L k all previous s l :
  honest path q L → 1 <= pageSize c → all = take (k * Z.to_nat (pageSize c)) L → (k * Z.to_nat (pageSize c) <= length L)%nat →
  (list_from pages path q (Z.of_nat k) all previous s).2 = (l, None) → l = L.
Proof.
  intros Hh Hp. revert k all previous s. induction pages as [|pages IH]; intros k all previous s Ea Hle; [done|].
  cbn [list_from]. unfold bindM. destruct (fetchPage path q (Z.of_nat k * pageSize c) (pageSize c) s) as [s' r] eqn:Ef.
  destruct r as [e|[p items]]; [done|]. destruct (page_error _ _ _ _); [done|].
  destruct (fetchPage_honest path q L (Z.of_nat k * pageSize c) (pageSize c) s p items Hh) as [Ei Ht]; [by rewrite Ef|].
  replace (Z.of_nat k * pageSize c) with (Z.of_nat (k * Z.to_nat (pageSize c))) in * by lia. rewrite Nat2Z.id in Ei.
  set (o := (k * Z.to_nat (pageSize c))%nat) in *. subst all.
  destruct (page_is_last p items (Z.of_nat o) || (count items =? 0)) eqn:El.
  - assert (Hl : page_is_last p items (Z.of_nat o) = true).
    { destruct (page_is_last _ _ _) eqn:E; [done|]. destruct (full_page p L items o) as [H1 _]; [done..|].
      unfold count in El. cbn in El. lia. }
    apply (last_page_ends p L items o) in Hl; [|done..]. intros [= <-]. rewrite Hl. apply take_drop.
  - apply orb_false_elim in El as [El _]. destruct (full_page p L items o) as [Hl1 Hl2]; [done..|].
    replace (Z.of_nat k + 1) with (Z.of_nat (S k)) by lia. apply IH; [|lia].
    rewrite Ei, take_take_drop. f_equal. unfold o. lia.
Qed.

(** What a server holds, by path and query, and what should be counted of a
    section: a movie section holds movies only, a show section shows, seasons
    and episodes. *)
Section server.
Context (srv : string → Values → list item).
Definition if_type (t kind : string) (d : item) : Z :=
  if i_type d =s t then count (srv (all_path (i_key d)) (of_type kind)) else 0.
Definition expected_collections (d : item) : Z := count (srv (collections_path (i_key d)) ∅).

(** The five measures: the total, the part of a library, what it should be. *)
Definition measures : list ((Report → Count) * (Section_ → Count) * (item → Z)) :=
  [(AllMovies, Movies, if_type "movie" "1"); (AllShows, Shows, if_type "show" "2"); (AllSeasons, Seasons, if_type "show" "3");
   (AllEpisodes, Episodes, if_type "show" "4"); (AllCollections, Collections, expected_collections)].

Definition exact (k : Count) (n : Z) : Prop := Status k = "measured" → Value k = n.
Definition library_exact (d : item) (lib : Section_) : Prop :=
  ID lib = i_key d ∧ Title lib = i_title d ∧ Type_ lib = i_type d ∧
  ∀ total part expected, (total, part, expected) ∈ measures → exact (part lib) (expected d).

(** The listings the report is made of are answered truthfully. *)
Definition served : Prop :=
  honest "/library/sections" ∅ (srv "/library/sections" ∅) ∧
  ∀ d, d ∈ srv "/library/sections" ∅ →
    honest (collections_path (i_key d)) ∅ (srv (collections_path (i_key d)) ∅) ∧
    ∀ kind, kind ∈ ["1"; "2"; "3"; "4"] → honest (all_path (i_key d)) (of_type kind) (srv (all_path (i_key d)) (of_type kind)).

Context (srv_served : served) (page_pos : 1 <= pageSize c).

Lemma in_measures total part expected (P : (Report → Count) → (Section_ → Count) → (item → Z) → Prop) :
  P AllMovies Movies (if_type "movie" "1") → P AllShows Shows (if_type "show" "2") → P AllSeasons Seasons (if_type "show" "3") →
  P AllEpisodes Episodes (if_type "show" "4") → P AllCollections Collections expected_collections →
  (total, part, expected) ∈ measures → P total part expected.
Proof. unfold measures. rewrite !elem_of_cons, elem_of_nil. naive_solver. Qed.

Lemma exact_items path q s : honest path q (srv path q) → exact (countItems path q s).2 (count (srv path q)).
Proof. intros Hh H. by apply countItems_exact. Qed.

Lemma section_report_exact d s : d ∈ srv "/library/sections" ∅ → library_exact d (section_report d s).2.
Proof.
  intros Hd. destruct srv_served as [_ Hs]. destruct (Hs d Hd) as [Hc Hk]. clear Hs.
  unfold section_report, bindM, ret. destruct (String.eqb_spec (i_key d) "") as [Ek|Ek].
  { split_and!; [by rewrite Ek|done|done|]. intros total part expected Hm. by apply (in_measures total part expected (λ _ p e, exact (p _) (e d))). }
  destruct (countItems (collections_path (i_key d)) ∅ s) as [s1 k1] eqn:E1.
  assert (H1 : exact k1 (expected_collections d)).
  { pose proof (exact_items (collections_path (i_key d)) ∅ s Hc) as H. by rewrite E1 in H. }
  assert (Hi : ∀ t kind s' k s2, kind ∈ ["1"; "2"; "3"; "4"] → i_type d = t → countItems (all_path (i_key d)) (of_type kind) s' = (s2, k) → exact k (if_type t kind d)).
  { intros t kind s' k s2 Hkind <- E. unfold if_type. rewrite String.eqb_refl.
    pose proof (exact_items (all_path (i_key d)) (of_type kind) s' (Hk kind Hkind)) as H. by rewrite E in H. }
  assert (Hkinds : "1" ∈ ["1"; "2"; "3"; "4"] ∧ "2" ∈ ["1"; "2"; "3"; "4"] ∧ "3" ∈ ["1"; "2"; "3"; "4"] ∧ "4" ∈ ["1"; "2"; "3"; "4"]) by set_solver.
  destruct Hkinds as (K1 & K2 & K3 & K4).
  assert (Hz : ∀ t kind, i_type d ≠ t → exact emptyCount (if_type t kind d)).
  { intros t kind Ht _. unfold if_type. by apply String.eqb_neq in Ht as ->. }
  destruct (String.eqb_spec (i_type d) "movie") as [Em|Em].
  { destruct (countItems (all_path (i_key d)) (of_type "1") s1) as [s2 k2] eqn:E2. split_and!; [done..|].
    assert (i_type d ≠ "show") by (by rewrite Em).
    intros total part expected Hm. apply (in_measures total part expected (λ _ p e, exact (p _) (e d))); cbn; eauto. }
  destruct (String.eqb_spec (i_type d) "show") as [Es|Es].
  { destruct (countItems (all_path (i_key d)) (of_type "2") s1) as [s2 k2] eqn:E2.
    destruct (countItems (all_path (i_key d)) (of_type "3") s2) as [s3 k3] eqn:E3.
    destruct (countItems (all_path (i_key d)) (of_type "4") s3) as [s4 k4] eqn:E4. split_and!; [done..|].
    intros total part expected Hm. apply (in_measures total part expected (λ _ p e, exact (p _) (e d))); cbn; eauto. }
  split_and!; [done..|]. intros total part expected Hm. by apply (in_measures total part expected (λ _ p e, exact (p _) (e d))).
Qed.

Lemma section_reports_exact l s : l ⊆ srv "/library/sections" ∅ → Forall2 library_exact l (section_reports l s).2.
Proof.
  revert s. induction l as [|d l IH]; intros s Hl; [constructor|]. cbn [section_reports]. unfold bindM, ret.
  pose proof (section_report_exact d s ltac:(set_solver)) as Hd. destruct (section_report d s) as [s1 lib].
  specialize (IH s1 ltac:(set_solver)). destruct (section_reports l s1) as [s2 libs]. by constructor.
Qed.

Lemma sum_measured_exact total l :
  Status (sum_measured total l) = "measured" →
  Forall (λ k, Status k = "measured") l ∧ Value (sum_measured total l) = total + foldr Z.add 0 (Value <$> l).
Proof.
  revert total. induction l as [|k l IH]; intros total; cbn [sum_measured]; [intros _; split; [constructor|cbn; lia]|].
  destruct (String.eqb_spec (Status k) "measured") as [Hk|]; [|done]. cbn [negb]. intros [H1 H2]%IH.
  split; [by constructor|]. rewrite H2. cbn. lia.
Qed.

Lemma sumCounts_exact (sections : list item) libs (part : Section_ → Count) (expected : item → Z) :
  Forall2 (λ d lib, exact (part lib) (expected d)) sections libs →
  exact (sumCounts libs part) (foldr Z.add 0 (expected <$> sections)).
Proof.
  intros Hf [Hm Hv]%sum_measured_exact. unfold sumCounts. rewrite Hv, Z.add_0_l. clear Hv.
  induction Hf as [|d lib sections libs Hd Hf IH]; [done|]. rewrite !fmap_cons in *. apply Forall_cons in Hm as [Hk Hm].
  cbn [foldr]. by rewrite (Hd Hk), IH.
Qed.
(** A report without incomplete counts is measured throughout. *)
Lemma complete_is_measured r total part expected :
  HasIncompleteCounts r = false →
  Status (Sections r) = "measured" ∧
  ((total, part, expected) ∈ measures → Status (total r) = "measured" ∧ Forall (λ lib, Status (part lib) = "measured") (Libraries r)).
Proof.
  intros Hr. unfold HasIncompleteCounts in Hr.
  assert (Hall : ∀ k, k ∈ [Sections r; AllMovies r; AllShows r; AllSeasons r; AllEpisodes r; AllCollections r] ++
    (Libraries r ≫= λ s, [Movies s; Shows s; Seasons s; Episodes s; Collections s]) → Status k = "measured").
  { intros k Hk. destruct (String.eqb_spec (Status k) "measured") as [|Hn]; [done|]. exfalso.
    rewrite <- Bool.not_true_iff_false in Hr. apply Hr, existsb_exists. exists k. split; [by apply list_elem_of_In|].
    by apply negb_true_iff, String.eqb_neq. }
  assert (Hlib : ∀ part : Section_ → Count, (∀ lib, part lib ∈ [Movies lib; Shows lib; Seasons lib; Episodes lib; Collections lib]) →
    Forall (λ lib, Status (part lib) = "measured") (Libraries r)).
  { intros part' Hpart. apply Forall_forall. intros lib Hl. apply Hall, elem_of_app. right. apply list_elem_of_bind. eauto. }
  assert (Htot : ∀ k, In k [Sections r; AllMovies r; AllShows r; AllSeasons r; AllEpisodes r; AllCollections r] → Status k = "measured").
  { intros k Hk. apply Hall, elem_of_app. left. by apply list_elem_of_In. }
  split; [apply Htot; cbn; auto|].
  apply (in_measures total part expected (λ t p _, Status (t r) = "measured" ∧ Forall (λ lib, Status (p lib) = "measured") (Libraries r)));
    (split; [apply Htot; cbn; auto 10|apply Hlib; intros lib; apply list_elem_of_In; cbn; auto 10]).
Qed.

(** The report has failed, or is built from the sections of the server. *)
Lemma Inventory_cases s :
  (∃ e, let k := failedCount 0 e in (Inventory s).2 = mkReport k k k k k k []) ∨
  ∃ libs, Forall2 library_exact (srv "/library/sections" ∅) libs ∧
    (Inventory s).2 = mkReport (mkCount (count (srv "/library/sections" ∅)) "measured" "")
      (sumCounts libs Movies) (sumCounts libs Shows) (sumCounts libs Seasons) (sumCounts libs Episodes) (sumCounts libs Collections) libs.
Proof.
  unfold Inventory, bindM. destruct (list_ _ _ s) as [s1 [l [e|]]] eqn:El; [left; by eexists|right].
  assert (l = srv "/library/sections" ∅) as ->.
  { apply (list_exact (Z.to_nat (maxPages c)) "/library/sections" ∅ _ 0 [] None s); [exact (proj1 srv_served)|done|done|lia|]. unfold list_ in El. change (Z.of_nat 0) with 0. by rewrite El. }
  pose proof (section_reports_exact (srv "/library/sections" ∅) s1 ltac:(done)) as Hf.
  destruct (section_reports _ s1) as [s2 libs]. by exists libs.
Qed.
End server.

(** C30: what the report calls measured is what the server holds: when every
    page the server answers is truthful (it may fail any request, and may
    leave out totals), the sections are reported in order and completely, and
    each count of a library and each total that is marked as measured is
    exact.  Without the sections nothing is marked as measured, and a report
    without incomplete counts is measured throughout. *)
Theorem measured_counts_are_exact srv s :
  served srv → 1 <= pageSize c →
  let r := (Inventory s).2 in
  let sections := srv "/library/sections" ∅ in
  (Status (Sections r) = "measured" → Value (Sections r) = count sections ∧ Forall2 (library_exact srv) sections (Libraries r)) ∧
  (∀ total part expected, (total, part, expected) ∈ measures srv → Status (total r) = "measured" →
     Status (Sections r) = "measured" ∧ Value (total r) = foldr Z.add 0 (expected <$> sections)) ∧
  (HasIncompleteCounts r = false → Status (Sections r) = "measured" ∧
     ∀ total part expected, (total, part, expected) ∈ measures srv →
       Status (total r) = "measured" ∧ Forall (λ lib, Status (part lib) = "measured") (Libraries r)).
Proof.
  intros Hh Hp r sections. split_and!; [| |intros Hr; split; [by apply (complete_is_measured srv r AllMovies Movies (λ _, 0))|
    intros total part expected; by apply (complete_is_measured srv r)]];
    destruct (Inventory_cases srv Hh Hp s) as [[e Er]|(libs & Hf & Er)]; unfold r; rewrite Er; clear r Er.
  - done.
  - done.
  - intros total part expected. apply (in_measures srv _ _ _ (λ t _ x, Status (t _) = "measured" → _ ∧ Value (t _) = foldr Z.add 0 (x <$> _))); done.
  - intros total part expected Hm Hs. split; [done|]. revert Hs.
    assert (Hx : exact (sumCounts libs part) (foldr Z.add 0 (expected <$> sections))).
    { apply sumCounts_exact. eapply Forall2_impl; [exact Hf|]. intros d lib (_ & _ & _ & H). by eapply H. }
    revert Hx. revert Hm. apply (in_measures srv _ _ _ (λ t p x, exact (sumCounts libs p) (foldr Z.add 0 (x <$> _)) →
      Status (t _) = "measured" → Value (t _) = foldr Z.add 0 (x <$> _))); done.
Qed.

(** ** Where requests go and what is said of failures *)

(** The root of the server. *)
Definition home : string := Scheme (base c) +:+ "://" +:+ escape (Host (base c)) encodeHost +:+ "/".
Definition at_home (r : request) : Prop :=
  HasPrefix (rq_url r) home = true ∧ HValues (rq_header r) "X-Plex-Token" = [token c].

(** Texts that hold nothing the server said but a status number. *)
Definition own_texts : list string :=
  [""; "context canceled"; "request failed"; "request construction failed"; "request failed (network, TLS, or timeout)";
   "invalid or oversized JSON response"; "pagination offset mismatch"; "pagination ended before reported total"; "pagination did not advance";
   "pagination page limit reached"; "response contradicts reported total"; "section entry has no key";
   "section type is not supported for this count"; "one or more libraries could not be counted"].
Definition clean (e : string) : Prop := e ∈ own_texts ∨ ∃ n, e = "HTTP status " +:+ Itoa n.
Definition clean_count (k : Count) : Prop := clean (Error k).

(** [costs p k Q]: [p] sends at most [k] requests, all of them home, and its
    result meets [Q]. *)
Definition costs {A} (p : M A) (k : A → nat) (Q : A → Prop) : Prop :=
  ∀ s, ∃ l, (p s).1.2 = s.2 ++ l ∧ (length l <= k (p s).2)%nat ∧ Forall at_home l ∧ Q (p s).2.

Lemma costs_ret {A} (a : A) (k : A → nat) (Q : A → Prop) : Q a → costs (ret a) k Q.
Proof. intros H s. exists []. rewrite app_nil_r. split_and!; [done|cbn; lia|constructor|done]. Qed.
Lemma costs_bind {A B} (p : M A) (f : A → M B) k1 Q1 (k : B → nat) (Q : B → Prop) :
  costs p k1 Q1 → (∀ a, Q1 a → ∃ k2, costs (f a) k2 Q ∧ ∀ b, (k1 a + k2 b <= k b)%nat) → costs (bindM p f) k Q.
Proof.
  intros Hp Hf s. unfold bindM. destruct (Hp s) as (l1 & E1 & H1 & F1 & Q1a). destruct (p s) as [s1 a]. cbn [fst snd] in *.
  destruct (Hf a Q1a) as (k2 & Hb & Hk). destruct (Hb s1) as (l2 & E2 & H2 & F2 & Qb).
  exists (l1 ++ l2). rewrite E2, E1, <- app_assoc, length_app. specialize (Hk (f a s1).2).
  split_and!; [done|lia|by apply Forall_app|done].
Qed.
Lemma costs_mono {A} (p : M A) (k k' : A → nat) (Q Q' : A → Prop) :
  costs p k Q → (∀ a, Q a → (k a <= k' a)%nat ∧ Q' a) → costs p k' Q'.
Proof. intros Hp H s. destruct (Hp s) as (l & E & Hl & F & Qa). destruct (H _ Qa). exists l. split_and!; [done|lia|done|done]. Qed.

Lemma safeError_clean e : clean e → clean (safeError e).
Proof.
  intros He. unfold safeError. destruct (HasPrefix e "HTTP status "); [done|]. destruct (String.eqb_spec e "context canceled") as [->|]; left.
  - apply list_elem_of_In. cbn. auto 20.
  - apply list_elem_of_In. cbn. auto 20.
Qed.
Lemma own_clean e : existsb (String.eqb e) own_texts = true → clean e.
Proof. intros (x & Hx & Hq)%existsb_exists. apply String.eqb_eq in Hq as ->. left. by apply list_elem_of_In. Qed.

Section costs.
Context (scheme_ok : Scheme (base c) ≠ "") (host_ok : Host (base c) ≠ "") (opaque_ok : Opaque_ (base c) = "") (user_ok : User (base c) = None).

Lemma request_at_home path q : path ≠ "" → at_home (request_for path q).
Proof.
  intros Hpath. split; [|unfold HValues; vm_compute (CanonicalHeaderKey _); reflexivity].
  unfold request_for. cbn [rq_url]. set (p := TrimSuffix (UPath (base c)) "/" +:+ path).
  assert (Hp : p ≠ "").
  { unfold p. destruct (TrimSuffix (UPath (base c)) "/"); [done|discriminate]. }
  set (u := with_query (set_path (base c) p (RawPath (base c))) (Encode q)).
  assert (He : EscapedPath u ≠ "").
  { unfold EscapedPath. destruct (String.eqb_spec (RawPath u) "") as [_|Hr]; cbn [negb andb].
    - destruct (UPath u =s "*"); [done|]. change (UPath u) with p. destruct p; [done|]. cbn [escape]. unfold percent. by destruct (shouldEscape _ _).
    - destruct (validEncoded _ _ && _); [done|]. destruct (UPath u =s "*"); [done|]. change (UPath u) with p. destruct p; [done|].
      cbn [escape]. unfold percent. by destruct (shouldEscape _ _). }
  apply HasPrefix_spec. unfold URLString. change (Opaque_ u) with (Opaque_ (base c)). rewrite opaque_ok. cbn [String.eqb].
  unfold hier_string, authority_string, home. change (Scheme u) with (Scheme (base c)). change (Host u) with (Host (base c)).
  change (User u) with (User (base c)). rewrite user_ok. apply String.eqb_neq in scheme_ok as ->. apply String.eqb_neq in host_ok as ->.
  cbv zeta. apply String.eqb_neq in He as ->. cbn [negb andb orb]. rewrite bool_decide_eq_true_2 by done. cbn [negb andb orb].
  rewrite !andb_false_r. cbn [andb]. rewrite andb_true_r.
  set (tail := (if ForceQuery u || negb (URawQuery u =s "") then "?" +:+ URawQuery u else "") +:+ _).
  assert (((Scheme (base c) +:+ ":") +:+ "//" +:+ "" +:+ escape (Host (base c)) encodeHost =s "") = false) as ->.
  { apply String.eqb_neq. by destruct (Scheme (base c)). }
  cbn [andb]. destruct (HasPrefix (EscapedPath u) "/") eqn:Hs; cbn [negb].
  - apply HasPrefix_spec in Hs as [r ->]. exists (r +:+ tail). by rewrite !sapp_assoc.
  - exists (EscapedPath u +:+ tail). by rewrite !sapp_assoc.
Qed.

Definition clean_result {A} (r : string + A) : Prop := match r with inl e => clean e | inr _ => True end.
Definition clean_section (lib : Section_) : Prop := Forall clean_count [Movies lib; Shows lib; Seasons lib; Episodes lib; Collections lib].
Definition clean_report (r : Report) : Prop :=
  Forall clean_count [Sections r; AllMovies r; AllShows r; AllSeasons r; AllEpisodes r; AllCollections r] ∧ Forall clean_section (Libraries r).

Lemma getJSON_costs path q : path ≠ "" → costs (getJSON path q) (λ _, 1%nat) clean_result.
Proof.
  intros Hp [n sent]. unfold getJSON. cbv zeta. pose proof (request_at_home path q Hp) as Hr. set (r := request_for path q) in *.
  destruct (net n r) as [| |status body]; [|destruct (Parse (rq_url r))..].
  1,3,5: exists []; rewrite app_nil_r; split_and!; [done|cbn; lia|constructor|by apply own_clean].
  all: exists [r]; split_and!; [done|cbn; lia|by apply Forall_singleton|].
  - by apply own_clean.
  - cbn [snd]. destruct (_ || _); [right; by eexists|]. destruct (decode _); [done|by apply own_clean].
Qed.

Lemma fetchPage_costs path q offset size : path ≠ "" → costs (fetchPage path q offset size) (λ _, 1%nat) clean_result.
Proof.
  intros Hp. unfold fetchPage. eapply costs_bind; [by apply getJSON_costs|]. cbv beta. intros r Hr. exists (λ _, O).
  split; [|intros; lia]. apply costs_ret. by destruct r.
Qed.

Lemma page_error_clean p items offset previous e : page_error p items offset previous = Some e → clean e.
Proof.
  unfold page_error. destruct (match Offset p with Some o => _ | None => _ end); [intros [= <-]; by apply own_clean|].
  destruct (match TotalSize p with Some t => _ | None => _ end); [intros [= <-]; by apply own_clean|].
  destruct (_ && _); [intros [= <-]; by apply own_clean|done].
Qed.

Lemma list_costs pages path q k all previous : path ≠ "" →
  costs (list_from pages path q k all previous) (λ _, pages) (λ r, match r.2 with Some e => clean e | None => True end).
Proof.
  intros Hp. revert k all previous. induction pages as [|pages IH]; intros k all previous; cbn [list_from].
  { apply costs_ret. by apply own_clean. }
  eapply costs_bind; [by apply fetchPage_costs|]. cbv beta. intros [e|[p items]] Hr.
  - exists (λ _, O). split; [by apply costs_ret|lia].
  - destruct (page_error _ _ _ _) as [e|] eqn:Ee.
    + exists (λ _, O). split; [apply costs_ret; by eapply page_error_clean|lia].
    + destruct (_ || _); [exists (λ _, O); split; [by apply costs_ret|lia]|]. exists (λ _, pages). split; [apply IH|lia].
Qed.

Lemma countPages_costs pages path q k total previous : path ≠ "" →
  costs (countPages_from pages path q k total previous) (λ _, pages) clean_count.
Proof.
  intros Hp. revert k total previous. induction pages as [|pages IH]; intros k total previous; cbn [countPages_from].
  { apply costs_ret. by apply own_clean. }
  eapply costs_bind; [by apply fetchPage_costs|]. cbv beta. intros [e|[p items]] Hr.
  - exists (λ _, O). split; [apply costs_ret; by apply safeError_clean|lia].
  - destruct (page_error _ _ _ _) as [e|] eqn:Ee.
    + exists (λ _, O). split; [apply costs_ret; by eapply page_error_clean|lia].
    + destruct (page_is_last _ _ _); [exists (λ _, O); split; [apply costs_ret; by apply own_clean|lia]|].
      exists (λ _, pages). split; [apply IH|lia].
Qed.

(** The most requests one count takes. *)
Definition per_count : nat := S (Z.to_nat (maxPages c)).

Lemma countItems_costs path q : path ≠ "" → costs (countItems path q) (λ _, per_count) clean_count.
Proof.
  intros Hp. unfold countItems. eapply costs_bind; [by apply fetchPage_costs|]. cbv beta.
  intros [e|[p items]] Hr.
  { exists (λ _, O). split; [apply costs_ret; by apply safeError_clean|unfold per_count; lia]. }
  destruct (match Offset p with Some o => _ | None => _ end).
  { exists (λ _, O). split; [apply costs_ret; by apply own_clean|unfold per_count; lia]. }
  destruct (TotalSize p); [|exists (λ _, Z.to_nat (maxPages c)); split; [by apply countPages_costs|unfold per_count; lia]].
  exists (λ _, O). split; [|unfold per_count; lia]. destruct (_ || _); apply costs_ret; by apply own_clean.
Qed.

Lemma sumCounts_clean libs part : clean_count (sumCounts libs part).
Proof.
  unfold sumCounts. generalize 0. generalize (part <$> libs). intros l. induction l as [|k l IH]; intros n; cbn [sum_measured].
  - by apply own_clean.
  - destruct (negb _); [by apply own_clean|apply IH].
Qed.

(** Lists of counts, one by one. *)
Ltac all_clean :=
  repeat (apply Forall_cons_2; [first [done | by apply own_clean | by apply safeError_clean | apply sumCounts_clean]|]); apply Forall_nil_2.

Lemma section_report_costs d : costs (section_report d) (λ _, 4 * per_count)%nat clean_section.
Proof.
  unfold section_report. destruct (i_key d =s ""); [apply costs_ret; all_clean|].
  assert (He : clean_count emptyCount ∧ clean_count unknownCount) by (split; by apply own_clean). destruct He as [He Hu].
  eapply costs_bind; [by apply countItems_costs|]. cbv beta. intros k1 H1.
  destruct (i_type d =s "movie").
  { exists (λ _, per_count). split; [|lia]. eapply costs_bind; [by apply countItems_costs|]. cbv beta. intros k2 H2.
    exists (λ _, O). split; [apply costs_ret; all_clean|lia]. }
  destruct (i_type d =s "show"); [|exists (λ _, O); split; [apply costs_ret; all_clean|lia]].
  exists (λ _, 3 * per_count)%nat. split; [|lia]. eapply costs_bind; [by apply countItems_costs|]. cbv beta. intros k2 H2.
  exists (λ _, 2 * per_count)%nat. split; [|lia]. eapply costs_bind; [by apply countItems_costs|]. cbv beta. intros k3 H3.
  exists (λ _, per_count)%nat. split; [|lia]. eapply costs_bind; [by apply countItems_costs|]. cbv beta. intros k4 H4.
  exists (λ _, O). split; [apply costs_ret; all_clean|lia].
Qed.

Lemma section_reports_costs l :
  costs (section_reports l) (λ _, length l * (4 * per_count))%nat (λ libs, length libs = length l ∧ Forall clean_section libs).
Proof.
  induction l as [|d l IH]; cbn [section_reports]; [apply costs_ret; by split|].
  eapply costs_bind; [apply section_report_costs|]. cbv beta. intros lib Hlib.
  exists (λ _, length l * (4 * per_count))%nat. split; [|cbn; lia].
  eapply costs_bind; [apply IH|]. cbv beta. intros libs [Hn Hl]. exists (λ _, O). split; [|lia].
  apply costs_ret. split; [cbn; lia|by constructor].
Qed.

Lemma Inventory_costs :
  costs Inventory (λ r, Z.to_nat (maxPages c) + length (Libraries r) * (4 * per_count))%nat clean_report.
Proof.
  unfold Inventory. intros s. pose proof (list_costs (Z.to_nat (maxPages c)) "/library/sections" ∅ 0 [] None) as Hl.
  fold (list_ "/library/sections" ∅) in Hl. destruct (Hl ltac:(done) s) as (l1 & E1 & H1 & F1 & Q1). unfold bindM.
  destruct (list_ "/library/sections" ∅ s) as [s1 [items [e|]]]; cbn [fst snd] in *.
  - exists l1. split_and!; [done|cbn; lia|done|]. split; [all_clean|constructor].
  - destruct (section_reports_costs items s1) as (l2 & E2 & H2 & F2 & [Hn Q2]).
    destruct (section_reports items s1) as [s2 libs]. cbn [fst snd ret] in *. exists (l1 ++ l2).
    rewrite E2, E1, <- app_assoc, length_app. cbn [Libraries]. rewrite Hn.
    split_and!; [done|lia|by apply Forall_app|]. split; [all_clean|done].
Qed.
End costs.

End run.

(** ** The command (cmd/replx-inventory/main.go) *)

Definition envInt (env : gmap string string) (key : string) (def : Z) : outcome Z :=
  let v := default "" (env !! key) in
  if v =s "" then Ok def else match Atoi v with Some n => Ok n | None => Err (key +:+ " must be an integer") end.

(** The client from the environment; a time-out is a 64-bit product. *)
Definition tool_client (env : gmap string string) : outcome Client :=
  match envInt env "REPLX_EDGE_INVENTORY_PAGE_SIZE" 200, envInt env "REPLX_EDGE_INVENTORY_WORKERS" 4,
        envInt env "REPLX_EDGE_INVENTORY_REQUEST_TIMEOUT_SECONDS" 15 with
  | Ok ps, Ok wk, Ok tm =>
      New (mkConfig (default "" (env !! "REPLX_EDGE_PMS_URL")) (default "" (env !! "REPLX_EDGE_PMS_TOKEN")) ps wk (int64 (tm * Second)) 0)
  | Err e, _, _ | Ok _, Err e, _ | Ok _, Ok _, Err e => Err e
  | _, _, _ => Panic
  end.

(** The exit code: 2 for an unusable environment or an unwritten report, 1
    for an incomplete one. *)
Definition tool_main (env : gmap string string) (net : nat → request → reply) (decode : string → option container) (written : bool)
    : Z * option Report :=
  match tool_client env with
  | Ok c =>
      let r := (Inventory c net decode (0%nat, [])).2 in
      if negb written then (2, None) else if HasIncompleteCounts r then (1, Some r) else (0, Some r)
  | _ => (2, None)
  end.

(** Success is completeness: the command ends with zero only when it printed
    a report in which every count was measured. *)
Lemma tool_success env net decode written code r :
  tool_main env net decode written = (code, r) → code = 0 →
  ∃ rep, r = Some rep ∧ Status (Sections rep) = "measured" ∧
    Forall (λ lib, Forall (λ k, Status k = "measured") [Movies lib; Shows lib; Seasons lib; Episodes lib; Collections lib]) (Libraries rep).
Proof.
  unfold tool_main. destruct (tool_client env) as [c|e|]; [|by intros [= <- _]..]. cbv zeta. destruct written; [|by intros [= <- _]]. cbn [negb].
  destruct (HasIncompleteCounts _) eqn:E; intros [= <- <-]; [done|]. intros _. eexists. split; [done|].
  unfold HasIncompleteCounts in E. cbv zeta in E. rewrite existsb_false_forall, <- Forall_forall in E. apply Forall_app in E as [E1 E2].
  apply Forall_cons_1 in E1 as [E1 _]. split; [by apply negb_false_iff, String.eqb_eq in E1|].
  rewrite Forall_bind in E2. eapply Forall_impl; [exact E2|]. cbn beta. intros lib Hl. eapply Forall_impl; [exact Hl|].
  cbn beta. intros k Hk. by apply negb_false_iff, String.eqb_eq in Hk.
Qed.

(** A run of the report: the requests sent, and what it says. *)
Definition discreet (c : Client) (run : St * Report) : Prop :=
  Forall (at_home c) run.1.2 ∧ clean_report run.2 ∧
  (length run.1.2 <= Z.to_nat (maxPages c) + length (Libraries run.2) * (4 * per_count c))%nat.

(** The report is made with the credential at one place only and repeats
    nothing the server said: for any accepted configuration the address is an
    [https] one, or a local one over plain HTTP; every request goes to that
    address with the token in its header; their number is bounded by the page
    limit, four counts for a library; and the text of a failure is one of the
    program's own or a status number. *)
Theorem inventory_is_discreet cfg c net decode :
  New cfg = Ok c →
  (Scheme (base c) = "https" ∨ (Scheme (base c) = "http" ∧ isLoopback (Hostname (base c)) = true)) ∧
  (1 <= pageSize c <= 1000 ∧ 1 <= maxPages c <= 100000) ∧
  discreet c (Inventory c net decode (O, [])).
Proof.
  unfold New. destruct (Token cfg =s ""); [done|]. destruct (Parse _) as [u|] eqn:Eu; [|done].
  destruct (String.eqb_spec (Host u) "") as [|Hh]; [done|]. destruct (bool_decide_reflect (User u = None)) as [Hu|]; [|done]. cbn [negb orb].
  destruct (_ || _); [done|]. destruct (negb _ && _) eqn:Es; [done|].
  set (ps := or_default _ _). set (wk := or_default _ _). set (tm := or_default _ _). set (mp := or_default _ _). cbv zeta.
  destruct ((ps <? 1) || _) eqn:E1; [done|]. destruct ((wk <? 1) || _); [done|]. destruct ((tm <? Second) || _); [done|].
  destruct ((mp <? 1) || _) eqn:E2; [done|]. intros [= <-]. cbn [base pageSize maxPages].
  assert (Hs : Scheme u = "https" ∨ (Scheme u = "http" ∧ isLoopback (Hostname u) = true)).
  { destruct (String.eqb_spec (Scheme u) "https"); [by left|right]. cbn in Es. apply negb_false_iff, andb_prop in Es as [H1%String.eqb_eq H2]. done. }
  split; [done|]. split; [lia|].
  destruct (Inventory_costs (mkClient u (Token cfg) ps wk mp tm) net decode) with (s := (O, @nil request)) as (l & El & Hl & Hf & Hq); cbn [base].
  { by destruct Hs as [->|[-> _]]. } { done. } { by eapply Routing.Parse_opaque. } { done. }
  unfold discreet. cbn [snd app] in El. rewrite El. done.
Qed.

(** ** A server of two libraries *)

Module Toy.
Definition cfg : Config := mkConfig "https://pms.example" "secret" 2 0 0 0.
Definition client : Client := match New cfg with Ok c => c | _ => mkClient (mkURL "" "" None "" "" "" false false "" "" "") "" 1 1 1 1 end.
Definition film (k : string) : item := mkItem k "Film" "movie" k.
Definition at_url (url kind : string) : list item :=
  if url =s "https://pms.example/library/sections" then [mkItem "1" "Films" "movie" ""; mkItem "2" "Series" "show" ""]
  else if (url =s "https://pms.example/library/sections/1/all") && (kind =s "1") then [film "11"; film "12"; film "13"]
  else if (url =s "https://pms.example/library/sections/2/all") && (kind =s "2") then [film "21"]
  else [].
Definition srv (path : string) (q : Values) : list item := at_url ("https://pms.example" +:+ path) (QueryGet q "type").
(** The server answers with the keys of a page and reports no totals. *)
Definition universe : list item := at_url "https://pms.example/library/sections" "" ++ [film "11"; film "12"; film "13"; film "21"].
Definition text (l : list item) : string := Join (i_key <$> l) ",".
Definition net (n : nat) (r : request) : reply :=
  let q := ParseQuery (query_part (rq_url r)) in
  match unsigned_value (QueryGet q "X-Plex-Container-Start"), unsigned_value (QueryGet q "X-Plex-Container-Size") with
  | Some offset, Some size => Replied 200 (text (take (Z.to_nat size) (drop (Z.to_nat offset) (at_url (before (rq_url r) "?") (QueryGet q "type")))))
  | _, _ => Failed
  end.
Definition decode (body : string) : option container :=
  Some (mkContainer None None [] (Some (if body =s "" then [] else omap (λ k, find (λ i, i_key i =s k) universe) (Split body ",")))).

Lemma unsigned_Itoa n m : unsigned_value (Itoa n) = Some m → m = n.
Proof.
  destruct (Z.leb_spec 0 n) as [Hn|Hn]; [rewrite unsigned_value_Itoa by done; by intros [= <-]|].
  destruct n as [|p|p]; [lia|lia|]. done.
Qed.

Lemma take_drop_min {A} k o (l : list A) : take k (drop o l) = take (k `min` length l) (drop (o `min` length l) l).
Proof.
  destruct (Nat.min_spec o (length l)) as [[? ->]|[? ->]].
  - rewrite <- (take_ge (drop o l) (length l)) at 1 by (rewrite length_drop; lia). by rewrite take_take.
  - rewrite !drop_ge by lia. by rewrite !take_nil.
Qed.

(** Pages of the listings are read back. *)
Definition readable (l : list item) : bool :=
  forallb (λ o, forallb (λ k, let page := take k (drop o l) in
    (String.length (text page) <=? 100)%nat && bool_decide (items_of <$> decode (text page) = Some page)) (seq 0 (S (length l)))) (seq 0 (S (length l))).
Lemma readable_page l k o : readable l = true → 
  let page := take k (drop o l) in (String.length (text page) <= 100)%nat ∧ items_of <$> decode (text page) = Some page.
Proof.
  intros H. cbv zeta. rewrite take_drop_min. set (o' := (o `min` length l)%nat). set (k' := (k `min` length l)%nat).
  assert (Ho : In o' (seq 0 (S (length l)))) by (apply in_seq; unfold o'; lia).
  assert (Hk : In k' (seq 0 (S (length l)))) by (apply in_seq; unfold k'; lia).
  unfold readable in H. rewrite forallb_forall in H. specialize (H _ Ho). rewrite forallb_forall in H. specialize (H _ Hk).
  cbv zeta in H. by apply andb_prop in H as [H1%Nat.leb_le H2%bool_decide_eq_true].
Qed.

Lemma stake_all n t : (String.length t <= n)%nat → stake n t = t.
Proof. revert n. induction t as [|x t IH]; intros [|n] H; cbn in *; [done|done|lia|]. by rewrite IH by lia. Qed.

Lemma base_printable path : printable (set_path (base client) path "").
Proof. intros ch [-> | ->]; split; vm_compute; reflexivity. Qed.

(** What the server finds in a request. *)
Lemma asked path q :
  let r := request_for client path q in
  (∀ k, QueryGet (ParseQuery (query_part (rq_url r))) k = QueryGet q k) ∧
  before (rq_url r) "?" = before_query (set_path (base client) path "").
Proof.
  assert (E : request_for client path q = mkRequest (URLString (with_query (set_path (base client) path "") (Encode q)))
    (HSet (HSet (HSet [] "Accept" "application/json") "X-Plex-Token" "secret") "X-Plex-Client-Identifier" "replx-inventory")) by reflexivity.
  cbv zeta. rewrite E. cbn [rq_url]. clear E. pose proof (base_printable path) as Hp. split.
  - intros k. rewrite URLString_query by done.
    unfold QueryGet. by rewrite ParseQuery_Encode.
  - pose proof (before_query_free "?" (with_query (set_path (base client) path "") (Encode q)) Hp (or_introl eq_refl)) as F.
    change (URLString (with_query (set_path (base client) path "") (Encode q))) with
      (before_query (with_query (set_path (base client) path "") (Encode q)) +:+ (if negb (Encode q =s "") then "?" +:+ Encode q else "") +:+ "").
    rewrite before_app_free by done. rewrite sapp_nil_r. destruct (negb (Encode q =s "")).
    + change ("?" +:+ Encode q) with (String "?" (Encode q)). rewrite before_head. apply sapp_nil_r.
    + apply sapp_nil_r.
Qed.

Lemma toy_honest path q :
  before_query (set_path (base client) path "") = "https://pms.example" +:+ path → readable (srv path q) = true →
  honest client net decode path q (srv path q).
Proof.
  intros Hu Hr n offset size status body p. destruct (asked path (page_query q offset size)) as [Hq Hb]. unfold net. rewrite !Hq, Hb, Hu.
  assert (Et : QueryGet (page_query q offset size) "type" = QueryGet q "type").
  { unfold page_query, QuerySet, QueryGet, values_of. by rewrite !lookup_insert_ne by done. }
  rewrite Et. assert (Es : QueryGet (page_query q offset size) "X-Plex-Container-Start" = Itoa offset).
  { unfold page_query, QuerySet, QueryGet, values_of. rewrite lookup_insert_ne, lookup_insert_eq by done. done. }
  assert (Ez : QueryGet (page_query q offset size) "X-Plex-Container-Size" = Itoa size).
  { unfold page_query, QuerySet, QueryGet, values_of. rewrite lookup_insert_eq by done. done. }
  rewrite Es, Ez. destruct (unsigned_value (Itoa offset)) as [o|] eqn:Eo; [|done]. destruct (unsigned_value (Itoa size)) as [z|] eqn:Ek; [|done].
  apply unsigned_Itoa in Eo as ->. apply unsigned_Itoa in Ek as ->.
  change (at_url ("https://pms.example" +:+ path) (QueryGet q "type")) with (srv path q).
  destruct (readable_page (srv path q) (Z.to_nat size) (Z.to_nat offset) Hr) as [Hl Hd].
  set (page := take (Z.to_nat size) (drop (Z.to_nat offset) (srv path q))) in *. clearbody page.
  intros [= <- <-] _. rewrite stake_all by lia. intros E. rewrite E in Hd. injection Hd as <-. split; [done|]. unfold decode in E. by injection E as <-.
Qed.

Lemma toy_served : served client net decode srv.
Proof.
  split; [by apply toy_honest; vm_compute|].
  intros d Hd. assert (d = mkItem "1" "Films" "movie" "" ∨ d = mkItem "2" "Series" "show" "") as [-> | ->].
  { change (d ∈ [mkItem "1" "Films" "movie" ""; mkItem "2" "Series" "show" ""]) in Hd. rewrite !elem_of_cons, elem_of_nil in Hd. naive_solver. }
  all: split; [by apply toy_honest; vm_compute|].
  all: intros kind Hk; rewrite !elem_of_cons, elem_of_nil in Hk; destruct Hk as [-> |[-> |[-> |[-> |[]]]]]; by apply toy_honest; vm_compute.
Qed.
End Toy.

Lemma measured_counts_are_exact_witness :
  Value (AllMovies (Inventory Toy.client Toy.net Toy.decode (O, [])).2) = 3 ∧
  Value (Sections (Inventory Toy.client Toy.net Toy.decode (O, [])).2) = 2.
Proof.
  destruct (measured_counts_are_exact Toy.client Toy.net Toy.decode Toy.srv (O, []) Toy.toy_served ltac:(by vm_compute)) as (H1 & H2 & H3).
  destruct H3 as [Hs Hm]; [vm_compute; reflexivity|]. split.
  - destruct (Hm AllMovies Movies _ (list_elem_of_here _ _)) as [Ht _].
    destruct (H2 AllMovies Movies _ (list_elem_of_here _ _) Ht) as [_ E]. rewrite E. vm_compute. reflexivity.
  - destruct (H1 Hs) as [E _]. rewrite E. vm_compute. reflexivity.
Defined.

Lemma inventory_is_discreet_witness :
  New Toy.cfg = Ok Toy.client ∧ discreet Toy.client (Inventory Toy.client Toy.net Toy.decode (O, [])).
Proof.
  assert (E : New Toy.cfg = Ok Toy.client) by (vm_compute; reflexivity). split; [exact E|].
  destruct (inventory_is_discreet Toy.cfg Toy.client Toy.net Toy.decode E) as (_ & _ & H). exact H.
Defined.

(** The path is escaped twice: a key with a space is asked for as another. *)
Lemma key_is_escaped_twice :
  rq_url (request_for Toy.client (all_path "a b") ∅) = "https://pms.example/library/sections/a%2520b/all".
Proof. vm_compute. reflexivity. Qed.

End Inventory.
