(* ===== verification/Logging.v ===== *)
(** * Redaction of what is logged

    internal/logging/logging.go: the headers and URLs that reach a log line
    and the last filter on the fields of an entry. *)

From S2P Require Import Prelude GoStrings GoHttp GoNet GoUrl.

Module Logging.

Definition RedactedHeaders : list string :=
  ["X-Plex-Token"; "Authorization"; "Cookie"; "Set-Cookie"; "X-Owner-JWT"; "X-PMS-Token"; "X-Tunnel-Token";
   "X-Replx-Edge-Secret"; "Replx-Edge-Secret-Key"].
Definition RedactedQueryParams : list string :=
  ["X-Plex-Token"; "X-Plex-Token "; "Token"; "token"; "AuthToken"; "authtoken"; "authToken"; "ownerJWT"; "owner_jwt";
   "pmsToken"; "pms_token"; "tunnelToken"; "tunnel_token"; "secretKey"; "secret_key"].

(** The first name of [RedactedHeaders] that is [k] in any case; the code
    ranges over a map, and no two names are equal in any case. *)
Fixpoint canonical_in (names : list string) (k : string) : string :=
  match names with [] => k | red :: r => if EqualFold k red then red else canonical_in r k end.
Definition canonicalHeader (k : string) : string := canonical_in RedactedHeaders k.
Definition RedactHeaders (h : gmap string string) : gmap string string :=
  map_imap (λ k v, Some (if bool_decide (canonicalHeader k ∈ RedactedHeaders) then "REDACTED" else v)) h.

Definition sensitive_param (k : string) : bool := existsb (EqualFold k) RedactedQueryParams.
Definition redact_values (q : Values) : Values :=
  map_imap (λ k vs, Some (if sensitive_param k then ["REDACTED"] else vs)) q.

(** [strings.IndexAny(s, "?#")] *)
Fixpoint index_delim (s : string) : option nat :=
  match s with
  | "" => None
  | String c r => if among "?#" c then Some O else S <$> index_delim r
  end.

Definition RedactURLString (raw : string) : string :=
  match Parse raw with
  | None => match index_delim raw with Some i => stake i raw +:+ "?REDACTED" | None => raw end
  | Some u =>
      if URawQuery u =s "" then raw
      else
        let q := UQuery u in
        if existsb (λ e, sensitive_param e.1) (map_to_list q)
        then URLString (with_query u (Encode (redact_values q)))
        else raw
  end.

(** ** Entries *)

Definition sensitiveField (k : string) : bool :=
  existsb (Contains (ToLower k)) ["token"; "secret"; "password"; "cookie"; "authorization"; "set-cookie"].

Definition looksLikeTokenURL (s : string) : bool :=
  match Index s "?" with
  | None => false
  | Some i =>
      Contains (stake i s) "/" && existsb (Contains (ToLower (sdrop i s))) ["token"; "secret"; "password"; "auth"]
  end.

(** A field is a string or another JSON value. *)
Inductive any := AString (s : string) | ABool (b : bool) | AInt (n : Z) | ANil.

Record Entry := mkEntry {
  Level : string; Timestamp : string; Component : string; RequestID : string; Method : string; Path : string;
  Status : Z; Duration : Z; Cache : string; Route : string; Fields : gmap string any
}.

Definition log_field (k : string) (v : any) : any :=
  if sensitiveField k then AString "REDACTED"
  else match v with
       | AString s => if (0 <? Z.of_nat (String.length s)) && looksLikeTokenURL s then AString (RedactURLString s) else v
       | _ => v
       end.

(** [Log]: the entry that is encoded; [now] is the formatted time.  The
    caller's field map is changed in place, so it is the caller's afterwards
    too. *)
Definition Log (now : string) (e : Entry) : Entry :=
  mkEntry (Level e) now (Component e) (RequestID e) (Method e) (RedactURLString (Path e)) (Status e) (Duration e)
    (Cache e) (Route e) (map_imap (λ k v, Some (log_field k v)) (Fields e)).

(** ** What is redacted *)

Lemma redact_values_lookup q k : values_of (redact_values q) k = if sensitive_param k then (if q !! k then ["REDACTED"] else []) else values_of q k.
Proof. unfold values_of, redact_values. rewrite map_lookup_imap. by destruct (q !! k), (sensitive_param k). Qed.

Lemma not_changed q k :
  existsb (λ e, sensitive_param e.1) (map_to_list q) = false → sensitive_param k = true → values_of q k = [].
Proof.
  intros He Hk. unfold values_of. destruct (q !! k) as [vs|] eqn:E; [|done]. exfalso.
  enough (Ht : existsb (λ e, sensitive_param e.1) (map_to_list q) = true) by congruence.
  apply existsb_exists. exists (k, vs). split; [|done]. by apply list_elem_of_In, elem_of_map_to_list.
Qed.

Lemma index_delim_spec s :
  match index_delim s with
  | Some i => (∀ c, c = "?"%char ∨ c = "#"%char → free_of c (stake i s))
  | None => (∀ c, c = "?"%char ∨ c = "#"%char → free_of c s)
  end.
Proof.
  induction s as [|x s IH]; [by intros c|]. cbn [index_delim]. destruct (among "?#" x) eqn:Ex; [by intros c|].
  assert (Hx : ∀ c, c = "?"%char ∨ c = "#"%char → x ≠ c) by (intros c [->| ->] ->; done).
  destruct (index_delim s) as [i|]; cbn [fmap option_fmap option_map]; intros c Hc.
  - change (stake (S i) (String x s)) with (String x (stake i s)). apply free_of_cons. by auto.
  - apply free_of_cons. by auto.
Qed.

(** No credential that a reader of a log could extract is left: whatever the
    text, a sensitive parameter of the query of what is logged is REDACTED;
    when the text is an URL, the other parameters are kept as they were, and
    when it is not, its query and its fragment are gone. *)
Theorem redaction_hides_tokens raw k :
  let out := ParseQuery (query_part (RedactURLString raw)) in
  (sensitive_param k = true → values_of out k = [] ∨ values_of out k = ["REDACTED"]) ∧
  match Parse raw with
  | Some u =>
      if sensitive_param k then values_of (UQuery u) k ≠ [] → values_of out k = ["REDACTED"]
      else values_of out k = values_of (UQuery u) k
  | None => query_part (RedactURLString raw) = "" ∨ query_part (RedactURLString raw) = "REDACTED"
  end.
Proof.
  cbv zeta. unfold RedactURLString. destruct (Parse raw) as [u|] eqn:HP.
  - destruct (Parse_query _ _ HP) as [Eq Hpr].
    assert (Hraw : query_part raw = URawQuery u) by done. clear Eq.
    destruct (String.eqb_spec (URawQuery u) "") as [E|E].
    { rewrite Hraw. fold (UQuery u). assert (UQuery u = ∅) as -> by (unfold UQuery; by rewrite E). by split; [left|destruct (sensitive_param k)]. }
    destruct (existsb _ _) eqn:Ec.
    + rewrite URLString_query, ParseQuery_Encode, redact_values_lookup by done.
      unfold values_of. destruct (sensitive_param k), (UQuery u !! k); cbn; by split; auto.
    + rewrite Hraw. fold (UQuery u). destruct (sensitive_param k) eqn:Ek; [|done].
      rewrite (not_changed _ _ Ec Ek). by split; [left|].
  - pose proof (index_delim_spec raw) as Hi.
    assert (Hq : query_part (match index_delim raw with Some i => stake i raw +:+ "?REDACTED" | None => raw end) = "" ∨
                 query_part (match index_delim raw with Some i => stake i raw +:+ "?REDACTED" | None => raw end) = "REDACTED").
    { destruct (index_delim raw) as [i|]; unfold query_part; [right|left].
      - rewrite before_app_free by (apply Hi; auto). change (before "?REDACTED" "#") with (String "?" "REDACTED").
        by rewrite Cut_free by (apply Hi; auto).
      - rewrite before_none by (apply Hi; auto). by rewrite Cut_none by (apply Hi; auto). }
    split; [|done]. intros Hk. destruct Hq as [-> | ->]; [by left|].
    change (ParseQuery "REDACTED") with ({["REDACTED" := [""]]} : Values). left.
    unfold values_of. rewrite lookup_singleton_ne; [done|]. intros <-. vm_compute in Hk. done.
Qed.

(** A query setting that cannot be decoded, or holds a semicolon, is dropped
    by [Query] and so not seen: the text is logged as it came. *)
Lemma malformed_setting_is_logged :
  RedactURLString "/library/sections?X-Plex-Token=s3cr3t;x=1" = "/library/sections?X-Plex-Token=s3cr3t;x=1" ∧
  RedactURLString "/library/sections?X-Plex-Token=s3cr3t%zz" = "/library/sections?X-Plex-Token=s3cr3t%zz" ∧
  RedactURLString "/library/%zz?X-Plex-Token=s3cr3t" = "/library/%zz?REDACTED".
Proof. vm_compute. done. Qed.

(** ** Headers and fields *)

Lemma canonical_in_spec names k :
  NoDup (fold_case <$> names) → (∀ red, red ∈ names → EqualFold k red = true → canonical_in names k = red) ∧
  (existsb (EqualFold k) names = false → canonical_in names k = k).
Proof.
  induction names as [|n names IH]; intros Hn; [by split; [intros red Hr; by apply elem_of_nil in Hr|]|].
  apply NoDup_cons in Hn as [Hn Hd]. destruct (IH Hd) as [IH1 IH2]. cbn [canonical_in existsb]. split.
  - intros red [->|Hr]%elem_of_cons Hk; [by rewrite Hk|]. destruct (EqualFold k n) eqn:E; [|by apply IH1].
    exfalso. apply Hn, list_elem_of_fmap. exists red. split; [|done]. unfold EqualFold in *.
    apply String.eqb_eq in Hk, E. congruence.
  - intros [-> H]%orb_false_elim. by apply IH2.
Qed.

(** The value of a header with a sensitive name, in any case, is replaced,
    and every other one is kept. *)
Lemma RedactHeaders_spec h k :
  RedactHeaders h !! k = (if existsb (EqualFold k) RedactedHeaders then λ _, "REDACTED" else id) <$> h !! k.
Proof.
  unfold RedactHeaders. rewrite map_lookup_imap. destruct (h !! k) as [v|]; [|done]. cbn [mbind option_bind fmap option_fmap option_map].
  assert (Hn : NoDup (fold_case <$> RedactedHeaders)) by (apply (bool_decide_unpack _); vm_compute; exact I).
  destruct (canonical_in_spec RedactedHeaders k Hn) as [H1 H2]. destruct (existsb (EqualFold k) RedactedHeaders) eqn:E.
  - apply existsb_exists in E as (red & Hr%list_elem_of_In & Ek). unfold canonicalHeader. rewrite (H1 red Hr Ek).
    by rewrite bool_decide_eq_true_2.
  - unfold canonicalHeader. rewrite (H2 eq_refl), bool_decide_eq_false_2; [done|]. intros Hk%list_elem_of_In.
    enough (existsb (EqualFold k) RedactedHeaders = true) by congruence. apply existsb_exists. exists k. split; [done|].
    unfold EqualFold. apply String.eqb_refl.
Qed.

(** What an entry shows: no sensitive field keeps its value, and a string
    field that is an URL with a sensitive query is redacted as a path is. *)
Lemma Log_fields now e k :
  Fields (Log now e) !! k = log_field k <$> Fields e !! k ∧ Path (Log now e) = RedactURLString (Path e).
Proof. split; [|done]. unfold Log. cbn [Fields]. rewrite map_lookup_imap. by destruct (Fields e !! k). Qed.

End Logging.
