(* ===== verification/Config.v ===== *)
(** * Configuration and peers

    internal/config/config.go: the environment is read, defaulted and checked
    before anything starts.  The addresses that internal/proxy/proxy.go and
    internal/admin/admin.go take from a connection are here too, because they
    use the same classes of addresses. *)

From S2P Require Import Prelude GoStrings GoHttp GoBase64 GoNet GoUrl.

Module Config.

Record Config := mkConfig {
  ImageOwner : string; Version : string; PublicURL : string; OriginInternalURL : string; IngressMode : string;
  AdminPort : Z; AdminBind : string; AdminListen : string; AdminPublishBind : string; InDocker : bool;
  LogLevel : string; SecretKey : string; MediaFallbackEnabled : bool; MediaPublicURL : string; MediaPort : Z;
  PostgresHost : string; PostgresPort : Z; PostgresDB : string; PostgresUser : string; PostgresPass : string;
  PostgresURL : string; PostgresSSLMode : string; ValkeyAddr : string; PlexTVBase : string; SpikeRouting : bool;
  ArtworkDir : string; ArtworkMaxGB : Z; SharedArtworkEnabled : bool; CacheMaxGB : Z; DiagnosticsMaxGB : Z;
  TraceRetentionDays : Z; PlaybackRetentionDays : Z; AuditRetentionDays : Z
}.

(** ** Checks *)

Definition tailscaleRange (a : addr) : bool := prefix4_contains 10 (ip4 100 64 0 0) a.
Definition local_address (ip : addr) : bool := IsLoopback ip || IsPrivate ip || IsLinkLocalUnicast ip || tailscaleRange ip.

Definition checkAdminListen (addr_ : string) (inDocker : bool) : option string :=
  match ParseAddr (TrimSpace addr_) with
  | None => Some "admin listen address must be a literal IP"
  | Some ip =>
      if negb (Zone ip =s "") then Some "admin listen address must be a literal IP"
      else if local_address ip then None
      else if IsUnspecified ip then
        if inDocker then None else Some "admin listen address must never be the wildcard outside Docker"
      else Some "admin listen address is not loopback or explicitly private"
  end.

Definition checkAdminPublishBind (addr_ : string) : option string :=
  match ParseAddr (TrimSpace addr_) with
  | None => Some "admin publish bind must be a literal private IP"
  | Some ip =>
      if negb (Zone ip =s "") then Some "admin publish bind must be a literal private IP"
      else if IsUnspecified ip then Some "admin publish bind must never be the wildcard"
      else if local_address ip then None
      else Some "admin publish bind is not loopback, private, Tailscale or link-local"
  end.

(** [hex.DecodeString] *)
Fixpoint HexDecode (s : string) : option string :=
  match s with
  | "" => Some ""
  | String a (String b r) => x ← unhex a; y ← unhex b; t ← HexDecode r; Some (String (ascii_of_N (16 * x + y)) t)
  | _ => None
  end.

Definition long_enough (decoded : option string) : bool :=
  match decoded with Some b => (32 <=? String.length b)%nat | None => false end.
Definition checkSecretEntropy (secret : string) : option string :=
  let s := TrimSpace secret in
  if long_enough (HexDecode s) then None
  else if existsb long_enough [DecodePadded64 std_alphabet s; DecodePadded64 url_alphabet s;
                               DecodeString64 std_alphabet s; DecodeString64 url_alphabet s] then None
  else Some "REPLX_EDGE_SECRET_KEY must be 32+ random bytes".

Definition EffectiveAdminListen (c : Config) : string := if negb (AdminListen c =s "") then AdminListen c else AdminBind c.

Definition sslModes : list string := ["disable"; "allow"; "prefer"; "require"; "verify-ca"; "verify-full"].

Definition Validate (c : Config) : option string :=
  match checkSecretEntropy (SecretKey c) with
  | Some e => Some e
  | None =>
      if negb (IngressMode c =s "cloudflare_tunnel") && negb (IngressMode c =s "direct")
      then Some "REPLX_EDGE_INGRESS_MODE must be cloudflare_tunnel or direct"
      else if PublicURL c =s "" then Some "REPLX_EDGE_PUBLIC_URL is required"
      else match checkAdminListen (EffectiveAdminListen c) (InDocker c) with
           | Some e => Some e
           | None =>
               match checkAdminPublishBind (AdminPublishBind c) with
               | Some e => Some e
               | None =>
                   if MediaFallbackEnabled c && (MediaPublicURL c =s "")
                   then Some "REPLX_EDGE_MEDIA_PUBLIC_URL is required when media fallback is enabled"
                   else if bool_decide (PostgresSSLMode c ∈ "" :: sslModes) then None
                   else Some "POSTGRES_SSLMODE must be disable, allow, prefer, require, verify-ca or verify-full"
               end
           end
  end.

(** ** Loading *)

Section load.
Context (env : gmap string string).

Definition getenv (key def : string) : string := default def (env !! key).
Definition intEnv (key : string) (def : Z) : Z := match env !! key with Some v => default def (Atoi v) | None => def end.
Definition flag (key def : string) : bool := EqualFold (getenv key def) "true".
(** A number in [1, max]. *)
Definition number_in (key def : string) (max : Z) : option Z :=
  n ← Atoi (getenv key def); if (n <=? 0) || (max <? n) then None else Some n.

Definition Load : outcome Config :=
  match number_in "REPLX_EDGE_ARTWORK_MAX_GB" "100" 10000 with
  | None => Err "invalid REPLX_EDGE_ARTWORK_MAX_GB"
  | Some artGB =>
      let cacheGB := intEnv "REPLX_EDGE_CACHE_MAX_GB" 20 in
      let diagGB := intEnv "REPLX_EDGE_DIAGNOSTICS_MAX_GB" 10 in
      if (cacheGB <? 0) || (diagGB <? 0) then Err "cache/diagnostics budgets must not be negative"
      else
        let traceDays := intEnv "REPLX_EDGE_TRACE_RETENTION_DAYS" 7 in
        let playDays := intEnv "REPLX_EDGE_PLAYBACK_RETENTION_DAYS" 30 in
        let auditDays := intEnv "REPLX_EDGE_AUDIT_RETENTION_DAYS" 180 in
        if (traceDays <? 0) || (playDays <? 0) || (auditDays <? 0) then Err "retention days must not be negative"
        else
          match number_in "REPLX_EDGE_ADMIN_PORT" "8080" 65535 with
          | None => Err "invalid REPLX_EDGE_ADMIN_PORT"
          | Some adminPort =>
              match number_in "REPLX_EDGE_MEDIA_PORT" "443" 65535 with
              | None => Err "invalid REPLX_EDGE_MEDIA_PORT"
              | Some mediaPort =>
                  match number_in "POSTGRES_PORT" "5432" 65535 with
                  | None => Err "invalid POSTGRES_PORT"
                  | Some pgPort =>
                      let cfg := mkConfig
                        (getenv "REPLX_EDGE_IMAGE_OWNER" "") (getenv "REPLX_EDGE_VERSION" "dev")
                        (getenv "REPLX_EDGE_PUBLIC_URL" "") (getenv "REPLX_EDGE_ORIGIN_INTERNAL_URL" "")
                        (getenv "REPLX_EDGE_INGRESS_MODE" "cloudflare_tunnel") adminPort
                        (getenv "REPLX_EDGE_ADMIN_BIND" "127.0.0.1") (getenv "REPLX_EDGE_ADMIN_LISTEN" "")
                        (getenv "REPLX_EDGE_ADMIN_PUBLISH_BIND" "127.0.0.1") (flag "REPLX_EDGE_IN_DOCKER" "false")
                        (getenv "REPLX_EDGE_LOG_LEVEL" "info") (getenv "REPLX_EDGE_SECRET_KEY" "")
                        (flag "REPLX_EDGE_MEDIA_FALLBACK_ENABLED" "false") (getenv "REPLX_EDGE_MEDIA_PUBLIC_URL" "") mediaPort
                        (getenv "POSTGRES_HOST" "postgres") pgPort (getenv "POSTGRES_DB" "replx_edge")
                        (getenv "POSTGRES_USER" "replx_edge") (getenv "POSTGRES_PASSWORD" "")
                        (getenv "REPLX_EDGE_POSTGRES_URL" "") (ToLower (TrimSpace (getenv "POSTGRES_SSLMODE" "")))
                        (getenv "REPLX_EDGE_VALKEY_ADDR" (getenv "VALKEY_ADDR" "valkey:6379"))
                        (getenv "REPLX_EDGE_PLEXTV_URL" "https://plex.tv") (flag "REPLX_EDGE_SPIKE_ROUTING" "false")
                        (getenv "REPLX_EDGE_ARTWORK_DIR" "/data/artwork") artGB
                        (flag "REPLX_EDGE_SHARED_ARTWORK_ENABLED" "true") cacheGB diagGB traceDays playDays auditDays in
                      match Validate cfg with Some e => Err e | None => Ok cfg end
                  end
              end
          end
  end.
End load.

(** ** The database URL *)

Definition effectiveSSLMode (c : Config) : string :=
  if bool_decide (PostgresSSLMode c ∈ sslModes) then PostgresSSLMode c
  else if PostgresSSLMode c =s "" then
    let host := ToLower (TrimSpace (PostgresHost c)) in
    if bool_decide (host ∈ [""; "postgres"; "localhost"; "127.0.0.1"; "::1"]) then "disable" else "require"
  else "require".

Definition DatabaseURL (c : Config) : string :=
  if negb (PostgresURL c =s "") then PostgresURL c
  else
    let u := mkURL "postgres" "" (Some (mkUser (PostgresUser c) (Some (PostgresPass c))))
               (PostgresHost c +:+ ":" +:+ Itoa (PostgresPort c)) ("/" +:+ PostgresDB c) "" false false "" "" "" in
    URLString (with_query u (Encode (QuerySet (UQuery u) "sslmode" (effectiveSSLMode c)))).

(** ** Peers *)

Definition peerIP (remoteAddr : string) : string :=
  if remoteAddr =s "" then ""
  else match SplitHostPort remoteAddr with
       | Some (host, _) => TrimSpace host
       | None => match ParseAddr (TrimSpace remoteAddr) with Some ip => AddrString ip | None => "" end
       end.

Definition trustedPeer (ip : string) : bool :=
  match ParseAddr ip with
  | None => false
  | Some parsed => if negb (Zone parsed =s "") then false else local_address parsed
  end.

Definition loginPeer (remoteAddr : string) : string :=
  let host := match SplitHostPort remoteAddr with Some (h, _) => h | None => remoteAddr end in
  if host =s "" then "unknown" else host.

(** ** What a configuration that loads satisfies *)

(** The IPv4 addresses that are not on the Internet. *)
Lemma local_address_v4 a b c d :
  0 <= a < 256 → 0 <= b < 256 → 0 <= c < 256 → 0 <= d < 256 →
  local_address (V4 (ip4 a b c d)) = true ↔
  a = 127 ∨ a = 10 ∨ (a = 172 ∧ 16 <= b < 32) ∨ (a = 192 ∧ b = 168) ∨ (a = 169 ∧ b = 254) ∨ (a = 100 ∧ 64 <= b < 128).
Proof.
  intros Ha Hb Hc Hd. unfold local_address, IsLoopback, IsPrivate, IsLinkLocalUnicast, tailscaleRange, prefix4_contains, Unmap,
    in_prefix, ip4.
  change (2 ^ (32 - 8)) with 16777216. change (2 ^ (32 - 12)) with 1048576. change (2 ^ (32 - 16)) with 65536.
  change (2 ^ (32 - 10)) with 4194304. set (x := ((a * 256 + b) * 256 + c) * 256 + d).
  assert (x / 65536 = a * 256 + b) as E16 by (symmetry; apply (Z.div_unique x 65536 _ (c * 256 + d)); unfold x; lia).
  assert (x / 16777216 = a) as -> by (change 16777216 with (65536 * 256); rewrite <- Z.div_div, E16 by done;
    symmetry; apply (Z.div_unique _ 256 _ b); lia).
  assert (x / 1048576 = a * 16 + b / 16) as -> by (change 1048576 with (65536 * 16); rewrite <- Z.div_div, E16 by done;
    replace (a * 256 + b) with (a * 16 * 16 + b) by lia; by apply Z.div_add_l).
  assert (x / 4194304 = a * 4 + b / 64) as -> by (change 4194304 with (65536 * 64); rewrite <- Z.div_div, E16 by done;
    replace (a * 256 + b) with (a * 4 * 64 + b) by lia; by apply Z.div_add_l).
  rewrite E16. clearbody x. clear E16. rewrite !orb_true_iff, !Z.eqb_eq.
  assert (16 * (b / 16) <= b < 16 * (b / 16) + 16) by (pose proof (Z.mul_div_le b 16); pose proof (Z.mul_succ_div_gt b 16); lia).
  assert (64 * (b / 64) <= b < 64 * (b / 64) + 64) by (pose proof (Z.mul_div_le b 64); pose proof (Z.mul_succ_div_gt b 64); lia).
  generalize dependent (b / 16). generalize dependent (b / 64). intros.
  repeat match goal with |- context [?p / ?q] => let v := eval vm_compute in (p / q) in change (p / q) with v end. lia.
Qed.

Lemma number_in_bounds env key def max n : number_in env key def max = Some n → 0 < n <= max.
Proof.
  unfold number_in. destruct (Atoi _) as [m|]; [|done]. cbn [mbind option_bind]. destruct (_ || _) eqn:E; [done|].
  intros [= <-]. apply orb_false_elim in E as [?%Z.leb_gt ?%Z.ltb_ge]. lia.
Qed.

Lemma checkAdminListen_ok a d :
  checkAdminListen a d = None →
  ∃ ip, ParseAddr (TrimSpace a) = Some ip ∧ Zone ip = "" ∧ (local_address ip = true ∨ IsUnspecified ip = true ∧ d = true).
Proof.
  unfold checkAdminListen. destruct (ParseAddr (TrimSpace a)) as [ip|]; [|done]. intros E. exists ip. split; [done|].
  destruct (String.eqb_spec (Zone ip) "") as [Hz|]; [|done]. split; [done|]. cbn [negb] in E.
  destruct (local_address ip); [by left|]. destruct (IsUnspecified ip), d; auto; discriminate.
Qed.

Lemma checkAdminPublishBind_ok a :
  checkAdminPublishBind a = None →
  ∃ ip, ParseAddr (TrimSpace a) = Some ip ∧ Zone ip = "" ∧ local_address ip = true ∧ IsUnspecified ip = false.
Proof.
  unfold checkAdminPublishBind. destruct (ParseAddr (TrimSpace a)) as [ip|]; [|done]. intros E. exists ip. split; [done|].
  destruct (String.eqb_spec (Zone ip) "") as [Hz|]; [|done]. split; [done|]. cbn [negb] in E.
  destruct (IsUnspecified ip), (local_address ip); auto; discriminate.
Qed.

Lemma checkSecretEntropy_ok s :
  checkSecretEntropy s = None →
  ∃ b, (32 <= String.length b)%nat ∧ Some b ∈
    [HexDecode (TrimSpace s); DecodePadded64 std_alphabet (TrimSpace s); DecodePadded64 url_alphabet (TrimSpace s);
     DecodeString64 std_alphabet (TrimSpace s); DecodeString64 url_alphabet (TrimSpace s)].
Proof.
  unfold checkSecretEntropy. set (t := TrimSpace s).
  assert (Hl : ∀ o, long_enough o = true → ∃ b, (32 <= String.length b)%nat ∧ o = Some b).
  { intros [b|] H; [|done]. exists b. split; [by apply Nat.leb_le|done]. }
  destruct (long_enough (HexDecode t)) eqn:E1.
  { intros _. destruct (Hl _ E1) as (b & ? & Eb). exists b. split; [done|]. rewrite <- Eb. left. }
  destruct (existsb _ _) eqn:E2; [|done]. intros _. apply existsb_exists in E2 as (o & Ho%list_elem_of_In & Eo).
  destruct (Hl _ Eo) as (b & ? & ->). exists b. split; [done|]. by right.
Qed.

Record safe_config (c : Config) : Prop := mkSafe {
  strong_secret : ∃ b, (32 <= String.length b)%nat ∧ Some b ∈
    [HexDecode (TrimSpace (SecretKey c)); DecodePadded64 std_alphabet (TrimSpace (SecretKey c));
     DecodePadded64 url_alphabet (TrimSpace (SecretKey c)); DecodeString64 std_alphabet (TrimSpace (SecretKey c));
     DecodeString64 url_alphabet (TrimSpace (SecretKey c))];
  known_ingress : IngressMode c = "cloudflare_tunnel" ∨ IngressMode c = "direct";
  has_public_url : PublicURL c ≠ "";
  private_listener : ∃ ip, ParseAddr (TrimSpace (EffectiveAdminListen c)) = Some ip ∧ Zone ip = "" ∧
    (local_address ip = true ∨ IsUnspecified ip = true ∧ InDocker c = true);
  private_publication : ∃ ip, ParseAddr (TrimSpace (AdminPublishBind c)) = Some ip ∧ Zone ip = "" ∧
    local_address ip = true ∧ IsUnspecified ip = false;
  fallback_has_url : MediaFallbackEnabled c = true → MediaPublicURL c ≠ "";
  known_sslmode : PostgresSSLMode c = "" ∨ PostgresSSLMode c ∈ sslModes;
}.

Lemma Validate_safe c : Validate c = None → safe_config c.
Proof.
  unfold Validate. destruct (checkSecretEntropy _) eqn:E1; [done|].
  destruct (negb (IngressMode c =s "cloudflare_tunnel") && negb (IngressMode c =s "direct")) eqn:E2; [done|].
  destruct (String.eqb_spec (PublicURL c) "") as [|E3]; [done|].
  destruct (checkAdminListen _ _) eqn:E4; [done|]. destruct (checkAdminPublishBind _) eqn:E5; [done|].
  destruct (MediaFallbackEnabled c && (MediaPublicURL c =s "")) eqn:E6; [done|].
  destruct (bool_decide _) eqn:E7; [|done]. intros _. split.
  - by apply checkSecretEntropy_ok.
  - apply andb_false_iff in E2 as [E2%negb_false_iff%String.eqb_eq|E2%negb_false_iff%String.eqb_eq]; auto.
  - done.
  - by apply checkAdminListen_ok.
  - by apply checkAdminPublishBind_ok.
  - intros Hm. rewrite Hm in E6. cbn [andb] in E6. by apply String.eqb_neq.
  - apply bool_decide_eq_true, elem_of_cons in E7 as [E7|E7]; auto.
Qed.

Lemma DatabaseURL_sslmode c :
  PostgresURL c = "" → values_of (ParseQuery (query_part (DatabaseURL c))) "sslmode" = [effectiveSSLMode c].
Proof.
  intros E. unfold DatabaseURL. rewrite E. cbn [String.eqb negb]. cbv zeta. rewrite URLString_query; [|by intros x [->| ->]].
  rewrite ParseQuery_Encode. apply values_of_insert.
Qed.

Lemma effectiveSSLMode_safe c :
  effectiveSSLMode c ∈ sslModes ∧
  (effectiveSSLMode c = PostgresSSLMode c ∨ effectiveSSLMode c = "require" ∨
   ToLower (TrimSpace (PostgresHost c)) ∈ [""; "postgres"; "localhost"; "127.0.0.1"; "::1"]).
Proof.
  unfold effectiveSSLMode. case_bool_decide as H1; [by auto|]. destruct (PostgresSSLMode c =s "").
  - case_bool_decide as H2; (split; [by apply (bool_decide_unpack _)|]); auto.
  - split; [by apply (bool_decide_unpack _)|]. auto.
Qed.

Lemma Load_ranges env c :
  Load env = Ok c →
  safe_config c ∧
  0 < AdminPort c <= 65535 ∧ 0 < MediaPort c <= 65535 ∧ 0 < PostgresPort c <= 65535 ∧ 0 < ArtworkMaxGB c <= 10000 ∧
  0 <= CacheMaxGB c ∧ 0 <= DiagnosticsMaxGB c ∧ 0 <= TraceRetentionDays c ∧ 0 <= PlaybackRetentionDays c ∧ 0 <= AuditRetentionDays c.
Proof.
  unfold Load. destruct (number_in env "REPLX_EDGE_ARTWORK_MAX_GB" _ _) as [art|] eqn:E1; [|done]. cbv zeta.
  destruct ((intEnv env "REPLX_EDGE_CACHE_MAX_GB" 20 <? 0) || _) eqn:E2; [done|].
  destruct ((intEnv env "REPLX_EDGE_TRACE_RETENTION_DAYS" 7 <? 0) || _ || _) eqn:E3; [done|].
  destruct (number_in env "REPLX_EDGE_ADMIN_PORT" _ _) as [ap|] eqn:E4; [|done].
  destruct (number_in env "REPLX_EDGE_MEDIA_PORT" _ _) as [mp|] eqn:E5; [|done].
  destruct (number_in env "POSTGRES_PORT" _ _) as [pp|] eqn:E6; [|done].
  destruct (Validate _) eqn:E7; [done|]. intros [= <-]. apply Validate_safe in E7.
  apply number_in_bounds in E1, E4, E5, E6. apply orb_false_elim in E2 as [?%Z.ltb_ge ?%Z.ltb_ge].
  apply orb_false_elim in E3 as [[?%Z.ltb_ge ?%Z.ltb_ge]%orb_false_elim ?%Z.ltb_ge].
  split; [exact E7|]. cbn [AdminPort MediaPort PostgresPort ArtworkMaxGB CacheMaxGB DiagnosticsMaxGB TraceRetentionDays
    PlaybackRetentionDays AuditRetentionDays]. split_and!; lia.
Qed.

(** C29: The gateway starts only with a configuration that cannot expose it: a
    secret of at least 32 decoded bytes, an admin listener on a loopback,
    private, link-local or overlay address, on the wildcard only inside a
    container, and published only on such an address; ports, budgets and
    retention in range; and, unless an operator wrote otherwise, a database on
    another host is reached only with TLS. *)
Theorem configuration_fails_closed env c :
  Load env = Ok c →
  safe_config c ∧
  0 < AdminPort c <= 65535 ∧ 0 < MediaPort c <= 65535 ∧ 0 < PostgresPort c <= 65535 ∧ 0 < ArtworkMaxGB c <= 10000 ∧
  0 <= CacheMaxGB c ∧ 0 <= DiagnosticsMaxGB c ∧ 0 <= TraceRetentionDays c ∧ 0 <= PlaybackRetentionDays c ∧ 0 <= AuditRetentionDays c ∧
  (PostgresURL c = "" → ∃ mode, values_of (ParseQuery (query_part (DatabaseURL c))) "sslmode" = [mode] ∧ mode ∈ sslModes ∧
     (mode = PostgresSSLMode c ∨ mode = "require" ∨
      ToLower (TrimSpace (PostgresHost c)) ∈ [""; "postgres"; "localhost"; "127.0.0.1"; "::1"])).
Proof.
  intros Hl. destruct (Load_ranges env c Hl) as (Hs & H1 & H2 & H3 & H4 & H5 & H6 & H7 & H8 & H9). split_and!; try done; try lia.
  intros Hu. eexists. split; [by apply DatabaseURL_sslmode|apply effectiveSSLMode_safe].
Qed.

Definition w_env : gmap string string :=
  {["REPLX_EDGE_SECRET_KEY" := "000102030405060708090a0b0c0d0e0f101112131415161718191a1b1c1d1e1f";
    "REPLX_EDGE_PUBLIC_URL" := "https://edge.example"; "REPLX_EDGE_ADMIN_PUBLISH_BIND" := "100.101.102.103";
    "REPLX_EDGE_IN_DOCKER" := "TRUE"; "REPLX_EDGE_ADMIN_LISTEN" := "0.0.0.0"; "POSTGRES_HOST" := "db.example"]}.
Lemma configuration_fails_closed_witness :
  match Load w_env with Ok c => 0 < AdminPort c <= 65535 ∧ effectiveSSLMode c = "require" | _ => False end.
Proof.
  destruct (Load w_env) as [c|e|] eqn:E; [|vm_compute in E; discriminate E..].
  destruct (configuration_fails_closed w_env c E) as (_ & H & _). split; [exact H|].
  vm_compute in E. injection E as <-. vm_compute. reflexivity.
Defined.

(** A lower-case phrase of words is accepted as unpadded Base64. *)
Lemma passphrase_accepted :
  checkSecretEntropy "correcthorsebatterystaplecorrecthorsebattery" = None.
Proof. vm_compute. reflexivity. Qed.

(** Only local infrastructure may speak for others. *)
Lemma trustedPeer_local ip : trustedPeer ip = true → ∃ a, ParseAddr ip = Some a ∧ Zone a = "" ∧ local_address a = true.
Proof.
  unfold trustedPeer. destruct (ParseAddr ip) as [a|]; [|done]. destruct (String.eqb_spec (Zone a) ""); [|done]. intros H. by exists a.
Qed.

End Config.
