(* ===== verification/Passwords.v ===== *)
(** * Administrator passwords (internal/admin/password.go)

    Self-describing Argon2id records: a password is stored as
    [$argon2id$v=19$m=..,t=..,p=..$salt$hash] and verified with the
    parameters of its own record.  The key derivation [argon2.IDKey] is a
    parameter: a function that returns as many bytes as it is asked for. *)

From S2P Require Import Prelude GoStrings GoHttp GoBase64.

Module Passwords.

Definition argonTime : Z := 1.
Definition argonMemory : Z := 64 * 1024.
Definition argonThreads : Z := 4.
Definition argonKeyLen : Z := 32.
Definition saltLen : Z := 16.
(** [argon2.Version]. *)
Definition argonVersion : Z := 19.

Record argonParams := mkParams {
  version : Z; memory : Z; time : Z; threads : Z; salt : string; hash : string;
}.

Notation enc64 := (EncodeToString64 std_alphabet).
Notation dec64 := (DecodeString64 std_alphabet).

Definition formatPHC (version memory time threads : Z) (salt hash : string) : string :=
  "$argon2id$v=" +:+ Itoa version +:+ "$m=" +:+ Itoa memory +:+ ",t=" +:+ Itoa time +:+
  ",p=" +:+ Itoa threads +:+ "$" +:+ enc64 salt +:+ "$" +:+ enc64 hash.

(** ** fmt.Sscanf with the format "v=%d" into an unsigned 32-bit integer

    The verb skips white space, but not a line break, and reads the longest
    run of digits; what follows is not looked at. *)
Definition wide_spaces : list (list N) :=
  [[194; 133]; [194; 160]; [225; 154; 128]; [226; 128; 168]; [226; 128; 169]; [226; 128; 175]; [226; 129; 159];
   [227; 128; 128]]%N ++ ((λ n, [226; 128; N.of_nat n]%N) <$> seq 128 11).
Definition bytes_string (l : list N) : string := foldr (λ n s, String (ascii_of_N n) s) "" l.

Fixpoint skip_space (fuel : nat) (s : string) : option string :=
  match fuel, s with
  | S f, String c r =>
      if byte_is c 10 then None
      else if is_space c then skip_space f r
      else match find (λ w, HasPrefix s (bytes_string w)) wide_spaces with
           | Some w => skip_space f (sdrop (length w) s)
           | None => Some s
           end
  | _, _ => Some s
  end.

Fixpoint take_digits (s : string) : string :=
  match s with
  | String c r => if is_digit c then String c (take_digits r) else ""
  | "" => ""
  end.

Definition scan_version (s : string) : option Z :=
  if HasPrefix s "v=" then
    r ← skip_space (String.length s) (sdrop 2 s);
    n ← ParseUint 64 (take_digits r);
    if n <? 2 ^ 32 then Some n else None
  else None.

(** ** Parsing *)

Definition param (kv : string) : option (string * Z) :=
  '(k, v) ← Cut kv "="; n ← ParseUint 32 v; Some (k, n).

Fixpoint params (l : list string) (m : gmap string Z) : option (gmap string Z) :=
  match l with
  | [] => Some m
  | kv :: l => '(k, n) ← param kv; params l (<[k := n]> m)
  end.

Definition bounded (lo hi : Z) (v : option Z) : option Z :=
  n ← v; if (lo <=? n) && (n <=? hi) then Some n else None.

Definition at_least (n : Z) (s : option string) : option string :=
  b ← s; if slen b <? n then None else Some b.

Definition parsePHC (encoded : string) : option argonParams :=
  match Split encoded "$" with
  | [_; algorithm; v; costs; s64; h64] =>
      if negb (algorithm =s "argon2id") then None
      else
        v ← scan_version v;
        if negb (v =? argonVersion) then None
        else
          ps ← params (Split costs ",") ∅;
          m ← bounded (8 * 1024) (2 ^ 22) (ps !! "m");
          t ← bounded 1 16 (ps !! "t");
          p ← bounded 1 16 (ps !! "p");
          salt ← at_least 8 (dec64 s64);
          hash ← at_least 16 (dec64 h64);
          Some (mkParams v m t p salt hash)
  | _ => None
  end.

(** ** Hashing and verification *)

Section passwords.
Context (IDKey : ∀ (password salt : string) (time memory threads keyLen : Z), string).

(** [salt] is what the random source returned. *)
Definition hashPassword (salt : option string) (password : string) : option string :=
  if slen password <? 8 then None
  else
    salt ← salt;
    Some (formatPHC argonVersion argonMemory argonTime argonThreads salt
            (IDKey password salt argonTime argonMemory argonThreads argonKeyLen)).

Definition verifyPassword (encoded password : string) : bool :=
  match parsePHC encoded with
  | None => false
  | Some p => IDKey password (salt p) (time p) (memory p) (threads p) (slen (hash p)) =s hash p
  end.

Definition needsRehash (encoded : string) : bool :=
  match parsePHC encoded with
  | None => false
  | Some p => negb (version p =? argonVersion) || negb (memory p =? argonMemory) ||
              negb (time p =? argonTime) || negb (threads p =? argonThreads)
  end.

End passwords.

(** ** Round trip *)

Lemma take_digits_all s : all_chars is_digit s = true → take_digits s = s.
Proof.
  induction s as [|c s IH]; [done|]. cbn [all_chars take_digits]. intros [-> Hs]%andb_prop. by rewrite IH.
Qed.

(** No white space starts with a digit. *)
Lemma skip_space_digit f c r : is_digit c = true → skip_space (S f) (String c r) = Some (String c r).
Proof. destruct c as [[][][][][][][][]]; try discriminate; reflexivity. Qed.

Lemma ParseUint_Itoa bits n : 0 <= n < 2 ^ bits → ParseUint bits (Itoa n) = Some n.
Proof. intros Hn. unfold ParseUint. rewrite unsigned_value_Itoa by lia. cbn. by rewrite (proj2 (Z.ltb_lt _ _)) by lia. Qed.

Lemma Itoa_head_digit n : 0 <= n → ∃ c r, Itoa n = String c r ∧ is_digit c = true.
Proof.
  intros Hn. pose proof (unsigned_value_Itoa n Hn) as Hu. pose proof (Itoa_digits n Hn) as Hd.
  destruct (Itoa n) as [|c r]; [done|]. cbn [all_chars] in Hd. apply andb_prop in Hd as [? _]. by exists c, r.
Qed.

Lemma scan_version_Itoa n : 0 <= n < 2 ^ 32 → scan_version ("v=" +:+ Itoa n) = Some n.
Proof.
  intros Hn. unfold scan_version. rewrite HasPrefix_app.
  change (sdrop 2 ("v=" +:+ Itoa n)) with (Itoa n).
  change (String.length ("v=" +:+ Itoa n)) with (S (S (String.length (Itoa n)))).
  destruct (Itoa_head_digit n) as (c & r & E & Hc); [lia|]. rewrite E, skip_space_digit by done. rewrite <- E.
  cbn [mbind option_bind]. rewrite take_digits_all by (apply Itoa_digits; lia).
  rewrite ParseUint_Itoa by (split; [lia|]; transitivity (2 ^ 32); [lia|done]). cbn [mbind option_bind].
  by rewrite (proj2 (Z.ltb_lt _ _)) by lia.
Qed.

Lemma Itoa_free (sep : ascii) n : is_digit sep = false → 0 <= n → all_chars (λ c, negb (Ascii.eqb c sep)) (Itoa n) = true.
Proof.
  intros Hs Hn. eapply all_chars_impl; [|by apply Itoa_digits]. intros c Hc. destruct (Ascii.eqb_spec c sep) as [->|]; [|done].
  congruence.
Qed.

Lemma enc64_free (sep : ascii) s :
  forallb (λ n, negb (Ascii.eqb (sextet std_alphabet (N.of_nat n)) sep)) (seq 0 64) = true →
  all_chars (λ c, negb (Ascii.eqb c sep)) (enc64 s) = true.
Proof.
  intros H. apply EncodeToString64_chars. intros n Hn.
  rewrite forallb_forall in H. specialize (H (N.to_nat n)). rewrite N2Nat.id in H. apply H. apply in_seq. lia.
Qed.

Lemma param_Itoa k n :
  all_chars (λ c, negb (Ascii.eqb c "=")) k = true → 0 <= n < 2 ^ 32 → param (k +:+ String "=" (Itoa n)) = Some (k, n).
Proof. intros Hk Hn. unfold param. rewrite Cut_free by done. cbn [mbind option_bind]. by rewrite ParseUint_Itoa by lia. Qed.

Lemma params_of m t p :
  0 <= m < 2 ^ 32 → 0 <= t < 2 ^ 32 → 0 <= p < 2 ^ 32 →
  params (Split ("m=" +:+ Itoa m +:+ ",t=" +:+ Itoa t +:+ ",p=" +:+ Itoa p) ",") ∅ =
  Some (<["p" := p]> (<["t" := t]> (<["m" := m]> ∅))).
Proof.
  intros Hm Ht Hp.
  change ("m=" +:+ Itoa m +:+ ",t=" +:+ Itoa t +:+ ",p=" +:+ Itoa p)
    with (("m=" +:+ Itoa m) +:+ String "," (("t=" +:+ Itoa t) +:+ String "," ("p=" +:+ Itoa p))).
  rewrite !Split_free_app, Split_free by (cbn; apply Itoa_free; [done|lia]). cbn [params].
  change ("m=" +:+ Itoa m) with ("m" +:+ String "=" (Itoa m)).
  change ("t=" +:+ Itoa t) with ("t" +:+ String "=" (Itoa t)).
  change ("p=" +:+ Itoa p) with ("p" +:+ String "=" (Itoa p)).
  by rewrite !param_Itoa by done.
Qed.

Lemma Split_formatPHC v m t p s h :
  0 <= v → 0 <= m → 0 <= t → 0 <= p →
  Split (formatPHC v m t p s h) "$" =
  [""; "argon2id"; "v=" +:+ Itoa v; "m=" +:+ Itoa m +:+ ",t=" +:+ Itoa t +:+ ",p=" +:+ Itoa p; enc64 s; enc64 h].
Proof.
  intros Hv Hm Ht Hp. rewrite <- (Split_Join [""; "argon2id"; _; _; _; _] "$"); [|repeat constructor|done].
  - f_equal. unfold formatPHC. cbn [Join]. by rewrite !sapp_assoc.
  - cbn. by apply Itoa_free.
  - rewrite !all_chars_app. cbn. by rewrite !Itoa_free.
  - by apply enc64_free.
  - by apply enc64_free.
Qed.

(** What [formatPHC] writes within the accepted bounds, [parsePHC] reads
    back. *)
Lemma parsePHC_formatPHC m t p s h :
  8 * 1024 <= m <= 2 ^ 22 → 1 <= t <= 16 → 1 <= p <= 16 → 8 <= slen s → 16 <= slen h →
  parsePHC (formatPHC argonVersion m t p s h) = Some (mkParams argonVersion m t p s h).
Proof.
  intros Hm Ht Hp Hs Hh. unfold parsePHC. rewrite Split_formatPHC by (unfold argonVersion; lia).
  change (negb ("argon2id" =s "argon2id")) with false. cbv iota.
  rewrite scan_version_Itoa by (unfold argonVersion; lia). cbn [mbind option_bind].
  change (negb (argonVersion =? argonVersion)) with false. cbv iota.
  rewrite params_of by lia. cbn [mbind option_bind]. simplify_map_eq. unfold bounded, at_least.
  rewrite !DecodeString64_EncodeToString64 by apply std_alphabet_ok. cbn [mbind option_bind].
  rewrite !(proj2 (Z.leb_le _ _)), !(proj2 (Z.ltb_ge _ _)) by lia. done.
Qed.

(** The bounds a stored record must meet before any key is derived from it:
    a record edited by hand cannot ask for more than 4 GiB, sixteen passes
    or sixteen lanes. *)
Lemma parsePHC_bounds e p :
  parsePHC e = Some p →
  version p = argonVersion ∧ 8 * 1024 <= memory p <= 2 ^ 22 ∧ 1 <= time p <= 16 ∧ 1 <= threads p <= 16 ∧
  8 <= slen (salt p) ∧ 16 <= slen (hash p).
Proof.
  unfold parsePHC. intros H. do 7 (case_match; try discriminate). unfold bounded, at_least in H.
  repeat (simplify_option_eq; case_match; try discriminate).
  repeat match goal with
  | E : Some _ = Some _ |- _ => injection E as ->
  | E : negb _ = false |- _ => apply negb_false_iff in E
  end. cbn [version memory time threads salt hash]. zbool. lia.
Qed.

Section theorems.
Context (IDKey : ∀ (password salt : string) (time memory threads keyLen : Z), string).
(** The documented contract of [argon2.IDKey]. *)
Context (IDKey_length : ∀ password salt t m p n, 0 < n → slen (IDKey password salt t m p n) = n).

(** C35: A password record made by [hashPassword] with a salt of the required length is
    well formed, verifies the password it was made from, needs no rehash,
    and verifies another password only if that derives the same key. *)
Theorem password_roundtrip s password record :
  hashPassword IDKey (Some s) password = Some record → slen s = saltLen →
  verifyPassword IDKey record password = true ∧ needsRehash record = false ∧
  ∀ other, verifyPassword IDKey record other = true ↔
    IDKey other s argonTime argonMemory argonThreads argonKeyLen =
    IDKey password s argonTime argonMemory argonThreads argonKeyLen.
Proof.
  unfold hashPassword, saltLen. intros H Hs. case_match; [discriminate|]. cbn [mbind option_bind] in H. injection H as <-.
  set (k := IDKey password s _ _ _ _). assert (Hk : slen k = argonKeyLen) by (by apply IDKey_length).
  assert (Hp : parsePHC (formatPHC argonVersion argonMemory argonTime argonThreads s k) =
               Some (mkParams argonVersion argonMemory argonTime argonThreads s k)).
  { apply parsePHC_formatPHC; unfold argonMemory, argonTime, argonThreads, argonKeyLen in *; lia. }
  unfold verifyPassword, needsRehash. rewrite Hp. cbn [version memory time threads salt hash]. rewrite Hk.
  split; [by apply String.eqb_eq|]. split; [done|]. intros other. apply String.eqb_eq.
Qed.

End theorems.

(** A derivation that keeps the contract. *)
Definition w_IDKey (password salt : string) (t m p n : Z) : string :=
  stake (Z.to_nat n) (password +:+ salt +:+ Nat.iter (Z.to_nat n) (String "0") "").
Lemma w_IDKey_length password salt t m p n : 0 < n → slen (w_IDKey password salt t m p n) = n.
Proof.
  intros Hn. unfold slen, w_IDKey.
  assert (E : ∀ k, String.length (Nat.iter k (String "0") "") = k).
  { intros k. induction k as [|k IH]; [done|]. exact (f_equal S IH). }
  rewrite length_stake; [lia|]. rewrite !length_sapp, E. lia.
Qed.

Lemma password_roundtrip_witness :
  verifyPassword w_IDKey
    (default "" (hashPassword w_IDKey (Some "0123456789abcdef") "correct horse")) "correct horse" = true.
Proof.
  exact (proj1 (password_roundtrip w_IDKey w_IDKey_length "0123456789abcdef" "correct horse" _ eq_refl eq_refl)).
Defined.

End Passwords.
