(* ===== verification/Retention.v ===== *)
(** * Retention of high-volume records (internal/retention/retention.go)

    Old playback sessions and decisions, expired diagnostic traces and old
    audit events are deleted in bounded batches.  A batch is one statement:
    it sees the time at which it runs, deletes at most [batch] of the rows
    that are expired then, in whatever order the database finds them, and
    may fail, or be carried out while its reply is lost.  Deleting a session
    takes its decisions with it ([ON DELETE CASCADE]).

    The bounds are read from the settings table before each pass. *)

From S2P Require Import Prelude GoStrings.

Module Retention.

Definition Day : Z := 24 * Hour.

Record Policy := mkPolicy { PlaybackDays : Z; AuditDays : Z; BatchSize : Z }.
Record Result := mkResult { Sessions : Z; Decisions : Z; Traces : Z; Audits : Z }.

Definition batchSize (p : Policy) : Z := if 0 <? BatchSize p then BatchSize p else 1000.

(** What the environment decides at a statement: its fate, how much time
    passed, and whether the context has ended when it is looked at. *)
Inductive fate := Done | Lost | Unseen.
Record tick := mkTick { t_fate : fate; t_advance : N; t_cancelled : bool }.
Definition fair : tick := mkTick Done 0 false.

Inductive status := Complete | Failed | OutOfFuel.

(** ** Batches *)

Section purge.
Context {R : Type} (expired : Z → R → bool) (arrange : list string → list string) (batch : Z).

Record table := mkTable { rows : gmap string R; clock : Z; env : list tick }.

Definition next (s : table) : table * tick :=
  match env s with
  | [] => (s, fair)
  | t :: e => (mkTable (rows s) (clock s + Z.of_N (t_advance t)) e, t)
  end.

(** The rows of one statement. *)
Definition selected (s : table) : list string :=
  take (Z.to_nat batch) (arrange (map_to_list (filter (λ kv, expired (clock s) kv.2 = true) (rows s))).*1).
Definition drop_rows (l : list string) (m : gmap string R) : gmap string R := filter (λ kv, kv.1 ∉ l) m.
Definition deleted (s : table) : table := mkTable (drop_rows (selected s) (rows s)) (clock s) (env s).

Fixpoint purge_loop (fuel : nat) (s : table) (total : Z) : table * Z * status :=
  match fuel with
  | O => (s, total, OutOfFuel)
  | S f =>
      let '(s, t) := next s in
      match t_fate t with
      | Lost => (s, total, Failed)
      | Unseen => (deleted s, total, Failed)
      | Done =>
          let n := Z.of_nat (length (selected s)) in
          if n <? batch then (deleted s, total + n, Complete)
          else if t_cancelled t then (deleted s, total + n, Failed)
          else purge_loop f (deleted s) (total + n)
      end
  end.
(** Every batch but the last removes a row, so the number of rows is fuel
    enough. *)
Definition purgeBatched (s : table) : table * Z * status := purge_loop (S (size (rows s))) s 0.

(** ** Lemmas *)

Context (arrange_perm : ∀ l, arrange l ≡ₚ l).

Lemma selected_in s k :
  k ∈ selected s → ∃ r, rows s !! k = Some r ∧ expired (clock s) r = true.
Proof.
  unfold selected. intros Hk%subseteq_take. rewrite arrange_perm in Hk.
  apply list_elem_of_fmap in Hk as ([k' r] & -> & Hk). apply elem_of_map_to_list, map_lookup_filter_Some in Hk as [? ?].
  by exists r.
Qed.

Lemma selected_all s k r :
  Z.of_nat (length (selected s)) < batch → rows s !! k = Some r → expired (clock s) r = true → k ∈ selected s.
Proof.
  unfold selected. rewrite length_take. intros Hl Hk He. rewrite take_ge by lia. rewrite arrange_perm.
  apply list_elem_of_fmap. exists (k, r). split; [done|]. apply elem_of_map_to_list, map_lookup_filter_Some. done.
Qed.

Lemma drop_rows_sub l m : drop_rows l m ⊆ m.
Proof. apply map_filter_subseteq. Qed.

Lemma deleted_smaller s : 0 < batch → batch <= Z.of_nat (length (selected s)) → (size (rows (deleted s)) < size (rows s))%nat.
Proof.
  intros Hb Hn. destruct (selected s) as [|k l] eqn:E; [cbn in Hn; lia|].
  destruct (selected_in s k) as (r & Hk & _); [rewrite E; set_solver|].
  assert (Hsub : rows (deleted s) ⊆ delete k (rows s)).
  { apply map_subseteq_spec. cbn [rows deleted]. intros i x Hi. apply map_lookup_filter_Some in Hi as [Hi Hni].
    rewrite lookup_delete_ne; [done|]. intros <-. apply Hni. cbn. rewrite E. set_solver. }
  apply map_subseteq_size in Hsub. rewrite map_size_delete, Hk in Hsub. 
  assert (size (rows s) ≠ 0)%nat by (apply map_size_non_empty_iff; intros E0; by rewrite E0, lookup_empty in Hk). lia.
Qed.

(** What a run of batches does, whatever happens: only rows that were
    expired by its end go, time moves forward. *)
Definition purges (s s' : table) : Prop :=
  clock s <= clock s' ∧ rows s' ⊆ rows s ∧
  ∀ k r, rows s !! k = Some r → rows s' !! k = None → ∃ t, clock s <= t <= clock s' ∧ expired t r = true.

Lemma purges_refl s : purges s s.
Proof. split; [done|]. split; [done|]. intros k r E E'. congruence. Qed.

Lemma purges_trans a b c : purges a b → purges b c → purges a c.
Proof.
  intros (H1 & H2 & H3) (H4 & H5 & H6). split; [lia|]. split; [by transitivity (rows b)|]. intros k r Ha Hc.
  destruct (rows b !! k) as [r'|] eqn:Eb.
  - assert (r' = r) as -> by (pose proof (lookup_weaken _ _ _ _ Eb H2); congruence).
    destruct (H6 k r Eb Hc) as (t & ? & ?). exists t. split; [lia|done].
  - destruct (H3 k r Ha Eb) as (t & ? & ?). exists t. split; [lia|done].
Qed.

Lemma next_purges s : purges s (next s).1.
Proof.
  unfold next. destruct (env s) as [|t e]; [apply purges_refl|]. split; cbn; [lia|]. split; [done|].
  intros k r E E'. congruence.
Qed.

Lemma deleted_purges s : purges s (deleted s).
Proof.
  split; [done|]. split; [apply drop_rows_sub|]. intros k r Hk Hn. exists (clock s). split; [cbn; lia|].
  apply map_lookup_filter_None in Hn as [Hn|Hn]; [congruence|]. specialize (Hn r Hk). cbn in Hn.
  assert (Hin : k ∈ selected s) by (destruct (decide (k ∈ selected s)); [done|by exfalso; apply Hn]).
  destruct (selected_in s k Hin) as (r' & ? & ?). congruence.
Qed.

(** Enough fuel: the loop ends; when it reports success, no row is left that
    was expired at the last statement. *)
Lemma purge_loop_spec fuel s total :
  0 < batch → (size (rows s) < fuel)%nat →
  let '(s', _, st) := purge_loop fuel s total in
  st ≠ OutOfFuel ∧ purges s s' ∧
  (st = Complete → ∀ k r, rows s' !! k = Some r → expired (clock s') r = false).
Proof.
  intros Hb. revert s total. induction fuel as [|f IH]; intros s total Hf; [lia|]. cbn [purge_loop].
  pose proof (next_purges s) as Hp. assert (Hrows : rows (next s).1 = rows s) by (unfold next; by destruct (env s)).
  destruct (next s) as [s1 t]. cbn [fst] in Hp, Hrows.
  assert (Hd : purges s (deleted s1)) by (eapply purges_trans; [exact Hp|apply deleted_purges]).
  destruct (t_fate t); [|done..]. cbv zeta. destruct (Z.ltb_spec (Z.of_nat (length (selected s1))) batch) as [Hlt|Hge].
  - split; [done|]. split; [done|]. intros _ k r Hk. cbn [rows deleted clock] in Hk |- *.
    apply map_lookup_filter_Some in Hk as [Hk Hni]. destruct (expired (clock s1) r) eqn:E; [|done].
    exfalso. apply Hni. by eapply selected_all.
  - destruct (t_cancelled t); [done|].
    specialize (IH (deleted s1) (total + Z.of_nat (length (selected s1)))).
    destruct (purge_loop f (deleted s1) _) as [[s' tot] st]. pose proof (deleted_smaller s1 Hb Hge).
    rewrite Hrows in H. destruct (IH ltac:(lia)) as (? & ? & ?). split; [done|].
    split; [by eapply purges_trans|done].
Qed.

End purge.

(** ** A pass *)

(** The four tables: decisions with their session, sessions with the time
    they ended, traces with their expiry, audit events with their time. *)
Record decision := mkDecision { d_session : option string; d_created : Z }.
Record tables := mkTables {
  decisions : gmap string decision; sessions : gmap string (option Z);
  traces : gmap string Z; audits : gmap string Z;
}.
Record world := mkWorld { tabs : tables; now : Z; ticks : list tick }.

Definition older (days now t : Z) : bool := t <? now - days * Day.
Definition decision_expired (days now : Z) (d : decision) : bool := older days now (d_created d).
Definition session_expired (days now : Z) (ended : option Z) : bool :=
  match ended with Some t => older days now t | None => false end.
Definition trace_expired (now t : Z) : bool := t <? now.

(** The decisions of sessions that are gone go with them. *)
Definition orphaned (before after : gmap string (option Z)) (d : decision) : bool :=
  match d_session d with
  | Some sid => bool_decide (is_Some (before !! sid)) && bool_decide (after !! sid = None)
  | None => false
  end.
Definition cascade (before after : gmap string (option Z)) (ds : gmap string decision) : gmap string decision :=
  filter (λ kd, orphaned before after kd.2 = false) ds.

Section pass.
Context (arrange : list string → list string) (p : Policy).

Definition purgeDecisions (w : world) : world * Z * status :=
  let '(s, n, st) := purgeBatched (decision_expired (PlaybackDays p)) arrange (batchSize p)
                       (mkTable (decisions (tabs w)) (now w) (ticks w)) in
  (mkWorld (mkTables (rows s) (sessions (tabs w)) (traces (tabs w)) (audits (tabs w))) (clock s) (env s), n, st).

Definition purgeSessions (w : world) : world * Z * status :=
  let '(s, n, st) := purgeBatched (session_expired (PlaybackDays p)) arrange (batchSize p)
                       (mkTable (sessions (tabs w)) (now w) (ticks w)) in
  (mkWorld (mkTables (cascade (sessions (tabs w)) (rows s) (decisions (tabs w))) (rows s)
              (traces (tabs w)) (audits (tabs w))) (clock s) (env s), n, st).

Definition purgeTraces (w : world) : world * Z * status :=
  let '(s, n, st) := purgeBatched trace_expired arrange (batchSize p)
                       (mkTable (traces (tabs w)) (now w) (ticks w)) in
  (mkWorld (mkTables (decisions (tabs w)) (sessions (tabs w)) (rows s) (audits (tabs w))) (clock s) (env s), n, st).

Definition purgeAudits (w : world) : world * Z * status :=
  let '(s, n, st) := purgeBatched (older (AuditDays p)) arrange (batchSize p)
                       (mkTable (audits (tabs w)) (now w) (ticks w)) in
  (mkWorld (mkTables (decisions (tabs w)) (sessions (tabs w)) (traces (tabs w)) (rows s)) (clock s) (env s), n, st).

(** A step of the pass is skipped when its class is disabled; the first
    failure ends the pass. *)
Definition step (enabled : bool) (f : world → world * Z * status) (w : world) : world * Z * status :=
  if enabled then f w else (w, 0, Complete).

Definition PurgeOnce (db : bool) (w : world) : world * Result * status :=
  if negb db then (w, mkResult 0 0 0 0, Failed)
  else
    let playback := 0 <? PlaybackDays p in
    match step playback purgeDecisions w with
    | (w, d, Complete) =>
        match step playback purgeSessions w with
        | (w, s, Complete) =>
            match purgeTraces w with
            | (w, t, Complete) =>
                let '(w, a, st) := step (0 <? AuditDays p) purgeAudits w in (w, mkResult s d t a, st)
            | (w, t, st) => (w, mkResult s d t 0, st)
            end
        | (w, s, st) => (w, mkResult s d 0 0, st)
        end
    | (w, d, st) => (w, mkResult 0 d 0 0, st)
    end.

End pass.

(** ** Runtime bounds *)

(** [json.Unmarshal] of a document into an [int]: an integer literal in
    range, or [null], which leaves the zero value. *)
Definition json_space (c : ascii) : bool := byte_is c 32 || byte_is c 9 || byte_is c 10 || byte_is c 13.
Fixpoint json_skip (s : string) : string :=
  match s with String c r => if json_space c then json_skip r else s | "" => "" end.
Fixpoint json_trim (s : string) : string :=
  match s with
  | "" => ""
  | String c r => let r' := json_trim r in if json_space c && (r' =s "") then "" else String c r'
  end.
Definition json_digits (s : string) : bool :=
  match s with
  | "" => false
  | String c r => if byte_is c 48 then r =s "" else all_chars is_digit s
  end.
Definition unmarshalInt (raw : string) : option Z :=
  let s := json_trim (json_skip raw) in
  if s =s "null" then Some 0
  else if json_digits (TrimPrefix s "-") then Atoi s else None.

(** [app_settings], with whether the statement can be carried out. *)
Definition settingDays (settings : string → option string) (key : string) : option Z :=
  raw ← settings key; unmarshalInt raw.

Definition live_days (v : option Z) (fallback : Z) : Z :=
  match v with Some n => if (1 <=? n) && (n <=? 3650) then n else fallback | None => fallback end.

Definition livePolicy (db : bool) (settings : string → option string) (fallback : Policy) : Policy :=
  if negb db then fallback
  else mkPolicy (live_days (settingDays settings "replx.playback_retention_days") (PlaybackDays fallback))
         (live_days (settingDays settings "replx.audit_retention_days") (AuditDays fallback))
         (BatchSize fallback).

(** [purgeAndLog] without the log line. *)
Definition purgeAndLog (arrange : list string → list string) (db : bool) (settings : string → option string)
    (p : Policy) (w : world) : world * Result * status :=
  PurgeOnce arrange (livePolicy db settings p) db w.

(** ** Correctness of a pass *)

Section correctness.
Context (arrange : list string → list string) (arrange_perm : ∀ l, arrange l ≡ₚ l).
Context (p : Policy).

Lemma batchSize_pos : 0 < batchSize p.
Proof. unfold batchSize. destruct (Z.ltb_spec 0 (BatchSize p)); lia. Qed.

Lemma older_mono days t t' x : t <= t' → older days t x = true → older days t' x = true.
Proof. unfold older. rewrite !Z.ltb_lt. lia. Qed.

(** [went f w w']: the rows that went from a table, whose expiry at an
    instant is [f]. *)
Definition went {R} (f : R → Prop) (m m' : gmap string R) : Prop :=
  m' ⊆ m ∧ ∀ k r, m !! k = Some r → m' !! k = None → f r.

Lemma went_refl {R} (f : R → Prop) m : went f m m.
Proof. split; [done|]. intros k r E E'. congruence. Qed.
Lemma went_trans {R} (f g : R → Prop) (a b c : gmap string R) :
  (∀ r, f r → g r) → went f a b → went g b c → went g a c.
Proof.
  intros Hfg [H1 H2] [H3 H4]. split; [by transitivity b|]. intros k r Ha Hc.
  destruct (b !! k) as [r'|] eqn:Eb; [|by eauto].
  assert (r' = r) as -> by (pose proof (lookup_weaken _ _ _ _ Eb H1); congruence). eauto.
Qed.
Lemma went_mono {R} (f g : R → Prop) (a b : gmap string R) : (∀ r, f r → g r) → went f a b → went g a b.
Proof. intros Hfg [H1 H2]. split; eauto. Qed.

(** What a pass may remove, from [w] to [w']. *)
Definition session_due (w' : world) (e : option Z) : Prop :=
  0 < PlaybackDays p ∧ session_expired (PlaybackDays p) (now w') e = true.
Definition decision_due (w w' : world) (d : decision) : Prop :=
  0 < PlaybackDays p ∧
  (decision_expired (PlaybackDays p) (now w') d = true ∨ orphaned (sessions (tabs w)) (sessions (tabs w')) d = true).
Definition trace_due (w' : world) (t : Z) : Prop := trace_expired (now w') t = true.
Definition audit_due (w' : world) (t : Z) : Prop := 0 < AuditDays p ∧ older (AuditDays p) (now w') t = true.

Record legit (w w' : world) : Prop := mkLegit {
  L_time : now w <= now w';
  L_sessions : went (session_due w') (sessions (tabs w)) (sessions (tabs w'));
  L_decisions : went (decision_due w w') (decisions (tabs w)) (decisions (tabs w'));
  L_traces : went (trace_due w') (traces (tabs w)) (traces (tabs w'));
  L_audits : went (audit_due w') (audits (tabs w)) (audits (tabs w'));
}.

Lemma legit_refl w : legit w w.
Proof. split; try apply went_refl. done. Qed.

Lemma session_due_mono w w' e : now w <= now w' → session_due w e → session_due w' e.
Proof. intros Hn [? H]. split; [done|]. destruct e; [by eapply older_mono|done]. Qed.

Lemma orphaned_mono a b b' d : b' ⊆ b → orphaned a b d = true → orphaned a b' d = true.
Proof.
  intros Hs. unfold orphaned. destruct (d_session d) as [sid|]; [|done]. rewrite !andb_true_iff, !bool_decide_eq_true.
  intros [? ?]. split; [done|]. by eapply lookup_weaken_None.
Qed.
Lemma orphaned_mono_l a a' b d : a ⊆ a' → orphaned a b d = true → orphaned a' b d = true.
Proof.
  intros Hs. unfold orphaned. destruct (d_session d) as [sid|]; [|done]. rewrite !andb_true_iff, !bool_decide_eq_true.
  intros [[e ?] ?]. split; [|done]. exists e. by eapply lookup_weaken.
Qed.

Lemma legit_trans a b c : legit a b → legit b c → legit a c.
Proof.
  intros [T1 S1 D1 R1 A1] [T2 S2 D2 R2 A2]. split; [lia|..].
  - eapply went_trans; [|done|done]. intros r. by apply session_due_mono.
  - eapply went_trans; [|exact D1|].
    + intros d [? [H|H]]; (split; [done|]); [left; by eapply older_mono|right; by eapply orphaned_mono, H; apply S2].
    + eapply went_mono; [|exact D2]. intros d [? [H|H]]; (split; [done|]); [by left|right].
      eapply orphaned_mono_l; [|done]. apply S1.
  - eapply went_trans; [|done|done]. intros r. unfold trace_due, trace_expired. rewrite !Z.ltb_lt. lia.
  - eapply went_trans; [|done|done]. intros r [? H]. split; [done|]. by eapply older_mono.
Qed.

(** One table of the pass. *)
Lemma purged {R} (expired : Z → R → bool) (m : gmap string R) t e s n st :
  (∀ t t' r, t <= t' → expired t r = true → expired t' r = true) →
  purgeBatched expired arrange (batchSize p) (mkTable m t e) = (s, n, st) →
  st ≠ OutOfFuel ∧ t <= clock s ∧ went (λ r, expired (clock s) r = true) m (rows s) ∧
  (st = Complete → ∀ k r, rows s !! k = Some r → expired t r = false).
Proof.
  intros Hm E. pose proof (purge_loop_spec expired arrange (batchSize p) arrange_perm
    (S (size m)) (mkTable m t e) 0 batchSize_pos ltac:(cbn; lia)) as H.
  unfold purgeBatched in E. cbn [rows] in E. rewrite E in H. destruct H as (H1 & (H2 & H3 & H4) & H5).
  cbn [clock rows] in H2, H3, H4. split; [done|]. split; [done|]. split.
  - split; [done|]. intros k r Hk Hn. destruct (H4 k r Hk Hn) as (t' & ? & ?). eapply Hm; [|done]. lia.
  - intros Hc k r Hk. destruct (expired t r) eqn:Et; [|done]. rewrite <- (H5 Hc k r Hk). symmetry. by eapply Hm, Et.
Qed.

Lemma purgeDecisions_ok w w' n st :
  0 < PlaybackDays p → purgeDecisions arrange p w = (w', n, st) →
  st ≠ OutOfFuel ∧ legit w w' ∧
  (st = Complete → map_Forall (λ _ d, decision_expired (PlaybackDays p) (now w) d = false) (decisions (tabs w'))).
Proof.
  intros Hp. unfold purgeDecisions. destruct (purgeBatched _ _ _ _) as [[s m] st0] eqn:E. intros [= <- <- <-].
  destruct (purged _ _ _ _ _ _ _ (λ t t' r, older_mono _ t t' _) E) as (H1 & H2 & H3 & H4).
  split; [done|]. split; [|done]. split; cbn; try apply went_refl; [done|].
  eapply went_mono; [|done]. intros d Hd. split; [done|]. by left.
Qed.

Lemma purgeSessions_ok w w' n st :
  0 < PlaybackDays p → purgeSessions arrange p w = (w', n, st) →
  st ≠ OutOfFuel ∧ legit w w' ∧
  (st = Complete → map_Forall (λ _ e, session_expired (PlaybackDays p) (now w) e = false) (sessions (tabs w'))).
Proof.
  intros Hp. unfold purgeSessions. destruct (purgeBatched _ _ _ _) as [[s m] st0] eqn:E. intros [= <- <- <-].
  assert (Hm : ∀ t t' r, t <= t' → session_expired (PlaybackDays p) t r = true → session_expired (PlaybackDays p) t' r = true).
  { intros t t' [r|] Ht; [by apply older_mono|done]. }
  destruct (purged _ _ _ _ _ _ _ Hm E) as (H1 & H2 & H3 & H4).
  split; [done|]. split; [|done]. split; cbn; try apply went_refl; [done| |].
  - eapply went_mono; [|done]. intros d Hd. by split.
  - split; [apply map_filter_subseteq|]. intros k d Hk Hn. split; [done|]. right. cbn.
    apply map_lookup_filter_None in Hn as [Hn|Hn]; [congruence|]. specialize (Hn d Hk). cbn in Hn.
    by destruct (orphaned _ _ d).
Qed.

Lemma purgeTraces_ok w w' n st :
  purgeTraces arrange p w = (w', n, st) →
  st ≠ OutOfFuel ∧ legit w w' ∧ (st = Complete → map_Forall (λ _ t, trace_expired (now w) t = false) (traces (tabs w'))).
Proof.
  unfold purgeTraces. destruct (purgeBatched _ _ _ _) as [[s m] st0] eqn:E. intros [= <- <- <-].
  assert (Hm : ∀ t t' r, t <= t' → trace_expired t r = true → trace_expired t' r = true).
  { intros t t' r Ht. unfold trace_expired. rewrite !Z.ltb_lt. lia. }
  destruct (purged _ _ _ _ _ _ _ Hm E) as (H1 & H2 & H3 & H4).
  split; [done|]. split; [|done]. by split; cbn; try apply went_refl.
Qed.

Lemma purgeAudits_ok w w' n st :
  0 < AuditDays p → purgeAudits arrange p w = (w', n, st) →
  st ≠ OutOfFuel ∧ legit w w' ∧ (st = Complete → map_Forall (λ _ t, older (AuditDays p) (now w) t = false) (audits (tabs w'))).
Proof.
  intros Hp. unfold purgeAudits. destruct (purgeBatched _ _ _ _) as [[s m] st0] eqn:E. intros [= <- <- <-].
  destruct (purged _ _ _ _ _ _ _ (λ t t' r, older_mono _ t t' _) E) as (H1 & H2 & H3 & H4).
  split; [done|]. split; [|done]. split; cbn; try apply went_refl; [done|].
  eapply went_mono; [|done]. intros d Hd. by split.
Qed.

(** The same for a class that may be disabled. *)
Lemma purge_step_ok enabled (f : world → world * Z * status) (P : world → world → Prop) w w' n st :
  (∀ w w' n st, enabled = true → f w = (w', n, st) → st ≠ OutOfFuel ∧ legit w w' ∧ (st = Complete → P w w')) →
  step enabled f w = (w', n, st) →
  st ≠ OutOfFuel ∧ legit w w' ∧ (st = Complete → enabled = true → P w w').
Proof.
  intros Hf. unfold step. destruct enabled.
  - intros E. destruct (Hf _ _ _ _ eq_refl E) as (? & ? & ?). eauto.
  - intros [= <- <- <-]. split; [done|]. split; [apply legit_refl|done].
Qed.

Lemma fresh_sub {R} (f g : R → bool) (m m' : gmap string R) :
  m' ⊆ m → (∀ r, g r = true → f r = true) → map_Forall (λ _ r, f r = false) m → map_Forall (λ _ r, g r = false) m'.
Proof.
  intros Hs Hfg Hm k r Hk. destruct (g r) eqn:E; [|done].
  by rewrite <- (Hm k r (lookup_weaken _ _ _ _ Hk Hs)), (Hfg r E).
Qed.

(** What a complete pass that started at [t] leaves. *)
Record clean (t : Z) (w : world) : Prop := mkClean {
  C_sessions : 0 < PlaybackDays p → map_Forall (λ _ e, session_expired (PlaybackDays p) t e = false) (sessions (tabs w));
  C_decisions : 0 < PlaybackDays p → map_Forall (λ _ d, decision_expired (PlaybackDays p) t d = false) (decisions (tabs w));
  C_traces : map_Forall (λ _ e, trace_expired t e = false) (traces (tabs w));
  C_audits : 0 < AuditDays p → map_Forall (λ _ e, older (AuditDays p) t e = false) (audits (tabs w));
}.

Lemma PurgeOnce_ok w w' r st :
  PurgeOnce arrange p true w = (w', r, st) →
  st ≠ OutOfFuel ∧ legit w w' ∧ (st = Complete → clean (now w) w').
Proof.
  unfold PurgeOnce. cbn [negb].
  destruct (step (0 <? PlaybackDays p) (purgeDecisions arrange p) w) as [[w1 d] st1] eqn:E1.
  destruct (purge_step_ok _ _ (λ w w', map_Forall (λ _ d, decision_expired (PlaybackDays p) (now w) d = false) (decisions (tabs w')))
    _ _ _ _ (λ w w' n st H, purgeDecisions_ok w w' n st (proj1 (Z.ltb_lt _ _) H)) E1) as (F1 & L1 & G1).
  destruct st1; [|intros [= <- <- <-]; by split_and!..].
  destruct (step (0 <? PlaybackDays p) (purgeSessions arrange p) w1) as [[w2 s] st2] eqn:E2.
  destruct (purge_step_ok _ _ (λ w w', map_Forall (λ _ e, session_expired (PlaybackDays p) (now w) e = false) (sessions (tabs w')))
    _ _ _ _ (λ w w' n st H, purgeSessions_ok w w' n st (proj1 (Z.ltb_lt _ _) H)) E2) as (F2 & L2 & G2).
  assert (L02 : legit w w2) by (by eapply legit_trans).
  destruct st2; [|intros [= <- <- <-]; by split_and!..].
  destruct (purgeTraces arrange p w2) as [[w3 t] st3] eqn:E3. destruct (purgeTraces_ok _ _ _ _ E3) as (F3 & L3 & G3).
  assert (L03 : legit w w3) by (by eapply legit_trans).
  destruct st3; [|intros [= <- <- <-]; by split_and!..].
  destruct (step (0 <? AuditDays p) (purgeAudits arrange p) w3) as [[w4 a] st4] eqn:E4.
  destruct (purge_step_ok _ _ (λ w w', map_Forall (λ _ t, older (AuditDays p) (now w) t = false) (audits (tabs w')))
    _ _ _ _ (λ w w' n st H, purgeAudits_ok w w' n st (proj1 (Z.ltb_lt _ _) H)) E4) as (F4 & L4 & G4).
  intros [= <- <- <-]. split; [done|]. split; [by eapply legit_trans|]. intros ->.
  assert (L24 : legit w2 w4) by (by eapply legit_trans). assert (L14 : legit w1 w4) by (by eapply legit_trans).
  pose proof (L_time _ _ L1). pose proof (L_time _ _ L02). pose proof (L_time _ _ L03).
  split; rewrite <- ?Z.ltb_lt.
  - intros Hp. eapply fresh_sub; [apply L24| |by apply G2]. intros [e|]; [by apply older_mono|done].
  - intros Hp. eapply fresh_sub; [apply L14| |by apply G1]. done.
  - eapply fresh_sub; [apply L4| |by apply G3]. intros e. unfold trace_expired. rewrite !Z.ltb_lt. lia.
  - intros Hp. eapply fresh_sub; [done| |by apply G4]. intros e. by apply older_mono.
Qed.

(** C33: A retention pass, whatever statements fail and whenever it is cancelled,
    ends and removes only what is due: a session that is still active is
    never removed, an ended one only when it ended more than the configured
    days before; a decision only when it is that old or its session went;
    a trace only after its expiry, an audit event only when it is old
    enough; a class with a bound of zero is left alone.  A pass that reports
    success leaves nothing that was due when it started. *)
Theorem retention_is_exact w w' r st :
  PurgeOnce arrange p true w = (w', r, st) →
  st ≠ OutOfFuel ∧
  (∀ id e, sessions (tabs w) !! id = Some e → sessions (tabs w') !! id = None →
     0 < PlaybackDays p ∧ ∃ t, e = Some t ∧ t < now w' - PlaybackDays p * Day) ∧
  (∀ id d, decisions (tabs w) !! id = Some d → decisions (tabs w') !! id = None →
     0 < PlaybackDays p ∧
     (d_created d < now w' - PlaybackDays p * Day ∨
      ∃ sid, d_session d = Some sid ∧ is_Some (sessions (tabs w) !! sid) ∧ sessions (tabs w') !! sid = None)) ∧
  (∀ id t, traces (tabs w) !! id = Some t → traces (tabs w') !! id = None → t < now w') ∧
  (∀ id t, audits (tabs w) !! id = Some t → audits (tabs w') !! id = None →
     0 < AuditDays p ∧ t < now w' - AuditDays p * Day) ∧
  (st = Complete →
     (0 < PlaybackDays p → ∀ id t, sessions (tabs w') !! id = Some (Some t) → now w - PlaybackDays p * Day <= t) ∧
     (0 < PlaybackDays p → ∀ id d, decisions (tabs w') !! id = Some d → now w - PlaybackDays p * Day <= d_created d) ∧
     (∀ id t, traces (tabs w') !! id = Some t → now w <= t) ∧
     (0 < AuditDays p → ∀ id t, audits (tabs w') !! id = Some t → now w - AuditDays p * Day <= t)).
Proof.
  intros E. destruct (PurgeOnce_ok _ _ _ _ E) as (H1 & [_ [_ HS] [_ HD] [_ HT] [_ HA]] & H3). split; [done|].
  split; [|split; [|split; [|split]]].
  - intros id e Hi Hn. destruct (HS _ _ Hi Hn) as [Hp He]. split; [done|]. destruct e as [t|]; [|done].
    exists t. split; [done|]. by apply Z.ltb_lt.
  - intros id d Hi Hn. destruct (HD _ _ Hi Hn) as [Hp [Hd|Ho]]; (split; [done|]); [left; by apply Z.ltb_lt|right].
    unfold orphaned in Ho. destruct (d_session d) as [sid|]; [|done].
    apply andb_prop in Ho as [Ha%bool_decide_eq_true Hb%bool_decide_eq_true]. by exists sid.
  - intros id t Hi Hn. by apply Z.ltb_lt, (HT _ _ Hi Hn).
  - intros id t Hi Hn. destruct (HA _ _ Hi Hn) as [Hp Ht]. split; [done|]. by apply Z.ltb_lt.
  - intros Hc. destruct (H3 Hc) as [C1 C2 C3 C4]. split_and!.
    + intros Hp id t Hi. by apply Z.ltb_ge, (C1 Hp _ _ Hi).
    + intros Hp id d Hi. by apply Z.ltb_ge, (C2 Hp _ _ Hi).
    + intros id t Hi. by apply Z.ltb_ge, (C3 _ _ Hi).
    + intros Hp id t Hi. by apply Z.ltb_ge, (C4 Hp _ _ Hi).
Qed.

End correctness.

Definition w_world : world :=
  mkWorld (mkTables {[ "d1" := mkDecision (Some "s1") 0; "d2" := mkDecision (Some "s2") (100 * Day) ]}
             {[ "s1" := Some 0; "s2" := None; "s3" := Some (90 * Day) ]} {[ "t1" := 5; "t2" := 101 * Day ]}
             {[ "a1" := 0 ]}) (100 * Day) [].

(** Thirty days, batches of one row: two batches for the decisions. *)
Definition w_purged : world * Result * status := PurgeOnce (λ l, l) (mkPolicy 30 180 1) true w_world.

Lemma retention_is_exact_witness :
  w_purged.2 = Complete ∧ w_purged.1.2 = mkResult 1 1 1 0 ∧ sessions (tabs w_purged.1.1) !! "s2" = Some None.
Proof.
  destruct w_purged as [[w' r] st] eqn:E.
  destruct (retention_is_exact (λ l, l) (λ l, reflexivity l) (mkPolicy 30 180 1) w_world w' r st E) as (_ & H & _).
  assert (Hs : sessions (tabs w') !! "s2" = Some None).
  { destruct (sessions (tabs w') !! "s2") as [e|] eqn:Es.
    - vm_compute in E. injection E as <- _ _. vm_compute in Es. by injection Es as <-.
    - by destruct (H "s2" None eq_refl Es) as (_ & ? & ? & _). }
  split; [|split]; [| |exact Hs]; vm_compute in E; injection E; intros; by subst.
Defined.

End Retention.
