(* ===== verification/GoCrypto.v ===== *)
(** * Go's [crypto/sha256], [crypto/hmac] and [encoding/hex]

    SHA-256 on 32-bit words kept as integers modulo [2^32], the keyed hash
    built from it, and lower-case hexadecimal printing.  Nothing here depends
    on the strength of the hash: what the components use is that a printed
    digest is 64 hexadecimal digits. *)

From S2P Require Import Prelude GoStrings.

(** ** Words *)

Definition w32 (z : Z) : Z := z mod 2 ^ 32.
Definition add32 (a b : Z) : Z := w32 (a + b).
Definition rotr (x n : Z) : Z := Z.lor (Z.shiftr x n) (w32 (Z.shiftl x (32 - n))).
Definition lnot32 (x : Z) : Z := 2 ^ 32 - 1 - x.

Definition Ch (x y z : Z) : Z := Z.lxor (Z.land x y) (Z.land (lnot32 x) z).
Definition Maj (x y z : Z) : Z := Z.lxor (Z.lxor (Z.land x y) (Z.land x z)) (Z.land y z).
Definition Sigma0 (x : Z) : Z := Z.lxor (Z.lxor (rotr x 2) (rotr x 13)) (rotr x 22).
Definition Sigma1 (x : Z) : Z := Z.lxor (Z.lxor (rotr x 6) (rotr x 11)) (rotr x 25).
Definition sigma0 (x : Z) : Z := Z.lxor (Z.lxor (rotr x 7) (rotr x 18)) (Z.shiftr x 3).
Definition sigma1 (x : Z) : Z := Z.lxor (Z.lxor (rotr x 17) (rotr x 19)) (Z.shiftr x 10).

Definition round_constants : list Z :=
  [1116352408; 1899447441; 3049323471; 3921009573; 961987163; 1508970993;
   2453635748; 2870763221; 3624381080; 310598401; 607225278; 1426881987;
   1925078388; 2162078206; 2614888103; 3248222580; 3835390401; 4022224774;
   264347078; 604807628; 770255983; 1249150122; 1555081692; 1996064986;
   2554220882; 2821834349; 2952996808; 3210313671; 3336571891; 3584528711;
   113926993; 338241895; 666307205; 773529912; 1294757372; 1396182291;
   1695183700; 1986661051; 2177026350; 2456956037; 2730485921; 2820302411;
   3259730800; 3345764771; 3516065817; 3600352804; 4094571909; 275423344;
   430227734; 506948616; 659060556; 883997877; 958139571; 1322822218;
   1537002063; 1747873779; 1955562222; 2024104815; 2227730452; 2361852424;
   2428436474; 2756734187; 3204031479; 3329325298].

Record digest := mkDigest { dA : Z; dB : Z; dC : Z; dD : Z; dE : Z; dF : Z; dG : Z; dH : Z }.

Definition initial : digest :=
  mkDigest 1779033703 3144134277 1013904242 2773480762 1359893119 2600822924 528734635 1541459225.

(** ** Blocks *)

Definition char_val (c : ascii) : Z := Z.of_N (code c).

Fixpoint bytes_of (s : string) : list Z :=
  match s with EmptyString => [] | String c r => char_val c :: bytes_of r end.

(** The 64-bit big-endian length. *)
Definition length_bytes (bits : Z) : list Z :=
  (λ i, Z.shiftr bits (8 * i) mod 256) <$> [7; 6; 5; 4; 3; 2; 1; 0].

Definition pad (m : list Z) : list Z :=
  let n := length m in
  m ++ 128 :: repeat 0 (Z.to_nat ((55 - Z.of_nat n) mod 64)) ++ length_bytes (8 * Z.of_nat n).

(** Big-endian words of a byte list. *)
Fixpoint words (l : list Z) : list Z :=
  match l with
  | a :: b :: c :: d :: r => (a * 2 ^ 24 + b * 2 ^ 16 + c * 2 ^ 8 + d) :: words r
  | _ => []
  end.

(** The message schedule, kept newest first. *)
Fixpoint schedule (n : nat) (rev : list Z) : list Z :=
  match n with
  | O => reverse rev
  | S n' =>
      let at_ i := nth i rev 0 in
      schedule n' (add32 (add32 (sigma1 (at_ 1%nat)) (at_ 6%nat))
                         (add32 (sigma0 (at_ 14%nat)) (at_ 15%nat)) :: rev)
  end.

Definition round (d : digest) (kw : Z * Z) : digest :=
  let t1 := add32 (add32 (add32 (dH d) (Sigma1 (dE d))) (Ch (dE d) (dF d) (dG d)))
                  (add32 kw.1 kw.2) in
  let t2 := add32 (Sigma0 (dA d)) (Maj (dA d) (dB d) (dC d)) in
  mkDigest (add32 t1 t2) (dA d) (dB d) (dC d) (add32 (dD d) t1) (dE d) (dF d) (dG d).

Definition compress (d : digest) (block : list Z) : digest :=
  let e := foldl round d (zip round_constants (schedule 48 (reverse block))) in
  mkDigest (add32 (dA d) (dA e)) (add32 (dB d) (dB e)) (add32 (dC d) (dC e)) (add32 (dD d) (dD e))
           (add32 (dE d) (dE e)) (add32 (dF d) (dF e)) (add32 (dG d) (dG e)) (add32 (dH d) (dH e)).

(** The blocks of sixteen words; [fuel] is the number of words. *)
Fixpoint blocks (fuel : nat) (d : digest) (l : list Z) : digest :=
  match fuel, l with
  | S f, _ :: _ => blocks f (compress d (firstn 16 l)) (skipn 16 l)
  | _, _ => d
  end.

Definition sha256 (m : list Z) : digest :=
  let ws := words (pad m) in blocks (length ws) initial ws.

(** ** encoding/hex *)

Definition hex_lower (n : Z) : ascii :=
  let n := Z.to_N (n mod 16) in
  if (n <? 10)%N then ascii_of_N (48 + n) else ascii_of_N (87 + n).

Fixpoint hex_digits (n : nat) (z : Z) (acc : string) : string :=
  match n with
  | O => acc
  | S n' => hex_digits n' (Z.shiftr z 4) (String (hex_lower z) acc)
  end.

Definition hex_word (z : Z) (acc : string) : string := hex_digits 8 z acc.

Definition EncodeToString (d : digest) : string :=
  hex_word (dA d) (hex_word (dB d) (hex_word (dC d) (hex_word (dD d)
    (hex_word (dE d) (hex_word (dF d) (hex_word (dG d) (hex_word (dH d) ""))))))).

(** [hex.EncodeToString(sha256.Sum256([]byte(s)))]. *)
Definition sha256hex (s : string) : string := EncodeToString (sha256 (bytes_of s)).

(** ** crypto/hmac *)

Definition digest_bytes (d : digest) : list Z :=
  [dA d; dB d; dC d; dD d; dE d; dF d; dG d; dH d]
    ≫= λ w, (λ i, Z.shiftr w (8 * i) mod 256) <$> [3; 2; 1; 0].

Definition hmac_key (key : list Z) : list Z :=
  let k := if (64 <? length key)%nat then digest_bytes (sha256 key) else key in
  k ++ repeat 0 (64 - length k).

Definition hmac (key m : list Z) : digest :=
  let k := hmac_key key in
  sha256 ((Z.lxor 92 <$> k) ++ digest_bytes (sha256 ((Z.lxor 54 <$> k) ++ m))).

Definition hmacHex (secret msg : string) : string :=
  EncodeToString (hmac (bytes_of secret) (bytes_of msg)).

(** The test vectors of FIPS 180-4 and RFC 4231. *)
Example sha_abc :
  sha256hex "abc" = "ba7816bf8f01cfea414140de5dae2223b00361a396177a9cb410ff61f20015ad".
Proof. vm_compute. reflexivity. Qed.
Example sha_two_blocks :
  sha256hex "abcdbcdecdefdefgefghfghighijhijkijkljklmklmnlmnomnopnopq" =
  "248d6a61d20638b8e5c026930c3e6039a33ce45964ff2167f6ecedd419db06c1".
Proof. vm_compute. reflexivity. Qed.
Example hmac_jefe :
  hmacHex "Jefe" "what do ya want for nothing?" =
  "5bdcc146bf60754e6a042426089575c75a003f089d2739839dec58b964ec3843".
Proof. vm_compute. reflexivity. Qed.

(** ** What the components use of a digest *)

Definition is_hex (c : ascii) : bool := is_digit c || ((97 <=? code c) && (code c <=? 102))%N.

Lemma is_hex_lower n : is_hex (hex_lower n) = true.
Proof.
  unfold hex_lower. pose proof (Z.mod_pos_bound n 16 ltac:(lia)).
  assert (Hn : (Z.to_N (n mod 16) < 16)%N) by lia.
  revert Hn. generalize (Z.to_N (n mod 16)). intros m Hm.
  assert (m = 0 ∨ m = 1 ∨ m = 2 ∨ m = 3 ∨ m = 4 ∨ m = 5 ∨ m = 6 ∨ m = 7 ∨ m = 8 ∨ m = 9 ∨
          m = 10 ∨ m = 11 ∨ m = 12 ∨ m = 13 ∨ m = 14 ∨ m = 15)%N as Hc by lia.
  repeat (destruct Hc as [->|Hc]; [done|]). by subst m.
Qed.

Lemma hex_digits_length n z acc :
  String.length (hex_digits n z acc) = (n + String.length acc)%nat.
Proof.
  revert z acc. induction n as [|n IH]; intros z acc; [done|].
  cbn [hex_digits]. rewrite IH. cbn [String.length]. lia.
Qed.

Lemma hex_digits_hex n z acc :
  all_chars is_hex acc = true → all_chars is_hex (hex_digits n z acc) = true.
Proof.
  revert z acc. induction n as [|n IH]; intros z acc Ha; [done|].
  cbn [hex_digits]. apply IH. cbn [all_chars]. by rewrite is_hex_lower.
Qed.

Lemma EncodeToString_length d : String.length (EncodeToString d) = 64%nat.
Proof. unfold EncodeToString, hex_word. by rewrite !hex_digits_length. Qed.

Lemma EncodeToString_hex d : all_chars is_hex (EncodeToString d) = true.
Proof. unfold EncodeToString, hex_word. by repeat apply hex_digits_hex. Qed.

Lemma sha256hex_length s : String.length (sha256hex s) = 64%nat.
Proof. apply EncodeToString_length. Qed.

Lemma sha256hex_hex s : all_chars is_hex (sha256hex s) = true.
Proof. apply EncodeToString_hex. Qed.

(** Digests stay opaque in the proofs of the components. *)
#[global] Opaque sha256hex hmacHex.

#[export] Hint Resolve sha256hex_length sha256hex_hex : replx.
