(* ===== verification/Secrets.v ===== *)
(** * Secrets at rest

    internal/crypto/crypto.go: a key per purpose derived from the root secret,
    AES-256-GCM with a random nonce in front, and token fingerprints.  The
    cipher is a parameter, with what its documentation promises. *)

From S2P Require Import Prelude GoStrings GoCrypto.

Module Secrets.

Definition NonceSize : nat := 12.

(** An AEAD as crypto/cipher documents it: with a key and a nonce, [open]
    accepts exactly what [seal] produced. *)
Class AEAD (seal : list Z → string → string → string) (open : list Z → string → string → option string) : Prop :=
  open_seal : ∀ key nonce c p, open key nonce c = Some p ↔ c = seal key nonce p.

Definition DeriveKey (rootSecret purpose : string) : list Z :=
  digest_bytes (sha256 (bytes_of rootSecret ++ [0] ++ bytes_of purpose)).

Definition Fingerprint (rootSecret token : string) : string := hmacHex rootSecret token.

Section aead.
Context (seal : list Z → string → string → string) (open : list Z → string → string → option string).

(** [nonce] is what [rand.Read] filled the buffer with. *)
Definition Encrypt (nonce : option string) (rootSecret purpose plaintext : string) : outcome string :=
  match nonce with
  | None => Err "crypto: nonce"
  | Some nonce => Ok (nonce +:+ seal (DeriveKey rootSecret purpose) nonce plaintext)
  end.

Definition Decrypt (rootSecret purpose packed : string) : outcome string :=
  if (String.length packed <? NonceSize)%nat then Err "crypto: ciphertext too short"
  else match open (DeriveKey rootSecret purpose) (stake NonceSize packed) (sdrop NonceSize packed) with
       | None => Err "crypto: decrypt"
       | Some plain => Ok plain
       end.

Context `{!AEAD seal open}.

(** What was encrypted under a purpose is read back under it, and nothing
    else is: a text decrypts to [p] exactly when it is a nonce followed by the
    encryption of [p] under the key of that purpose. *)
Lemma secrets_round_trip rootSecret purpose packed p :
  Decrypt rootSecret purpose packed = Ok p ↔
  ∃ nonce, String.length nonce = NonceSize ∧ Encrypt (Some nonce) rootSecret purpose p = Ok packed.
Proof.
  unfold Decrypt, Encrypt. split.
  - destruct (Nat.ltb_spec (String.length packed) NonceSize) as [|Hl]; [done|].
    destruct (open _ _ _) as [q|] eqn:E; [|done]. intros [= ->]. apply open_seal in E.
    exists (stake NonceSize packed). split; [by rewrite length_stake|]. rewrite <- E. by rewrite stake_sdrop.
  - intros (nonce & Hn & [= <-]). rewrite length_sapp, Hn.
    destruct (Nat.ltb_spec (NonceSize + String.length (seal (DeriveKey rootSecret purpose) nonce p)) NonceSize) as [|_]; [lia|].
    rewrite <- Hn, stake_app, sdrop_app. by rewrite (proj2 (open_seal _ _ _ _) eq_refl).
Qed.
End aead.

(** A cipher that satisfies the interface: the text with a tag that depends
    on the key, the nonce and the text. *)
Definition toy_tag (key : list Z) (nonce p : string) : string := stake 16 (sha256hex (nonce +:+ p +:+ EncodeToString (sha256 key))).
Definition toy_seal (key : list Z) (nonce p : string) : string := toy_tag key nonce p +:+ p.
Definition toy_open (key : list Z) (nonce c : string) : option string :=
  if stake 16 c =s toy_tag key nonce (sdrop 16 c) then Some (sdrop 16 c) else None.

Lemma toy_tag_length key nonce p : String.length (toy_tag key nonce p) = 16%nat.
Proof. unfold toy_tag. rewrite length_stake; [done|]. rewrite sha256hex_length. lia. Qed.

#[global] Instance toy_AEAD : AEAD toy_seal toy_open.
Proof.
  intros key nonce c p. unfold toy_open, toy_seal. split.
  - destruct (String.eqb_spec (stake 16 c) (toy_tag key nonce (sdrop 16 c))) as [E|]; [|done].
    intros E'. apply (inj Some) in E'. rewrite E' in E. rewrite <- E, <- E'. by rewrite stake_sdrop.
  - intros ->. pose proof (toy_tag_length key nonce p) as Hl. 
    assert (H1 : stake 16 (toy_tag key nonce p +:+ p) = toy_tag key nonce p) by (rewrite <- Hl; apply stake_app).
    assert (H2 : sdrop 16 (toy_tag key nonce p +:+ p) = p) by (rewrite <- Hl; apply sdrop_app).
    by rewrite H1, H2, String.eqb_refl.
Qed.

Example secrets_toy :
  ∃ packed, Encrypt toy_seal (Some "123456789012") "root" "owner-jwt" "secret" = Ok packed ∧
            Decrypt toy_open "root" "owner-jwt" packed = Ok "secret".
Proof.
  eexists. split; [reflexivity|].
  apply (secrets_round_trip toy_seal toy_open "root" "owner-jwt"). exists "123456789012". split; reflexivity.
Defined.

(** Two purposes have different keys, unless SHA-256 collides on the two
    inputs. *)
Lemma purposes_apart rootSecret p q :
  DeriveKey rootSecret p = DeriveKey rootSecret q → bytes_of p ≠ bytes_of q →
  ∃ a b, a ≠ b ∧ digest_bytes (sha256 a) = digest_bytes (sha256 b).
Proof. intros E Hn. eexists _, _. split; [|exact E]. intros H. apply Hn. by do 2 apply app_inv_head in H. Qed.

End Secrets.
