(* ===== verification/Requestid.v ===== *)
(** * Request identifiers

    internal/requestid/requestid.go: an identifier is the time in
    milliseconds and random bits, printed as an UUID of version 7. *)

From S2P Require Import Prelude GoStrings GoHttp GoCrypto.

Module Requestid.

(** The sixteen bytes; [rnd] is what [rand.Read] wrote into the last ten. *)
Definition byte_at (ms : Z) (shift : Z) : Z := Z.shiftr ms shift mod 256.
Definition id_bytes (ms : Z) (rnd : list Z) : list Z :=
  let ms := ms mod 2 ^ 64 in
  let r i := nth i rnd 0 in
  [byte_at ms 40; byte_at ms 32; byte_at ms 24; byte_at ms 16; byte_at ms 8; byte_at ms 0;
   Z.lor (Z.land (r 0%nat) 15) 112; r 1%nat; Z.lor (Z.land (r 2%nat) 63) 128; r 3%nat; r 4%nat; r 5%nat; r 6%nat; r 7%nat; r 8%nat; r 9%nat].

(** [uint32(b[0])<<24|uint32(b[1])<<16|...]: the bytes as one number, the
    first one the most significant. *)
Definition big_endian (l : list Z) : Z := foldl (λ acc b, Z.lor (Z.shiftl acc 8) b) 0 l.

Definition NewAt (ms : Z) (rnd : option (list Z)) : outcome string :=
  match rnd with
  | None => Panic
  | Some rnd =>
      let b := id_bytes ms rnd in
      Ok (hex_digits 8 (big_endian (take 4 b)) "" +:+ "-" +:+ hex_digits 4 (big_endian (take 2 (drop 4 b))) "" +:+ "-" +:+
          hex_digits 4 (big_endian (take 2 (drop 6 b))) "" +:+ "-" +:+ hex_digits 4 (big_endian (take 2 (drop 8 b))) "" +:+ "-" +:+
          hex_digits 12 (big_endian (drop 10 b)) "")
  end.

Example new_at : NewAt 1700000000000 (Some [255; 1; 255; 3; 4; 5; 6; 7; 8; 9]) = Ok "018bcfe5-6800-7f01-bf03-040506070809".
Proof. vm_compute. reflexivity. Qed.

(** ** Reading it back *)

(** The number that hexadecimal digits denote. *)
Definition hex_step (acc : option Z) (c : ascii) : option Z := a ← acc; d ← unhex c; Some (a * 16 + Z.of_N d).
Fixpoint hex_from (acc : option Z) (s : string) : option Z :=
  match s with "" => acc | String c r => hex_from (hex_step acc c) r end.
Definition hex_value (s : string) : option Z := hex_from (Some 0) s.

(** The time an identifier was made at, as RFC 9562 reads it. *)
Definition time_of (id : string) : option Z :=
  hi ← hex_value (stake 8 id); lo ← hex_value (stake 4 (sdrop 9 id)); Some (hi * 2 ^ 16 + lo).

Lemma unhex_lower z : unhex (hex_lower z) = Some (Z.to_N (z mod 16)).
Proof.
  unfold hex_lower. pose proof (Z.mod_pos_bound z 16 ltac:(lia)). assert (Hn : (Z.to_N (z mod 16) < 16)%N) by lia.
  revert Hn. generalize (Z.to_N (z mod 16)). intros m Hm. rewrite <- (N2Nat.id m) in *. assert (Hk : (N.to_nat m < 16)%nat) by lia.
  revert Hk. generalize (N.to_nat m). clear. intros m Hk. do 16 (destruct m as [|m]; [reflexivity|]). lia.
Qed.

Lemma hex_from_digits n z acc a :
  hex_from (Some a) (hex_digits n z acc) = hex_from (Some (a * 16 ^ Z.of_nat n + z mod 16 ^ Z.of_nat n)) acc.
Proof.
  revert z acc. induction n as [|n IH]; intros z acc.
  { cbn [hex_digits]. change (16 ^ Z.of_nat 0) with 1. by rewrite Z.mod_1_r, Z.mul_1_r, Z.add_0_r. }
  cbn [hex_digits]. rewrite IH. cbn [hex_from hex_step mbind option_bind]. rewrite unhex_lower. cbn [mbind option_bind].
  rewrite Z2N.id by (apply Z.mod_pos_bound; lia). f_equal. f_equal.
  rewrite Nat2Z.inj_succ, Z.pow_succ_r by lia. rewrite Z.shiftr_div_pow2 by lia. change (2 ^ 4) with 16.
  set (p := 16 ^ Z.of_nat n). assert (Hp : 0 < p) by (apply Z.pow_pos_nonneg; lia).
  rewrite (Z.rem_mul_r z 16 p) by lia. ring.
Qed.

Lemma hex_value_digits n z : 0 <= z < 16 ^ Z.of_nat n → hex_value (hex_digits n z "") = Some z.
Proof. intros Hz. unfold hex_value. rewrite hex_from_digits. cbn [hex_from]. by rewrite Z.mul_0_l, Z.mod_small. Qed.

Lemma lor_disjoint k a b : 0 <= k → 0 <= b < 2 ^ k → Z.lor (Z.shiftl a k) b = a * 2 ^ k + b.
Proof.
  intros Hk Hb. assert (Hd : Z.land (Z.shiftl a k) b = 0).
  { apply Z.bits_inj'. intros n Hn. rewrite Z.land_spec, Z.bits_0. destruct (Z.ltb_spec n k) as [Hl|Hl].
    - by rewrite Z.shiftl_spec_low.
    - rewrite <- (Z.mod_small b (2 ^ k)) by lia. rewrite Z.mod_pow2_bits_high by lia. apply andb_false_r. }
  rewrite <- Z.lxor_lor by done. rewrite <- Z.add_nocarry_lxor by done. by rewrite Z.shiftl_mul_pow2.
Qed.
Lemma lor_shift a b : 0 <= b < 256 → Z.lor (Z.shiftl a 8) b = a * 256 + b.
Proof. apply (lor_disjoint 8); lia. Qed.
(** The version and the variant bits. *)
Lemma version_byte r : Z.lor (Z.land r 15) 112 = 112 + r mod 16.
Proof.
  rewrite Z.lor_comm. change 112 with (Z.shiftl 7 4) at 1. change 15 with (Z.ones 4). rewrite Z.land_ones by lia.
  rewrite lor_disjoint; [done|lia|]. apply Z.mod_pos_bound. lia.
Qed.
Lemma variant_byte r : Z.lor (Z.land r 63) 128 = 128 + r mod 64.
Proof.
  rewrite Z.lor_comm. change 128 with (Z.shiftl 2 6) at 1. change 63 with (Z.ones 6). rewrite Z.land_ones by lia.
  rewrite lor_disjoint; [done|lia|]. apply Z.mod_pos_bound. lia.
Qed.

Lemma big_endian_value l acc : Forall (λ b, 0 <= b < 256) l →
  foldl (λ acc b, Z.lor (Z.shiftl acc 8) b) acc l = foldl (λ acc b, acc * 256 + b) acc l.
Proof.
  intros Hl. revert acc. induction Hl as [|b l Hb Hl IH]; intros acc; [done|]. cbn [foldl].
  rewrite lor_shift by done. apply IH.
Qed.

Lemma byte_bound ms s : 0 <= byte_at ms s < 256.
Proof. unfold byte_at. apply Z.mod_pos_bound. lia. Qed.

Lemma time_high ms rnd : 0 <= ms < 2 ^ 48 → big_endian (take 4 (id_bytes ms rnd)) = ms / 2 ^ 16.
Proof.
  intros Hm. unfold big_endian, id_bytes. rewrite (Z.mod_small ms) by lia. cbn [take firstn].
  rewrite big_endian_value by (repeat constructor; apply byte_bound). cbn [foldl]. unfold byte_at. rewrite !Z.shiftr_div_pow2 by lia.
  change (2 ^ 40) with 1099511627776. change (2 ^ 32) with 4294967296. change (2 ^ 24) with 16777216. change (2 ^ 16) with 65536.
  change (2 ^ 48) with 281474976710656 in Hm. Z.to_euclidean_division_equations. lia.
Qed.

Lemma time_low ms rnd : 0 <= ms < 2 ^ 48 → big_endian (take 2 (drop 4 (id_bytes ms rnd))) = ms mod 2 ^ 16.
Proof.
  intros Hm. unfold big_endian, id_bytes. rewrite (Z.mod_small ms) by lia. cbn [take drop firstn skipn].
  rewrite big_endian_value by (repeat constructor; apply byte_bound). cbn [foldl]. unfold byte_at. rewrite !Z.shiftr_div_pow2 by lia.
  change (2 ^ 8) with 256. change (2 ^ 0) with 1. change (2 ^ 16) with 65536. rewrite Z.div_1_r.
  Z.to_euclidean_division_equations. lia.
Qed.

(** The first digit of a group of two bytes. *)
Lemma group_head a b : 0 <= a < 256 → 0 <= b < 256 → ∃ t, hex_digits 4 (big_endian [a; b]) "" = String (hex_lower (a / 16)) t.
Proof.
  intros Ha Hb. unfold big_endian. rewrite big_endian_value by (repeat constructor; lia). cbn [foldl hex_digits].
  eexists. f_equal. unfold hex_lower. rewrite !Z.shiftr_div_pow2 by lia. change (2 ^ 4) with 16.
  assert (((0 * 256 + a) * 256 + b) / 16 / 16 / 16 = a / 16) as ->; [|done].
  Z.to_euclidean_division_equations. lia.
Qed.

Lemma time_of_printed ms r :
  0 <= ms < 2 ^ 48 → time_of (hex_digits 8 (ms / 2 ^ 16) "" +:+ "-" +:+ hex_digits 4 (ms mod 2 ^ 16) "" +:+ r) = Some ms.
Proof.
  intros Hm. unfold time_of. set (A := hex_digits 8 (ms / 2 ^ 16) ""). set (B := hex_digits 4 (ms mod 2 ^ 16) "").
  assert (HA : stake 8 (A +:+ "-" +:+ B +:+ r) = A).
  { replace 8%nat with (String.length A) by apply hex_digits_length. apply stake_app. }
  assert (HB : stake 4 (sdrop 9 (A +:+ "-" +:+ B +:+ r)) = B).
  { rewrite <- sapp_assoc. replace 9%nat with (String.length (A +:+ "-")) by (rewrite length_sapp; unfold A; by rewrite hex_digits_length).
    rewrite sdrop_app. replace 4%nat with (String.length B) by apply hex_digits_length. apply stake_app. }
  rewrite HA, HB. unfold A, B. change (2 ^ 16) with 65536. change (2 ^ 48) with 281474976710656 in Hm. rewrite !hex_value_digits.
  - cbn [mbind option_bind]. f_equal. Z.to_euclidean_division_equations. lia.
  - change (16 ^ Z.of_nat 8) with 4294967296. Z.to_euclidean_division_equations. lia.
  - change (16 ^ Z.of_nat 4) with 65536. apply Z.mod_pos_bound. lia.
Qed.

Definition random_bytes (rnd : list Z) : Prop := length rnd = 10%nat ∧ Forall (λ b, 0 <= b < 256) rnd.

(** An identifier is an UUID of version 7 that carries its time: 36
    characters, the version and variant digits that RFC 9562 asks for, and the
    millisecond it was made at can be read from it, whatever the random bits
    are. *)
Theorem request_id_carries_its_time ms rnd :
  0 <= ms < 2 ^ 48 → random_bytes rnd →
  ∃ a b c d e, NewAt ms (Some rnd) = Ok (a +:+ "-" +:+ b +:+ "-" +:+ String "7" c +:+ "-" +:+ d +:+ "-" +:+ e) ∧
    String.length a = 8%nat ∧ String.length b = 4%nat ∧ String.length c = 3%nat ∧ String.length d = 4%nat ∧ String.length e = 12%nat ∧
    (∃ x t, d = String x t ∧ x ∈ ["8"%char; "9"%char; "a"%char; "b"%char]) ∧
    time_of (a +:+ "-" +:+ b +:+ "-" +:+ String "7" c +:+ "-" +:+ d +:+ "-" +:+ e) = Some ms.
Proof.
  intros Hm [Hl Hr]. pose proof (time_high ms rnd Hm) as H1. pose proof (time_low ms rnd Hm) as H2.
  unfold NewAt. cbv zeta. rewrite H1, H2. unfold id_bytes. cbn [take drop firstn skipn].
  destruct rnd as [|r0 [|r1 [|r2 [|r3 rnd]]]]; try done. rewrite !Forall_cons in Hr. destruct Hr as (B0 & B1 & B2 & B3 & Hr).
  cbn [nth]. rewrite version_byte, variant_byte.
  destruct (group_head (112 + r0 mod 16) r1) as [c Ec]; [Z.to_euclidean_division_equations; lia|done|].
  destruct (group_head (128 + r2 mod 64) r3) as [d Ed]; [Z.to_euclidean_division_equations; lia|done|].
  assert (Hlc : String.length (hex_digits 4 (big_endian [112 + r0 mod 16; r1]) "") = 4%nat) by (by rewrite hex_digits_length).
  assert (Hld : String.length (hex_digits 4 (big_endian [128 + r2 mod 64; r3]) "") = 4%nat) by (by rewrite hex_digits_length).
  rewrite Ec in Hlc |- *. rewrite Ed in Hld |- *.
  assert ((112 + r0 mod 16) / 16 = 7) as -> by (Z.to_euclidean_division_equations; lia). change (hex_lower 7) with "7"%char.
  eexists _, _, c, _, _. split; [reflexivity|]. rewrite !hex_digits_length.
  split; [done|]. split; [done|]. split; [by injection Hlc|]. split; [done|]. split; [done|]. split.
  - eexists _, d. split; [reflexivity|].
    assert (8 <= (128 + r2 mod 64) / 16 < 12) as Hv by (Z.to_euclidean_division_equations; lia).
    revert Hv. generalize ((128 + r2 mod 64) / 16). intros v Hv. assert (v = 8 ∨ v = 9 ∨ v = 10 ∨ v = 11) as [->|[->|[->| ->]]] by lia;
      apply (bool_decide_unpack _); vm_compute; exact I.
  - by apply time_of_printed.
Qed.

Lemma request_id_carries_its_time_witness :
  time_of "018bcfe5-6800-7f01-bf03-040506070809" = Some 1700000000000.
Proof.
  destruct (request_id_carries_its_time 1700000000000 [255; 1; 255; 3; 4; 5; 6; 7; 8; 9]) as (a & b & c & d & e & E & _ & _ & _ & _ & _ & _ & H).
  - lia.
  - split; [reflexivity|]. repeat constructor; lia.
  - rewrite new_at in E. injection E as E. rewrite E. exact H.
Defined.

End Requestid.
