(* ===== verification/MapSums.v ===== *)
(** * Sums over finite maps

    The totals that SQL aggregates and budgets are about: [msum f m] adds
    [f] of every entry. *)

From S2P Require Import Prelude.

Section msum.
Context {V : Type}.
Implicit Types (f : string → V → Z) (m : gmap string V).

Definition msum f m : Z := map_fold (λ k v acc, f k v + acc) 0 m.

Lemma msum_empty f : msum f ∅ = 0.
Proof. apply map_fold_empty. Qed.

Lemma msum_insert_new f m k v : m !! k = None → msum f (<[k := v]> m) = f k v + msum f m.
Proof. intros Hk. unfold msum. rewrite map_fold_insert_L; [done|intros; lia|done]. Qed.

Lemma msum_delete f m k v : m !! k = Some v → msum f m = f k v + msum f (delete k m).
Proof. intros Hk. unfold msum. rewrite (map_fold_delete_L _ _ k v m); [done|intros; lia|done]. Qed.

Lemma msum_delete_le f m k : (∀ k v, m !! k = Some v → 0 <= f k v) → msum f (delete k m) <= msum f m.
Proof.
  intros Hf. destruct (m !! k) as [v|] eqn:E.
  - rewrite (msum_delete f m k v) by done. specialize (Hf _ _ E). lia.
  - by rewrite delete_id.
Qed.

Lemma msum_insert f m k v :
  msum f (<[k := v]> m) = f k v + msum f m - match m !! k with Some v' => f k v' | None => 0 end.
Proof.
  destruct (m !! k) as [v'|] eqn:E.
  - rewrite <- insert_delete_eq, msum_insert_new by apply lookup_delete_eq. rewrite (msum_delete f m k v' E). lia.
  - rewrite msum_insert_new by done. lia.
Qed.

Lemma msum_nonneg f m : (∀ k v, m !! k = Some v → 0 <= f k v) → 0 <= msum f m.
Proof.
  intros Hf. induction m as [|k v m Hk IH] using map_ind; [by rewrite msum_empty|].
  rewrite msum_insert_new by done. assert (0 <= f k v) by (apply Hf, lookup_insert_eq).
  assert (0 <= msum f m); [|lia]. apply IH. intros k' v' H'. apply Hf. rewrite lookup_insert_ne; [done|]. congruence.
Qed.

Lemma msum_mono f g m m' :
  m' ⊆ m → (∀ k v, m !! k = Some v → 0 <= f k v) → (∀ k v, m' !! k = Some v → g k v <= f k v) → msum g m' <= msum f m.
Proof.
  revert m'. induction m as [|k v m Hk IH] using map_ind; intros m' Hs Hf Hg.
  - assert (m' = ∅) as ->.
    { apply map_empty. intros i. destruct (m' !! i) as [v|] eqn:E; [|done].
      by apply (lookup_weaken _ _ _ _ E) in Hs. }
    by rewrite !msum_empty.
  - rewrite msum_insert_new by done.
    assert (Hf' : ∀ k' v', m !! k' = Some v' → 0 <= f k' v').
    { intros k' v' H'. apply Hf. rewrite lookup_insert_ne; [done|]. congruence. }
    assert (Hd : delete k m' ⊆ m).
    { rewrite <- (delete_insert_id m k v Hk). by apply delete_mono. }
    assert (Hr : msum g (delete k m') <= msum f m).
    { apply IH; [done..|]. intros k' v' H'. apply lookup_delete_Some in H' as [_ ?]. by apply Hg. }
    assert (0 <= f k v) by (apply Hf, lookup_insert_eq).
    destruct (m' !! k) as [v'|] eqn:E.
    + rewrite (msum_delete g m' k v' E). pose proof (lookup_weaken _ _ _ _ E Hs) as E'.
      rewrite lookup_insert_eq in E'. injection E' as <-. specialize (Hg _ _ E). lia.
    + rewrite delete_id in Hr by done. lia.
Qed.

Lemma msum_subseteq f m m' : m' ⊆ m → (∀ k v, m !! k = Some v → 0 <= f k v) → msum f m' <= msum f m.
Proof. intros. by apply msum_mono. Qed.

Lemma msum_const (c : Z) m : msum (λ _ _, c) m = c * Z.of_nat (size m).
Proof.
  induction m as [|k v m Hk IH] using map_ind; [rewrite msum_empty, map_size_empty; lia|].
  rewrite msum_insert_new, map_size_insert_None, IH by done. lia.
Qed.

End msum.
