(* ===== verification/Policy.v ===== *)
(** * The media policy engine (internal/policy)

    [Policy.Engine] models policy.go: tri-state values, the field by field
    merge with provenance, eligibility, ranking and selection.
    [Policy.Load] models load.go: folding the enabled levels of the database
    into one effective policy, with the database as a parameter. *)

From S2P Require Import Prelude GoStrings.

Module Engine.

(** ** Tri-state values *)

Definition TriState := string.
Definition Inherit : TriState := "inherit".
Definition Allow : TriState := "allow".
Definition Deny : TriState := "deny".

Definition Normalize (t : TriState) : TriState :=
  let l := ToLower t in
  if l =s Allow then Allow else if l =s Deny then Deny else Inherit.

(** ** Policies *)

Record Policy := mkPolicy {
  MaxSourceWidth : option Z;
  MaxSourceHeight : option Z;
  MaxSourceBitrateKbps : option Z;
  MaxStreamingBitrateKbps : option Z;
  Allow4K : TriState;
  AllowHDR : TriState;
  AllowDolbyVision : TriState;
  AllowTranscode : TriState;
  PreferDirectPlay : TriState;
  MaxAudioChannels : option Z;
  UnknownDRBehavior : TriState;
  RoutingMode : string;
  (** [None] is the nil map. *)
  Provenance : option (gmap string string);
}.

(** The zero value of the struct. *)
Definition zeroPolicy : Policy :=
  mkPolicy None None None None "" "" "" "" "" None "" "" None.

Definition ProvDefault : string := "DEFAULT".
Definition ProvGlobal : string := "GLOBAL".
Definition ProvUser : string := "USER".
Definition ProvDevice : string := "DEVICE".

Definition provFields : list string :=
  ["maxSourceWidth"; "maxSourceHeight"; "maxSourceBitrateKbps";
   "maxStreamingBitrateKbps"; "allow4K"; "allowHDR"; "allowDolbyVision";
   "allowTranscode"; "preferDirectPlay"; "maxAudioChannels";
   "unknownDynamicRangeBehavior"; "routingMode"].

Definition Defaults : Policy :=
  let prov := foldr (λ f m, <[f := ProvDefault]> m) ∅ provFields in
  mkPolicy None None None None Allow Allow Allow Allow Allow None Allow "automatic" (Some prov).

(** ** Merging *)

(** A configured numeric replaces, nil keeps the base. *)
Definition over_int (specific base : option Z) : option Z :=
  match specific with Some _ => specific | None => base end.
(** A configured tri-state replaces (normalised), inherit keeps the base. *)
Definition over_tri (specific base : TriState) : TriState :=
  if Normalize specific =s Inherit then base else Normalize specific.
Definition routing_set (r : string) : bool := negb (r =s "") && negb (EqualFold r "inherit").
Definition over_routing (specific base : string) : string :=
  if routing_set specific then specific else base.

Definition tri_set (t : TriState) : bool := negb (Normalize t =s Inherit).
Definition int_set (v : option Z) : bool := match v with Some _ => true | None => false end.

(** Which fields a level configures, in the order the code tests them. *)
Definition configured (p : Policy) : list (string * bool) :=
  [("maxSourceWidth", int_set (MaxSourceWidth p));
   ("maxSourceHeight", int_set (MaxSourceHeight p));
   ("maxSourceBitrateKbps", int_set (MaxSourceBitrateKbps p));
   ("maxStreamingBitrateKbps", int_set (MaxStreamingBitrateKbps p));
   ("allow4K", tri_set (Allow4K p));
   ("allowHDR", tri_set (AllowHDR p));
   ("allowDolbyVision", tri_set (AllowDolbyVision p));
   ("allowTranscode", tri_set (AllowTranscode p));
   ("preferDirectPlay", tri_set (PreferDirectPlay p));
   ("maxAudioChannels", int_set (MaxAudioChannels p));
   ("unknownDynamicRangeBehavior", tri_set (UnknownDRBehavior p));
   ("routingMode", routing_set (RoutingMode p))].

(** The [stamp] closure: record the scope of a replaced field, creating the
    map when it is nil; an empty scope leaves the provenance alone. *)
Definition stamp (scope : string) (field : string) (prov : option (gmap string string)) :
    option (gmap string string) :=
  if scope =s "" then prov
  else Some (<[field := scope]> (default ∅ prov)).

Fixpoint stamp_all (scope : string) (l : list (string * bool))
    (prov : option (gmap string string)) : option (gmap string string) :=
  match l with
  | [] => prov
  | (field, set) :: r => stamp_all scope r (if set : bool then stamp scope field prov else prov)
  end.

(** [cloneProv] copies the map; values are immutable here, so the copy is the
    map itself. *)
Definition cloneProv (m : option (gmap string string)) : option (gmap string string) := m.

Definition MergeAs (base specific : Policy) (scope : string) : Policy :=
  {| MaxSourceWidth := over_int (MaxSourceWidth specific) (MaxSourceWidth base);
     MaxSourceHeight := over_int (MaxSourceHeight specific) (MaxSourceHeight base);
     MaxSourceBitrateKbps := over_int (MaxSourceBitrateKbps specific) (MaxSourceBitrateKbps base);
     MaxStreamingBitrateKbps :=
       over_int (MaxStreamingBitrateKbps specific) (MaxStreamingBitrateKbps base);
     Allow4K := over_tri (Allow4K specific) (Allow4K base);
     AllowHDR := over_tri (AllowHDR specific) (AllowHDR base);
     AllowDolbyVision := over_tri (AllowDolbyVision specific) (AllowDolbyVision base);
     AllowTranscode := over_tri (AllowTranscode specific) (AllowTranscode base);
     PreferDirectPlay := over_tri (PreferDirectPlay specific) (PreferDirectPlay base);
     MaxAudioChannels := over_int (MaxAudioChannels specific) (MaxAudioChannels base);
     UnknownDRBehavior := over_tri (UnknownDRBehavior specific) (UnknownDRBehavior base);
     RoutingMode := over_routing (RoutingMode specific) (RoutingMode base);
     Provenance := stamp_all scope (configured specific) (cloneProv (Provenance base)) |}.

Definition Merge (base specific : Policy) : Policy := MergeAs base specific "".

Definition Effective (global user device : Policy) : Policy :=
  MergeAs (MergeAs (MergeAs Defaults global ProvGlobal) user ProvUser) device ProvDevice.

(** ** Candidates *)

Inductive Playability := DirectPlay | DirectStream | UnknownPlayability | Transcode.

Record Variant := mkVariant {
  MediaIndex : Z;
  Width : option Z;
  Height : option Z;
  BitrateKbps : option Z;
  DynamicRange : string;
  VideoCodec : string;
  AudioChannels : option Z;
  vPlayability : Playability;
  PartAvailable : bool;
}.

Record Rejection := mkRejection { rMediaIndex : Z; rScope : string; rReason : string }.

Record Decision := mkDecision {
  Selected : option Variant;
  SelectedIndex : Z;
  OutputBitrateKbps : option Z;
  Rejected : list Rejection;
}.

Record Error := mkError { Code : string; eRejected : list Rejection }.

Definition NoAllowedVariant : string := "NO_ALLOWED_MEDIA_VARIANT".
Definition TranscodeForbidden : string := "POLICY_TRANSCODE_FORBIDDEN".
Definition OriginMismatch : string := "POLICY_ORIGIN_MISMATCH".

Definition RMaxSourceResolution : string := "MAX_SOURCE_RESOLUTION".
Definition RSource4KDenied : string := "SOURCE_4K_DENIED".
Definition RHDRDenied : string := "HDR_DENIED".
Definition RDolbyVisionDenied : string := "DOLBY_VISION_DENIED".
Definition RSourceBitrateCeil : string := "SOURCE_BITRATE_CEILING".
Definition RPartUnavailable : string := "PART_UNAVAILABLE".
Definition RUnknownDRDenied : string := "UNKNOWN_DYNAMIC_RANGE_DENIED".

Definition denied (t : TriState) : bool := Normalize t =s Deny.

(** [v > bound] when both pointers are set. *)
Definition exceeds (v bound : option Z) : bool :=
  match bound, v with Some b, Some x => b <? x | _, _ => false end.

Definition is4K (v : Variant) : bool :=
  exceeds (Width v) (Some 1920) || exceeds (Height v) (Some 1080).

Definition overResolution (v : Variant) (p : Policy) : bool :=
  exceeds (Width v) (MaxSourceWidth p) || exceeds (Height v) (MaxSourceHeight p).

Definition resolutionField (v : Variant) (p : Policy) : string :=
  if exceeds (Height v) (MaxSourceHeight p) then "maxSourceHeight" else "maxSourceWidth".

Definition isHDR (dr : string) : bool :=
  (dr =s "HDR10") || (dr =s "HDR10_PLUS") || (dr =s "HLG") || (dr =s "HDR_OTHER").

Definition deniesDR (p : Policy) (v : Variant) : bool :=
  let dr := DynamicRange v in
  if dr =s "DOLBY_VISION" then denied (AllowDolbyVision p)
  else if isHDR dr then denied (AllowHDR p)
  else if dr =s "UNKNOWN" then denied (UnknownDRBehavior p)
  else false.

(** ** Ranking *)

Definition pixels (v : Variant) : Z :=
  int64 (default 0 (Width v) * default 0 (Height v)).

Definition maxPixels (p : Policy) : Z :=
  let w := default 0 (MaxSourceWidth p) in
  let h := default 0 (MaxSourceHeight p) in
  if (0 <? w) && (0 <? h) then int64 (w * h) else 0.

Definition codecPenalty (v : Variant) : Z :=
  let c := ToLower (TrimSpace (VideoCodec v)) in
  if (c =s "h264") || (c =s "avc") || (c =s "mpeg4") then 0
  else if (c =s "hevc") || (c =s "h265") then 1
  else if (c =s "vp9") || (c =s "av1") then 2
  else 3.

Definition playCost (v : Variant) : Z :=
  match vPlayability v with
  | DirectPlay => 0
  | DirectStream | UnknownPlayability => 1
  | Transcode => 2
  end.

Definition hdrPenalty (v : Variant) : Z :=
  let dr := DynamicRange v in
  if dr =s "DOLBY_VISION" then -4
  else if dr =s "HDR10_PLUS" then -3
  else if (dr =s "HDR10") || (dr =s "HLG") then -2
  else if (dr =s "HDR_OTHER") || (dr =s "UNKNOWN") then -1
  else 0.

Definition rankKey (p : Policy) (v : Variant) : list Z :=
  [playCost v;
   (let cap := maxPixels p in
    if 0 <? cap then int64 (cap - pixels v) else int64 (- pixels v));
   hdrPenalty v;
   codecPenalty v;
   match MaxAudioChannels p, AudioChannels v with
   | Some m, Some a => if m <? a then int64 (a - m) else 0
   | _, _ => 0
   end;
   match BitrateKbps v with Some b => Z.quot b 1000 | None => 0 end;
   MediaIndex v].

Fixpoint lessKey (a b : list Z) : bool :=
  match a, b with
  | x :: a', y :: b' => if x =? y then lessKey a' b' else x <? y
  | _, _ => false
  end.

(** ** Evaluation *)

Definition prov (p : Policy) (scope field : string) : string :=
  match default ∅ (Provenance p) !! field with
  | Some s => if s =s "" then scope else s
  | None => scope
  end.

Definition reject (p : Policy) (scope : string) (v : Variant) (reason field : string) : Rejection :=
  mkRejection (MediaIndex v) (if field =s "" then scope else prov p scope field) reason.

(** One turn of the filtering loop: the rejection of a candidate, if any. *)
Definition screen (p : Policy) (scope : string) (v : Variant) : option Rejection :=
  if negb (PartAvailable v) then Some (reject p scope v RPartUnavailable "")
  else if is4K v && denied (Allow4K p) then Some (reject p scope v RSource4KDenied "allow4K")
  else if overResolution v p then
    Some (reject p scope v RMaxSourceResolution (resolutionField v p))
  else if deniesDR p v then
    Some (if DynamicRange v =s "UNKNOWN" then
            reject p scope v RUnknownDRDenied "unknownDynamicRangeBehavior"
          else if (DynamicRange v =s "DOLBY_VISION") && denied (AllowDolbyVision p) then
            reject p scope v RDolbyVisionDenied "allowDolbyVision"
          else reject p scope v RHDRDenied "allowHDR")
  else if exceeds (BitrateKbps v) (MaxSourceBitrateKbps p) then
    Some (reject p scope v RSourceBitrateCeil "maxSourceBitrateKbps")
  else None.

Fixpoint screen_loop (p : Policy) (scope : string) (vs : list Variant)
    (eligible : list Variant) (rejected : list Rejection) : list Variant * list Rejection :=
  match vs with
  | [] => (eligible, rejected)
  | v :: r =>
      match screen p scope v with
      | Some rj => screen_loop p scope r eligible (rejected ++ [rj])
      | None => screen_loop p scope r (eligible ++ [v]) rejected
      end
  end.

Definition better (p : Policy) (v w : Variant) : bool := lessKey (rankKey p v) (rankKey p w).

Definition Evaluate (p : Policy) (scope0 : string) (variants : list Variant) :
    Decision * option Error :=
  let scope := if scope0 =s "" then "GLOBAL" else scope0 in
  let '(eligible, rejected) := screen_loop p scope variants [] [] in
  match eligible with
  | [] => (mkDecision None 0 None rejected, Some (mkError NoAllowedVariant rejected))
  | first :: rest =>
      let best := best_of (better p) first rest in
      if match vPlayability best with Transcode => true | _ => false end && denied (AllowTranscode p) then
        (mkDecision None (MediaIndex best) None rejected,
         Some (mkError TranscodeForbidden rejected))
      else
        let cap := if exceeds (BitrateKbps best) (MaxStreamingBitrateKbps p)
                   then MaxStreamingBitrateKbps p else None in
        (mkDecision (Some best) (MediaIndex best) cap rejected, None)
  end.

Definition RenderReason (r : Rejection) : string := rScope r +:+ "_" +:+ rReason r.

(** ** What the policy promises

    The declarative reading of eligibility: every restriction of the policy
    holds of the candidate. *)

Definition within (v bound : option Z) : Prop :=
  ∀ x b, v = Some x → bound = Some b → x <= b.

Record permitted (p : Policy) (v : Variant) : Prop := {
  perm_part : PartAvailable v = true;
  perm_4k : denied (Allow4K p) = true →
    within (Width v) (Some 1920) ∧ within (Height v) (Some 1080);
  perm_width : within (Width v) (MaxSourceWidth p);
  perm_height : within (Height v) (MaxSourceHeight p);
  perm_dv : DynamicRange v = "DOLBY_VISION" → denied (AllowDolbyVision p) = false;
  perm_hdr : DynamicRange v ∈ ["HDR10"; "HDR10_PLUS"; "HLG"; "HDR_OTHER"] →
    denied (AllowHDR p) = false;
  perm_unknown : DynamicRange v = "UNKNOWN" → denied (UnknownDRBehavior p) = false;
  perm_bitrate : within (BitrateKbps v) (MaxSourceBitrateKbps p);
}.

(** Lexicographic order on rank keys. *)
Definition lex_lt (a b : list Z) : Prop :=
  ∃ pre x y s t, a = pre ++ x :: s ∧ b = pre ++ y :: t ∧ x < y.

Lemma exceeds_within v b : exceeds v b = false ↔ within v b.
Proof.
  unfold exceeds, within. destruct b as [b|], v as [x|]; simpl; split; try naive_solver.
  - intros H ?? [= <-] [= <-]. by apply Z.ltb_ge.
  - intros H. apply Z.ltb_ge. auto.
Qed.

Lemma isHDR_spec dr : isHDR dr = true ↔ dr ∈ ["HDR10"; "HDR10_PLUS"; "HLG"; "HDR_OTHER"].
Proof.
  unfold isHDR. rewrite !orb_true_iff, !String.eqb_eq, !elem_of_cons, elem_of_nil. tauto.
Qed.

Lemma deniesDR_spec p v :
  deniesDR p v = false ↔
  (DynamicRange v = "DOLBY_VISION" → denied (AllowDolbyVision p) = false) ∧
  (DynamicRange v ∈ ["HDR10"; "HDR10_PLUS"; "HLG"; "HDR_OTHER"] → denied (AllowHDR p) = false) ∧
  (DynamicRange v = "UNKNOWN" → denied (UnknownDRBehavior p) = false).
Proof.
  unfold deniesDR. rewrite <- isHDR_spec.
  destruct (String.eqb_spec (DynamicRange v) "DOLBY_VISION") as [->|N1]; [simpl; naive_solver|].
  destruct (isHDR (DynamicRange v)) eqn:Eh.
  - destruct (String.eqb_spec (DynamicRange v) "UNKNOWN") as [E|N2]; [|naive_solver].
    rewrite E in Eh. done.
  - destruct (String.eqb_spec (DynamicRange v) "UNKNOWN") as [E|N2]; naive_solver.
Qed.

(** The filtering loop rejects exactly what the policy does not permit. *)
Lemma screen_permitted p sc v : screen p sc v = None ↔ permitted p v.
Proof.
  unfold screen. split.
  - repeat case_match; try done. intros _.
    rename select (negb _ = false) into Hpa. apply negb_false_iff in Hpa.
    rename select (is4K v && _ = false) into H4.
    rename select (overResolution v p = false) into Hres.
    rename select (deniesDR p v = false) into Hdr.
    unfold overResolution, is4K in *. apply orb_false_elim in Hres as [??].
    apply deniesDR_spec in Hdr as (? & ? & ?).
    split; try done; try (by apply exceeds_within).
    intros Hd. rewrite Hd, andb_true_r in H4.
    apply orb_false_elim in H4 as [??]. by split; apply exceeds_within.
  - intros [Hp H4 Hw Hh Hdv Hhdr Hu Hb]. rewrite Hp; simpl.
    assert (is4K v && denied (Allow4K p) = false) as ->.
    { destruct (denied (Allow4K p)); [|by rewrite andb_false_r].
      destruct H4 as [?%exceeds_within ?%exceeds_within]; [done|].
      unfold is4K. by rewrite H, H0. }
    apply exceeds_within in Hw, Hh, Hb. unfold overResolution. rewrite Hw, Hh; simpl.
    assert (deniesDR p v = false) as -> by (by apply deniesDR_spec).
    by rewrite Hb.
Qed.

#[global] Instance permitted_dec p v : stdpp.base.Decision (permitted p v).
Proof.
  refine (cast_if (decide (screen p "" v = None))); by rewrite <- (screen_permitted p "" v).
Defined.

Lemma screen_loop_spec p sc vs el rj :
  screen_loop p sc vs el rj = (el ++ filter (permitted p) vs, rj ++ omap (screen p sc) vs).
Proof.
  revert el rj. induction vs as [|v vs IH]; intros el rj; simpl; [by rewrite !app_nil_r|].
  destruct (screen p sc v) as [r|] eqn:E; rewrite IH.
  - rewrite filter_cons_False, <- app_assoc; [done|].
    rewrite <- (screen_permitted p sc v), E. done.
  - rewrite filter_cons_True, <- app_assoc; [done|]. by apply (screen_permitted p sc v).
Qed.

(** ** Ranking is a strict total order on keys *)

Lemma lessKey_spec a b : length a = length b → lessKey a b = true ↔ lex_lt a b.
Proof.
  revert b. induction a as [|x a IH]; intros [|y b]; simpl; intros HL; try done.
  - split; [done|]. intros (pre & ? & ? & ? & ? & E & _). by destruct pre.
  - destruct (Z.eqb_spec x y) as [->|Hne].
    + rewrite IH by lia. split.
      * intros (pre & u & w & s & t & -> & -> & H). by exists (y :: pre), u, w, s, t.
      * intros (pre & u & w & s & t & E1 & E2 & H). destruct pre as [|z pre]; simplify_eq/=; [lia|].
        by exists pre, u, w, s, t.
    + rewrite Z.ltb_lt. split; [intros; by exists [], x, y, a, b|].
      intros (pre & u & w & s & t & E1 & E2 & H). by destruct pre as [|z pre]; simplify_eq/=.
Qed.

Lemma lessKey_asym a b : lessKey a b = true → lessKey b a = false.
Proof.
  revert b. induction a as [|x a IH]; intros [|y b]; simpl; try done.
  rewrite (Z.eqb_sym y x). destruct (Z.eqb_spec x y); [apply IH|].
  rewrite Z.ltb_lt, Z.ltb_ge. lia.
Qed.

Lemma lessKey_negtrans a b c :
  length a = length b → length c = length b →
  lessKey a b = true → lessKey c b = false → lessKey a c = true.
Proof.
  revert b c. induction a as [|x a IH]; intros [|y b] [|z c]; simpl; intros H1 H2; try done.
  destruct (Z.eqb_spec x y), (Z.eqb_spec z y), (Z.eqb_spec x z); subst; try done;
    try (apply IH; lia); rewrite ?Z.ltb_ge, ?Z.ltb_lt; lia.
Qed.

Lemma lessKey_total a b : length a = length b → lessKey a b = false → lessKey b a = false → a = b.
Proof.
  revert b. induction a as [|x a IH]; intros [|y b]; simpl; intros HL; try done.
  rewrite (Z.eqb_sym y x). destruct (Z.eqb_spec x y) as [->|].
  - intros. f_equal. apply IH; auto.
  - rewrite !Z.ltb_ge. lia.
Qed.

Lemma better_min p x l y :
  y ∈ x :: l → better p y (best_of (better p) x l) = false.
Proof.
  apply best_of_min.
  - intros a b c. by apply lessKey_negtrans.
  - intros a b. apply lessKey_asym.
Qed.

(** The rank key ends with the origin media index, so candidates with
    distinct indexes never tie. *)
Lemma rankKey_inj_index p v w : rankKey p v = rankKey p w → MediaIndex v = MediaIndex w.
Proof. unfold rankKey. intros E. by simplify_eq/=. Qed.

(** ** Properties of the engine *)

Definition effScope (scope : string) : string := if scope =s "" then "GLOBAL" else scope.

(** The three outcomes of [Evaluate] in terms of the permitted candidates. *)
Lemma Evaluate_unfold p scope vs :
  Evaluate p scope vs =
  let rj := omap (screen p (effScope scope)) vs in
  match filter (permitted p) vs with
  | [] => (mkDecision None 0 None rj, Some (mkError NoAllowedVariant rj))
  | first :: rest =>
      let best := best_of (better p) first rest in
      if match vPlayability best with Transcode => true | _ => false end && denied (AllowTranscode p)
      then (mkDecision None (MediaIndex best) None rj, Some (mkError TranscodeForbidden rj))
      else (mkDecision (Some best) (MediaIndex best)
              (if exceeds (BitrateKbps best) (MaxStreamingBitrateKbps p)
               then MaxStreamingBitrateKbps p else None) rj, None)
  end.
Proof. unfold Evaluate. by rewrite screen_loop_spec. Qed.

(** The first of the permitted candidates no other permitted one outranks. *)
Definition winner (p : Policy) (vs : list Variant) : option Variant :=
  match filter (permitted p) vs with
  | [] => None
  | x :: l => Some (best_of (better p) x l)
  end.

Lemma winner_spec p vs v :
  winner p vs = Some v →
  v ∈ vs ∧ permitted p v ∧
  ∀ w, w ∈ vs → permitted p w → ¬ lex_lt (rankKey p w) (rankKey p v).
Proof.
  unfold winner. destruct (filter (permitted p) vs) as [|x l] eqn:E; [done|]. intros [= <-].
  pose proof (best_of_in (better p) x l) as Hin. rewrite <- E in Hin.
  apply list_elem_of_filter in Hin as [Hp Hv]. split_and!; [done|done|].
  intros w Hw Hpw Hlt. assert (w ∈ x :: l) as Hwl by (rewrite <- E; by apply list_elem_of_filter).
  pose proof (better_min p x l w Hwl) as Hb.
  apply (lessKey_spec (rankKey p w)) in Hlt; [|done].
  change (better p w (best_of (better p) x l) = true) in Hlt. congruence.
Qed.

Lemma winner_none p vs : winner p vs = None ↔ ∀ v, v ∈ vs → ¬ permitted p v.
Proof.
  unfold winner. destruct (filter (permitted p) vs) as [|x l] eqn:E; split; try done.
  - intros _ v Hv Hp. assert (v ∈ filter (permitted p) vs) as Hf by by apply list_elem_of_filter.
    rewrite E in Hf. set_solver.
  - intros H. assert (x ∈ filter (permitted p) vs) as Hf by (rewrite E; set_solver).
    apply list_elem_of_filter in Hf as [Hp Hx]. by destruct (H x Hx).
Qed.

Lemma winner_perm p vs vs' :
  NoDup (MediaIndex <$> vs) → vs ≡ₚ vs' → winner p vs = winner p vs'.
Proof.
  intros Hnd Hperm.
  destruct (winner p vs) as [v|] eqn:E, (winner p vs') as [w|] eqn:E'; [|exfalso..|done].
  - apply winner_spec in E as (Hv & Hpv & Hmin), E' as (Hw & Hpw & Hmin').
    assert (rankKey p v = rankKey p w) as Hk.
    { apply lessKey_total; [done|..]; apply not_true_iff_false.
      - rewrite lessKey_spec by done. apply Hmin'; [by rewrite <- Hperm|done].
      - rewrite lessKey_spec by done. apply Hmin; [by rewrite Hperm|done]. }
    apply rankKey_inj_index in Hk.
    rewrite <- Hperm in Hw. apply list_elem_of_lookup in Hv as [i Hi], Hw as [j Hj].
    assert (i = j) as <-; [|by rewrite Hi in Hj; simplify_eq].
    apply (NoDup_lookup (MediaIndex <$> vs) i j (MediaIndex v)); [done|..].
    + by rewrite list_lookup_fmap, Hi.
    + by rewrite list_lookup_fmap, Hj, Hk.
  - apply winner_spec in E as (Hv & Hpv & _). rewrite winner_none in E'. rewrite Hperm in Hv. by eapply E'.
  - apply winner_spec in E' as (Hw & Hpw & _). rewrite winner_none in E. rewrite <- Hperm in Hw. by eapply E.
Qed.

Lemma Evaluate_winner p scope vs :
  Evaluate p scope vs =
  let rj := omap (screen p (effScope scope)) vs in
  match winner p vs with
  | None => (mkDecision None 0 None rj, Some (mkError NoAllowedVariant rj))
  | Some best =>
      if match vPlayability best with Transcode => true | _ => false end && denied (AllowTranscode p)
      then (mkDecision None (MediaIndex best) None rj, Some (mkError TranscodeForbidden rj))
      else (mkDecision (Some best) (MediaIndex best)
              (if exceeds (BitrateKbps best) (MaxStreamingBitrateKbps p)
               then MaxStreamingBitrateKbps p else None) rj, None)
  end.
Proof. rewrite Evaluate_unfold. unfold winner. by destruct (filter (permitted p) vs). Qed.

(** C36: A successful evaluation selects a candidate the policy permits, which
    no permitted candidate outranks in the lexicographic rank order, which
    does not need a denied transcode, and whose output is capped exactly when
    its bitrate exceeds the streaming bound. *)
Theorem Evaluate_selects_best p scope vs d :
  Evaluate p scope vs = (d, None) →
  ∃ v, Selected d = Some v ∧ SelectedIndex d = MediaIndex v ∧ v ∈ vs ∧ permitted p v ∧
    (vPlayability v = Transcode → denied (AllowTranscode p) = false) ∧
    (∀ w, w ∈ vs → permitted p w → ¬ lex_lt (rankKey p w) (rankKey p v)) ∧
    (∀ b, OutputBitrateKbps d = Some b ↔
       MaxStreamingBitrateKbps p = Some b ∧ ∃ x, BitrateKbps v = Some x ∧ b < x).
Proof.
  rewrite Evaluate_winner. simpl. destruct (winner p vs) as [v|] eqn:E; [|done].
  case_match eqn:Ht; [done|]. intros [= <-]. exists v; simpl.
  apply winner_spec in E as (Hv & Hp & Hmin). split_and!; try done.
  - intros Htr. rewrite Htr in Ht. by apply andb_false_iff in Ht as [|].
  - intros b. unfold exceeds. destruct (MaxStreamingBitrateKbps p) as [m|], (BitrateKbps v) as [x|]; simpl.
    + destruct (Z.ltb_spec m x); naive_solver lia.
    + naive_solver.
    + naive_solver.
    + naive_solver.
Qed.

(** Evaluation fails exactly as specified: with [NO_ALLOWED_MEDIA_VARIANT]
    iff no candidate is permitted, with [POLICY_TRANSCODE_FORBIDDEN] iff the
    best permitted candidate needs a transcode the policy denies. *)
Theorem Evaluate_fails_iff p scope vs :
  ((∃ rj, snd (Evaluate p scope vs) = Some (mkError NoAllowedVariant rj)) ↔
    (∀ v, v ∈ vs → ¬ permitted p v)) ∧
  ((∃ rj, snd (Evaluate p scope vs) = Some (mkError TranscodeForbidden rj)) ↔
    denied (AllowTranscode p) = true ∧
    ∃ v, v ∈ vs ∧ permitted p v ∧ vPlayability v = Transcode ∧
      winner p vs = Some v).
Proof.
  rewrite Evaluate_winner, <- winner_none. simpl.
  destruct (winner p vs) as [v|] eqn:E; simpl.
  2: { split; split; try done; [by eauto|by intros [? [=]]|by intros (_ & ? & _ & _ & _ & ?)]. }
  pose proof (winner_spec _ _ _ E) as (? & ? & _).
  split; split; try done.
  - by intros [rj Hrj]; repeat case_match; simplify_eq/=.
  - intros [rj Hrj]. case_match eqn:Ht; [|done]. apply andb_prop in Ht as [Ht ?].
    split; [done|]. exists v. by destruct (vPlayability v).
  - intros (Hd & w & _ & _ & Hw & [= <-]). rewrite Hw, Hd. simpl. by eauto.
Qed.

(** Selection is deterministic: when the candidates carry distinct origin
    indexes, the order in which they are listed does not change the selected
    candidate, the output cap or the error code, and permutes the
    rejections. *)
Theorem Evaluate_order_independent p scope vs vs' :
  NoDup (MediaIndex <$> vs) → vs ≡ₚ vs' →
  let '(d, e) := Evaluate p scope vs in
  let '(d', e') := Evaluate p scope vs' in
  Selected d = Selected d' ∧ SelectedIndex d = SelectedIndex d' ∧
  OutputBitrateKbps d = OutputBitrateKbps d' ∧ Code <$> e = Code <$> e' ∧
  Rejected d ≡ₚ Rejected d'.
Proof.
  intros Hnd Hperm. rewrite !Evaluate_winner, <- (winner_perm p vs vs' Hnd Hperm). simpl.
  assert (omap (screen p (effScope scope)) vs ≡ₚ omap (screen p (effScope scope)) vs')
    by by rewrite Hperm.
  by repeat case_match; simplify_eq/=.
Qed.

(** What each rejection reason says about the candidate. *)
Definition reason_holds (p : Policy) (v : Variant) (reason : string) : Prop :=
  (reason = RPartUnavailable ∧ PartAvailable v = false) ∨
  (reason = RSource4KDenied ∧ denied (Allow4K p) = true ∧ is4K v = true) ∨
  (reason = RMaxSourceResolution ∧
     (¬ within (Width v) (MaxSourceWidth p) ∨ ¬ within (Height v) (MaxSourceHeight p))) ∨
  (reason = RUnknownDRDenied ∧ DynamicRange v = "UNKNOWN" ∧ denied (UnknownDRBehavior p) = true) ∨
  (reason = RDolbyVisionDenied ∧ DynamicRange v = "DOLBY_VISION" ∧
     denied (AllowDolbyVision p) = true) ∨
  (reason = RHDRDenied ∧ isHDR (DynamicRange v) = true ∧ denied (AllowHDR p) = true) ∨
  (reason = RSourceBitrateCeil ∧ ¬ within (BitrateKbps v) (MaxSourceBitrateKbps p)).

Lemma exceeds_not_within v b : exceeds v b = true → ¬ within v b.
Proof. intros H Hw. apply exceeds_within in Hw. congruence. Qed.

Lemma screen_reason p sc v r :
  screen p sc v = Some r → rMediaIndex r = MediaIndex v ∧ reason_holds p v (rReason r).
Proof.
  unfold screen, reason_holds, overResolution.
  destruct (negb (PartAvailable v)) eqn:E1.
  { intros [= <-]. apply negb_true_iff in E1. simpl. auto. }
  destruct (is4K v && denied (Allow4K p)) eqn:E2.
  { intros [= <-]. apply andb_prop in E2. simpl. naive_solver. }
  destruct (exceeds (Width v) (MaxSourceWidth p) || _) eqn:E3.
  { intros [= <-]. apply orb_prop in E3. simpl. split; [done|]. do 2 right. left. split; [done|].
    destruct E3 as [E3|E3]; apply exceeds_not_within in E3; auto. }
  destruct (deniesDR p v) eqn:E4.
  { unfold deniesDR in E4. intros H. destruct (String.eqb_spec (DynamicRange v) "UNKNOWN") as [Eu|].
    - rewrite Eu in E4. simplify_eq/=. split; [done|]. do 3 right. by left.
    - destruct (String.eqb_spec (DynamicRange v) "DOLBY_VISION") as [Ed|].
      + rewrite E4 in H. simplify_eq/=. split; [done|]. do 4 right. by left.
      + destruct (isHDR (DynamicRange v)) eqn:Eh; [|done].
        simplify_eq/=. split; [done|]. do 5 right. left. done. }
  destruct (exceeds (BitrateKbps v) _) eqn:E5; [|done].
  intros [= <-]. split; [done|]. do 6 right. split; [done|]. by apply exceeds_not_within.
Qed.

(** The rejection trace is exact: it lists, in candidate order, one entry
    for each candidate the policy does not permit and none for the others,
    and each entry's reason is true of some candidate with that index. *)
Theorem Evaluate_rejections_exact p scope vs :
  let d := fst (Evaluate p scope vs) in
  rMediaIndex <$> Rejected d = MediaIndex <$> filter (λ v, ¬ permitted p v) vs ∧
  (∀ r, r ∈ Rejected d →
     ∃ v, v ∈ vs ∧ rMediaIndex r = MediaIndex v ∧ ¬ permitted p v ∧ reason_holds p v (rReason r)).
Proof.
  cbv zeta. assert (Rejected (fst (Evaluate p scope vs)) = omap (screen p (effScope scope)) vs) as ->.
  { rewrite Evaluate_winner. simpl. by repeat case_match. }
  set (sc := effScope scope). split.
  - induction vs as [|v vs IH]; [done|]. csimpl.
    destruct (screen p sc v) as [r|] eqn:E.
    + rewrite filter_cons_True by (rewrite <- (screen_permitted p sc), E; done).
      csimpl. rewrite IH. by destruct (screen_reason _ _ _ _ E) as [-> _].
    + rewrite filter_cons_False; [done|]. intros H. apply H. by apply (screen_permitted p sc).
  - intros r Hr. apply list_elem_of_omap in Hr as (v & Hv & E). exists v.
    destruct (screen_reason _ _ _ _ E). split_and!; try done.
    rewrite <- (screen_permitted p sc), E. done.
Qed.

(** *** Precedence of the levels *)

(** The most specific configured value. *)
Definition nearest (l : list (option Z)) : option Z := foldr over_int None l.
Definition nearest_tri (l : list TriState) (dflt : TriState) : TriState := foldr over_tri dflt l.
Definition nearest_routing (l : list string) (dflt : string) : string := foldr over_routing dflt l.

Fixpoint assoc_set (l : list (string * bool)) (f : string) : bool :=
  match l with
  | [] => false
  | (g, b) :: r => if g =s f then b else assoc_set r f
  end.

Definition is_configured (p : Policy) (f : string) : bool := assoc_set (configured p) f.

Lemma assoc_set_notin l f : f ∉ l.*1 → assoc_set l f = false.
Proof.
  induction l as [|[g b] l IH]; [done|]. rewrite fmap_cons, not_elem_of_cons; simpl.
  intros [Hne Hl]. rewrite (proj2 (String.eqb_neq g f)) by done. by apply IH.
Qed.

Lemma stamp_all_lookup scope l m f :
  scope ≠ "" → NoDup l.*1 →
  default ∅ (stamp_all scope l m) !! f =
  if assoc_set l f then Some scope else default ∅ m !! f.
Proof.
  intros Hs. revert m. induction l as [|[g b] l IH]; intros m Hnd; [done|].
  rewrite fmap_cons, NoDup_cons in Hnd. destruct Hnd as [Hg Hnd]. simpl.
  rewrite IH by done. unfold stamp. rewrite (proj2 (String.eqb_neq scope "") Hs).
  destruct (String.eqb_spec g f) as [->|Hne].
  - rewrite assoc_set_notin by done. destruct b; [|done]. simpl. by rewrite lookup_insert_eq.
  - destruct b; [|done]. simpl. by rewrite lookup_insert_ne.
Qed.

Lemma configured_NoDup p : NoDup (configured p).*1.
Proof. apply (bool_decide_unpack _). vm_compute. exact I. Qed.

Lemma MergeAs_prov base p scope f :
  scope ≠ "" →
  default ∅ (Provenance (MergeAs base p scope)) !! f =
  if is_configured p f then Some scope else default ∅ (Provenance base) !! f.
Proof.
  intros. unfold MergeAs. cbn [Provenance].
  by rewrite stamp_all_lookup by eauto using configured_NoDup.
Qed.

Lemma Defaults_prov f :
  f ∈ provFields → default ∅ (Provenance Defaults) !! f = Some ProvDefault.
Proof.
  revert f. apply Forall_forall. apply (bool_decide_unpack _). vm_compute. exact I.
Qed.

(** Precedence is device over user over global over default, field by
    field: each effective value is the one of the most specific level that
    configures the field, and the provenance of every tracked field names
    exactly that level. *)
Theorem Effective_precedence g u d :
  let e := Effective g u d in
  MaxSourceWidth e = nearest [MaxSourceWidth d; MaxSourceWidth u; MaxSourceWidth g] ∧
  MaxSourceHeight e = nearest [MaxSourceHeight d; MaxSourceHeight u; MaxSourceHeight g] ∧
  MaxSourceBitrateKbps e =
    nearest [MaxSourceBitrateKbps d; MaxSourceBitrateKbps u; MaxSourceBitrateKbps g] ∧
  MaxStreamingBitrateKbps e =
    nearest [MaxStreamingBitrateKbps d; MaxStreamingBitrateKbps u; MaxStreamingBitrateKbps g] ∧
  MaxAudioChannels e = nearest [MaxAudioChannels d; MaxAudioChannels u; MaxAudioChannels g] ∧
  Allow4K e = nearest_tri [Allow4K d; Allow4K u; Allow4K g] Allow ∧
  AllowHDR e = nearest_tri [AllowHDR d; AllowHDR u; AllowHDR g] Allow ∧
  AllowDolbyVision e = nearest_tri [AllowDolbyVision d; AllowDolbyVision u; AllowDolbyVision g] Allow ∧
  AllowTranscode e = nearest_tri [AllowTranscode d; AllowTranscode u; AllowTranscode g] Allow ∧
  PreferDirectPlay e = nearest_tri [PreferDirectPlay d; PreferDirectPlay u; PreferDirectPlay g] Allow ∧
  UnknownDRBehavior e =
    nearest_tri [UnknownDRBehavior d; UnknownDRBehavior u; UnknownDRBehavior g] Allow ∧
  RoutingMode e = nearest_routing [RoutingMode d; RoutingMode u; RoutingMode g] "automatic" ∧
  (∀ f, f ∈ provFields →
     default ∅ (Provenance e) !! f =
     Some (if is_configured d f then ProvDevice
           else if is_configured u f then ProvUser
           else if is_configured g f then ProvGlobal else ProvDefault)).
Proof.
  cbv zeta. do 12 (split; [reflexivity|]).
  intros f Hf. unfold Effective. rewrite !MergeAs_prov by done.
  repeat case_match; try done. by apply Defaults_prov.
Qed.

(** *** Tightening a policy *)

(** [bound_le b a]: the bound [b] is at least as strict as [a]. *)
Definition bound_le (b a : option Z) : Prop :=
  ∀ m, a = Some m → ∃ m', b = Some m' ∧ m' <= m.

Record tighter (q p : Policy) : Prop := {
  t_width : bound_le (MaxSourceWidth q) (MaxSourceWidth p);
  t_height : bound_le (MaxSourceHeight q) (MaxSourceHeight p);
  t_bitrate : bound_le (MaxSourceBitrateKbps q) (MaxSourceBitrateKbps p);
  t_4k : denied (Allow4K p) = true → denied (Allow4K q) = true;
  t_hdr : denied (AllowHDR p) = true → denied (AllowHDR q) = true;
  t_dv : denied (AllowDolbyVision p) = true → denied (AllowDolbyVision q) = true;
  t_unknown : denied (UnknownDRBehavior p) = true → denied (UnknownDRBehavior q) = true;
}.

Lemma within_bound_le v a b : bound_le b a → within v b → within v a.
Proof.
  intros Hb Hw x m Hx Hm. destruct (Hb m Hm) as (m' & Hm' & ?).
  pose proof (Hw x m' Hx Hm'). lia.
Qed.

Lemma tighter_permitted p q v : tighter q p → permitted q v → permitted p v.
Proof.
  intros [Hw Hh Hb H4 Hhdr Hdv Hu] [P1 P2 P3 P4 P5 P6 P7 P8].
  split; eauto using within_bound_le.
  - intros E. specialize (P5 E). destruct (denied (AllowDolbyVision p)); [|done].
    by rewrite Hdv in P5.
  - intros E. specialize (P6 E). destruct (denied (AllowHDR p)); [|done]. by rewrite Hhdr in P6.
  - intros E. specialize (P7 E). destruct (denied (UnknownDRBehavior p)); [|done].
    by rewrite Hu in P7.
Qed.

(** Restricting a policy never opens anything: whatever a tighter policy
    selects the looser one permits, and a looser policy that denies every
    candidate is not reopened by tightening it. *)
Theorem Evaluate_tighter p q scope vs :
  tighter q p →
  (∀ v, Selected (fst (Evaluate q scope vs)) = Some v → permitted p v) ∧
  ((∃ rj, snd (Evaluate p scope vs) = Some (mkError NoAllowedVariant rj)) →
   ∃ rj, snd (Evaluate q scope vs) = Some (mkError NoAllowedVariant rj)).
Proof.
  intros Ht. split.
  - intros v. rewrite Evaluate_winner. simpl. destruct (winner q vs) as [w|] eqn:E; [|done].
    apply winner_spec in E as (_ & Hq & _). case_match; [done|]. intros [= <-].
    by apply (tighter_permitted p q).
  - rewrite !Evaluate_winner. simpl. intros [rj H].
    assert (winner q vs = None) as ->; [|by eauto].
    destruct (winner p vs) as [w|] eqn:E; [repeat case_match; simplify_eq/=; done|].
    rewrite winner_none in E |- *. intros v Hv Hq. apply (E v Hv). by apply (tighter_permitted p q).
Qed.

(** The same policy with another streaming target. *)
Definition with_streaming (p : Policy) (b : option Z) : Policy :=
  mkPolicy (MaxSourceWidth p) (MaxSourceHeight p) (MaxSourceBitrateKbps p) b
    (Allow4K p) (AllowHDR p) (AllowDolbyVision p) (AllowTranscode p) (PreferDirectPlay p)
    (MaxAudioChannels p) (UnknownDRBehavior p) (RoutingMode p) (Provenance p).

(** The bandwidth target controls output, never permission: changing it
    changes neither the selected candidate, the rejections nor the error, and
    an output cap never exceeds the target. *)
Theorem Evaluate_bandwidth_is_output_only p b scope vs :
  let '(d, e) := Evaluate p scope vs in
  let '(d', e') := Evaluate (with_streaming p b) scope vs in
  Selected d' = Selected d ∧ SelectedIndex d' = SelectedIndex d ∧
  Rejected d' = Rejected d ∧ e' = e ∧ (∀ x, OutputBitrateKbps d' = Some x → b = Some x).
Proof.
  unfold Evaluate.
  assert (∀ sc l el rj, screen_loop (with_streaming p b) sc l el rj = screen_loop p sc l el rj) as ->.
  { intros sc l. induction l as [|v l IH]; intros el rj; [done|]. simpl.
    change (screen (with_streaming p b) sc v) with (screen p sc v).
    destruct (screen p sc v); apply IH. }
  destruct (screen_loop _ _ _ _ _) as [[|v el] rj]; [done|].
  change (better (with_streaming p b)) with (better p).
  change (AllowTranscode (with_streaming p b)) with (AllowTranscode p).
  destruct (_ && denied (AllowTranscode p)); simpl; [done|].
  split_and!; try done. intros x. by destruct (exceeds _ b).
Qed.

End Engine.

(** ** Loading the effective policy (load.go) *)

Module Load.
Import Engine.

(** What [QueryRow(...).Scan(&raw)] yields. *)
Inductive RowResult := NoRows | QueryError (msg : string) | Row (raw : string).

Section load.
(** The policies table: server, scope type, scope id. *)
Context (query : string → string → option string → RowResult).
(** [json.Unmarshal] into a [Policy]: the decoded value or the error text. *)
Context (unmarshal : string → Policy + string).

(** [db] tells whether the database handle is non-nil. *)
Definition loadLevel (db : bool) (serverID scopeType : string) (scopeID : option string) :
    (Policy * bool) + string :=
  if negb db then inl (zeroPolicy, false)
  else match query serverID scopeType scopeID with
       | NoRows => inl (zeroPolicy, false)
       | QueryError e => inr ("policy: " +:+ scopeType +:+ " query: " +:+ e)
       | Row raw =>
           match unmarshal raw with
           | inr e => inr ("policy: " +:+ scopeType +:+ " config corrupt: " +:+ e)
           | inl p => inl (p, true)
           end
       end.

Local Notation level := (string * option string * string)%type.

Definition levels (identityID clientID : option string) : list level :=
  [("global", None, ProvGlobal); ("user", identityID, ProvUser); ("device", clientID, ProvDevice)].

Definition skipped (l : level) : bool :=
  let '(scopeType, scopeID, _) := l in
  match scopeID with None => negb (scopeType =s "global") | Some _ => false end.

Fixpoint load_loop (db : bool) (serverID : string) (ls : list level) (eff : Policy) (scope : string) :
    (Policy * string) + string :=
  match ls with
  | [] => inl (eff, scope)
  | l :: r =>
      if skipped l then load_loop db serverID r eff scope
      else let '(scopeType, scopeID, name) := l in
           match loadLevel db serverID scopeType scopeID with
           | inr e => inr ("policy: " +:+ name +:+ " level unavailable: " +:+ e)
           | inl (p, false) => load_loop db serverID r eff scope
           | inl (p, true) => load_loop db serverID r (MergeAs eff p name) name
           end
  end.

Definition LoadEffective (db : bool) (serverID : string) (identityID clientID : option string) :
    (Policy * string) + string :=
  load_loop db serverID (levels identityID clientID) Defaults "GLOBAL".

(** A level contributes its row, or nothing when it is skipped or absent. *)
Definition level_policy (db : bool) (serverID : string) (l : level) : Policy + string :=
  if skipped l then inl zeroPolicy
  else let '(scopeType, scopeID, _) := l in
       match loadLevel db serverID scopeType scopeID with
       | inl (p, true) => inl p
       | inl (_, false) => inl zeroPolicy
       | inr e => inr e
       end.

Lemma MergeAs_zero p scope : MergeAs p zeroPolicy scope = p.
Proof. by destruct p. Qed.

Lemma load_loop_level db serverID l r eff scope :
  (∃ e, level_policy db serverID l = inr e ∧
     load_loop db serverID (l :: r) eff scope =
       inr ("policy: " +:+ snd l +:+ " level unavailable: " +:+ e)) ∨
  (∃ p scope', level_policy db serverID l = inl p ∧
     load_loop db serverID (l :: r) eff scope =
       load_loop db serverID r (MergeAs eff p (snd l)) scope').
Proof.
  destruct l as [[st sid] name]. unfold level_policy; simpl.
  destruct (match sid with Some _ => _ | None => _ end).
  { right. exists zeroPolicy, scope. by rewrite MergeAs_zero. }
  destruct (loadLevel db serverID st sid) as [[p []]|e].
  - right. by exists p, name.
  - right. exists zeroPolicy, scope. by rewrite MergeAs_zero.
  - left. by exists e.
Qed.

(** Loading fails closed: when the query or the configuration of any
    applicable level fails the whole load fails, and otherwise the result is
    the [Effective] fold of the three levels, an absent or inapplicable level
    counting as an empty policy. *)
Theorem LoadEffective_fails_closed db serverID identityID clientID :
  let lp := level_policy db serverID in
  match lp ("global", None, ProvGlobal), lp ("user", identityID, ProvUser),
        lp ("device", clientID, ProvDevice) with
  | inl g, inl u, inl d =>
      ∃ scope, LoadEffective db serverID identityID clientID = inl (Effective g u d, scope)
  | _, _, _ => ∃ e, LoadEffective db serverID identityID clientID = inr e
  end.
Proof.
  cbv zeta. unfold LoadEffective, levels.
  destruct (load_loop_level db serverID ("global", None, ProvGlobal)
    [("user", identityID, ProvUser); ("device", clientID, ProvDevice)] Defaults "GLOBAL")
    as [(e & -> & ->)|(g & s1 & -> & ->)]; [by eauto|]. simpl snd.
  destruct (load_loop_level db serverID ("user", identityID, ProvUser)
    [("device", clientID, ProvDevice)] (MergeAs Defaults g ProvGlobal) s1)
    as [(e & -> & ->)|(u & s2 & -> & ->)]; [by eauto|]. simpl snd.
  destruct (load_loop_level db serverID ("device", clientID, ProvDevice) []
    (MergeAs (MergeAs Defaults g ProvGlobal) u ProvUser) s2)
    as [(e & -> & ->)|(d & s3 & -> & ->)]; by eauto.
Qed.

End load.
End Load.

(** ** Witnesses *)

Module PolicyWitness.
Import Engine.

(** A 4K HDR10 source and a 1080p source of the same title. *)
Definition uhd : Variant :=
  mkVariant 0 (Some 3840) (Some 2160) (Some 42000) "HDR10" "hevc" (Some 8) UnknownPlayability true.
Definition fhd : Variant :=
  mkVariant 1 (Some 1920) (Some 1080) (Some 9000) "SDR" "h264" (Some 6) UnknownPlayability true.

(** A user level that bounds the source and the streaming bitrate. *)
Definition user_level : Policy :=
  mkPolicy None (Some 1080) None (Some 8000) "Deny" "" "" "" "" None "" "" None.
Definition user_policy : Policy := Effective zeroPolicy user_level zeroPolicy.

Example evaluate_ex :
  (RenderReason <$> Rejected (fst (Evaluate user_policy "USER" [uhd; fhd])),
   SelectedIndex (fst (Evaluate user_policy "USER" [uhd; fhd])),
   OutputBitrateKbps (fst (Evaluate user_policy "USER" [uhd; fhd]))) =
  (["USER_SOURCE_4K_DENIED"], 1, Some 8000).
Proof. vm_compute. reflexivity. Qed.

Lemma Evaluate_selects_best_witness :
  ∃ v, Selected (fst (Evaluate user_policy "USER" [uhd; fhd])) = Some v ∧ v ∈ [uhd; fhd] ∧
    permitted user_policy v.
Proof.
  destruct (Evaluate_selects_best user_policy "USER" [uhd; fhd]
    (fst (Evaluate user_policy "USER" [uhd; fhd]))) as (v & H1 & _ & H2 & H3 & _).
  - vm_compute. reflexivity.
  - exists v. exact (conj H1 (conj H2 H3)).
Defined.

Lemma Evaluate_order_independent_witness :
  Selected (fst (Evaluate user_policy "USER" [uhd; fhd])) =
  Selected (fst (Evaluate user_policy "USER" [fhd; uhd])).
Proof.
  pose proof (Evaluate_order_independent user_policy "USER" [uhd; fhd] [fhd; uhd]) as H.
  destruct (Evaluate user_policy "USER" [uhd; fhd]) as [d e].
  destruct (Evaluate user_policy "USER" [fhd; uhd]) as [d' e'].
  apply H.
  - apply (bool_decide_unpack _). vm_compute. exact I.
  - apply perm_swap.
Defined.

Lemma Evaluate_tighter_witness :
  Selected (fst (Evaluate user_policy "USER" [uhd; fhd])) = Some fhd ∧ permitted Defaults fhd.
Proof.
  split; [vm_compute; reflexivity|].
  refine (proj1 (Evaluate_tighter Defaults user_policy "USER" [uhd; fhd] _) fhd _); [|vm_compute; reflexivity].
  split; first [intros m [=]|vm_compute; done].
Defined.

End PolicyWitness.
