(* ===== verification/Gateway.v ===== *)
(** * Route classification (internal/gateway/media_classify.go)

    The routing decision for a request path: control traffic, bulk media,
    or a refusal. *)

From S2P Require Import Prelude GoStrings.

Module Gateway.

Inductive MediaRouteAction :=
  | ActionControl
  | ActionMediaRedirect
  | ActionDenyUnknownMedia
  | ActionDenySessions
  | ActionPlayQueueObserve.

#[global] Instance MediaRouteAction_eq_dec : EqDecision MediaRouteAction.
Proof. solve_decision. Defined.

Definition inTranscodeNamespace (p : string) : bool :=
  HasPrefix p "/video/:/transcode/" || HasPrefix p "/music/:/transcode/" ||
  Contains p "/transcode/".

Definition isDecisionOrControl (p : string) : bool :=
  Contains p "/transcode/universal/decision" ||
  Contains p "/transcode/universal/fallback" ||
  Contains p "/transcode/session/decision".

Definition isManifest (p : string) : bool :=
  Contains p "/transcode/universal/start" ||
  Contains p "/transcode/universal/direct" ||
  Contains p "/transcode/universal/subtitles" ||
  Contains p "master.m3u8" ||
  Contains p "manifest.mpd" ||
  HasSuffix p ".m3u8" ||
  HasSuffix p ".mpd".

Definition isSegment (p : string) : bool :=
  Contains p "/transcode/segments" ||
  (Contains p "/transcode/sessions/" && Contains p "/segments") ||
  Contains p "/media/segments" ||
  (HasSuffix p ".ts" && Contains p "transcode") ||
  HasSuffix p ".m4s".

Definition isSessionControl (p : string) : bool :=
  Contains p "/transcode/stop" ||
  Contains p "/transcode/universal/stop" ||
  Contains p "/transcode/statistics".

Definition IsSessionsDeny (path : string) : bool :=
  HasPrefix (ToLower path) "/status/sessions".

Definition IsPlayQueue (path : string) : bool :=
  let p := ToLower path in Contains p "/playqueues" || Contains p "/playqueue".

Definition mediaExtensions : list string :=
  [".mkv"; ".mp4"; ".m4v"; ".avi"; ".mov"; ".wmv"; ".flv"; ".webm"; ".ts"; ".m4s"; ".mpd"; ".m3u8"].

Definition isMediaExtension (p : string) : bool :=
  existsb (λ ext, Contains p ext) mediaExtensions.

Definition Classify (path : string) : MediaRouteAction :=
  let p := ToLower path in
  if IsSessionsDeny p then ActionDenySessions
  else if IsPlayQueue p then ActionPlayQueueObserve
  else if HasPrefix p "/library/parts/" then ActionMediaRedirect
  else if isDecisionOrControl p then ActionControl
  else if isManifest p then ActionMediaRedirect
  else if isSegment p then ActionMediaRedirect
  else if isSessionControl p then ActionControl
  else if inTranscodeNamespace p then ActionDenyUnknownMedia
  else if isMediaExtension p then ActionMediaRedirect
  else ActionControl.

Definition IsManifest (path : string) : bool := isManifest (ToLower path).
Definition IsSegment (path : string) : bool := isSegment (ToLower path).
Definition IsBulkMediaRoute (path : string) : bool :=
  bool_decide (Classify path = ActionMediaRedirect).
Definition IsDecision (path : string) : bool := isDecisionOrControl (ToLower path).
Definition IsSessionStop (path : string) : bool :=
  let p := ToLower path in
  Contains p "/transcode/stop" || Contains p "/transcode/universal/stop".
Definition IsDeniedUnknownMedia (path : string) : bool :=
  bool_decide (Classify path = ActionDenyUnknownMedia).

Example classify_ex :
  Classify <$> ["/library/parts/12/file.mkv"; "/video/:/transcode/universal/decision";
    "/video/:/transcode/universal/session/x/base/0.ts"; "/video/:/transcode/novel";
    "/Status/Sessions"; "/playQueues"; "/library/sections/1/all"; "/video/:/transcode/universal/stop"] =
  [ActionMediaRedirect; ActionControl; ActionMediaRedirect; ActionDenyUnknownMedia;
   ActionDenySessions; ActionPlayQueueObserve; ActionControl; ActionControl].
Proof. vm_compute. reflexivity. Qed.

(** ** Properties *)

(** The negotiation and session verbs that may travel as control traffic
    although they lie under a media namespace. *)
Definition controlVerbs : list string :=
  ["/transcode/universal/decision"; "/transcode/universal/fallback";
   "/transcode/session/decision"; "/transcode/stop"; "/transcode/universal/stop";
   "/transcode/statistics"].

(** A path that looks like media: raw parts, the transcode namespace, or a
    media file extension anywhere in it. *)
Definition looksLikeMedia (p : string) : Prop :=
  HasPrefix p "/library/parts/" = true ∨ Contains p "/transcode/" = true ∨
  ∃ ext, ext ∈ mediaExtensions ∧ Contains p ext = true.

Lemma isMediaExtension_spec p :
  isMediaExtension p = true ↔ ∃ ext, ext ∈ mediaExtensions ∧ Contains p ext = true.
Proof.
  unfold isMediaExtension. rewrite existsb_exists. by setoid_rewrite list_elem_of_In.
Qed.

Lemma isDecisionOrControl_verb p :
  isDecisionOrControl p = true → ∃ v, v ∈ controlVerbs ∧ Contains p v = true.
Proof.
  unfold isDecisionOrControl. rewrite !orb_true_iff. intros [[H|H]|H]; eexists; (split; [|exact H]);
    set_solver.
Qed.

Lemma isSessionControl_verb p :
  isSessionControl p = true → ∃ v, v ∈ controlVerbs ∧ Contains p v = true.
Proof.
  unfold isSessionControl. rewrite !orb_true_iff. intros [[H|H]|H]; eexists; (split; [|exact H]);
    set_solver.
Qed.

(** Classification fails closed: a path that looks like media is never
    control traffic unless it names one of the negotiation or session verbs;
    a path in the transcode namespace that nothing recognises is denied. *)
Theorem Classify_fail_closed path :
  looksLikeMedia (ToLower path) →
  Classify path ≠ ActionControl ∨
  ∃ v, v ∈ controlVerbs ∧ Contains (ToLower path) v = true.
Proof.
  intros Hm. unfold Classify. set (p := ToLower path) in *.
  repeat case_match; try (by left); auto using isDecisionOrControl_verb, isSessionControl_verb.
  exfalso. destruct Hm as [Hm|[Hm|Hm]].
  - congruence.
  - unfold inTranscodeNamespace in *. rewrite Hm, orb_true_r in *. done.
  - apply isMediaExtension_spec in Hm. congruence.
Qed.

(** The tests below [Classify] lower-case the path again and see the same
    string. *)
Lemma IsSessionsDeny_lower path : IsSessionsDeny (ToLower path) = IsSessionsDeny path.
Proof. unfold IsSessionsDeny. by rewrite ToLower_idemp. Qed.

Lemma IsPlayQueue_lower path : IsPlayQueue (ToLower path) = IsPlayQueue path.
Proof. unfold IsPlayQueue. by rewrite ToLower_idemp. Qed.

(** The predicates the proxy tests separately agree with the
    classification: sessions and play queues are recognised exactly, every
    other raw part, manifest or segment request that is not a negotiation is
    bulk media, and a negotiation that is not a raw part stays control. *)
Theorem Classify_agrees path :
  (Classify path = ActionDenySessions ↔ IsSessionsDeny path = true) ∧
  (Classify path = ActionPlayQueueObserve ↔ IsSessionsDeny path = false ∧ IsPlayQueue path = true) ∧
  (IsSessionsDeny path = false → IsPlayQueue path = false →
     (HasPrefix (ToLower path) "/library/parts/" = true → Classify path = ActionMediaRedirect) ∧
     (IsDecision path = false → IsManifest path = true ∨ IsSegment path = true →
        Classify path = ActionMediaRedirect) ∧
     (HasPrefix (ToLower path) "/library/parts/" = false → IsDecision path = true →
        Classify path = ActionControl)).
Proof.
  unfold Classify, IsDecision, IsManifest, IsSegment.
  rewrite IsSessionsDeny_lower, IsPlayQueue_lower.
  destruct (IsSessionsDeny path); [naive_solver|].
  destruct (IsPlayQueue path); [naive_solver|].
  destruct (HasPrefix (ToLower path) "/library/parts/"); [naive_solver|].
  destruct (isDecisionOrControl (ToLower path)); [naive_solver|].
  destruct (isManifest (ToLower path)); [naive_solver|].
  destruct (isSegment (ToLower path)); [naive_solver|].
  repeat case_match; naive_solver.
Qed.

(** ** Witnesses *)

Lemma Classify_fail_closed_witness :
  Classify "/Video/:/Transcode/new" ≠ ActionControl ∨
  ∃ v, v ∈ controlVerbs ∧ Contains (ToLower "/Video/:/Transcode/new") v = true.
Proof. apply Classify_fail_closed. right. left. vm_compute. reflexivity. Defined.

End Gateway.
