(* ===== verification/CacheEntry.v ===== *)
(** * Cached responses and their codec (internal/cache/cache.go)

    [Entry], the header allowlist, [SafeHeaders], [Marshal] and [Unmarshal].
    Byte slices are byte strings; a slice expression outside its bounds is a
    run-time panic, which the decoder's result type makes visible. *)

From S2P Require Import Prelude GoStrings.

Module CacheEntry.

(** Go slices of byte strings: [b[:j]], [b[i:]] and [b[i:j]]. *)
Definition slice_to (s : string) (j : Z) : outcome string :=
  if (0 <=? j) && (j <=? Z.of_nat (String.length s)) then Ok (stake (Z.to_nat j) s) else Panic.
Definition slice_from (s : string) (i : Z) : outcome string :=
  if (0 <=? i) && (i <=? Z.of_nat (String.length s)) then Ok (sdrop (Z.to_nat i) s) else Panic.
Definition slice (s : string) (i j : Z) : outcome string :=
  if (0 <=? i) && (i <=? j) && (j <=? Z.of_nat (String.length s))
  then Ok (stake (Z.to_nat (j - i)) (sdrop (Z.to_nat i) s)) else Panic.

Definition MaxEntryBytes : Z := Z.shiftl 2 20.

(** ** binary.BigEndian *)

Definition byte_of (z : Z) : ascii := ascii_of_N (Z.to_N (z mod 256)).
Definition byte_val (c : ascii) : Z := Z.of_N (code c).

Definition PutUint32 (n : Z) : string :=
  let v := n mod 2 ^ 32 in
  String (byte_of (Z.shiftr v 24)) (String (byte_of (Z.shiftr v 16))
    (String (byte_of (Z.shiftr v 8)) (String (byte_of v) EmptyString))).

Definition Uint32 (b : string) : outcome Z :=
  match b with
  | String a (String b (String c (String d _))) =>
      Ok (Z.lor (Z.lor (Z.lor (byte_val d) (Z.shiftl (byte_val c) 8))
                       (Z.shiftl (byte_val b) 16)) (Z.shiftl (byte_val a) 24))
  | _ => Panic
  end.

(** ** Headers *)

Definition safeHeaders : list string :=
  ["Etag"; "Last-Modified"; "Content-Language"; "Vary"; "X-Plex-Container-Start";
   "X-Plex-Container-Size"; "X-Plex-Container-Total-Size"].
Definition isSafeHeader (k : string) : bool := existsb (String.eqb k) safeHeaders.

(** One turn of the loop of [SafeHeaders]. *)
Definition SafeHeaders_step (out : gmap string string) (kv : string * list string) : gmap string string :=
  let canonical := CanonicalHeaderKey kv.1 in
  match kv.2 with
  | [] => out
  | v :: _ =>
      if isSafeHeader canonical
      then <[canonical := if canonical =s "Vary" then Join kv.2 ", " else v]> out
      else out
  end.

(** The header map in the order [it] of the iteration. *)
Definition SafeHeaders (it : list (string * list string)) : gmap string string :=
  foldl SafeHeaders_step ∅ it.

(** ** Entries *)

Record Entry := mkEntry {
  Status : Z;
  ContentType : string;
  Headers : gmap string string;
  Body : string;
}.

#[global] Instance Entry_eq_dec : EqDecision Entry.
Proof. solve_decision. Defined.

Definition zeroEntry : Entry := mkEntry 0 "" ∅ "".

Definition NUL : ascii := ascii_of_N 0.
Definition nul : string := String NUL EmptyString.

(** The keys in the order of [sort.Strings]. *)
Definition sorted_headers (h : gmap string string) : list (string * string) :=
  merge_sort (λ x y, String.le x.1 y.1) (map_to_list h).

Fixpoint encode_pairs (l : list (string * string)) : string :=
  match l with
  | [] => EmptyString
  | (k, v) :: r => k +:+ nul +:+ v +:+ nul +:+ encode_pairs r
  end.

Definition hraw (h : gmap string string) : string := encode_pairs (sorted_headers h).

Definition Marshal (e : Entry) : outcome string :=
  if MaxEntryBytes <? slen (Body e) then Err "cache: body exceeds cap"
  else
    let hr := hraw (Headers e) in
    Ok (String (ascii_of_N 2) EmptyString +:+ PutUint32 (Status e) +:+
        PutUint32 (slen (ContentType e)) +:+ ContentType e +:+
        PutUint32 (slen hr) +:+ hr +:+ Body e).

(** The pair loop [for i := 0; i+1 < len(parts); i += 2]. *)
Fixpoint decode_pairs (parts : list string) (h : gmap string string) : gmap string string :=
  match parts with
  | k :: v :: r => decode_pairs r (if isSafeHeader k then <[k := v]> h else h)
  | _ => h
  end.

Definition unmarshalV1 (b : string) : outcome Entry :=
  if slen b <? 9 then Err "cache: truncated v1 entry"
  else
    status <- (x <- slice b 1 5;; Uint32 x);;
    clen <- (x <- slice b 5 9;; Uint32 x);;
    if slen b <? 9 + clen then Err "cache: truncated v1 content type"
    else
      ct <- slice b 9 (9 + clen);;
      body <- slice_from b (9 + clen);;
      Ok (mkEntry status ct ∅ body).

Definition unmarshalV2 (b : string) : outcome Entry :=
  if slen b <? 13 then Err "cache: truncated v2 entry"
  else
    status <- (x <- slice b 1 5;; Uint32 x);;
    clen <- (x <- slice b 5 9;; Uint32 x);;
    if slen b <? 13 + clen then Err "cache: truncated v2 content type"
    else
      ct <- slice b 9 (9 + clen);;
      rest <- slice_from b (9 + clen);;
      hlen <- (x <- slice_to rest 4;; Uint32 x);;
      if slen rest <? 4 + hlen then Err "cache: truncated v2 headers"
      else
        raw <- slice rest 4 (4 + hlen);;
        body <- slice_from rest (4 + hlen);;
        Ok (mkEntry status ct (decode_pairs (Split raw NUL) ∅) body).

Definition Unmarshal (b : string) : outcome Entry :=
  match b with
  | EmptyString => Err "cache: empty entry"
  | String v _ =>
      if byte_is v 1 then unmarshalV1 b
      else if byte_is v 2 then unmarshalV2 b
      else Err "cache: bad version"
  end.

Definition entry_ex : Entry :=
  mkEntry 200 "application/json" {[ "Etag" := "abc"; "Vary" := "Accept" ]} "{}".


Example roundtrip_ex : bind (Marshal entry_ex) Unmarshal = Ok entry_ex.
Proof. vm_compute. reflexivity. Qed.

(** ** The integer codec *)

Lemma byte_val_of z : byte_val (byte_of z) = z mod 256.
Proof.
  unfold byte_val, byte_of, code. pose proof (Z.mod_pos_bound z 256 ltac:(lia)).
  rewrite N_ascii_embedding; [rewrite Z2N.id; lia|lia].
Qed.

Lemma byte_val_range c : 0 <= byte_val c < 256.
Proof. unfold byte_val, code. pose proof (N_ascii_bounded c). lia. Qed.

Lemma lor_bytes a b c d :
  0 <= a < 256 → 0 <= b < 256 → 0 <= c < 256 → 0 <= d < 256 →
  Z.lor (Z.lor (Z.lor d (Z.shiftl c 8)) (Z.shiftl b 16)) (Z.shiftl a 24) =
  d + 2 ^ 8 * c + 2 ^ 16 * b + 2 ^ 24 * a.
Proof.
  intros.
  assert (Hor : ∀ x y n, 0 <= n → 0 <= x < 2 ^ n → Z.lor x (Z.shiftl y n) = x + 2 ^ n * y).
  { intros x y n Hn Hx. rewrite Z.shiftl_mul_pow2, (Z.mul_comm y) by lia.
    symmetry. rewrite <- Z.lxor_lor, Z.add_nocarry_lxor; try done.
    all: apply Z.bits_inj'; intros k Hk; rewrite Z.land_spec, Z.bits_0, Z.mul_comm.
    all: destruct (Z.lt_ge_cases k n); [rewrite Z.mul_pow2_bits_low by lia; apply andb_false_r|].
    all: destruct (Z.eq_dec x 0) as [->|]; [by rewrite Z.bits_0|].
    all: rewrite (Z.bits_above_log2 x k); [done|lia|].
    all: apply Z.log2_lt_pow2; [lia|]; apply Z.lt_le_trans with (2 ^ n); [lia|].
    all: apply Z.pow_le_mono_r; lia. }
  rewrite (Hor d c 8), (Hor _ b 16), (Hor _ a 24); lia.
Qed.

Lemma length_PutUint32 n : String.length (PutUint32 n) = 4%nat.
Proof. done. Qed.

Lemma Uint32_PutUint32 n : 0 <= n < 2 ^ 32 → Uint32 (PutUint32 n) = Ok n.
Proof.
  intros Hn. unfold PutUint32, Uint32. cbv zeta. f_equal.
  rewrite !byte_val_of, (Z.mod_small n) by lia.
  rewrite lor_bytes by (apply Z.mod_pos_bound; lia).
  rewrite !Z.shiftr_div_pow2 by lia.
  Z.to_euclidean_division_equations. lia.
Qed.

Lemma Uint32_ok s : String.length s = 4%nat → ∃ n, Uint32 s = Ok n ∧ 0 <= n < 2 ^ 32.
Proof.
  destruct s as [|a [|b [|c [|d [|]]]]]; try discriminate. intros _.
  eexists. split; [reflexivity|].
  pose proof (byte_val_range a). pose proof (byte_val_range b).
  pose proof (byte_val_range c). pose proof (byte_val_range d).
  rewrite lor_bytes; lia.
Qed.

(** ** Slices *)

Lemma slice_mid a b c i j :
  i = slen a → j = i + slen b → slice (a +:+ b +:+ c) i j = Ok b.
Proof.
  intros -> ->. unfold slice, slen. rewrite !length_sapp.
  destruct (_ && _) eqn:E.
  - rewrite Nat2Z.id, sdrop_app.
    replace (Z.to_nat _) with (String.length b) by lia. by rewrite stake_app.
  - exfalso. apply not_true_iff_false in E. apply E. rewrite !andb_true_iff, !Z.leb_le. lia.
Qed.

Lemma slice_from_app a b i : i = slen a → slice_from (a +:+ b) i = Ok b.
Proof.
  intros ->. unfold slice_from, slen. rewrite length_sapp.
  destruct (_ && _) eqn:E; [by rewrite Nat2Z.id, sdrop_app|].
  exfalso. apply not_true_iff_false in E. apply E. rewrite !andb_true_iff, !Z.leb_le. lia.
Qed.

Lemma slice_to_app a b i : i = slen a → slice_to (a +:+ b) i = Ok a.
Proof.
  intros ->. unfold slice_to, slen. rewrite length_sapp.
  destruct (_ && _) eqn:E; [by rewrite Nat2Z.id, stake_app|].
  exfalso. apply not_true_iff_false in E. apply E. rewrite !andb_true_iff, !Z.leb_le. lia.
Qed.

Lemma slice_ok s i j :
  0 <= i <= j → j <= slen s → ∃ t, slice s i j = Ok t ∧ slen t = j - i.
Proof.
  intros Hi Hj. unfold slice, slen in *.
  destruct (_ && _) eqn:E.
  - eexists. split; [done|]. rewrite length_stake; [lia|]. rewrite length_sdrop. lia.
  - exfalso. apply not_true_iff_false in E. apply E. rewrite !andb_true_iff, !Z.leb_le. lia.
Qed.

Lemma slice_from_ok s i :
  0 <= i <= slen s → ∃ t, slice_from s i = Ok t ∧ slen t = slen s - i.
Proof.
  intros Hi. unfold slice_from, slen in *.
  destruct (_ && _) eqn:E.
  - eexists. split; [done|]. rewrite length_sdrop. lia.
  - exfalso. apply not_true_iff_false in E. apply E. rewrite !andb_true_iff, !Z.leb_le. lia.
Qed.

Lemma slice_to_ok s j :
  0 <= j <= slen s → ∃ t, slice_to s j = Ok t ∧ slen t = j.
Proof.
  intros Hi. unfold slice_to, slen in *.
  destruct (_ && _) eqn:E.
  - eexists. split; [done|]. rewrite length_stake; lia.
  - exfalso. apply not_true_iff_false in E. apply E. rewrite !andb_true_iff, !Z.leb_le. lia.
Qed.

Lemma word_ok s i j :
  0 <= i → j = i + 4 → j <= slen s →
  ∃ n, bind (slice s i j) (λ x, Uint32 x) = Ok n ∧ 0 <= n < 2 ^ 32.
Proof.
  intros Hi -> Hj. destruct (slice_ok s i (i + 4)) as (t & -> & Ht); [lia..|].
  cbn [bind]. apply Uint32_ok. unfold slen in Ht. lia.
Qed.

(** ** The header block *)

Definition nul_free (s : string) : Prop := all_chars (λ c, negb (Ascii.eqb c NUL)) s = true.

Lemma Split_nul_free s r :
  nul_free s → Split (s +:+ nul +:+ r) NUL = s :: Split r NUL.
Proof.
  unfold nul_free. induction s as [|c s IH]; intros Hs; [done|].
  simpl in Hs. apply andb_prop in Hs as [Hc Hs].
  apply negb_true_iff in Hc. simpl. rewrite Hc.
  specialize (IH Hs). simpl in IH. by rewrite IH.
Qed.

(** Every allowlisted name is free of the separator. *)
Lemma safe_nul_free k : isSafeHeader k = true → nul_free k.
Proof.
  unfold isSafeHeader. rewrite existsb_exists. intros (x & Hx & E).
  apply String.eqb_eq in E as ->.
  repeat destruct Hx as [<-|Hx]; vm_compute; done.
Qed.

Lemma decode_encode_pairs l h :
  (∀ k v, (k, v) ∈ l → isSafeHeader k = true ∧ nul_free v) →
  decode_pairs (Split (encode_pairs l) NUL) h = foldl (λ h '(k, v), <[k := v]> h) h l.
Proof.
  revert h. induction l as [|[k v] l IH]; intros h Hl; [done|].
  destruct (Hl k v) as [Hk Hv]; [set_solver|]. cbn [encode_pairs].
  rewrite Split_nul_free, Split_nul_free by auto using safe_nul_free.
  cbn [decode_pairs foldl]. rewrite Hk. apply IH. set_solver.
Qed.

Lemma foldl_insert_list_to_map (l : list (string * string)) (h : gmap string string) :
  NoDup l.*1 → foldl (λ h '(k, v), <[k := v]> h) h l = list_to_map l ∪ h.
Proof.
  revert h. induction l as [|[k v] l IH]; intros h Hd; csimpl.
  - by rewrite map_empty_union.
  - apply NoDup_cons in Hd as [Hk Hd]. rewrite IH by done.
    rewrite <- insert_union_l, insert_union_r; [done|].
    by apply not_elem_of_list_to_map_1.
Qed.

Lemma sorted_headers_perm h : sorted_headers h ≡ₚ map_to_list h.
Proof. apply merge_sort_Permutation. Qed.

(** The header part of a well-formed entry survives the codec. *)
Lemma decode_hraw h :
  map_Forall (λ k v, isSafeHeader k = true ∧ nul_free v) h →
  decode_pairs (Split (hraw h) NUL) ∅ = h.
Proof.
  intros Hh. unfold hraw. rewrite decode_encode_pairs.
  - rewrite foldl_insert_list_to_map, map_union_empty.
    + rewrite (list_to_map_proper (sorted_headers h) (map_to_list h)).
      * apply list_to_map_to_list.
      * rewrite sorted_headers_perm. apply NoDup_fst_map_to_list.
      * apply sorted_headers_perm.
    + rewrite sorted_headers_perm. apply NoDup_fst_map_to_list.
  - intros k v. rewrite sorted_headers_perm, elem_of_map_to_list. apply Hh.
Qed.

(** ** Theorems *)

(** An entry as the response path builds it: a wire-size status and
    lengths, allowlisted header names and values without the separator. *)
Definition wf_entry (e : Entry) : Prop :=
  0 <= Status e < 2 ^ 32 ∧ slen (ContentType e) < 2 ^ 32 ∧
  slen (hraw (Headers e)) < 2 ^ 32 ∧ slen (Body e) <= MaxEntryBytes ∧
  map_Forall (λ k v, isSafeHeader k = true ∧ nul_free v) (Headers e).

(** The codec on a well-formed entry. *)
Lemma Unmarshal_Marshal_lemma e :
  wf_entry e → ∃ b, Marshal e = Ok b ∧ Unmarshal b = Ok e.
Proof.
  intros (Hs & Hc & Hh & Hb & Hm). unfold Marshal.
  replace (MaxEntryBytes <? slen (Body e)) with false by (symmetry; apply Z.ltb_ge; lia).
  eexists; split; [reflexivity|].
  set (hr := hraw (Headers e)) in *.
  set (b := _ +:+ _). change (Unmarshal b) with (unmarshalV2 b).
  assert (Hlen : slen b = 13 + slen (ContentType e) + slen hr + slen (Body e)).
  { unfold b, slen. rewrite !length_sapp. simpl. lia. }
  assert (0 <= slen (ContentType e) ∧ 0 <= slen hr ∧ 0 <= slen (Body e)) as (?&?&?)
    by (unfold slen; lia).
  unfold unmarshalV2.
  replace (slen b <? 13) with false by (symmetry; apply Z.ltb_ge; lia).
  assert (E1 : slice b 1 5 = Ok (PutUint32 (Status e))) by by apply slice_mid.
  assert (E2 : slice b 5 9 = Ok (PutUint32 (slen (ContentType e)))).
  { unfold b. rewrite <- sapp_assoc. apply slice_mid; reflexivity. }
  rewrite E1, E2. cbn [bind]. rewrite !Uint32_PutUint32 by lia. cbn [bind].
  replace (slen b <? 13 + slen (ContentType e)) with false by (symmetry; apply Z.ltb_ge; lia).
  set (pre := String (ascii_of_N 2) EmptyString +:+ PutUint32 (Status e) +:+
              PutUint32 (slen (ContentType e))).
  assert (Hb' : b = pre +:+ ContentType e +:+ (PutUint32 (slen hr) +:+ hr +:+ Body e)).
  { unfold b, pre. by rewrite !sapp_assoc. }
  rewrite Hb'. rewrite slice_mid by reflexivity. cbn [bind].
  rewrite <- sapp_assoc, slice_from_app by (unfold slen; rewrite length_sapp; simpl; lia).
  cbn [bind]. rewrite slice_to_app by reflexivity. cbn [bind].
  rewrite Uint32_PutUint32 by lia. cbn [bind].
  replace (_ <? 4 + slen hr) with false.
  2: { symmetry. apply Z.ltb_ge. unfold slen. rewrite !length_sapp. simpl. lia. }
  rewrite slice_mid by reflexivity. cbn [bind].
  rewrite <- sapp_assoc, slice_from_app by (unfold slen; rewrite length_sapp; simpl; lia).
  cbn [bind]. unfold hr. rewrite decode_hraw by done. by destruct e.
Qed.

(** Decoding what [Marshal] wrote gives back exactly the entry that was
    stored, for every entry with an allowlisted header set. *)
Theorem Unmarshal_Marshal e :
  wf_entry e → ∃ b, Marshal e = Ok b ∧ Unmarshal b = Ok e.
Proof. apply Unmarshal_Marshal_lemma. Qed.

(** A store of a header block is possible only for safe names. *)
Lemma decode_pairs_safe parts h :
  (∀ k v, h !! k = Some v → isSafeHeader k = true) →
  ∀ k v, decode_pairs parts h !! k = Some v → isSafeHeader k = true.
Proof.
  remember (length parts) as n eqn:Hn. revert parts h Hn.
  induction (lt_wf n) as [n _ IH]; intros [|k [|v r]] h -> Hh; simpl; try done.
  eapply (IH (length r)); [simpl; lia|done|].
  intros k' v'. destruct (isSafeHeader k) eqn:E; [|apply Hh].
  rewrite lookup_insert_Some. intros [[<- _]|[_ ?]]; [done|by eapply Hh].
Qed.

(** The decoder on arbitrary bytes. *)
Lemma Unmarshal_safe_lemma b :
  match Unmarshal b with
  | Panic => False
  | Err _ => True
  | Ok e => (∀ k v, Headers e !! k = Some v → isSafeHeader k = true) ∧
            0 <= Status e < 2 ^ 32 ∧ slen (ContentType e) + slen (Body e) < slen b
  end.
Proof.
  destruct b as [|c0 r0]; [done|]. set (b := String c0 r0).
  assert (Unmarshal b = if byte_is c0 1 then unmarshalV1 b
    else if byte_is c0 2 then unmarshalV2 b else Err "cache: bad version") as -> by done.
  clearbody b. destruct (byte_is c0 1).
  { unfold unmarshalV1. destruct (Z.ltb_spec (slen b) 9); [exact I|].
    destruct (word_ok b 1 5) as (st & -> & Hst); [lia..|].
    destruct (word_ok b 5 9) as (cl & -> & Hcl); [lia..|]. cbn [bind].
    destruct (Z.ltb_spec (slen b) (9 + cl)); [exact I|].
    destruct (slice_ok b 9 (9 + cl)) as (ct & -> & Hct); [lia..|]. cbn [bind].
    destruct (slice_from_ok b (9 + cl)) as (bd & -> & Hbd); [lia|]. cbn.
    repeat split; [done|lia..]. }
  destruct (byte_is c0 2); [|exact I].
  unfold unmarshalV2. destruct (Z.ltb_spec (slen b) 13); [exact I|].
  destruct (word_ok b 1 5) as (st & -> & Hst); [lia..|].
  destruct (word_ok b 5 9) as (cl & -> & Hcl); [lia..|]. cbn [bind].
  destruct (Z.ltb_spec (slen b) (13 + cl)); [exact I|].
  destruct (slice_ok b 9 (9 + cl)) as (ct & -> & Hct); [lia..|]. cbn [bind].
  destruct (slice_from_ok b (9 + cl)) as (rest & -> & Hrest); [lia|]. cbn [bind].
  destruct (slice_to_ok rest 4) as (hw & -> & Hhw); [lia|]. cbn [bind].
  destruct (Uint32_ok hw) as (hl & -> & Hhl); [unfold slen in *; lia|]. cbn [bind].
  destruct (Z.ltb_spec (slen rest) (4 + hl)); [exact I|].
  destruct (slice_ok rest 4 (4 + hl)) as (raw & -> & Hraw); [lia..|]. cbn [bind].
  destruct (slice_from_ok rest (4 + hl)) as (bd & -> & Hbd); [lia|]. cbn [bind Headers Status ContentType Body].
  split; [|lia]. by apply decode_pairs_safe.
Qed.

(** The decoder is total on arbitrary bytes: whatever the shared store
    returns, it yields an entry or an error and never indexes out of range,
    and an entry it yields carries only allowlisted headers and never more
    body than was stored. *)
Theorem Unmarshal_safe b :
  match Unmarshal b with
  | Panic => False
  | Err _ => True
  | Ok e => (∀ k v, Headers e !! k = Some v → isSafeHeader k = true) ∧
            0 <= Status e < 2 ^ 32 ∧ slen (ContentType e) + slen (Body e) < slen b
  end.
Proof. apply Unmarshal_safe_lemma. Qed.

(** The result of [SafeHeaders] is a well-formed header map. *)
Lemma SafeHeaders_safe it k v :
  SafeHeaders it !! k = Some v → isSafeHeader k = true.
Proof.
  unfold SafeHeaders.
  assert (G : ∀ l (out : gmap string string),
    (∀ k v, out !! k = Some v → isSafeHeader k = true) →
    ∀ k v, foldl SafeHeaders_step out l !! k = Some v → isSafeHeader k = true).
  { induction l as [|[k' vv] l IH]; intros out Ho; [exact Ho|]. cbn [foldl].
    apply IH. intros k2 v2. unfold SafeHeaders_step. cbn [fst snd].
    destruct vv as [|v0 vv]; [apply Ho|].
    destruct (isSafeHeader (CanonicalHeaderKey k')) eqn:E; [|apply Ho].
    rewrite lookup_insert_Some. intros [[<- _]|[_ ?]]; [done|by eapply Ho]. }
  apply G. intros ??. by rewrite lookup_empty.
Qed.

Lemma entry_ex_wf : wf_entry entry_ex.
Proof.
  unfold wf_entry. repeat split; try (vm_compute; congruence).
  all: revert i x H; apply map_Forall_lookup_2; intros i x H.
  all: unfold entry_ex in H; simpl in H; apply lookup_insert_Some in H as [[<- <-]|[_ H]]; [done|].
  all: apply lookup_singleton_Some in H as [<- <-]; done.
Qed.

Lemma Unmarshal_Marshal_witness :
  ∃ b, Marshal entry_ex = Ok b ∧ Unmarshal b = Ok entry_ex.
Proof. apply (Unmarshal_Marshal entry_ex). apply entry_ex_wf. Defined.

End CacheEntry.
