(* ===== verification/CacheKeys.v ===== *)
(** * Cache admission and cache keys
    (internal/cache/cache.go, keys.go and response_policy.go)

    Which requests may be served from the cache and for how long, which
    origin responses may be stored, and the key under which a response of one
    user is stored. *)

From S2P Require Import Prelude GoStrings GoHttp GoCrypto.

Module CacheKeys.

(** ** Admission by method and path *)

Definition SchemaVersion : string := "v4".

Definition secretParams : list string := ["x-plex-token"; "token"; "authtoken"].
Definition isSecretParam (k : string) : bool := existsb (String.eqb (ToLower k)) secretParams.

Definition ttlByPrefix : list (string * Z) :=
  [("/library/sections/", 60 * Second); ("/library/collections/", 2 * Minute);
   ("/library/metadata/", 5 * Minute); ("/library/sections", 5 * Minute);
   ("/identity", 5 * Minute)].

Definition live_segment (part : string) : bool :=
  (part =s "hubs") || (part =s "home") || (part =s "ondeck") ||
  (part =s "continuewatching") || (part =s "resume") || (part =s ":").

(** One turn of the prefix loop; [best] is the entry chosen so far. *)
Definition prefix_step (p : string) (best : option (string * Z)) (e : string * Z) : option (string * Z) :=
  if negb (HasSuffix e.1 "/") && negb (p =s e.1) then best
  else if HasPrefix p e.1 &&
          match best with
          | None => true
          | Some b => (String.length b.1 <? String.length e.1)%nat
          end
       then Some e else best.

Definition Cacheable (method path : string) : option Z :=
  if negb (method =s "GET") then None
  else
    let p := ToLower path in
    if existsb live_segment (Split p "/") then None
    else snd <$> foldl (prefix_step p) None ttlByPrefix.

(** ** Keys *)

Definition ClassOf (path : string) : string :=
  let p := ToLower path in
  if HasPrefix p "/hubs/" && Contains p "continuewatching" then "cw"
  else if HasPrefix p "/hubs/search" || Contains p "/hubs/search" then "search"
  else if HasPrefix p "/hubs/" then "hubs"
  else if HasPrefix p "/library/sections" && Contains p "/collections" then "collections"
  else if HasPrefix p "/library/sections" then "sections"
  else if HasPrefix p "/library/metadata" then "metadata"
  else if HasPrefix p "/library/collections" then "collections"
  else if HasPrefix p "/identity" then "identity"
  else "browse".

Definition normalizeRepresentation (accept : string) : string :=
  let a := ToLower accept in
  if Contains a "json" then "json"
  else if Contains a "xml" then "xml"
  else "default".

Definition NUL : ascii := ascii_of_N 0.

(** The query without its secret parameters. *)
Definition canonicalQuery (query : Values) : Values :=
  filter (λ kv, isSecretParam kv.1 = false) query.

(** The text that is hashed. *)
Definition key_text (method path accept : string) (query : Values) : string :=
  ToUpper method +:+ String NUL (path +:+ String NUL (accept +:+ String NUL
    (Encode (canonicalQuery query)))).

Definition default_class (class : string) : string := if class =s "" then "browse" else class.

Definition ResponseKeyGen (scope class method path : string) (query : Values) (accept : string)
    (scopeGen globalGen : Z) : string :=
  let sum := sha256hex (key_text method path accept query) in
  let rep := normalizeRepresentation accept in
  "replx_edge:" +:+ SchemaVersion +:+ ":" +:+ "default" +:+ ":" +:+ default_class class +:+ ":" +:+
  scope +:+ ":" +:+ rep +:+ ":" +:+ Itoa scopeGen +:+ ":" +:+ Itoa globalGen +:+ ":" +:+ stake 16 sum.

Definition ResponseKey (scope method path : string) (query : Values) (accept : string) : string :=
  ResponseKeyGen scope (ClassOf path) method path query accept 0 0.

(** keys.go: the key of a parameter set. *)
Fixpoint param_text (l : list (string * string)) : string :=
  match l with
  | [] => ""
  | (k, v) :: r => k +:+ "=" +:+ v +:+ "&" +:+ param_text r
  end.

Definition Key (schemaVersion serverID class scope representation : string)
    (params : gmap string string) : string :=
  let text := param_text (merge_sort (λ x y, String.le x.1 y.1) (map_to_list params)) in
  "replx_edge:" +:+ schemaVersion +:+ ":" +:+ serverID +:+ ":" +:+ class +:+ ":" +:+ scope +:+ ":" +:+
  representation +:+ ":" +:+ stake 16 (sha256hex text).

Definition UserScope (identityID : string) : string := "user:" +:+ identityID.

(** ** Admission of requests and responses *)

Definition directive_name (directive : string) : string :=
  TrimSpace (match Cut directive "=" with Some (a, _) => a | None => directive end).

Definition forbids_directive (directive : string) : bool :=
  EqualFold (directive_name directive) "no-store" || EqualFold (directive_name directive) "no-cache".

Definition forbidsStorage (lines : list string) : bool :=
  existsb (λ line, existsb forbids_directive (Split line ",")) lines.

Definition RequestCacheable (r : Request) : option Z :=
  match Cacheable (Method r) (Path r) with
  | None => None
  | Some ttl =>
      let h := ReqHeader r in
      if (0 <? ContentLength r) || negb (HGet h "Range" =s "") || negb (HGet h "Cookie" =s "") ||
         negb (HGet h "Authorization" =s "") then None
      else if existsb (λ e, HasPrefix (ToLower e.1) "if-") h then None
      else if forbidsStorage (HValues h "Cache-Control") ||
              Contains (ToLower (HGet h "Pragma")) "no-cache" then None
      else Some ttl
  end.

(** The [switch] of [HeaderVariation]: does the entry stay out? *)
Definition variation_skips (e : string * list string) : bool :=
  let name := ToLower e.1 in
  if name =s "accept" then (length e.2 =? 1)%nat
  else (name =s "accept-encoding") || (name =s "x-plex-token") ||
       (name =s "x-replx-edge-request-id").

Definition variation_step (values : Values) (e : string * list string) : Values :=
  if variation_skips e then values else <[ToLower e.1 := e.2]> values.

Definition variation_values (h : list (string * list string)) : Values :=
  foldl variation_step ∅ h.

Definition HeaderVariation (h : list (string * list string)) : string :=
  let values := variation_values h in
  if decide (values = ∅) then "" else sha256hex (Encode values).

Definition RequestKeyGen (scope class : string) (r : Request) (scopeGen globalGen : Z) : string :=
  let key := ResponseKeyGen scope class (Method r) (Path r) (URLQuery r)
               (HGet (ReqHeader r) "Accept") scopeGen globalGen in
  let variation := HeaderVariation (ReqHeader r) in
  if negb (variation =s "") then key +:+ ":" +:+ variation else key.

Definition vary_ok (name : string) : bool :=
  let n := ToLower (TrimSpace name) in
  (n =s "") || (n =s "accept") || (n =s "accept-encoding").

Definition StorableResponse (h : list (string * list string)) : bool :=
  let ce := TrimSpace (ToLower (HGet h "Content-Encoding")) in
  if negb (ce =s "") && negb (ce =s "identity") then false
  else if negb (length (HValues h "Set-Cookie") =? 0)%nat || forbidsStorage (HValues h "Cache-Control")
  then false
  else forallb (λ line, forallb vary_ok (Split line ",")) (HValues h "Vary").

Example cacheable_ex :
  (Cacheable "GET" "/library/sections", Cacheable "GET" "/library/sections/1/all",
   Cacheable "GET" "/library/sections/1/onDeck", Cacheable "HEAD" "/identity",
   Cacheable "GET" "/identityx") =
  (Some (5 * Minute), Some (60 * Second), None, None, None).
Proof. vm_compute. reflexivity. Qed.

Example storable_ex :
  (StorableResponse [("Vary", ["Accept"; "X-Unknown-Feature"])],
   StorableResponse [("Cache-Control", ["private"; "max-age=60, NO-STORE"])],
   StorableResponse [("Vary", ["Accept"; "Accept-Encoding"])]) = (false, false, true).
Proof. vm_compute. reflexivity. Qed.

(** ** Admission *)

(** The reference the prefix loop implements: each path has at most one
    matching entry, so no tie has to be broken by length. *)
Definition browse_ttl (p : string) : option Z :=
  if HasPrefix p "/library/sections/" then Some Minute
  else if HasPrefix p "/library/collections/" then Some (2 * Minute)
  else if HasPrefix p "/library/metadata/" then Some (5 * Minute)
  else if (p =s "/library/sections") || (p =s "/identity") then Some (5 * Minute)
  else None.

Lemma prefix_loop_spec p : snd <$> foldl (prefix_step p) None ttlByPrefix = browse_ttl p.
Proof.
  unfold browse_ttl, ttlByPrefix, prefix_step. cbn [foldl fst snd HasSuffix].
  destruct (HasPrefix p "/library/sections/") eqn:H1.
  { apply HasPrefix_spec in H1 as [r ->]. reflexivity. }
  destruct (HasPrefix p "/library/collections/") eqn:H2.
  { apply HasPrefix_spec in H2 as [r ->]. reflexivity. }
  destruct (HasPrefix p "/library/metadata/") eqn:H3.
  { apply HasPrefix_spec in H3 as [r ->]. reflexivity. }
  cbn. destruct (String.eqb_spec p "/library/sections") as [->|]; [reflexivity|].
  destruct (String.eqb_spec p "/identity") as [->|]; reflexivity.
Qed.

(** A request line is cacheable exactly when it is a GET of one of the
    browse routes without a live path segment (hubs, home, on deck, resume,
    continue watching, and Plex's [":"] action namespace, which holds the
    timeline and scrobble routes), and then its lifetime is that route's, at
    most five minutes. *)
Theorem Cacheable_spec method path ttl :
  Cacheable method path = Some ttl ↔
  method = "GET" ∧ browse_ttl (ToLower path) = Some ttl ∧ 0 < ttl <= 5 * Minute ∧
  ∀ part, part ∈ Split (ToLower path) "/" →
    part ∉ ["hubs"; "home"; "ondeck"; "continuewatching"; "resume"; ":"].
Proof.
  unfold Cacheable. destruct (String.eqb_spec method "GET") as [->|Hm]; cbn [negb]; [|naive_solver].
  rewrite prefix_loop_spec.
  assert (Hl : ∀ part, live_segment part = false ↔
    part ∉ ["hubs"; "home"; "ondeck"; "continuewatching"; "resume"; ":"]).
  { intros part. unfold live_segment. rewrite !orb_false_iff, !String.eqb_neq. set_solver. }
  destruct (existsb live_segment _) eqn:E.
  - split; [done|]. intros (_ & _ & _ & H). apply existsb_exists in E as (part & Hin & E).
    apply list_elem_of_In, H, Hl in Hin. congruence.
  - split; [|naive_solver]. intros Ht. repeat split; [done| | |].
    + revert Ht. unfold browse_ttl, Minute, Second. repeat case_match; intros; simplify_eq; lia.
    + revert Ht. unfold browse_ttl, Minute, Second. repeat case_match; intros; simplify_eq; lia.
    + intros part Hin. apply Hl. apply not_true_iff_false. intros Hp.
      apply not_true_iff_false in E. apply E. apply existsb_exists. exists part.
      split; [by apply list_elem_of_In|done].
Qed.

(** ** Segments of a key *)

Lemma free_of_hex s : all_chars is_hex s = true → free_of ":" s.
Proof. apply all_chars_impl. intros c. by destruct c as [[][][][][][][][]]. Qed.

Lemma free_of_Itoa z : free_of ":" (Itoa z).
Proof.
  apply Itoa_chars; [|done]. intros n Hn. unfold pretty_N_char. by repeat case_match.
Qed.

Lemma free_of_rep a : free_of ":" (normalizeRepresentation a).
Proof. unfold normalizeRepresentation. by repeat case_match. Qed.

Lemma stake_chars f n s : all_chars f s = true → all_chars f (stake n s) = true.
Proof.
  revert s. induction n as [|n IH]; intros [|c s]; cbn; try done.
  rewrite !andb_true_iff. intros [??]. auto.
Qed.

Lemma free_of_hash t : free_of ":" (stake 16 (sha256hex t)).
Proof. apply free_of_hex, stake_chars. apply sha256hex_hex. Qed.

Lemma length_hash t : String.length (stake 16 (sha256hex t)) = 16%nat.
Proof. apply length_stake. rewrite sha256hex_length. lia. Qed.

Lemma ClassOf_free path : free_of ":" (ClassOf path).
Proof. unfold ClassOf. cbv zeta. by repeat case_match. Qed.

Lemma default_class_free class : free_of ":" class → free_of ":" (default_class class).
Proof. unfold default_class. by case_match. Qed.

(** The fields of a key, with the scope in the middle delimited from both
    ends, so that a scope may itself contain the separator. *)
Definition key_head (class scope rep sg gg : string) : string :=
  "replx_edge:v4:default:" +:+ class +:+ String ":" (scope +:+ String ":" (rep +:+ String ":"
    (sg +:+ String ":" gg))).

Lemma key_head_inj c s r sg gg c' s' r' sg' gg' :
  free_of ":" c → free_of ":" c' → free_of ":" r → free_of ":" r' →
  free_of ":" sg → free_of ":" sg' → free_of ":" gg → free_of ":" gg' →
  key_head c s r sg gg = key_head c' s' r' sg' gg' →
  c = c' ∧ s = s' ∧ r = r' ∧ sg = sg' ∧ gg = gg'.
Proof.
  unfold key_head. intros Hc Hc' Hr Hr' Hs Hs' Hg Hg' E.
  apply sapp_inj_len in E as [_ E]; [|done].
  apply field_inj_l in E as [-> E]; [|done..].
  assert (E' : ((s +:+ String ":" r) +:+ String ":" sg) +:+ String ":" gg =
               ((s' +:+ String ":" r') +:+ String ":" sg') +:+ String ":" gg').
  { rewrite !sapp_assoc. exact E. }
  apply field_inj_r in E' as [E' ->]; [|done..].
  apply field_inj_r in E' as [E' ->]; [|done..].
  by apply field_inj_r in E' as [-> ->].
Qed.

Lemma ResponseKeyGen_fields scope class method path q accept sg gg :
  ResponseKeyGen scope class method path q accept sg gg =
  key_head (default_class class) scope (normalizeRepresentation accept) (Itoa sg) (Itoa gg) +:+
  String ":" (stake 16 (sha256hex (key_text method path accept q))).
Proof. unfold ResponseKeyGen, key_head, SchemaVersion. cbv zeta. simpl.
  by repeat (rewrite sapp_assoc; simpl). Qed.

Lemma ResponseKeyGen_inj scope class method path q accept sg gg
    scope' class' method' path' q' accept' sg' gg' :
  free_of ":" class → free_of ":" class' →
  ResponseKeyGen scope class method path q accept sg gg =
  ResponseKeyGen scope' class' method' path' q' accept' sg' gg' →
  scope = scope' ∧ default_class class = default_class class' ∧ sg = sg' ∧ gg = gg' ∧
  stake 16 (sha256hex (key_text method path accept q)) =
  stake 16 (sha256hex (key_text method' path' accept' q')).
Proof.
  intros Hc Hc'. rewrite !ResponseKeyGen_fields. intros E.
  apply field_inj_r in E as [E Hh]; [|apply free_of_hash..].
  apply key_head_inj in E as (-> & -> & _ & ?%(inj pretty) & ?%(inj pretty));
    auto using free_of_rep, free_of_Itoa, default_class_free.
Qed.

Lemma nonempty_length s : (0 < String.length s)%nat → (s =s "") = false.
Proof. by destruct s; [simpl; lia|]. Qed.

Lemma HeaderVariation_cases h :
  HeaderVariation h = "" ∨
  (free_of ":" (HeaderVariation h) ∧ String.length (HeaderVariation h) = 64%nat).
Proof.
  unfold HeaderVariation. cbv zeta. case_decide; [by left|]. right.
  split; [apply free_of_hex, sha256hex_hex|apply sha256hex_length].
Qed.

(** The fields of a request's key. *)
Lemma RequestKeyGen_inj scope class r sg gg scope' class' r' sg' gg' :
  free_of ":" class → free_of ":" class' →
  RequestKeyGen scope class r sg gg = RequestKeyGen scope' class' r' sg' gg' →
  scope = scope' ∧ default_class class = default_class class' ∧ sg = sg' ∧ gg = gg' ∧
  HeaderVariation (ReqHeader r) = HeaderVariation (ReqHeader r') ∧
  stake 16 (sha256hex (key_text (Method r) (Path r) (HGet (ReqHeader r) "Accept") (URLQuery r))) =
  stake 16 (sha256hex (key_text (Method r') (Path r') (HGet (ReqHeader r') "Accept") (URLQuery r'))).
Proof.
  intros Hc Hc'. unfold RequestKeyGen. cbv zeta. intros E.
  destruct (HeaderVariation_cases (ReqHeader r)) as [E1|[F1 L1]];
    destruct (HeaderVariation_cases (ReqHeader r')) as [E2|[F2 L2]].
  - rewrite E1, E2 in *. apply ResponseKeyGen_inj in E; naive_solver.
  - exfalso. rewrite E1, (nonempty_length (HeaderVariation (ReqHeader r'))) in E by lia. cbn [negb String.eqb] in E.
    rewrite ResponseKeyGen_fields in E. apply field_inj_r in E as [_ E]; [|apply free_of_hash|done].
    apply (f_equal String.length) in E. by rewrite length_hash, L2 in E.
  - exfalso. rewrite E2, (nonempty_length (HeaderVariation (ReqHeader r))) in E by lia.
    cbn [negb String.eqb] in E. symmetry in E.
    rewrite ResponseKeyGen_fields in E. apply field_inj_r in E as [_ E]; [|apply free_of_hash|done].
    apply (f_equal String.length) in E. by rewrite length_hash, L1 in E.
  - rewrite !nonempty_length in E by lia. cbn [negb] in E.
    apply field_inj_r in E as [E ?]; [|done..]. apply ResponseKeyGen_inj in E; naive_solver.
Qed.

(** Isolation and retirement.  Two requests share a cache key only if
    they are made in the same user scope, the same class and under the same
    scope and global generations, and only if the digest of the request and
    the header variation agree: a response stored for one user is never
    found by another, and bumping either generation moves every key. *)
Theorem RequestKeyGen_isolates scope class r sg gg scope' class' r' sg' gg' :
  free_of ":" class → free_of ":" class' →
  RequestKeyGen scope class r sg gg = RequestKeyGen scope' class' r' sg' gg' →
  scope = scope' ∧ default_class class = default_class class' ∧ sg = sg' ∧ gg = gg' ∧
  HeaderVariation (ReqHeader r) = HeaderVariation (ReqHeader r') ∧
  stake 16 (sha256hex (key_text (Method r) (Path r) (HGet (ReqHeader r) "Accept") (URLQuery r))) =
  stake 16 (sha256hex (key_text (Method r') (Path r') (HGet (ReqHeader r') "Accept") (URLQuery r'))).
Proof. apply RequestKeyGen_inj. Qed.

(** ** Secrets and variation *)

Lemma canonicalQuery_ext q q' :
  (∀ k, isSecretParam k = false → q !! k = q' !! k) → canonicalQuery q = canonicalQuery q'.
Proof.
  intros H. unfold canonicalQuery. apply map_eq. intros k. apply option_eq. intros v.
  rewrite !map_lookup_filter_Some. cbn. split; intros [Hk Hs]; split; try done.
  - by rewrite <- H.
  - by rewrite H.
Qed.

Lemma secretParams_spec k : isSecretParam k = false ↔ ToLower k ∉ secretParams.
Proof.
  unfold isSecretParam. rewrite existsb_false_forall. split.
  - intros H Hin. apply H in Hin. by rewrite String.eqb_refl in Hin.
  - intros H x Hx. apply String.eqb_neq. intros E. apply H. by rewrite E.
Qed.

Lemma ResponseKeyGen_ext scope class method path q q' accept sg gg :
  (∀ k, ToLower k ∉ secretParams → q !! k = q' !! k) →
  ResponseKeyGen scope class method path q accept sg gg =
  ResponseKeyGen scope class method path q' accept sg gg.
Proof.
  intros H. unfold ResponseKeyGen, key_text. rewrite (canonicalQuery_ext q q'); [done|].
  intros k Hk. by apply H, secretParams_spec.
Qed.

(** The header entries that do not carry the token. *)
Definition tokenless (h : list (string * list string)) : list (string * list string) :=
  filter (λ e, ToLower e.1 ≠ "x-plex-token") h.

Lemma variation_tokenless h m :
  foldl variation_step m (tokenless h) = foldl variation_step m h.
Proof.
  unfold tokenless. revert m. induction h as [|e h IH]; intros m; [done|].
  rewrite filter_cons. case_decide as Hd; cbn [foldl]; [apply IH|].
  rewrite IH. f_equal. unfold variation_step, variation_skips.
  destruct (String.eqb_spec (ToLower e.1) "x-plex-token") as [->|]; [done|by destruct Hd].
Qed.

Lemma hlookup_tokenless h k :
  ToLower k ≠ "x-plex-token" → hlookup (tokenless h) k = hlookup h k.
Proof.
  intros Hk. unfold tokenless. induction h as [|[k' vv] h IH]; [done|].
  rewrite filter_cons. case_decide as Hd; cbn [hlookup]; [by rewrite IH|].
  destruct (String.eqb_spec k k') as [->|]; [|done]. by destruct Hd.
Qed.

(** Token rotation never splits entries and no token enters a key: two
    requests that differ only in where and how they carry the caller's
    token (the token header, or any spelling of the secret query
    parameters) have the same cache key. *)
Theorem RequestKeyGen_ignores_tokens scope class r r' sg gg :
  Method r = Method r' → Path r = Path r' →
  tokenless (ReqHeader r) = tokenless (ReqHeader r') →
  (∀ k, ToLower k ∉ secretParams → URLQuery r !! k = URLQuery r' !! k) →
  RequestKeyGen scope class r sg gg = RequestKeyGen scope class r' sg gg.
Proof.
  intros Hm Hp Hh Hq. unfold RequestKeyGen, HeaderVariation, variation_values. cbv zeta.
  rewrite <- (variation_tokenless (ReqHeader r)), Hh, variation_tokenless.
  assert (HGet (ReqHeader r) "Accept" = HGet (ReqHeader r') "Accept") as ->.
  { unfold HGet, HValues. rewrite <- (hlookup_tokenless (ReqHeader r)) by done.
    by rewrite Hh, hlookup_tokenless. }
  by rewrite Hm, Hp, (ResponseKeyGen_ext _ _ _ _ _ _ _ _ _ Hq).
Qed.

(** The hashed text keeps every distinction the origin can see: for
    paths and Accept values without the separator byte, equal texts mean
    the same method, path, Accept header and, for every non-secret
    parameter, the same values in the same order, however they are
    spelled. *)
Theorem key_text_inj method path accept q method' path' accept' q' :
  free_of NUL (ToUpper method) → free_of NUL (ToUpper method') →
  free_of NUL path → free_of NUL path' → free_of NUL accept → free_of NUL accept' →
  key_text method path accept q = key_text method' path' accept' q' →
  ToUpper method = ToUpper method' ∧ path = path' ∧ accept = accept' ∧
  ∀ k, ToLower k ∉ secretParams → values_of q k = values_of q' k.
Proof.
  intros ?????? E. unfold key_text in E.
  apply field_inj_l in E as [? E]; [|done..]. apply field_inj_l in E as [? E]; [|done..].
  apply field_inj_l in E as [? E]; [|done..]. repeat split; [done..|].
  intros k Hk. apply (Encode_inj _ _ k) in E.
  pose proof (proj2 (secretParams_spec k) Hk) as Hs.
  assert (Hf : ∀ q, values_of (canonicalQuery q) k = values_of q k).
  { intros q0. unfold values_of. f_equal. unfold canonicalQuery. apply option_eq. intros v.
    rewrite map_lookup_filter_Some. naive_solver. }
  by rewrite !Hf in E.
Qed.

(** ** Header variation *)

Lemma variation_step_comm m e f :
  ToLower e.1 ≠ ToLower f.1 →
  variation_step (variation_step m e) f = variation_step (variation_step m f) e.
Proof.
  intros Hne. unfold variation_step. repeat case_match; try done. by apply insert_insert_ne.
Qed.

(** The variation of a request does not depend on the order in which
    the header map is iterated. *)
Theorem HeaderVariation_order h h' :
  NoDup (ToLower ∘ fst <$> h) → h ≡ₚ h' → HeaderVariation h = HeaderVariation h'.
Proof.
  intros Hd Hp. unfold HeaderVariation, variation_values.
  enough (∀ m : Values, foldl variation_step m h = foldl variation_step m h') as H by by rewrite H.
  revert Hd. induction Hp as [|e h h' Hp IH|e f h|h1 h2 h3 H12 IH1 H23 IH2]; intros Hd m; cbn [foldl].
  - done.
  - rewrite fmap_cons in Hd. apply NoDup_cons in Hd as [_ Hd]. by apply IH.
  - rewrite !fmap_cons in Hd. apply NoDup_cons in Hd as [Hn _]. rewrite variation_step_comm; [done|].
    intros E. apply Hn. cbn. rewrite E. set_solver.
  - rewrite IH1 by done. apply IH2. by rewrite <- H12.
Qed.

(** ** Admission of responses *)

Lemma vary_ok_spec n : vary_ok n = true ↔ ToLower (TrimSpace n) ∈ [""; "accept"; "accept-encoding"].
Proof.
  unfold vary_ok. cbv zeta. rewrite !orb_true_iff, !String.eqb_eq, !elem_of_cons, elem_of_nil. tauto.
Qed.

(** A response is stored only if it is in the identity encoding, sets
    no cookie, carries no [no-store] or [no-cache] directive in any line of
    its cache control, and varies on nothing but [Accept] and
    [Accept-Encoding]. *)
Theorem StorableResponse_spec h :
  StorableResponse h = true ↔
  TrimSpace (ToLower (HGet h "Content-Encoding")) ∈ [""; "identity"] ∧
  HValues h "Set-Cookie" = [] ∧
  (∀ line d, line ∈ HValues h "Cache-Control" → d ∈ Split line "," →
     EqualFold (directive_name d) "no-store" = false ∧
     EqualFold (directive_name d) "no-cache" = false) ∧
  (∀ line n, line ∈ HValues h "Vary" → n ∈ Split line "," →
     ToLower (TrimSpace n) ∈ [""; "accept"; "accept-encoding"]).
Proof.
  unfold StorableResponse. cbv zeta.
  assert (Hce : ∀ ce, negb (ce =s "") && negb (ce =s "identity") = false ↔ ce ∈ [""; "identity"]).
  { intros ce. rewrite andb_false_iff, !negb_false_iff, !String.eqb_eq, !elem_of_cons, elem_of_nil. tauto. }
  assert (Hcc : ∀ ls, forbidsStorage ls = false ↔ ∀ line d, line ∈ ls → d ∈ Split line "," →
     EqualFold (directive_name d) "no-store" = false ∧ EqualFold (directive_name d) "no-cache" = false).
  { intros ls. unfold forbidsStorage. rewrite existsb_false_forall. setoid_rewrite existsb_false_forall.
    unfold forbids_directive. setoid_rewrite orb_false_iff. naive_solver. }
  assert (Hv : ∀ ls, forallb (λ line, forallb vary_ok (Split line ",")) ls = true ↔
     ∀ line n, line ∈ ls → n ∈ Split line "," → ToLower (TrimSpace n) ∈ [""; "accept"; "accept-encoding"]).
  { intros ls. rewrite forallb_forall. setoid_rewrite forallb_forall. setoid_rewrite <- list_elem_of_In.
    setoid_rewrite vary_ok_spec. naive_solver. }
  destruct (_ && _) eqn:E1.
  { split; [done|]. intros [H _]. apply Hce in H. congruence. }
  rewrite Hce in E1. destruct (HValues h "Set-Cookie"); cbn [length Nat.eqb negb orb]; [|naive_solver].
  destruct (forbidsStorage _) eqn:E2; [|rewrite Hv, Hcc in *; naive_solver].
  split; [done|]. intros (_ & _ & H & _). apply Hcc in H. congruence.
Qed.

(** ** Witnesses *)

Definition req_ex (token : string) : Request :=
  mkRequest "GET" "/library/sections/1/all" ("type=1&X-Plex-Token=" +:+ token)
    [("Accept", ["application/json"]); ("X-Plex-Token", [token]); ("Accept-Language", ["fr"])] 0.

Lemma RequestKeyGen_isolates_witness :
  RequestKeyGen "user:1" "sections" (req_ex "t1") 3 4 = RequestKeyGen "user:1" "sections" (req_ex "t2") 3 4 ∧
  HeaderVariation (ReqHeader (req_ex "t1")) = HeaderVariation (ReqHeader (req_ex "t2")).
Proof.
  assert (E : RequestKeyGen "user:1" "sections" (req_ex "t1") 3 4 =
              RequestKeyGen "user:1" "sections" (req_ex "t2") 3 4) by (vm_compute; reflexivity).
  split; [exact E|].
  destruct (RequestKeyGen_isolates "user:1" "sections" (req_ex "t1") 3 4 "user:1" "sections"
              (req_ex "t2") 3 4) as (_ & _ & _ & _ & H & _); [reflexivity..|exact E|exact H].
Defined.

Lemma RequestKeyGen_ignores_tokens_witness :
  RequestKeyGen "user:1" "sections" (req_ex "t1") 3 4 = RequestKeyGen "user:1" "sections" (req_ex "t2") 3 4.
Proof.
  apply (RequestKeyGen_ignores_tokens "user:1" "sections" (req_ex "t1") (req_ex "t2") 3 4).
  - reflexivity.
  - reflexivity.
  - vm_compute. reflexivity.
  - intros k Hk.
    assert (E1 : URLQuery (req_ex "t1") = {[ "X-Plex-Token" := ["t1"]; "type" := ["1"] ]})
      by (vm_compute; reflexivity).
    assert (E2 : URLQuery (req_ex "t2") = {[ "X-Plex-Token" := ["t2"]; "type" := ["1"] ]})
      by (vm_compute; reflexivity).
    rewrite E1, E2. destruct (String.eqb_spec k "X-Plex-Token") as [->|Hne].
    + destruct Hk. vm_compute. left.
    + by rewrite !lookup_insert_ne by congruence.
Defined.

Lemma key_text_inj_witness :
  "/identity" = "/identity" ∧
  values_of {[ "a" := ["x"; "y"] ]} "a" = values_of {[ "a" := ["x"; "y"]; "token" := ["t"] ]} "a".
Proof.
  destruct (key_text_inj "get" "/identity" "" {[ "a" := ["x"; "y"] ]}
              "GET" "/identity" "" {[ "a" := ["x"; "y"]; "token" := ["t"] ]})
    as (_ & H1 & _ & H2); [reflexivity..| |].
  - vm_compute. reflexivity.
  - split; [exact H1|]. apply (H2 "a"). apply (bool_decide_unpack _). vm_compute. exact I.
Defined.

Lemma HeaderVariation_order_witness :
  HeaderVariation [("Accept-Language", ["fr"]); ("X-Plex-Product", ["web"])] =
  HeaderVariation [("X-Plex-Product", ["web"]); ("Accept-Language", ["fr"])].
Proof.
  apply (HeaderVariation_order [("Accept-Language", ["fr"]); ("X-Plex-Product", ["web"])]
           [("X-Plex-Product", ["web"]); ("Accept-Language", ["fr"])]).
  - apply (bool_decide_unpack _). vm_compute. exact I.
  - apply Permutation_swap.
Defined.

End CacheKeys.
