(* ===== verification/Generations.v ===== *)
(** * Invalidation generations
    (internal/cache/generations.go, generations_memory.go and the
    [Generations] registry of cache.go)

    A generation is part of every cache key, so raising it retires a whole
    namespace.  The interface [GenerationStore] is a class with its laws;
    the in-process store and the durable table are two instances, and the
    retirement theorem is proved once against the interface. *)

From S2P Require Import Prelude GoStrings GoHttp GoCrypto CacheKeys.

Module Generations.

Import CacheKeys.

(** ** Saturating sums *)

(** The loop of [saturatedAdd] over [uint64] values. *)
Fixpoint saturatedAdd_from (total : Z) (values : list Z) : Z :=
  match values with
  | [] => total
  | v :: r => if max_uint64 - total <? v then max_uint64 else saturatedAdd_from (uint64 (total + v)) r
  end.
Definition saturatedAdd (values : list Z) : Z := saturatedAdd_from 0 values.

Definition zsum (l : list Z) : Z := foldr Z.add 0 l.

(** ** The interface *)

(** The calls that retire namespaces. *)
Inductive gen_op :=
  | Bump (scope class : string)
  | BumpScope (scope : string)
  | BumpAll
  | BumpServerClass (class : string).

#[global] Instance gen_op_eq_dec : EqDecision gen_op.
Proof. solve_decision. Defined.

(** [covers op scope class]: the call is meant to retire that namespace. *)
Definition covers (op : gen_op) (scope class : string) : bool :=
  match op with
  | Bump s c => negb (s =s "") && (s =s scope) && (default_class c =s default_class class)
  | BumpScope s => negb (s =s "") && (s =s scope)
  | BumpAll => true
  | BumpServerClass c => negb (c =s "") && (c =s default_class class)
  end.

(** A store: its state, the effective generations of a namespace, and the
    retiring calls.  The flag of [gs_step] is a failure of the call's
    environment (a cancelled context, an unavailable database); the result
    says whether the call returned no error.  [gs_bound n] is what is known
    of the counters after [n] calls. *)
Class GenerationStore (St : Type) := {
  gs_empty : St;
  gs_get : St → string → string → Z * Z;
  gs_step : bool → St → gen_op → St * bool;
  gs_bound : Z → St → Prop;
}.

(** What a store promises to the response path. *)
Class GenerationLaws (St : Type) `{GenerationStore St} := {
  gs_bound_empty : gs_bound 0 gs_empty;
  gs_bound_step n f s op : 0 <= n < 2 ^ 62 → gs_bound n s → gs_bound (n + 1) (gs_step f s op).1;
  gs_fault s op : (gs_step true s op).2 = true → (gs_step true s op).1 = s;
  gs_fault_covers s op scope class : (gs_step true s op).2 = true → covers op scope class = false;
  gs_failed f s op : (gs_step f s op).2 = false → (gs_step f s op).1 = s;
  gs_monotone n f s op scope class :
    0 <= n < 2 ^ 61 → gs_bound n s →
    (gs_get s scope class).1 <= (gs_get (gs_step f s op).1 scope class).1 ∧
    (gs_get s scope class).2 <= (gs_get (gs_step f s op).1 scope class).2;
  gs_retires n s op scope class :
    0 <= n < 2 ^ 61 → gs_bound n s →
    (gs_step false s op).2 = true → covers op scope class = true →
    (gs_get s scope class).1 < (gs_get (gs_step false s op).1 scope class).1 ∨
    (gs_get s scope class).2 < (gs_get (gs_step false s op).1 scope class).2;
}.

(** ** MemoryGenerationStore *)

Record Memory := mkMemory {
  scopes : gmap string Z;
  classes : gmap string Z;
  global : Z;
  serverClasses : gmap string Z;
}.

(** Reading a missing entry of a [map[string]uint64] gives zero; [m[k]++]
    wraps around. *)
Definition count {K} `{Countable K} (m : gmap K Z) (k : K) : Z := default 0 (m !! k).
Definition incr {K} `{Countable K} (m : gmap K Z) (k : K) : gmap K Z :=
  <[k := uint64 (count m k + 1)]> m.

Definition class_key (scope class : string) : string := scope +:+ String NUL class.

Definition NewMemoryGenerationStore : Memory := mkMemory ∅ ∅ 0 ∅.

(** [Get]; a cancelled context is the error. *)
Definition mem_Get (cancelled : bool) (g : Memory) (scope class : string) : option (Z * Z) :=
  if cancelled then None
  else
    let class := default_class class in
    Some (saturatedAdd [count (scopes g) scope; count (classes g) (class_key scope class);
                        count (serverClasses g) class], global g).

Definition mem_Bump (cancelled : bool) (g : Memory) (scope class : string) : Memory * bool :=
  if cancelled then (g, false)
  else if scope =s "" then (g, true)
  else
    let class := default_class class in
    (mkMemory (scopes g) (incr (classes g) (class_key scope class)) (global g) (serverClasses g), true).

Definition mem_BumpScope (cancelled : bool) (g : Memory) (scope : string) : Memory * bool :=
  if cancelled then (g, false)
  else if scope =s "" then (g, true)
  else (mkMemory (incr (scopes g) scope) (classes g) (global g) (serverClasses g), true).

Definition mem_BumpAll (cancelled : bool) (g : Memory) : Memory * bool :=
  if cancelled then (g, false)
  else (mkMemory (scopes g) (classes g) (uint64 (global g + 1)) (serverClasses g), true).

Definition mem_BumpServerClass (cancelled : bool) (g : Memory) (class : string) : Memory * bool :=
  if cancelled then (g, false)
  else if class =s "" then (g, true)
  else (mkMemory (scopes g) (classes g) (global g) (incr (serverClasses g) class), true).

(** ** PostgresGenerations *)

(** The table [cache_generations]: a row per (server, scope hash, class). *)
Notation Table := (gmap (string * string * string) Z) (only parsing).

(** The receiver: its server name and whether it has a database. *)
Record Postgres := mkPostgres { server : string; has_db : bool; table : gmap (string * string * string) Z }.

Definition NewPostgresGenerations (db : bool) (t : Table) (serverID : string) : Postgres :=
  mkPostgres (if serverID =s "" then "default" else serverID) db t.

Definition generationScopeHash (scope : string) : string := sha256hex scope.

(** [INSERT ... ON CONFLICT DO NOTHING] of the server row. *)
Definition pg_Load (down : bool) (g : Postgres) : Postgres * bool :=
  if negb (has_db g) || down then (g, false)
  else
    let k := (server g, "", "") in
    (mkPostgres (server g) (has_db g)
       (match table g !! k with Some _ => table g | None => <[k := 0]> (table g) end), true).

Definition pg_Get (down : bool) (g : Postgres) (scope class : string) : option (Z * Z) :=
  if negb (has_db g) || down then None
  else
    let class := default_class class in
    let h := generationScopeHash scope in
    Some (saturatedAdd [uint64 (count (table g) (server g, h, "")); uint64 (count (table g) (server g, h, class));
                        uint64 (count (table g) (server g, "", class))],
          uint64 (count (table g) (server g, "", ""))).

(** The table's check constraint on the class column:
    [^[a-z][a-z0-9_-]{0,31}$], or empty. *)
Definition class_char (c : ascii) : bool := is_lower c || is_digit c || byte_is c 95 || byte_is c 45.
Definition class_column_ok (class : string) : bool :=
  match class with
  | EmptyString => true
  | String c r => is_lower c && all_chars class_char r && (String.length r <=? 31)%nat
  end.

(** The upsert; the statement fails when the row breaks the constraint or
    the [bigint] counter overflows. *)
Definition pg_bump (down : bool) (g : Postgres) (scopeHash class : string) : Postgres * bool :=
  if negb (has_db g) || down then (g, false)
  else
    let k := (server g, scopeHash, class) in
    match table g !! k with
    | None =>
        if class_column_ok class then (mkPostgres (server g) (has_db g) (<[k := 1]> (table g)), true)
        else (g, false)
    | Some n =>
        if n + 1 <? 2 ^ 63 then (mkPostgres (server g) (has_db g) (<[k := n + 1]> (table g)), true)
        else (g, false)
    end.

Definition pg_Bump (down : bool) (g : Postgres) (scope class : string) : Postgres * bool :=
  if scope =s "" then (g, true)
  else pg_bump down g (generationScopeHash scope) (default_class class).

Definition pg_BumpScope (down : bool) (g : Postgres) (scope : string) : Postgres * bool :=
  if scope =s "" then (g, true) else pg_bump down g (generationScopeHash scope) "".

Definition pg_BumpAll (down : bool) (g : Postgres) : Postgres * bool := pg_bump down g "" "".

Definition pg_BumpServerClass (down : bool) (g : Postgres) (class : string) : Postgres * bool :=
  if class =s "" then (g, false) else pg_bump down g "" class.

(** ** Facts on the sums *)

Lemma saturatedAdd_from_spec t l :
  is_uint64 t → Forall is_uint64 l → saturatedAdd_from t l = Z.min max_uint64 (t + zsum l).
Proof.
  revert t. induction l as [|v l IH]; intros t Ht Hl; cbn [saturatedAdd_from zsum foldr].
  - unfold is_uint64, max_uint64 in *. lia.
  - apply Forall_cons in Hl as [Hv Hl].
    assert (0 <= zsum l).
    { clear -Hl. induction Hl as [|w l Hw _ IH]; cbn [zsum foldr]; [lia|].
      unfold is_uint64 in Hw. fold (zsum l). lia. }
    fold (zsum l). destruct (Z.ltb_spec (max_uint64 - t) v).
    + unfold is_uint64 in *. lia.
    + assert (is_uint64 (t + v)) by (unfold is_uint64, max_uint64 in *; lia).
      rewrite uint64_id by done. rewrite IH by done. lia.
Qed.

Lemma saturatedAdd_spec l :
  Forall is_uint64 l → saturatedAdd l = Z.min max_uint64 (zsum l).
Proof. intros. unfold saturatedAdd. rewrite saturatedAdd_from_spec; [done|unfold is_uint64; lia|done]. Qed.

(** Three counters below [2^62] do not saturate. *)
Lemma saturatedAdd_small a b c n :
  n <= 2 ^ 62 → 0 <= a <= n → 0 <= b <= n → 0 <= c <= n → saturatedAdd [a; b; c] = a + b + c.
Proof.
  intros. rewrite saturatedAdd_spec.
  - cbn. unfold max_uint64. lia.
  - repeat constructor; unfold is_uint64; lia.
Qed.

Lemma count_incr {K} `{Countable K} (m : gmap K Z) k k' :
  count (incr m k) k' = if decide (k = k') then uint64 (count m k + 1) else count m k'.
Proof.
  unfold incr, count at 1. case_decide as E.
  - subst. by rewrite lookup_insert_eq.
  - by rewrite lookup_insert_ne.
Qed.

Lemma count_empty {K} `{Countable K} (k : K) : count ∅ k = 0.
Proof. unfold count. by rewrite lookup_empty. Qed.

(** Every counter of a map is at most [n]. *)
Definition below {K} `{Countable K} (n : Z) (m : gmap K Z) : Prop := ∀ k, 0 <= count m k <= n.

Lemma below_incr {K} `{Countable K} n (m : gmap K Z) k :
  0 <= n < 2 ^ 62 → below n m → below (n + 1) (incr m k).
Proof.
  intros Hn Hm k'. rewrite count_incr. pose proof (Hm k). pose proof (Hm k').
  case_decide; [rewrite uint64_id by (unfold is_uint64; lia)|]; lia.
Qed.

Lemma below_mono {K} `{Countable K} n (m : gmap K Z) : below n m → below (n + 1) m.
Proof. intros Hm k. pose proof (Hm k). lia. Qed.

Lemma count_incr_le {K} `{Countable K} n (m : gmap K Z) k k' :
  0 <= n < 2 ^ 62 → below n m → count m k' <= count (incr m k) k' <= n + 1.
Proof.
  intros Hn Hm. rewrite count_incr. pose proof (Hm k). pose proof (Hm k').
  case_decide; [subst; rewrite uint64_id by (unfold is_uint64; lia)|]; lia.
Qed.

Lemma count_incr_eq {K} `{Countable K} n (m : gmap K Z) k :
  0 <= n < 2 ^ 62 → below n m → count (incr m k) k = count m k + 1.
Proof.
  intros Hn Hm. rewrite count_incr, decide_True by done. pose proof (Hm k).
  apply uint64_id. unfold is_uint64. lia.
Qed.

(** ** The instances *)

#[export] Instance Memory_store : GenerationStore Memory := {
  gs_empty := NewMemoryGenerationStore;
  gs_get g scope class := default (0, 0) (mem_Get false g scope class);
  gs_step f g op :=
    match op with
    | Bump scope class => mem_Bump f g scope class
    | BumpScope scope => mem_BumpScope f g scope
    | BumpAll => mem_BumpAll f g
    | BumpServerClass class => mem_BumpServerClass f g class
    end;
  gs_bound n g := below n (scopes g) ∧ below n (classes g) ∧ below n (serverClasses g) ∧ 0 <= global g <= n;
}.

#[export] Instance Postgres_store : GenerationStore Postgres := {
  gs_empty := NewPostgresGenerations true ∅ "default";
  gs_get g scope class := default (0, 0) (pg_Get false g scope class);
  gs_step f g op :=
    match op with
    | Bump scope class => pg_Bump f g scope class
    | BumpScope scope => pg_BumpScope f g scope
    | BumpAll => pg_BumpAll f g
    | BumpServerClass class => pg_BumpServerClass f g class
    end;
  gs_bound n g := below n (table g);
}.

(** Split the goal on the tests of a store operation. *)
Ltac op_cases := repeat first [progress cbn in *|case_match]; simplify_eq; try done.

Lemma mem_get_sum n (g : Memory) scope class :
  n <= 2 ^ 62 → gs_bound n g →
  gs_get g scope class =
  (count (scopes g) scope + count (classes g) (class_key scope (default_class class)) +
   count (serverClasses g) (default_class class), global g).
Proof.
  intros Hn (H1 & H2 & H3 & _). cbn. f_equal. by apply (saturatedAdd_small _ _ _ n).
Qed.

Lemma mem_bound_step n f (g : Memory) op :
  0 <= n < 2 ^ 62 → gs_bound n g → gs_bound (n + 1) (gs_step f g op).1.
Proof.
  intros Hn (H1 & H2 & H3 & H4).
  assert (Hg : gs_bound (n + 1) g).
  { refine (conj _ (conj _ (conj _ _))); auto using below_mono. lia. }
  cbn. unfold mem_Bump, mem_BumpScope, mem_BumpAll, mem_BumpServerClass.
  repeat case_match; try exact Hg; cbn [fst scopes classes serverClasses global];
    refine (conj _ (conj _ (conj _ _))); auto using below_incr, below_mono; try lia.
  rewrite uint64_id by (unfold is_uint64; lia). lia.
Qed.

#[export] Instance Memory_laws : GenerationLaws Memory.
Proof.
  split.
  - refine (conj _ (conj _ (conj _ _))); cbn; [intros k; rewrite count_empty; lia..|lia].
  - apply mem_bound_step.
  - intros s op. cbn. unfold mem_Bump, mem_BumpScope, mem_BumpAll, mem_BumpServerClass. by destruct op.
  - intros s op scope class. cbn. unfold mem_Bump, mem_BumpScope, mem_BumpAll, mem_BumpServerClass. by destruct op.
  - intros f s op. cbn. unfold mem_Bump, mem_BumpScope, mem_BumpAll, mem_BumpServerClass.
    by repeat case_match.
  - intros n f s op scope class Hn Hb.
    rewrite (mem_get_sum n), (mem_get_sum (n + 1)); [|lia|apply mem_bound_step; [lia|done]|lia|done].
    destruct Hb as (H1 & H2 & H3 & H4). cbn.
    unfold mem_Bump, mem_BumpScope, mem_BumpAll, mem_BumpServerClass.
    repeat case_match; cbn [fst snd scopes classes serverClasses global]; try lia.
    + pose proof (count_incr_le n (classes s) (class_key scope0 (default_class class0))
        (class_key scope (default_class class)) ltac:(lia) H2). lia.
    + pose proof (count_incr_le n (scopes s) scope0 scope ltac:(lia) H1). lia.
    + rewrite uint64_id by (unfold is_uint64; lia). lia.
    + pose proof (count_incr_le n (serverClasses s) class0 (default_class class) ltac:(lia) H3). lia.
  - intros n s op scope class Hn Hb Hok Hc.
    rewrite (mem_get_sum n), (mem_get_sum (n + 1)); [|lia|apply mem_bound_step; [lia|done]|lia|done].
    destruct Hb as (H1 & H2 & H3 & H4). revert Hok Hc. cbn.
    unfold mem_Bump, mem_BumpScope, mem_BumpAll, mem_BumpServerClass, covers.
    repeat case_match; cbn [fst snd scopes classes serverClasses global]; intros _ Hc; zbool; try done.
    + subst. left. replace (default_class class0) with (default_class class) by done.
      rewrite (count_incr_eq n) by (done || lia). lia.
    + subst. left. rewrite (count_incr_eq n) by (done || lia). lia.
    + right. rewrite uint64_id by (unfold is_uint64; lia). lia.
    + subst. left. rewrite (count_incr_eq n) by (done || lia). lia.
Qed.

(** A statement leaves the table or raises exactly one counter. *)
Lemma pg_bump_spec n f g h class :
  0 <= n < 2 ^ 62 → below n (table g) →
  pg_bump f g h class = (g, false) ∨
  (f = false ∧ has_db g = true ∧
   pg_bump f g h class =
   (mkPostgres (server g) (has_db g) (incr (table g) (server g, h, class)), true)).
Proof.
  intros Hn Hb. unfold pg_bump.
  destruct (has_db g) eqn:Ed; [|by left]. destruct f; [by left|]. cbn [negb orb].
  pose proof (Hb (server g, h, class)) as Hk. unfold incr, count in *.
  destruct (table g !! (server g, h, class)) as [m|] eqn:E; cbn [default from_option] in *.
  - rewrite uint64_id by (unfold is_uint64; lia).
    destruct (Z.ltb_spec (m + 1) (2 ^ 63)); [by right|by left].
  - rewrite uint64_id by (unfold is_uint64; lia). case_match; [by right|by left].
Qed.

(** The counter a call raises. *)
Definition op_row (srv : string) (op : gen_op) : option (string * string * string) :=
  match op with
  | Bump s c => if s =s "" then None else Some (srv, generationScopeHash s, default_class c)
  | BumpScope s => if s =s "" then None else Some (srv, generationScopeHash s, "")
  | BumpAll => Some (srv, "", "")
  | BumpServerClass c => if c =s "" then None else Some (srv, "", c)
  end.

Lemma pg_step_spec n f (g : Postgres) op :
  0 <= n < 2 ^ 62 → below n (table g) →
  (gs_step f g op).1 = g ∧ ((gs_step f g op).2 = true → op_row (server g) op = None) ∨
  (∃ k, f = false ∧ has_db g = true ∧ op_row (server g) op = Some k ∧
   gs_step f g op = (mkPostgres (server g) (has_db g) (incr (table g) k), true)).
Proof.
  intros Hn Hb.
  assert (H : ∀ h class, op_row (server g) op = Some (server g, h, class) →
    gs_step f g op = pg_bump f g h class →
    (gs_step f g op).1 = g ∧ ((gs_step f g op).2 = true → op_row (server g) op = None) ∨
    (∃ k, f = false ∧ has_db g = true ∧ op_row (server g) op = Some k ∧
     gs_step f g op = (mkPostgres (server g) (has_db g) (incr (table g) k), true))).
  { intros h class Hr ->. destruct (pg_bump_spec n f g h class Hn Hb) as [E|(? & ? & E)].
    - left. by rewrite E.
    - right. eauto 10. }
  destruct op as [s c|s| |c]; cbn in *; unfold pg_Bump, pg_BumpScope, pg_BumpAll, pg_BumpServerClass in *.
  - destruct (s =s ""); [by left|by eapply H].
  - destruct (s =s ""); [by left|by eapply H].
  - by eapply H.
  - destruct (c =s ""); [by left|by eapply H].
Qed.

Lemma pg_get_sum n (g : Postgres) scope class :
  n <= 2 ^ 62 → gs_bound n g → has_db g = true →
  gs_get g scope class =
  (count (table g) (server g, generationScopeHash scope, "") +
   count (table g) (server g, generationScopeHash scope, default_class class) +
   count (table g) (server g, "", default_class class), count (table g) (server g, "", "")).
Proof.
  intros Hn Hb Hd. cbn -[generationScopeHash saturatedAdd]. unfold pg_Get. rewrite Hd.
  assert (Hu : ∀ k, uint64 (count (table g) k) = count (table g) k).
  { intros k. pose proof (Hb k). apply uint64_id. unfold is_uint64. lia. }
  rewrite !Hu. cbn -[generationScopeHash saturatedAdd]. f_equal.
  by apply (saturatedAdd_small _ _ _ n).
Qed.

#[export] Instance Postgres_laws : GenerationLaws Postgres.
Proof.
  split.
  - intros k. change (0 <= count ∅ k <= 0). rewrite count_empty. lia.
  - intros n f s op Hn Hb. destruct (pg_step_spec n f s op Hn Hb) as [[E _]|(k & _ & _ & _ & E)].
    + rewrite E. by apply below_mono.
    + rewrite E. by apply below_incr.
  - intros s op. cbn. unfold pg_Bump, pg_BumpScope, pg_BumpAll, pg_BumpServerClass, pg_bump.
    rewrite orb_true_r. by repeat case_match.
  - intros s op scope class. cbn. unfold pg_Bump, pg_BumpScope, pg_BumpAll, pg_BumpServerClass, pg_bump.
    rewrite orb_true_r. destruct op; cbn [covers]; repeat case_match; zbool; subst; try done.
  - intros f s op. cbn. unfold pg_Bump, pg_BumpScope, pg_BumpAll, pg_BumpServerClass, pg_bump.
    by repeat case_match.
  - intros n f s op scope class Hn Hb.
    destruct (pg_step_spec n f s op ltac:(lia) Hb) as [[E _]|(k & _ & Hd & _ & E)].
    { rewrite E. lia. }
    rewrite E. cbn [fst]. rewrite (pg_get_sum n), (pg_get_sum (n + 1)); try done; try lia.
    2: { apply below_incr; [lia|done]. }
    cbn [table server fst snd].
    pose proof (λ k', count_incr_le n (table s) k k' ltac:(lia) Hb) as Hle.
    pose proof (Hle (server s, generationScopeHash scope, "")).
    pose proof (Hle (server s, generationScopeHash scope, default_class class)).
    pose proof (Hle (server s, "", default_class class)). pose proof (Hle (server s, "", "")). lia.
  - intros n s op scope class Hn Hb Hok Hc.
    destruct (pg_step_spec n false s op ltac:(lia) Hb) as [[_ E]|(k & _ & Hd & Hr & E)].
    { specialize (E Hok). revert E Hc. unfold op_row, covers.
      destruct op; repeat case_match; intros; zbool; done. }
    rewrite E. cbn [fst]. rewrite (pg_get_sum n), (pg_get_sum (n + 1)); try done; try lia.
    2: { apply below_incr; [lia|done]. }
    cbn [table server fst snd].
    pose proof (λ k', count_incr_le n (table s) k k' ltac:(lia) Hb) as Hle.
    pose proof (Hle (server s, generationScopeHash scope, "")).
    pose proof (Hle (server s, generationScopeHash scope, default_class class)).
    pose proof (Hle (server s, "", default_class class)).
    pose proof (count_incr_eq n (table s) k ltac:(lia) Hb).
    revert Hr Hc. unfold op_row, covers. destruct op; repeat case_match; intros Hr Hc; zbool; simplify_eq.
    + left. replace (default_class class0) with (default_class class) in * by done. lia.
    + left. lia.
    + right. lia.
    + left. lia.
Qed.

(** ** Clients of the interface *)

Section client.
Context {St : Type} `{GenerationLaws St}.

(** A sequence of calls, each with the failure of its environment. *)
Fixpoint gs_run (s : St) (ops : list (bool * gen_op)) : St :=
  match ops with
  | [] => s
  | (f, op) :: r => gs_run (gs_step f s op).1 r
  end.

Lemma gs_run_bound n s ops :
  0 <= n → n + Z.of_nat (length ops) < 2 ^ 61 → gs_bound n s →
  gs_bound (n + Z.of_nat (length ops)) (gs_run s ops).
Proof.
  revert n s. induction ops as [|[f op] ops IH]; intros n s Hn Hl Hb; cbn [gs_run length] in *.
  - by rewrite Z.add_0_r.
  - replace (n + _) with (n + 1 + Z.of_nat (length ops)) by lia.
    apply IH; [lia..|]. apply gs_bound_step; [lia|done].
Qed.

Lemma gs_run_monotone n s ops scope class :
  0 <= n → n + Z.of_nat (length ops) < 2 ^ 61 → gs_bound n s →
  (gs_get s scope class).1 <= (gs_get (gs_run s ops) scope class).1 ∧
  (gs_get s scope class).2 <= (gs_get (gs_run s ops) scope class).2.
Proof.
  revert n s. induction ops as [|[f op] ops IH]; intros n s Hn Hl Hb; cbn [gs_run length] in *.
  - lia.
  - destruct (gs_monotone n f s op scope class) as [H1 H2]; [lia|done|].
    destruct (IH (n + 1) (gs_step f s op).1) as [H3 H4]; [lia..|apply gs_bound_step; [lia|done]|]. lia.
Qed.

Lemma gs_run_app s ops ops' : gs_run s (ops ++ ops') = gs_run (gs_run s ops) ops'.
Proof. revert s. induction ops as [|[f op] ops IH]; intros s; [done|]. apply IH. Qed.

(** C39: Retirement is permanent.  In any sequence of fewer than [2^61]
    calls on a store that keeps the interface's promises, once a call that
    covers a namespace has succeeded, no later state of the store gives
    that namespace the generations it had before, so no key handed out
    before the call is ever built again. *)
Theorem retired_forever s before op after scope class r r' :
  gs_bound 0 s →
  Z.of_nat (length before + 1 + length after) < 2 ^ 61 →
  let s1 := gs_run s before in
  let s2 := gs_run (gs_step false s1 op).1 after in
  (gs_step false s1 op).2 = true → covers op scope class = true →
  free_of ":" class →
  let g1 := gs_get s1 scope class in
  let g2 := gs_get s2 scope class in
  RequestKeyGen scope class r g1.1 g1.2 ≠ RequestKeyGen scope class r' g2.1 g2.2.
Proof.
  intros Hb Hl s1 s2 Hok Hc Hf g1 g2 E.
  apply RequestKeyGen_inj in E as (_ & _ & E1 & E2 & _); [|done..].
  assert (Hb1 : gs_bound (Z.of_nat (length before)) s1).
  { apply (gs_run_bound 0 s before); [lia..|done]. }
  pose proof (gs_retires (Z.of_nat (length before)) s1 op scope class ltac:(lia) Hb1 Hok Hc) as Hr.
  destruct (gs_run_monotone (Z.of_nat (length before) + 1) (gs_step false s1 op).1 after scope class)
    as [Hm1 Hm2]; [lia..|apply gs_bound_step; [lia|done]|].
  unfold g1, g2, s2 in *. lia.
Qed.
End client.

(** The scope a call names. *)
Definition op_scope (op : gen_op) : option string :=
  match op with Bump s _ | BumpScope s => Some s | BumpAll | BumpServerClass _ => None end.

Lemma generationScopeHash_nonempty s : generationScopeHash s ≠ "".
Proof. intros E. pose proof (sha256hex_length s) as L. unfold generationScopeHash in E. by rewrite E in L. Qed.

Lemma default_class_nonempty c : default_class c ≠ "".
Proof. unfold default_class. by destruct (String.eqb_spec c ""). Qed.

(** The rows a namespace reads. *)
Definition rows (srv scope class : string) : list (string * string * string) :=
  [(srv, generationScopeHash scope, ""); (srv, generationScopeHash scope, default_class class);
   (srv, "", default_class class); (srv, "", "")].

Lemma op_row_covers srv op k scope class :
  op_row srv op = Some k → k ∈ rows srv scope class →
  (∀ s, op_scope op = Some s → generationScopeHash s = generationScopeHash scope → s = scope) →
  covers op scope class = true.
Proof.
  intros Hr Hk Hcol.
  pose proof (generationScopeHash_nonempty) as Hh. pose proof (default_class_nonempty) as Hd.
  unfold op_row, covers, op_scope, rows in *. revert Hr Hk Hcol Hh.
  generalize generationScopeHash. intros hash Hr Hk Hcol Hh.
  destruct op as [s c|s| |c]; [| |done|];
    try destruct (String.eqb_spec s "") as [|Hs]; try destruct (String.eqb_spec c "") as [|Hc];
    try done; injection Hr as <-; cbn [negb andb];
    rewrite !elem_of_cons, elem_of_nil in Hk;
    destruct Hk as [E|[E|[E|[E|[]]]]]; injection E; intros;
    try match goal with
    | Hx : hash _ = "" |- _ => destruct (Hh _ Hx)
    | Hx : "" = hash _ |- _ => destruct (Hh _ (eq_sym Hx))
    | Hx : default_class _ = "" |- _ => destruct (Hd _ Hx)
    | Hx : "" = default_class _ |- _ => destruct (Hd _ (eq_sym Hx))
    end.
  all: try (rewrite (Hcol s) by done); rewrite ?String.eqb_refl; cbn [andb]; try done.
  all: by apply String.eqb_eq.
Qed.

(** Unrelated namespaces stay warm: a call to the durable store that
    does not cover a namespace leaves its generations as they are, provided
    the digest of the named scope does not collide with that of the
    namespace's scope. *)
Theorem pg_step_frame n f (g : Postgres) op scope class :
  0 <= n < 2 ^ 62 → gs_bound n g → covers op scope class = false →
  (∀ s, op_scope op = Some s → generationScopeHash s = generationScopeHash scope → s = scope) →
  gs_get (gs_step f g op).1 scope class = gs_get g scope class.
Proof.
  intros Hn Hb Hc Hcol. destruct (pg_step_spec n f g op Hn Hb) as [[-> _]|(k & _ & Hd & Hr & E)]; [done|].
  rewrite E. cbn [fst]. rewrite !(pg_get_sum (n + 1)); try done; try lia.
  2: by apply below_mono. 2: by apply below_incr.
  cbn [table server].
  assert (Hne : ∀ k', k ≠ k' → count (incr (table g) k) k' = count (table g) k').
  { intros k' Hk. by rewrite count_incr, decide_False. }
  assert (Hk : k ∉ rows (server g) scope class).
  { intros Hk. rewrite (op_row_covers _ _ _ _ _ Hr Hk Hcol) in Hc. done. }
  unfold rows in Hk. rewrite !not_elem_of_cons in Hk. destruct Hk as (? & ? & ? & ? & _).
  by rewrite !Hne.
Qed.

(** ** The process-local registry (cache.go) *)

Record Registry := mkRegistry {
  scopeClass : gmap string Z;
  recorded : gmap string (gset string);
  rglobal : Z;
}.

Definition NewGenerations : Registry := mkRegistry ∅ ∅ 0.

(** A nil receiver is [None]. *)
Definition record (g : Registry) (scope class : string) : Registry :=
  mkRegistry (scopeClass g)
    (<[scope := {[class]} ∪ default ∅ (recorded g !! scope)]> (recorded g)) (rglobal g).

Definition reg_Get (g : option Registry) (scope class : string) : option Registry * (Z * Z) :=
  match g with
  | None => (None, (0, 0))
  | Some g =>
      let class := default_class class in
      let g' := record g scope class in
      (Some g', (count (scopeClass g') (class_key scope class), rglobal g'))
  end.

Definition reg_Bump (g : option Registry) (scope class : string) : option Registry :=
  match g with
  | None => None
  | Some g =>
      if scope =s "" then Some g
      else
        let class := default_class class in
        let g' := record g scope class in
        Some (mkRegistry (incr (scopeClass g') (class_key scope class)) (recorded g') (rglobal g'))
  end.

(** The range over the recorded classes, in the order [elements] lists them;
    the increments touch distinct entries. *)
Definition reg_BumpScope (g : option Registry) (scope : string) : option Registry :=
  match g with
  | None => None
  | Some g =>
      if scope =s "" then Some g
      else
        Some (mkRegistry
          (foldl (λ m class, incr m (class_key scope class)) (scopeClass g)
             (elements (default ∅ (recorded g !! scope)))) (recorded g) (rglobal g))
  end.

Definition reg_BumpAll (g : option Registry) : option Registry :=
  match g with
  | None => None
  | Some g => Some (mkRegistry (scopeClass g) (recorded g) (uint64 (rglobal g + 1)))
  end.

Lemma class_key_inj scope c c' : class_key scope c = class_key scope c' → c = c'.
Proof.
  unfold class_key. intros E. apply sapp_inj_len in E as [_ E]; [|done]. by injection E.
Qed.

Lemma foldl_incr_count scope l (m : gmap string Z) class :
  NoDup l →
  count (foldl (λ m class, incr m (class_key scope class)) m l) (class_key scope class) =
  if decide (class ∈ l) then uint64 (count m (class_key scope class) + 1)
  else count m (class_key scope class).
Proof.
  revert m. induction l as [|c l IH]; intros m Hd; cbn [foldl]; [done|].
  apply NoDup_cons in Hd as [Hc Hd]. rewrite IH by done. rewrite !count_incr.
  destruct (decide (c = class)) as [->|Hne].
  - rewrite !(decide_True (P := class_key _ _ = class_key _ _)) by done.
    rewrite decide_False by done. by rewrite decide_True by set_solver.
  - rewrite !(decide_False (P := class_key _ _ = class_key _ _)) by (by intros ?%class_key_inj).
    destruct (decide (class ∈ l)); [by rewrite decide_True by set_solver|].
    by rewrite decide_False by set_solver.
Qed.

(** Reading a namespace through the registry records its class, so a
    later scope bump retires every key handed out: the generation read
    before the bump is not the one read after it. *)
Theorem reg_BumpScope_retires g scope class :
  scope ≠ "" → is_uint64 (count (scopeClass g) (class_key scope (default_class class))) →
  let '(g1, (sg, _)) := reg_Get (Some g) scope class in
  let '(_, (sg', _)) := reg_Get (reg_BumpScope g1 scope) scope class in
  sg ≠ sg'.
Proof.
  intros Hs Hu. unfold reg_Get, reg_BumpScope. cbn [record scopeClass recorded rglobal].
  destruct (String.eqb_spec scope ""); [done|]. cbn [record scopeClass recorded rglobal].
  rewrite lookup_insert_eq. cbn [default from_option].
  rewrite foldl_incr_count by apply NoDup_elements.
  rewrite decide_True by (apply elem_of_elements; set_solver).
  unfold is_uint64, uint64 in *. intros E.
  destruct (Z.eq_dec (count (scopeClass g) (class_key scope (default_class class))) (2 ^ 64 - 1)) as [Em|].
  - rewrite Em in E. vm_compute in E. done.
  - rewrite Z.mod_small in E; lia.
Qed.

(** ** Witnesses *)

Definition w_before : Postgres := gs_run gs_empty [(false, BumpAll)].
Definition w_after : Postgres := gs_run (gs_step false w_before (BumpScope "user:1")).1 [(true, BumpAll)].
Definition w_key_in (st : Postgres) : string :=
  RequestKeyGen "user:1" "sections" (req_ex "t") (gs_get st "user:1" "sections").1 (gs_get st "user:1" "sections").2.

Lemma retired_forever_witness : w_key_in w_before ≠ w_key_in w_after.
Proof.
  refine (retired_forever (St := Postgres) gs_empty [(false, BumpAll)] (BumpScope "user:1")
            [(true, BumpAll)] "user:1" "sections" (req_ex "t") (req_ex "t") gs_bound_empty _ _ _ _).
  - cbn. lia.
  - vm_compute. reflexivity.
  - reflexivity.
  - reflexivity.
Defined.

Lemma pg_step_frame_witness :
  gs_get (gs_step false (gs_empty : Postgres) (BumpServerClass "metadata")).1 "user:1" "sections" = (0, 0).
Proof.
  rewrite (pg_step_frame 0 false gs_empty (BumpServerClass "metadata") "user:1" "sections").
  - vm_compute. reflexivity.
  - lia.
  - apply gs_bound_empty.
  - reflexivity.
  - intros s Hs. discriminate Hs.
Defined.

Lemma reg_BumpScope_retires_witness :
  (reg_Get (Some NewGenerations) "user:1" "sections").2.1 ≠
  (reg_Get (reg_BumpScope (reg_Get (Some NewGenerations) "user:1" "sections").1 "user:1") "user:1" "sections").2.1.
Proof.
  apply (reg_BumpScope_retires NewGenerations "user:1" "sections"); [discriminate|].
  vm_compute. split; [discriminate|reflexivity].
Defined.

End Generations.
