(* ===== verification/Valkey.v ===== *)
(** * The cache client (internal/valkey/client.go)

    Command framing, the RESP2 reply parser and the client operations.  The
    bytes the server sends are an argument: a connection is the string of
    bytes still to be read, and every theorem holds whatever that string
    is. *)

From S2P Require Import Prelude GoStrings GoHttp.

Module Valkey.

(** ** Framing *)

Definition LF : ascii := ascii_of_N 10.
Definition CR : ascii := ascii_of_N 13.
Definition CRLF : string := String CR (String LF EmptyString).

Definition encode_arg (a : string) : string := "$" +:+ Itoa (slen a) +:+ CRLF +:+ a +:+ CRLF.

Fixpoint encode_args (args : list string) : string :=
  match args with [] => "" | a :: r => encode_arg a +:+ encode_args r end.

(** The bytes [roundTrip] writes. *)
Definition encode_command (args : list string) : string :=
  "*" +:+ Itoa (Z.of_nat (length args)) +:+ CRLF +:+ encode_args args.

(** ** Replies *)

Inductive reply :=
  | RSimple (s : string)
  | RError (s : string)
  | RInt (n : Z)
  | RNil
  | RBulk (b : string)
  | RArray (l : list reply).

(** [bufio.Reader.ReadString('\n')]: the line with its terminator, and what
    follows; an input without one is an error. *)
Fixpoint ReadString (s : string) : option (string * string) :=
  match s with
  | EmptyString => None
  | String c r =>
      if Ascii.eqb c LF then Some (String c EmptyString, r)
      else '(line, rest) ← ReadString r; Some (String c line, rest)
  end.

(** The largest allocation of the supported platforms; [make] panics beyond
    it and on a negative length. *)
Definition maxAlloc : Z := 2 ^ 48.
Definition make_ok (n size : Z) : bool := (0 <=? n) && (n * size <=? maxAlloc).

(** Reading exactly [n] bytes in a loop of short reads. *)
Definition read_full (n : Z) (s : string) : option (string * string) :=
  if n <=? slen s then Some (stake (Z.to_nat n) s, sdrop (Z.to_nat n) s) else None.

(** [readReply]; the fuel bounds the nesting and the array loop, [None] is
    running out of it. *)
Fixpoint readReply (fuel : nat) (s : string) : option (outcome (reply * string)) :=
  match fuel with
  | O => None
  | S f =>
      match ReadString s with
      | None => Some (Err "EOF")
      | Some (line, rest) =>
          if slen line <? 3 then Some (Err "valkey: short reply")
          else
            match line with
            | EmptyString => Some (Err "valkey: short reply")
            | String typ tl =>
                let body := TrimSuffix tl CRLF in
                if byte_is typ 43 then Some (Ok (RSimple body, rest))
                else if byte_is typ 45 then Some (Ok (RError body, rest))
                else if byte_is typ 58 then
                  match Atoi body with
                  | None => Some (Err "valkey: bad integer")
                  | Some n => Some (Ok (RInt n, rest))
                  end
                else if byte_is typ 36 then
                  match Atoi body with
                  | None => Some (Err "valkey: bad bulk length")
                  | Some n =>
                      if n <? 0 then Some (Ok (RNil, rest))
                      else if negb (make_ok (int64 (n + 2)) 1) then Some Panic
                      else match read_full (n + 2) rest with
                           | None => Some (Err "EOF")
                           | Some (buf, rest') => Some (Ok (RBulk (stake (Z.to_nat n) buf), rest'))
                           end
                  end
                else if byte_is typ 42 then
                  match Atoi body with
                  | None => Some (Err "valkey: bad array length")
                  | Some n =>
                      if n <? 0 then Some (Ok (RNil, rest))
                      else if negb (make_ok n 16) then Some Panic
                      else match readMany f n rest [] with
                           | None => None
                           | Some (Ok (l, rest')) => Some (Ok (RArray l, rest'))
                           | Some (Err m) => Some (Err m)
                           | Some Panic => Some Panic
                           end
                  end
                else Some (Err "valkey: unknown reply type")
            end
      end
  end
with readMany (fuel : nat) (n : Z) (s : string) (out : list reply)
    : option (outcome (list reply * string)) :=
  match fuel with
  | O => None
  | S f =>
      if n <=? 0 then Some (Ok (out, s))
      else match readReply f s with
           | None => None
           | Some (Err m) => Some (Err m)
           | Some Panic => Some Panic
           | Some (Ok (e, s')) => readMany f (n - 1) s' (out ++ [e])
           end
  end.

(** Fuel for an input: every reply consumes at least three bytes. *)
Definition reply_fuel (s : string) : nat := (String.length s + 1)%nat.

Definition parseReply (s : string) : outcome (reply * string) :=
  match readReply (reply_fuel s) s with Some o => o | None => Panic end.

(** ** The client *)

Record Client := mkClient { addr : string; timeout : Z; conn : option string }.

Definition NewClient (a : string) (t : Z) : Client :=
  mkClient a (if t <=? 0 then 2 * Second else t) None.

Definition Close (c : Client) : Client :=
  match conn c with None => c | Some _ => mkClient (addr c) (timeout c) None end.

Definition dropLocked (c : Client) : Client := mkClient (addr c) (timeout c) None.

(** What the network does in one call: the bytes a new connection would
    deliver, or a dial failure; whether the write fails; and the bytes that
    arrive on an open connection. *)
Record network := mkNetwork {
  net_dial : option string;
  net_write_ok : bool;
  net_reply : string;
}.

Definition ensureLocked (net : network) (c : Client) : outcome Client :=
  match conn c with
  | Some _ => Ok c
  | None =>
      if addr c =s "" then Err "valkey: no address"
      else match net_dial net with
           | None => Err "dial"
           | Some buf => Ok (mkClient (addr c) (timeout c) (Some buf))
           end
  end.

(** One command and its reply; the client state and the result. *)
Definition roundTrip (net : network) (c : Client) (args : list string) : Client * outcome reply :=
  match ensureLocked net c with
  | Err m => (c, Err m)
  | Panic => (c, Panic)
  | Ok c =>
      if negb (net_write_ok net) then (dropLocked c, Err "write")
      else match parseReply (default "" (conn c) +:+ net_reply net) with
           | Err m => (dropLocked c, Err m)
           | Panic => (c, Panic)
           | Ok (r, rest) =>
               let c := mkClient (addr c) (timeout c) (Some rest) in
               match r with
               | RError e => (c, Err ("valkey: " +:+ e))
               | _ => (c, Ok r)
               end
           end
  end.

Definition Get (net : network) (c : Client) (key : string) : Client * outcome (option string) :=
  match roundTrip net c ["GET"; key] with
  | (c, Err m) => (c, Err m)
  | (c, Panic) => (c, Panic)
  | (c, Ok RNil) => (c, Ok None)
  | (c, Ok (RBulk b)) => (c, Ok (Some b))
  | (c, Ok _) => (c, Err "valkey: unexpected GET reply")
  end.

(** The arguments of the SET command; a lifetime is sent in whole seconds. *)
Definition set_args (key val : string) (ttl : Z) : list string :=
  if 0 <? ttl then ["SET"; key; val; "EX"; Itoa (Z.quot ttl Second)] else ["SET"; key; val].

Definition Set_ (net : network) (c : Client) (key val : string) (ttl : Z) : Client * outcome unit :=
  match roundTrip net c (set_args key val ttl) with
  | (c, Err m) => (c, Err m)
  | (c, Panic) => (c, Panic)
  | (c, Ok (RSimple s)) => if s =s "OK" then (c, Ok tt) else (c, Err "valkey: unexpected SET reply")
  | (c, Ok _) => (c, Err "valkey: unexpected SET reply")
  end.

Definition Del (net : network) (c : Client) (key : string) : Client * outcome unit :=
  match roundTrip net c ["DEL"; key] with
  | (c, Err m) => (c, Err m)
  | (c, Panic) => (c, Panic)
  | (c, Ok (RInt _)) => (c, Ok tt)
  | (c, Ok _) => (c, Err "valkey: unexpected DEL reply")
  end.

Definition setnx_secs (ttl : Z) : Z := let secs := Z.quot ttl Second in if secs <=? 0 then 5 else secs.

Definition SetNX (net : network) (c : Client) (key val : string) (ttl : Z) : Client * outcome bool :=
  match roundTrip net c ["SET"; key; val; "EX"; Itoa (setnx_secs ttl); "NX"] with
  | (c, Err m) => if Contains m "nil" then (c, Ok false) else (c, Err m)
  | (c, Panic) => (c, Panic)
  | (c, Ok RNil) => (c, Ok false)
  | (c, Ok (RSimple s)) => (c, Ok (s =s "OK"))
  | (c, Ok _) => (c, Ok false)
  end.

Example frame_ex : encode_command ["GET"; "k"] =
  "*2" +:+ CRLF +:+ "$3" +:+ CRLF +:+ "GET" +:+ CRLF +:+ "$1" +:+ CRLF +:+ "k" +:+ CRLF.
Proof. reflexivity. Qed.
Example reply_ex : parseReply ("*2" +:+ CRLF +:+ "$-1" +:+ CRLF +:+ ":42" +:+ CRLF +:+ "rest") =
  Ok (RArray [RNil; RInt 42], "rest").
Proof. vm_compute. reflexivity. Qed.

(** ** The parser terminates *)

Lemma ReadString_split s line rest : ReadString s = Some (line, rest) → s = line +:+ rest.
Proof.
  revert line rest. induction s as [|c s IH]; intros line rest E; [done|]. cbn [ReadString] in E.
  destruct (Ascii.eqb c LF); simplify_eq/=; [done|].
  destruct (ReadString s) as [[l r]|] eqn:Er; simplify_eq/=.
  by rewrite (IH _ _ eq_refl).
Qed.

(** A parsed reply leaves at least three bytes less. *)
Lemma readReply_consumes f :
  (∀ s r s', readReply f s = Some (Ok (r, s')) → (String.length s' + 3 <= String.length s)%nat) ∧
  (∀ n s out l s', readMany f n s out = Some (Ok (l, s')) → (String.length s' <= String.length s)%nat).
Proof.
  induction f as [|f [IHr IHm]]; [done|]. split.
  - intros s r s'. cbn [readReply].
    destruct (ReadString s) as [[line rest]|] eqn:E; [|done].
    destruct (Z.ltb_spec (slen line) 3) as [|Hl]; [done|].
    apply ReadString_split in E as ->. rewrite length_sapp. unfold slen in Hl.
    destruct line as [|typ tl]; [done|].
    repeat case_match; intros; simplify_eq; try lia.
    + unfold read_full in *. case_match; simplify_eq. rewrite length_sdrop. lia.
    + apply IHm in H7. lia.
  - intros n s out l s'. cbn [readMany].
    destruct (n <=? 0); [intros; simplify_eq; lia|].
    destruct (readReply f s) as [[[e s1]|m|]|] eqn:E; [|done..].
    intros Hm. apply IHm in Hm. apply IHr in E. lia.
Qed.

Lemma readReply_fuel f :
  (∀ s, (String.length s < f)%nat → readReply f s ≠ None) ∧
  (∀ n s out, (String.length s + 1 < f)%nat → readMany f n s out ≠ None).
Proof.
  induction f as [|f [IHr IHm]]; [split; lia|]. split.
  - intros s Hs. cbn [readReply].
    destruct (ReadString s) as [[line rest]|] eqn:E; [|done].
    destruct (Z.ltb_spec (slen line) 3) as [|Hl]; [done|].
    apply ReadString_split in E as ->. rewrite length_sapp in Hs. unfold slen in Hl.
    destruct line as [|typ tl]; [done|].
    repeat case_match; try done. exfalso. eapply IHm; [|eassumption]. lia.
  - intros n s out Hs. cbn [readMany]. destruct (n <=? 0); [done|].
    pose proof (IHr s ltac:(lia)) as H1.
    destruct (readReply f s) as [[[e s1]|m|]|] eqn:E; [|done..].
    apply readReply_consumes in E. apply IHm. lia.
Qed.

(** The reply parser terminates on every input: fuel linear in the
    number of bytes read is enough, for arrays nested to any depth and of
    any announced length. *)
Theorem parseReply_terminates s :
  ∃ o, readReply (reply_fuel s) s = Some o ∧ parseReply s = o.
Proof.
  unfold parseReply. pose proof (proj1 (readReply_fuel (reply_fuel s)) s) as H.
  unfold reply_fuel in *. destruct (readReply _ s) as [o|]; [by exists o|].
  destruct H; [lia|done].
Qed.

(** ** Framing *)

Lemma ReadString_line a rest : free_of LF a → ReadString (a +:+ String LF rest) = Some (a +:+ String LF "", rest).
Proof.
  induction a as [|c a IH]; intros Ha; [done|].
  apply free_of_cons in Ha as [Hc Ha]. cbn [String.append ReadString]. rewrite (proj2 (Ascii.eqb_neq c LF)) by done.
  by rewrite IH.
Qed.

Lemma TrimSuffix_app a p : TrimSuffix (a +:+ p) p = a.
Proof.
  unfold TrimSuffix. replace (HasSuffix (a +:+ p) p) with true by (symmetry; apply HasSuffix_spec; by exists a).
  rewrite length_sapp. replace (_ - _)%nat with (String.length a) by lia. apply stake_app.
Qed.

Lemma Itoa_free_LF n : free_of LF (Itoa n).
Proof. apply Itoa_chars; [|done]. intros m Hm. unfold pretty_N_char. by repeat case_match. Qed.

(** The header line of a length. *)
Lemma ReadString_header (t : ascii) n rest :
  t ≠ LF →
  ReadString (String t EmptyString +:+ Itoa n +:+ CRLF +:+ rest) = Some (String t (Itoa n +:+ CRLF), rest).
Proof.
  intros Ht.
  replace (String t EmptyString +:+ Itoa n +:+ CRLF +:+ rest) with
    ((String t (Itoa n +:+ String CR "")) +:+ String LF rest)
    by (cbn; f_equal; by rewrite sapp_assoc).
  rewrite ReadString_line.
  - f_equal. f_equal. cbn. f_equal. by rewrite sapp_assoc.
  - apply free_of_cons. split; [done|]. apply free_of_app. split; [apply Itoa_free_LF|done].
Qed.

Lemma Itoa_nonempty n : 0 <= n < 2 ^ 63 → Itoa n ≠ "".
Proof. intros Hn E. pose proof (Atoi_Itoa n Hn) as H. by rewrite E in H. Qed.

Lemma header_long t n : 0 <= n < 2 ^ 63 → (slen (String t (Itoa n +:+ CRLF)) <? 3) = false.
Proof.
  intros Hn. apply Z.ltb_ge. unfold slen. cbn [String.length]. rewrite length_sapp. cbn [String.length CRLF].
  pose proof (Itoa_nonempty n Hn). destruct (Itoa n); [done|]. cbn. lia.
Qed.

Definition arg_ok (a : string) : Prop := slen a + 2 <= maxAlloc.

Lemma make_ok_true n size : 0 <= n → n * size <= maxAlloc → make_ok n size = true.
Proof. intros. unfold make_ok. rewrite andb_true_iff, !Z.leb_le. lia. Qed.

Lemma readReply_arg f a rest :
  arg_ok a → readReply (S f) (encode_arg a +:+ rest) = Some (Ok (RBulk a, rest)).
Proof.
  intros Ha. unfold arg_ok, maxAlloc in Ha. assert (0 <= slen a) by (unfold slen; lia).
  cbn [readReply].
  replace (encode_arg a +:+ rest) with
    (String "$" EmptyString +:+ Itoa (slen a) +:+ CRLF +:+ (a +:+ CRLF +:+ rest))
    by (unfold encode_arg; by rewrite !sapp_assoc).
  rewrite ReadString_header, header_long by (done || lia). cbv zeta.
  cbn -[Atoi TrimSuffix CRLF slen int64 make_ok read_full stake Z.to_nat].
  rewrite TrimSuffix_app, Atoi_Itoa by lia.
  replace (slen a <? 0) with false by (symmetry; apply Z.ltb_ge; lia).
  rewrite int64_id by (unfold is_int64; lia). rewrite make_ok_true by (unfold maxAlloc; lia).
  cbn [negb]. unfold read_full.
  assert (Hlen : slen (a +:+ CRLF +:+ rest) = slen a + 2 + slen rest)
    by (unfold slen; rewrite !length_sapp; cbn; lia).
  rewrite Hlen, (proj2 (Z.leb_le _ _)) by (unfold slen; lia).
  replace (Z.to_nat (slen a + 2)) with (String.length (a +:+ CRLF))
    by (rewrite length_sapp; unfold slen; cbn; lia).
  rewrite <- sapp_assoc, stake_app, sdrop_app.
  replace (Z.to_nat (slen a)) with (String.length a) by (unfold slen; lia). by rewrite stake_app.
Qed.

Lemma readMany_args f args rest out :
  Forall arg_ok args → (length args < f)%nat →
  readMany (S f) (Z.of_nat (length args)) (encode_args args +:+ rest) out =
  Some (Ok (out ++ (RBulk <$> args), rest)).
Proof.
  revert f out. induction args as [|a args IH]; intros f out Ha Hf.
  - cbn. by rewrite app_nil_r.
  - apply Forall_cons in Ha as [Ha Has]. destruct f as [|f]; [cbn in Hf; lia|].
    change (readMany (S (S f)) (Z.of_nat (length (a :: args))) (encode_args (a :: args) +:+ rest) out)
      with (if Z.of_nat (length (a :: args)) <=? 0 then Some (Ok (out, encode_args (a :: args) +:+ rest))
            else match readReply (S f) (encode_args (a :: args) +:+ rest) with
                 | None => None
                 | Some (Err m) => Some (Err m)
                 | Some Panic => Some Panic
                 | Some (Ok (e, s')) =>
                     readMany (S f) (Z.of_nat (length (a :: args)) - 1) s' (out ++ [e])
                 end).
    rewrite (proj2 (Z.leb_gt _ _)) by (cbn [length]; lia).
    cbn [encode_args]. rewrite sapp_assoc, readReply_arg by done.
    replace (Z.of_nat (length (a :: args)) - 1) with (Z.of_nat (length args)) by (cbn [length]; lia).
    rewrite IH by (done || (cbn [length] in Hf; lia)).
    rewrite fmap_cons. by rewrite <- (assoc_L (++)).
Qed.

Lemma encode_args_length args : (length args <= String.length (encode_args args))%nat.
Proof.
  induction args as [|a args IH]; [done|]. cbn [encode_args length]. rewrite length_sapp.
  unfold encode_arg. rewrite !length_sapp. cbn. lia.
Qed.

Definition command_ok (args : list string) : Prop :=
  Forall arg_ok args ∧ Z.of_nat (length args) * 16 <= maxAlloc.

(** Framing is binary safe: a peer that reads a command as the protocol
    prescribes gets back exactly the arguments, whatever bytes the key and
    the stored value contain, and stops exactly at the end of the command. *)
Theorem command_roundtrip args rest :
  command_ok args → parseReply (encode_command args +:+ rest) = Ok (RArray (RBulk <$> args), rest).
Proof.
  intros [Ha Hn]. unfold maxAlloc in Hn. unfold parseReply.
  assert (Hf : ∃ f, reply_fuel (encode_command args +:+ rest) = S (S f) ∧ (length args < f)%nat).
  { exists (reply_fuel (encode_command args +:+ rest) - 2)%nat.
    pose proof (encode_args_length args).
    assert (1 <= String.length (Itoa (Z.of_nat (length args))))%nat.
    { pose proof (Itoa_nonempty (Z.of_nat (length args)) ltac:(lia)) as Hne.
      destruct (Itoa _) as [|c r]; [done|]. cbn [String.length]. lia. }
    unfold reply_fuel, encode_command. rewrite !length_sapp. cbn [String.length CRLF]. lia. }
  destruct Hf as (f & -> & Hf).
  replace (encode_command args +:+ rest) with
    (String "*" EmptyString +:+ Itoa (Z.of_nat (length args)) +:+ CRLF +:+ (encode_args args +:+ rest))
    by (unfold encode_command; by rewrite !sapp_assoc).
  set (many := readMany). cbn [readReply]. fold many.
  rewrite ReadString_header, header_long by (done || lia). cbv zeta.
  cbn -[many Atoi Itoa Z.of_nat TrimSuffix CRLF slen make_ok length].
  rewrite TrimSuffix_app, Atoi_Itoa by lia.
  replace (Z.of_nat (length args) <? 0) with false by (symmetry; apply Z.ltb_ge; lia).
  rewrite (make_ok_true (Z.of_nat (length args)) 16) by (unfold maxAlloc; lia). cbn [negb].
  unfold many. rewrite readMany_args by done. done.
Qed.

(** ** The connection *)

(** A reply is never read from the middle of another one: after a call
    the client either holds no connection, or its connection stands exactly
    behind the reply it parsed; every transport or protocol error drops the
    connection. *)
Theorem roundTrip_synchronised net c args c' res :
  roundTrip net c args = (c', res) → res ≠ Panic →
  conn c' = None ∨
  ∃ c1 r rest, ensureLocked net c = Ok c1 ∧
    parseReply (default "" (conn c1) +:+ net_reply net) = Ok (r, rest) ∧ conn c' = Some rest ∧
    (res = Ok r ∨ ∃ e, r = RError e ∧ res = Err ("valkey: " +:+ e)).
Proof.
  unfold roundTrip. intros E Hp.
  destruct (ensureLocked net c) as [c1|m|] eqn:Ee; simplify_eq.
  - destruct (net_write_ok net); cbn [negb] in E; [|injection E as <- <-; by left].
    destruct (parseReply _) as [[r rest]|m|] eqn:Er; [|injection E as <- <-; by left|by simplify_eq].
    right. exists c1, r, rest. destruct r; injection E as <- <-; eauto 10.
  - left. unfold ensureLocked in Ee. by destruct (conn c').
Qed.

(** ** Witnesses *)

Lemma command_roundtrip_witness :
  parseReply (encode_command ["SET"; "k"; "a" +:+ CRLF +:+ "$-1" +:+ CRLF] +:+ "x") =
  Ok (RArray (RBulk <$> ["SET"; "k"; "a" +:+ CRLF +:+ "$-1" +:+ CRLF]), "x").
Proof.
  apply (command_roundtrip ["SET"; "k"; "a" +:+ CRLF +:+ "$-1" +:+ CRLF] "x").
  split; [|vm_compute; discriminate]. repeat constructor; vm_compute; discriminate.
Defined.

Definition w_net : network := mkNetwork (Some "") true ("$-1" +:+ CRLF).

Lemma roundTrip_synchronised_witness :
  conn (roundTrip w_net (NewClient "valkey:6379" 0) ["GET"; "k"]).1 = None ∨
  ∃ c1 r rest, ensureLocked w_net (NewClient "valkey:6379" 0) = Ok c1 ∧
    parseReply (default "" (conn c1) +:+ net_reply w_net) = Ok (r, rest) ∧
    conn (roundTrip w_net (NewClient "valkey:6379" 0) ["GET"; "k"]).1 = Some rest ∧
    (Ok RNil = Ok r ∨ ∃ e, r = RError e ∧ Ok RNil = Err ("valkey: " +:+ e)).
Proof.
  apply (roundTrip_synchronised w_net (NewClient "valkey:6379" 0) ["GET"; "k"]
    (roundTrip w_net (NewClient "valkey:6379" 0) ["GET"; "k"]).1 (Ok RNil)).
  - vm_compute. reflexivity.
  - discriminate.
Defined.

End Valkey.
