(* ===== verification/CacheStore.v ===== *)
(** * Response stores (internal/cache/cache.go: Store, Memory, ValkeyStore)

    The in-process store with per-entry expiry and the store behind the
    cache client. *)

From S2P Require Import Prelude GoStrings GoHttp CacheEntry Valkey.

Module CacheStore.

Import CacheEntry.

(** ** Memory *)

Record memItem := mkMemItem { entry : Entry; exp : Z }.

Notation Memory := (gmap string memItem) (only parsing).

Definition NewMemory : Memory := ∅.

(** [Get] at the instant [now]: the store and the entry found. *)
Definition mem_Get (now : Z) (m : Memory) (key : string) : Memory * option Entry :=
  match m !! key with
  | None => (delete key m, None)
  | Some it => if exp it <? now then (delete key m, None) else (m, Some (entry it))
  end.

(** [Set]; the flag says whether it returned no error. *)
Definition mem_Set (now : Z) (m : Memory) (key : string) (e : Entry) (ttl : Z) : Memory * bool :=
  if ttl <=? 0 then (m, false) else (<[key := mkMemItem e (now + ttl)]> m, true).

Definition mem_Delete (m : Memory) (key : string) : Memory := delete key m.

(** ** ValkeyStore *)

(** A nil store or client is [None]. *)
Definition vs_Get (net : Valkey.network) (c : option Valkey.Client) (key : string)
    : option Valkey.Client * outcome (option Entry) :=
  match c with
  | None => (None, Ok None)
  | Some c =>
      match Valkey.Get net c key with
      | (c, Err m) => (Some c, Err m)
      | (c, Panic) => (Some c, Panic)
      | (c, Ok None) => (Some c, Ok None)
      | (c, Ok (Some raw)) =>
          match Unmarshal raw with
          | Ok e => (Some c, Ok (Some e))
          | Err _ => (Some c, Ok None)
          | Panic => (Some c, Panic)
          end
      end
  end.

Definition vs_Set (net : Valkey.network) (c : option Valkey.Client) (key : string) (e : Entry) (ttl : Z)
    : option Valkey.Client * outcome unit :=
  match c with
  | None => (None, Ok tt)
  | Some c =>
      match Marshal e with
      | Err m => (Some c, Err m)
      | Panic => (Some c, Panic)
      | Ok raw => let '(c, r) := Valkey.Set_ net c key raw ttl in (Some c, r)
      end
  end.

Definition vs_Delete (net : Valkey.network) (c : option Valkey.Client) (key : string)
    : option Valkey.Client * outcome unit :=
  match c with
  | None => (None, Ok tt)
  | Some c => let '(c, r) := Valkey.Del net c key in (Some c, r)
  end.

(** ** What the in-process store returns *)

Inductive event :=
  | EGet (now : Z) (key : string)
  | ESet (now : Z) (key : string) (e : Entry) (ttl : Z)
  | EDelete (key : string).

Definition step (m : Memory) (ev : event) : Memory :=
  match ev with
  | EGet now k => (mem_Get now m k).1
  | ESet now k e ttl => (mem_Set now m k e ttl).1
  | EDelete k => mem_Delete m k
  end.

(** The call that currently decides a key: its last store or removal. *)
Definition writes (key : string) (ev : event) : bool :=
  match ev with
  | EGet _ _ => false
  | ESet _ k _ ttl => (k =s key) && (0 <? ttl)
  | EDelete k => k =s key
  end.

Lemma step_keeps m ev key it :
  step m ev !! key = Some it →
  (writes key ev = false ∧ m !! key = Some it) ∨
  (∃ now e ttl, ev = ESet now key e ttl ∧ 0 < ttl ∧ it = mkMemItem e (now + ttl)).
Proof.
  destruct ev as [now k|now k e ttl|k]; cbn [step writes].
  - intros H. left. split; [done|]. revert H. unfold mem_Get.
    destruct (m !! k) as [i|] eqn:Em; [case_match|]; cbn [fst]; try done;
      rewrite lookup_delete_Some; naive_solver.
  - unfold mem_Set. destruct (Z.leb_spec ttl 0); cbn [fst].
    + intros Hm. left. split; [|done]. rewrite (proj2 (Z.ltb_ge 0 ttl)) by lia. apply andb_false_r.
    + destruct (String.eqb_spec k key) as [->|Hne].
      * rewrite lookup_insert_eq. intros. simplify_eq. right. eauto 10.
      * rewrite lookup_insert_ne by done. intros. by left.
  - unfold mem_Delete. rewrite lookup_delete_Some. intros [Hne Hm]. left.
    split; [by apply String.eqb_neq|done].
Qed.

(** An in-process hit is the latest stored response and is fresh: if a
    look-up at [now] finds an entry after any history of calls, that entry
    was stored by a call on this very key with a positive lifetime that has
    not run out, and no later call replaced or deleted it. *)
Theorem mem_hit_is_last_set h now key e :
  (mem_Get now (foldl step NewMemory h) key).2 = Some e →
  ∃ before t0 ttl after, h = before ++ ESet t0 key e ttl :: after ∧
    0 < ttl ∧ now <= t0 + ttl ∧ ∀ ev, ev ∈ after → writes key ev = false.
Proof.
  intros Hg.
  assert (Hit : ∃ it, foldl step NewMemory h !! key = Some it ∧ entry it = e ∧ now <= exp it).
  { revert Hg. unfold mem_Get. destruct (_ !! key) as [it|]; [|done].
    destruct (Z.ltb_spec (exp it) now); [done|]. intros. simplify_eq/=. eauto. }
  clear Hg. destruct Hit as (it & Hm & <- & Hexp).
  induction h as [|ev h IH] using rev_ind; [unfold NewMemory in Hm; cbn [foldl] in Hm; by rewrite lookup_empty in Hm|].
  rewrite foldl_app in Hm. cbn [foldl] in Hm.
  apply step_keeps in Hm as [[Hw Hm]|(t0 & e & ttl & -> & Hpos & ->)].
  - destruct (IH Hm) as (b & t0 & ttl & a & -> & Hpos & Hle & Ha).
    exists b, t0, ttl, (a ++ [ev]). split; [by rewrite <- (assoc_L (++))|].
    split; [done|]. split; [done|]. intros ev' [?| ->%list_elem_of_singleton]%elem_of_app; eauto.
  - exists h, t0, ttl, []. cbn in *. split; [done|]. split; [done|]. split; [done|]. set_solver.
Qed.

(** ** What the shared store returns *)

Lemma parse_bulk b rest :
  slen b + 2 <= Valkey.maxAlloc →
  Valkey.parseReply (Valkey.encode_arg b +:+ rest) = Ok (Valkey.RBulk b, rest).
Proof.
  intros Hb. unfold Valkey.parseReply, Valkey.reply_fuel. rewrite Nat.add_1_r.
  by rewrite Valkey.readReply_arg.
Qed.

(** What was stored is what is served: for a well-formed response the
    store sends one SET of some bytes with the lifetime in whole seconds,
    and whenever the server answers a GET of the key with those bytes the
    look-up returns the identical response. *)
Theorem vs_roundtrip key e ttl :
  wf_entry e → slen (ContentType e) <= 2 ^ 31 → slen (hraw (Headers e)) <= 2 ^ 31 →
  ∃ b, Marshal e = Ok b ∧
    (∀ net c, vs_Set net (Some c) key e ttl =
       let '(c', r) := Valkey.Set_ net c key b ttl in (Some c', r)) ∧
    (∀ c rest, Valkey.conn c = Some "" →
       vs_Get (Valkey.mkNetwork None true (Valkey.encode_arg b +:+ rest)) (Some c) key =
       (Some (Valkey.mkClient (Valkey.addr c) (Valkey.timeout c) (Some rest)), Ok (Some e))).
Proof.
  intros Hwf Hct Hhr. destruct (Unmarshal_Marshal_lemma e Hwf) as (b & Hm & Hu).
  exists b. split; [done|]. split.
  - intros net c. cbn. by rewrite Hm.
  - intros c rest Hc. unfold vs_Get, Valkey.Get, Valkey.roundTrip, Valkey.ensureLocked. rewrite Hc.
    cbn [Valkey.net_write_ok Valkey.net_reply negb]. rewrite Hc.
    change (default "" (Some "") +:+ (Valkey.encode_arg b +:+ rest)) with (Valkey.encode_arg b +:+ rest).
    rewrite parse_bulk; [by rewrite Hu|].
    destruct Hwf as (_ & _ & _ & Hb & _). unfold Marshal in Hm.
    destruct (MaxEntryBytes <? slen (Body e)); [done|]. cbv zeta in Hm.
    apply (f_equal (λ o, match o with Ok b => String.length b | _ => O end)) in Hm.
    rewrite !length_sapp, !length_PutUint32 in Hm. unfold slen in *. cbn [String.length] in Hm. unfold MaxEntryBytes, Valkey.maxAlloc in *.
    change (Z.shiftl 2 20) with 2097152 in Hb. lia.
Qed.

(** The shared store fails open: a disabled store always misses,
    a reply that is not a decodable entry reads as a miss or an error, and
    a hit carries only allowlisted headers, whatever the server sends. *)
Theorem vs_Get_fail_open net c key :
  match (vs_Get net c key).2 with
  | Ok (Some e) => ∃ raw rest c1, c = Some c1 ∧
      (∃ c2, Valkey.ensureLocked net c1 = Ok c2 ∧
             Valkey.parseReply (default "" (Valkey.conn c2) +:+ Valkey.net_reply net) =
             Ok (Valkey.RBulk raw, rest)) ∧
      Unmarshal raw = Ok e ∧ ∀ k v, Headers e !! k = Some v → isSafeHeader k = true
  | Ok None | Err _ => True
  | Panic => ∃ c1 c2, c = Some c1 ∧ Valkey.ensureLocked net c1 = Ok c2 ∧
      Valkey.parseReply (default "" (Valkey.conn c2) +:+ Valkey.net_reply net) = Panic
  end.
Proof.
  destruct c as [c|]; [|done]. unfold vs_Get, Valkey.Get, Valkey.roundTrip.
  destruct (Valkey.ensureLocked net c) as [c1|m|] eqn:Ec; [|done|].
  2: { unfold Valkey.ensureLocked in Ec. by repeat case_match. }
  destruct (Valkey.net_write_ok net); [|done]. cbn [negb].
  destruct (Valkey.parseReply _) as [[r rest]|m|] eqn:Er; [|done|cbn; eauto].
  destruct r as [s|s|n| |raw|l]; try done.
  pose proof (Unmarshal_safe_lemma raw) as Hs. destruct (Unmarshal raw) as [e|m|] eqn:Eu; cbn; [|done..].
  exists raw, rest, c. split; [done|]. split; [eauto|]. split; [done|]. apply Hs.
Qed.

(** ** Witnesses *)

Lemma mem_hit_is_last_set_witness :
  ∃ before t0 ttl after,
    [ESet 0 "k" zeroEntry 5; ESet 10 "k" entry_ex 60; EGet 20 "k"] =
      before ++ ESet t0 "k" entry_ex ttl :: after ∧
    0 < ttl ∧ 70 <= t0 + ttl ∧ ∀ ev, ev ∈ after → writes "k" ev = false.
Proof.
  apply (mem_hit_is_last_set [ESet 0 "k" zeroEntry 5; ESet 10 "k" entry_ex 60; EGet 20 "k"] 70 "k" entry_ex).
  vm_compute. reflexivity.
Defined.

Lemma vs_roundtrip_witness : ∃ b, Marshal entry_ex = Ok b ∧ Unmarshal b = Ok entry_ex.
Proof.
  destruct (vs_roundtrip "k" entry_ex Minute entry_ex_wf) as (b & Hm & _ & _).
  - vm_compute. discriminate.
  - vm_compute. discriminate.
  - exists b. split; [exact Hm|]. injection Hm as <-. vm_compute. reflexivity.
Defined.

End CacheStore.
