(* ===== verification/Grants.v ===== *)
(** * Authorization leases (internal/identity/authorization.go)

    Process-local, bounded leases that allow the reuse of one exact response
    for thirty seconds after PMS served it to the same caller. *)

From S2P Require Import Prelude GoStrings GoHttp GoCrypto.

Module Grants.

Definition ResourceAuthorizationTTL : Z := 30 * Second.
Definition resourceGrantMax : nat := 4096%nat.

Definition grantKey (fingerprint resourceKey : string) : string * string :=
  (fingerprint, sha256hex resourceKey).

(** The leases: expiry instant per caller and resource. *)
Notation ResourceGrants := (gmap (string * string) Z) (only parsing).

Definition NewResourceGrants : ResourceGrants := ∅.

(** The loop of [evict] over the entries in the order [it]: what is left of
    the map, and the soonest-expiring live lease met so far.  An expiry is
    never the zero instant, which the loop uses for "none yet". *)
Fixpoint evict_loop (now : Z) (it : list ((string * string) * Z)) (g : ResourceGrants)
    (oldest : (string * string) * Z) : ResourceGrants * ((string * string) * Z) :=
  match it with
  | [] => (g, oldest)
  | (key, expiry) :: r =>
      if negb (now <? expiry) then evict_loop now r (delete key g) oldest
      else if (oldest.2 =? 0) || (expiry <? oldest.2) then evict_loop now r g (key, expiry)
      else evict_loop now r g oldest
  end.

Definition evict (it : list ((string * string) * Z)) (now : Z) (g : ResourceGrants) : ResourceGrants :=
  let '(g, oldest) := evict_loop now it g (("", ""), 0) in
  if (resourceGrantMax <=? size g)%nat then delete oldest.1 g else g.

(** [Grant] at [now]; [it] is the order in which a call of [evict] would
    range over the map. *)
Definition Grant (it : list ((string * string) * Z)) (now : Z) (g : ResourceGrants)
    (fingerprint resourceKey : string) : ResourceGrants :=
  if (fingerprint =s "") || (resourceKey =s "") then g
  else
    let key := grantKey fingerprint resourceKey in
    let g := match g !! key with
             | None => if (resourceGrantMax <=? size g)%nat then evict it now g else g
             | Some _ => g
             end in
    <[key := now + ResourceAuthorizationTTL]> g.

Definition Authorized (now : Z) (g : ResourceGrants) (fingerprint resourceKey : string)
    : ResourceGrants * bool :=
  if (fingerprint =s "") || (resourceKey =s "") then (g, false)
  else
    let key := grantKey fingerprint resourceKey in
    match g !! key with
    | None => (g, false)
    | Some expires => if negb (now <? expires) then (delete key g, false) else (g, true)
    end.

Definition Revoke (g : ResourceGrants) (fingerprint : string) : ResourceGrants :=
  if fingerprint =s "" then g else filter (λ kv, kv.1.1 ≠ fingerprint) g.

(** ** The calls as a transition system *)

Inductive call :=
  | CGrant (it : list ((string * string) * Z)) (fingerprint resourceKey : string)
  | CCheck (fingerprint resourceKey : string)
  | CRevoke (fingerprint : string).

Definition apply_call (now : Z) (g : ResourceGrants) (c : call) : ResourceGrants :=
  match c with
  | CGrant it fp rk => Grant it now g fp rk
  | CCheck fp rk => (Authorized now g fp rk).1
  | CRevoke fp => Revoke g fp
  end.

(** A state reached by a history of timed calls, latest first; the clock
    does not run backwards and an eviction ranges over the actual map. *)
Inductive reached : list (Z * call) → ResourceGrants → Prop :=
  | reached_new : reached [] NewResourceGrants
  | reached_call h g now c :
      reached h g → 0 < now → (∀ t c', (t, c') ∈ h → t <= now) →
      (∀ it fp rk, c = CGrant it fp rk → it ≡ₚ map_to_list g) →
      reached ((now, c) :: h) (apply_call now g c).

Example grant_ex :
  let g := Grant [] 100 NewResourceGrants "fp" "k" in
  ((Authorized 200 g "fp" "k").2, (Authorized (100 + 30 * Second) g "fp" "k").2,
   (Authorized 200 g "other" "k").2, (Authorized 200 (Revoke g "fp") "fp" "k").2) =
  (true, false, false, false).
Proof. vm_compute. reflexivity. Qed.

(** ** Eviction *)

(** Eviction only removes leases. *)
Lemma evict_loop_sub now it g o : (evict_loop now it g o).1 ⊆ g.
Proof.
  revert g o. induction it as [|[k e] it IH]; intros g o; cbn [evict_loop fst]; [done|].
  repeat case_match; try apply IH. etrans; [apply IH|apply delete_subseteq].
Qed.

Lemma evict_sub it now g : evict it now g ⊆ g.
Proof.
  unfold evict. pose proof (evict_loop_sub now it g (("", ""), 0)) as H.
  destruct (evict_loop _ _ _ _) as [g' o]. cbn [fst] in H.
  case_match; [|done]. etrans; [apply delete_subseteq|done].
Qed.

(** The candidate is a live lease of the map, once one was met. *)
Lemma evict_loop_live now it g o :
  0 < now → NoDup it.*1 →
  (∀ k e, (k, e) ∈ it → g !! k = Some e) →
  (o.2 = 0 ∨ g !! o.1 = Some o.2 ∧ now < o.2 ∧ o.1 ∉ it.*1) →
  let '(g', o') := evict_loop now it g o in
  (∀ k e, (k, e) ∈ it → e <= now → g' !! k = None) ∧
  (o'.2 = 0 ∧ (∀ k e, (k, e) ∈ it → e <= now) ∧ o.2 = 0 ∨ g' !! o'.1 = Some o'.2).
Proof.
  intros Hnow. revert g o. induction it as [|[k e] it IH]; intros g o Hd Hg Ho; cbn [evict_loop].
  - split; [set_solver|]. destruct Ho as [Ho|(Ho & _ & _)]; [|by right]. left.
    split; [done|]. split; [set_solver|done].
  - rewrite fmap_cons in Hd. apply NoDup_cons in Hd as [Hk Hd]. cbn [fst] in Hk.
    assert (Hk' : ∀ e', (k, e') ∉ it).
    { intros e' He. apply Hk. by apply (list_elem_of_fmap_2 fst it (k, e')). }
    destruct (Z.ltb_spec now e) as [Hlt|Hge]; cbn [negb].
    + assert (Hgo : ∀ o2, (g !! o2.1 = Some o2.2 ∧ now < o2.2 ∧ o2.1 ∉ it.*1) →
        let '(g', o') := evict_loop now it g o2 in
        (∀ k0 e0, (k0, e0) ∈ (k, e) :: it → e0 <= now → g' !! k0 = None) ∧
        (o'.2 = 0 ∧ (∀ k0 e0, (k0, e0) ∈ (k, e) :: it → e0 <= now) ∧ o.2 = 0 ∨ g' !! o'.1 = Some o'.2)).
      { intros o2 Ho2. specialize (IH g o2 Hd ltac:(set_solver) ltac:(by right)).
        destruct (evict_loop now it g o2) as [g' o']. destruct IH as [IH1 IH2]. split.
        - intros k0 e0 [?|?]%elem_of_cons; [simplify_eq; lia|eauto].
        - destruct IH2 as [(_ & _ & Hz)|?]; [lia|by right]. }
      destruct ((o.2 =? 0) || (e <? o.2)) eqn:Eo; apply Hgo.
      * cbn. split; [apply Hg; set_solver|done].
      * zbool. destruct Ho as [?|(? & ? & Hni)]; [done|]. set_solver.
    + specialize (IH (delete k g) o Hd).
      assert (Hgd : (delete k g : ResourceGrants) !! k = None) by apply lookup_delete_eq.
      pose proof (evict_loop_sub now it (delete k g) o) as Hsub.
      destruct (evict_loop now it (delete k g) o) as [g' o']. cbn [fst] in Hsub.
      destruct IH as [IH1 IH2].
      { intros k0 e0 He. rewrite lookup_delete_ne; [apply Hg; set_solver|]. intros <-. by eapply Hk'. }
      { destruct Ho as [?|(Ho & ? & Hni)]; [by left|]. right. rewrite fmap_cons in Hni.
        apply not_elem_of_cons in Hni as [Hne Hni]. cbn [fst] in Hne.
        rewrite lookup_delete_ne by done. done. }
      split.
      * intros k0 e0 [?|?]%elem_of_cons; [simplify_eq|eauto].
        intros _. destruct (g' !! k) as [x|] eqn:Ex; [|done].
        eapply lookup_weaken in Ex; [|exact Hsub]. congruence.
      * destruct IH2 as [(? & Hall & ?)|?]; [left|by right].
        split; [done|]. split; [|done]. intros k0 e0 [?|?]%elem_of_cons; [simplify_eq; lia|eauto].
Qed.

Lemma evict_loop_empty now it g o :
  it ≡ₚ map_to_list g → (∀ k e, (k, e) ∈ it → e <= now) → (evict_loop now it g o).1 = ∅.
Proof.
  intros Hp Hall.
  assert (Hgen : ∀ it g o, (∀ k e, (k, e) ∈ it → e <= now) → (∀ k e, g !! k = Some e → (k, e) ∈ it) →
    (evict_loop now it g o).1 = ∅).
  { clear. induction it as [|[k e] it IH]; intros g o Hall Hg; cbn [evict_loop fst].
    - apply map_eq. intros k. rewrite lookup_empty. destruct (g !! k) eqn:E; [|done].
      apply Hg in E. by apply elem_of_nil in E.
    - rewrite (proj2 (Z.ltb_ge now e)) by (apply (Hall k); set_solver). cbn [negb].
      apply IH; [set_solver|]. intros k0 e0 [Hne Hk]%lookup_delete_Some.
      apply Hg in Hk. apply elem_of_cons in Hk as [?|?]; [by simplify_eq|done]. }
  apply Hgen; [done|]. intros k e Hk. rewrite Hp. by apply elem_of_map_to_list.
Qed.

(** A full map has room after an eviction. *)
Lemma evict_room it now g :
  0 < now → it ≡ₚ map_to_list g → (size g <= resourceGrantMax)%nat →
  (size (evict it now g) < resourceGrantMax)%nat.
Proof.
  intros Hnow Hp Hsz. unfold evict.
  assert (Hd : NoDup it.*1) by (rewrite Hp; apply NoDup_fst_map_to_list).
  assert (Hg : ∀ k e, (k, e) ∈ it → g !! k = Some e) by (intros k e; by rewrite Hp, elem_of_map_to_list).
  pose proof (evict_loop_live now it g (("", ""), 0) Hnow Hd Hg ltac:(by left)) as Hl.
  pose proof (evict_loop_sub now it g (("", ""), 0)) as Hsub.
  pose proof (evict_loop_empty now it g (("", ""), 0) Hp) as He.
  destruct (evict_loop now it g (("", ""), 0)) as [g' o]. cbn [fst] in *.
  apply map_subseteq_size in Hsub.
  destruct (Nat.leb_spec resourceGrantMax (size g')); [|done].
  destruct Hl as [_ [(_ & Hall & _)|Hlive]].
  - rewrite (He Hall), map_size_empty in *. unfold resourceGrantMax in *. lia.
  - rewrite map_size_delete, Hlive. unfold resourceGrantMax in *. lia.
Qed.

(** ** Theorems *)

(** The leases are bounded: no history of calls makes the map hold more
    than [resourceGrantMax] of them. *)
Theorem grants_bounded h g : reached h g → (size g <= resourceGrantMax)%nat.
Proof.
  induction 1 as [|h g now c Hr IH Hnow _ Hit]; [unfold NewResourceGrants, resourceGrantMax; rewrite map_size_empty; lia|].
  destruct c as [it fp rk|fp rk|fp]; cbn [apply_call].
  - unfold Grant. case_match; [done|]. cbv zeta.
    destruct (g !! grantKey fp rk) as [e|] eqn:E.
    { rewrite map_size_insert_Some; [done|]. by rewrite E. }
    destruct (Nat.leb_spec resourceGrantMax (size g)).
    + pose proof (evict_room it now g Hnow (Hit _ _ _ eq_refl) IH).
      rewrite map_size_insert. case_match; unfold id; lia.
    + rewrite map_size_insert, E. lia.
  - unfold Authorized. case_match; [done|]. cbv zeta. case_match; [|done]. case_match; [|done].
    cbn [fst]. rewrite map_size_delete. case_match; unfold id; lia.
  - unfold Revoke. case_match; [done|]. etrans; [apply map_size_filter|done].
Qed.

(** Where a lease comes from. *)
Definition granted_by (h : list (Z * call)) (key : string * string) (e : Z) : Prop :=
  ∃ h1 t0 it fp rk h2,
    h = h1 ++ (t0, CGrant it fp rk) :: h2 ∧ key = grantKey fp rk ∧ fp ≠ "" ∧ rk ≠ "" ∧
    e = t0 + ResourceAuthorizationTTL ∧ ∀ t, (t, CRevoke fp) ∉ h1.

Lemma granted_by_later h key e now c :
  granted_by h key e → (∀ fp, c = CRevoke fp → fp ≠ key.1) → granted_by ((now, c) :: h) key e.
Proof.
  intros (h1 & t0 & it & fp & rk & h2 & -> & -> & Hfp & Hrk & -> & Hno) Hc.
  exists ((now, c) :: h1), t0, it, fp, rk, h2. repeat split; try done.
  intros t [E|E]%elem_of_cons; [|by eapply Hno]. injection E as _ E. by apply (Hc fp).
Qed.

Lemma reached_granted h g key e : reached h g → g !! key = Some e → granted_by h key e.
Proof.
  intros Hr. revert key e. induction Hr as [|h g now c Hr IH Hnow _ _]; intros key e Hk; [done|].
  destruct c as [it fp rk|fp rk|fp]; cbn [apply_call] in Hk.
  - unfold Grant in Hk.
    destruct (String.eqb_spec fp "") as [|Hfp]; [by eapply granted_by_later; [apply IH|]|].
    destruct (String.eqb_spec rk "") as [|Hrk]; [by eapply granted_by_later; [apply IH|]|].
    cbn [orb] in Hk. cbv zeta in Hk. apply lookup_insert_Some in Hk as [[<- <-]|[Hne Hk]].
    + exists [], now, it, fp, rk, h. repeat split; try done. intros t. apply not_elem_of_nil.
    + eapply granted_by_later; [apply IH|done].
      repeat case_match; try done. eapply lookup_weaken; [exact Hk|apply evict_sub].
  - eapply granted_by_later; [apply IH|done]. revert Hk. unfold Authorized.
    repeat case_match; cbn [fst]; try done. rewrite lookup_delete_Some. naive_solver.
  - revert Hk. unfold Revoke. destruct (String.eqb_spec fp "") as [->|Hfp].
    + intros Hk. eapply granted_by_later; [by apply IH|]. intros fp [= <-] E.
      destruct (IH _ _ Hk) as (? & ? & ? & ? & ? & ? & _ & -> & Hf & _). by apply Hf.
    + rewrite map_lookup_filter_Some. intros [Hk Hne]. eapply granted_by_later; [by apply IH|].
      by intros fp' [= <-].
Qed.

Lemma authorized_lease h g now fp rk :
  reached h g → (Authorized now g fp rk).2 = true →
  ∃ h1 t0 it rk' h2,
    h = h1 ++ (t0, CGrant it fp rk') :: h2 ∧ sha256hex rk' = sha256hex rk ∧
    now < t0 + ResourceAuthorizationTTL ∧ ∀ t, (t, CRevoke fp) ∉ h1.
Proof.
  intros Hr. unfold Authorized. case_match; [done|]. cbv zeta.
  destruct (g !! grantKey fp rk) as [e|] eqn:E; [|done].
  destruct (Z.ltb_spec now e) as [Hlt|]; cbn [negb snd]; [|done]. intros _.
  apply (reached_granted h) in E as (h1 & t0 & it & fp' & rk' & h2 & -> & Hk & _ & _ & -> & Hno); [|done].
  unfold grantKey in Hk. apply pair_eq in Hk as [-> Hk].
  exists h1, t0, it, rk', h2. by rewrite Hk.
Qed.

(** The authorization contract.  If a check succeeds, then in the
    history of calls this very caller was granted this very resource (by
    digest) after a PMS response, less than thirty seconds ago, and the
    caller's credential was not revoked since.  Checks never extend a
    lease. *)
Theorem authorized_was_granted h g now fp rk :
  reached h g → (Authorized now g fp rk).2 = true →
  ∃ h1 t0 it rk' h2,
    h = h1 ++ (t0, CGrant it fp rk') :: h2 ∧ sha256hex rk' = sha256hex rk ∧
    now < t0 + ResourceAuthorizationTTL ∧ ∀ t, (t, CRevoke fp) ∉ h1.
Proof. apply authorized_lease. Qed.

(** An unexpired lease is honoured: right after a grant, and as long as
    the thirty seconds run, the granted caller is authorized for the
    granted resource, and nobody else's lease changes the answer. *)
Theorem grant_then_authorized (it : list ((string * string) * Z)) (now now' : Z) (g : ResourceGrants) (fp rk fp' rk' : string) :
  fp ≠ "" → rk ≠ "" → now <= now' < now + ResourceAuthorizationTTL →
  (Authorized now' (Grant it now g fp rk) fp rk).2 = true ∧
  (grantKey fp' rk' ≠ grantKey fp rk →
   (Authorized now' (Grant it now g fp rk) fp' rk').2 = true → (Authorized now' g fp' rk').2 = true).
Proof.
  intros Hfp Hrk Hnow. unfold Grant, Authorized.
  destruct (String.eqb_spec fp ""); [done|]. destruct (String.eqb_spec rk ""); [done|]. cbn [orb].
  cbv zeta. split.
  - rewrite lookup_insert_eq. by rewrite (proj2 (Z.ltb_lt _ _)) by lia.
  - intros Hne. destruct ((fp' =s "") || (rk' =s "")); [done|].
    rewrite lookup_insert_ne by done.
    set (g1 := match g !! grantKey fp rk with Some _ => g | None => _ end).
    assert (Hsub : g1 ⊆ g).
    { unfold g1. repeat case_match; try done. apply evict_sub. }
    destruct (g1 !! grantKey fp' rk') as [e|] eqn:E; [|done].
    eapply lookup_weaken in E; [|exact Hsub]. rewrite E. by case_match.
Qed.

(** ** Witnesses *)

Definition hist_ex : list (Z * call) := [(150, CCheck "fp" "k"); (100, CGrant [] "fp" "k")].

Lemma hist_ex_reached :
  reached hist_ex (apply_call 150 (apply_call 100 NewResourceGrants (CGrant [] "fp" "k")) (CCheck "fp" "k")).
Proof.
  apply reached_call; [apply reached_call; [apply reached_new|lia| |]|lia| |].
  - intros t c Hc. by apply elem_of_nil in Hc.
  - intros it fp rk [= <- _ _]. done.
  - intros t c Hc. apply list_elem_of_singleton in Hc. injection Hc as -> _. lia.
  - intros it fp rk E. discriminate E.
Qed.

Lemma grants_bounded_witness :
  (size (apply_call 150 (apply_call 100 NewResourceGrants (CGrant [] "fp" "k")) (CCheck "fp" "k"))
     <= resourceGrantMax)%nat.
Proof. apply (grants_bounded hist_ex). apply hist_ex_reached. Defined.

Lemma authorized_was_granted_witness :
  ∃ h1 t0 it rk' h2,
    hist_ex = h1 ++ (t0, CGrant it "fp" rk') :: h2 ∧ sha256hex rk' = sha256hex "k" ∧
    200 < t0 + ResourceAuthorizationTTL ∧ ∀ t, (t, CRevoke "fp") ∉ h1.
Proof.
  apply (authorized_was_granted hist_ex _ 200 "fp" "k" hist_ex_reached). vm_compute. reflexivity.
Defined.

Lemma grant_then_authorized_witness :
  (Authorized 200 (Grant [] 100 NewResourceGrants "fp" "k") "fp" "k").2 = true.
Proof.
  apply (grant_then_authorized [] 100 200 NewResourceGrants "fp" "k" "fp" "k").
  - discriminate.
  - discriminate.
  - vm_compute. split; [discriminate|reflexivity].
Defined.

End Grants.
