(* ===== verification/Trace.v ===== *)
(** * Request identity (internal/trace/trace.go)

    The client identity, token, session and item a request carries, and the
    fingerprints derived from them. *)

From S2P Require Import Prelude GoStrings GoHttp GoCrypto CacheKeys.

Module Trace.

Import CacheKeys.

Record Client := mkClient {
  ID : string; Product : string; Platform : string;
  Version : string; Device : string; Model : string;
}.

#[global] Instance Client_eq_dec : EqDecision Client.
Proof. solve_decision. Defined.

Definition ExtractClient (r : Request) : Client :=
  let h := ReqHeader r in
  mkClient (HGet h "X-Plex-Client-Identifier") (HGet h "X-Plex-Product") (HGet h "X-Plex-Platform")
    (HGet h "X-Plex-Version") (HGet h "X-Plex-Device") (HGet h "X-Plex-Model").

(** The first non-empty string of a list. *)
Fixpoint first_nonempty (l : list string) : string :=
  match l with [] => "" | s :: r => if negb (s =s "") then s else first_nonempty r end.

Definition tokenParams : list string := ["X-Plex-Token"; "token"; "authToken"].

Definition ExtractToken (r : Request) : string :=
  let t := HGet (ReqHeader r) "X-Plex-Token" in
  if negb (t =s "") then t
  else let q := URLQuery r in first_nonempty (QueryGet q <$> tokenParams).

Definition Fingerprint (secret token : string) : string :=
  if (secret =s "") || (token =s "") then "" else hmacHex secret token.

Definition ExtractSession (r : Request) : string :=
  let h := ReqHeader r in
  if negb (HGet h "X-Plex-Playback-Session-Id" =s "") then HGet h "X-Plex-Playback-Session-Id"
  else if negb (HGet h "X-Plex-Session-Identifier" =s "") then HGet h "X-Plex-Session-Identifier"
  else if negb (QueryGet (URLQuery r) "session" =s "") then QueryGet (URLQuery r) "session"
  else HGet h "X-Plex-Session-Id".

Definition marker : string := "/library/metadata/".

Definition metadataID (v : string) : string :=
  if v =s "" then ""
  else
    let v := match QueryUnescape v with Some d => d | None => v end in
    match Index v marker with
    | None => ""
    | Some i =>
        let rest := sdrop (i + String.length marker) v in
        match IndexAny rest "/?&" with Some e => stake e rest | None => rest end
    end.

Definition ExtractRatingKey (r : Request) : string :=
  let q := URLQuery r in
  if negb (QueryGet q "ratingKey" =s "") then QueryGet q "ratingKey"
  else
    first_nonempty [metadataID (QueryGet q "key"); metadataID (QueryGet q "path");
                    metadataID (QueryGet q "url"); metadataID (Path r)].

Definition IsPlaybackRoute (path : string) : bool :=
  let p := ToLower path in
  if HasPrefix p "/photo/:/transcode" then false
  else HasPrefix p "/library/parts/" || Contains p ":/timeline" || Contains p "/transcode/".

Definition trace_text (userFingerprint clientID sessionID ratingKey : string) : string :=
  userFingerprint +:+ String NUL (clientID +:+ String NUL (sessionID +:+ String NUL ratingKey)).

Definition PlaybackTraceID (secret userFingerprint clientID sessionID ratingKey : string) : string :=
  if (secret =s "") || ((sessionID =s "") && (ratingKey =s "")) then ""
  else if (userFingerprint =s "") && (clientID =s "") then ""
  else hmacHex secret (trace_text userFingerprint clientID sessionID ratingKey).

Example rating_ex :
  (metadataID "%2Flibrary%2Fmetadata%2F42%2Fchildren", metadataID "/library/metadata/7?x=1",
   metadataID "server://abc/library/metadata/9", metadataID "/library/sections/1") =
  ("42", "7", "9", "").
Proof. vm_compute. reflexivity. Qed.

End Trace.
