(* ===== verification/Sessions.v ===== *)
(** * Playback sessions (internal/playback/store.go)

    The negotiated selection a session records, the interface of the session
    store with what the media boundary relies on, and its two
    implementations: the in-process map and the database table. *)

From S2P Require Import Prelude GoStrings.

Module Sessions.

(** ** Sessions *)

Record Session := mkSession {
  ID : string;
  PlexSessionID : string;
  RatingKey : string;
  IdentityID : string;
  ClientUUID : string;
  SelectedMediaIndex : Z;
  SelectedPartPlexID : string;
  SelectedPartKey : string;
  SelectedVariantID : string;
  SelectedPartID : string;
  PlaybackMode : string;
  RoutingMode : string;
  EffectivePolicy : string;
}.

Definition with_id (s : Session) (id : string) : Session :=
  mkSession id (PlexSessionID s) (RatingKey s) (IdentityID s) (ClientUUID s) (SelectedMediaIndex s)
    (SelectedPartPlexID s) (SelectedPartKey s) (SelectedVariantID s) (SelectedPartID s)
    (PlaybackMode s) (RoutingMode s) (EffectivePolicy s).

Definition with_plex (s : Session) (id : string) : Session :=
  mkSession (ID s) id (RatingKey s) (IdentityID s) (ClientUUID s) (SelectedMediaIndex s)
    (SelectedPartPlexID s) (SelectedPartKey s) (SelectedVariantID s) (SelectedPartID s)
    (PlaybackMode s) (RoutingMode s) (EffectivePolicy s).

(** ** The interface *)

(** A session store.  The flag is a failure of the call's environment; the
    error result is [None]. *)
Class SessionStore (St : Type) := {
  ss_create : bool → St → Session → option (St * Session);
  ss_find : bool → St → string → option (option Session);
  ss_end : bool → St → string → St;
}.

(** Two sessions that record the same selection (all but the row id). *)
Definition same_selection (s t : Session) : Prop := with_id s "" = with_id t "".

(** What the boundary relies on. *)
Class SessionLaws (St : Type) `{SessionStore St} := {
  ss_create_find f st s st' s' sid :
    ss_create f st s = Some (st', s') → PlexSessionID s = sid → sid ≠ "" →
    ∃ t, ss_find false st' sid = Some (Some t) ∧ same_selection t s;
  ss_create_ret f st s st' s' :
    ss_create f st s = Some (st', s') → with_plex (with_id s' "") "" = with_plex (with_id s "") "";
  ss_create_other f st s st' s' sid :
    ss_create f st s = Some (st', s') → sid ≠ PlexSessionID s' →
    ss_find false st' sid = ss_find false st sid;
  ss_end_find st sid : sid ≠ "" → ss_find false (ss_end false st sid) sid = Some None;
  ss_end_other f st sid sid' :
    sid' ≠ sid → ss_find false (ss_end f st sid) sid' = ss_find false st sid';
  ss_find_fails st sid r : ss_find true st sid = Some r → r = None ∨ ss_find false st sid = Some r;
}.

(** ** MemoryStore *)

Notation MemoryStore := (gmap string Session) (only parsing).

Definition NewMemoryStore : MemoryStore := ∅.

Definition mem_Create (m : MemoryStore) (s : Session) : MemoryStore * Session :=
  let s := if PlexSessionID s =s "" then with_plex s ("mem-" +:+ RatingKey s) else s in
  (<[PlexSessionID s := s]> m, s).
Definition mem_FindActive (m : MemoryStore) (sid : string) : option Session := m !! sid.
Definition mem_EndSession (m : MemoryStore) (sid : string) : MemoryStore := delete sid m.

#[export] Instance Memory_store : SessionStore (gmap string Session) := {
  ss_create _ m s := Some (mem_Create m s);
  ss_find _ m sid := Some (mem_FindActive m sid);
  ss_end _ m sid := mem_EndSession m sid;
}.

(** ** PGStore *)

(** A row of [playback_sessions]; the list is in the order of [started_at],
    newest first. [NULL] columns are [None]. *)
Record row := mkRow {
  r_id : string;
  r_plex : string;
  r_rating : string;
  r_identity : option string;
  r_client : option string;
  r_variant : option string;
  r_part : option string;
  r_index : Z;
  r_part_plex : string;
  r_part_key : string;
  r_mode : string;
  r_routing : string;
  r_policy : string;
  r_ended : bool;
}.

(** The table, and the identifiers the database will generate. *)
Record PGStore := mkPG { gen_id : nat → string; rows : list row }.

Definition nullIfEmpty (s : string) : option string := if s =s "" then None else Some s.

Definition row_of (s : Session) (id : string) : row :=
  mkRow id (PlexSessionID s) (RatingKey s) (nullIfEmpty (IdentityID s)) (nullIfEmpty (ClientUUID s))
    (nullIfEmpty (SelectedVariantID s)) (nullIfEmpty (SelectedPartID s)) (SelectedMediaIndex s)
    (SelectedPartPlexID s) (SelectedPartKey s) (PlaybackMode s) (RoutingMode s) (EffectivePolicy s) false.

Definition pg_Create (down : bool) (st : PGStore) (s : Session) : option (PGStore * Session) :=
  if down then None
  else let id := gen_id st (length (rows st)) in
       Some (mkPG (gen_id st) (row_of s id :: rows st), with_id s id).

Definition session_of (r : row) : Session :=
  mkSession (r_id r) (r_plex r) (r_rating r) (default "" (r_identity r)) (default "" (r_client r))
    (r_index r) (r_part_plex r) (r_part_key r) (default "" (r_variant r)) (default "" (r_part r))
    (r_mode r) (r_routing r) (r_policy r).

Definition open_for (sid : string) (r : row) : bool := (r_plex r =s sid) && negb (r_ended r).

Definition pg_FindActive (down : bool) (st : PGStore) (sid : string) : option (option Session) :=
  if sid =s "" then Some None
  else if down then None
  else Some (session_of <$> head (filter (λ r, open_for sid r = true) (rows st))).

Definition end_row (sid : string) (r : row) : row :=
  if open_for sid r then
    mkRow (r_id r) (r_plex r) (r_rating r) (r_identity r) (r_client r) (r_variant r) (r_part r)
      (r_index r) (r_part_plex r) (r_part_key r) (r_mode r) (r_routing r) (r_policy r) true
  else r.

Definition pg_EndSession (down : bool) (st : PGStore) (sid : string) : PGStore :=
  if (sid =s "") || down then st else mkPG (gen_id st) (end_row sid <$> rows st).

#[export] Instance PG_store : SessionStore PGStore := {
  ss_create := pg_Create;
  ss_find := pg_FindActive;
  ss_end := pg_EndSession;
}.

(** ** The stores keep the interface's promises *)

Lemma nullIfEmpty_default s : default "" (nullIfEmpty s) = s.
Proof. unfold nullIfEmpty. destruct (String.eqb_spec s ""); by subst. Qed.

#[export] Instance Memory_laws : SessionLaws (gmap string Session).
Proof.
  split; cbn; unfold mem_Create, mem_FindActive, mem_EndSession.
  - intros f st s st' s' sid E <- Hne. rewrite (proj2 (String.eqb_neq _ _)) in E by done.
    injection E as <- <-. exists s. by rewrite lookup_insert_eq.
  - intros f st s st' s' E. injection E as <- <-. by case_match.
  - intros f st s st' s' sid E Hne. injection E as <- <-. by rewrite lookup_insert_ne.
  - intros st sid _. by rewrite lookup_delete_eq.
  - intros f st sid sid' Hne. by rewrite lookup_delete_ne.
  - intros st sid r E. by right.
Qed.

#[export] Instance PG_laws : SessionLaws PGStore.
Proof.
  split; cbn; unfold pg_Create, pg_FindActive, pg_EndSession.
  - intros f st s st' s' sid E <- Hne. destruct f; [done|]. injection E as <- <-.
    rewrite (proj2 (String.eqb_neq _ _)) by done. cbn [rows]. rewrite filter_cons, decide_True.
    + eexists. split; [reflexivity|]. unfold same_selection, session_of, with_id, row_of. cbn.
      by rewrite !nullIfEmpty_default.
    + unfold open_for. cbn. by rewrite String.eqb_refl.
  - intros f st s st' s' E. destruct f; [done|]. by injection E as <- <-.
  - intros f st s st' s' sid E Hne. destruct f; [done|]. injection E as <- <-. cbn in Hne.
    destruct (sid =s ""); [done|]. cbn [rows]. rewrite filter_cons, decide_False; [done|].
    unfold open_for. cbn. by rewrite (proj2 (String.eqb_neq _ _)).
  - intros st sid Hne. rewrite (proj2 (String.eqb_neq _ _)) by done. cbn [orb rows].
    destruct (filter _ _) as [|r l] eqn:E; [done|]. exfalso.
    assert (Hr : r ∈ r :: l) by set_solver. rewrite <- E in Hr.
    apply list_elem_of_filter in Hr as [Ho (r' & -> & _)%list_elem_of_fmap]. revert Ho. unfold end_row.
    destruct (open_for sid r') eqn:Eo; [|congruence]. unfold open_for. cbn. by rewrite andb_false_r.
  - intros f st sid sid' Hne. destruct (sid' =s ""); [done|].
    destruct ((sid =s "") || f); [done|]. cbn [rows]. do 2 f_equal.
    induction (rows st) as [|r l IH]; [done|]. rewrite fmap_cons, !filter_cons.
    assert (open_for sid' (end_row sid r) = open_for sid' r ∧
                 (open_for sid' r = true → end_row sid r = r)) as [-> Hr].
    { unfold end_row. destruct (open_for sid r) eqn:Eo; [|done].
      unfold open_for in *. apply andb_prop in Eo as [E Ed]. apply String.eqb_eq in E. cbn.
      rewrite E, (proj2 (String.eqb_neq sid sid')) by congruence. done. }
    case_decide as Ho; [|exact IH]. cbn [head]. by rewrite Hr.
  - intros st sid r E. destruct (sid =s ""); [|done]. right. done.
Qed.

(** ** The two stores are interchangeable *)

(** A call of the interface, and the answers of a sequence of calls while
    nothing fails. *)
Inductive sop := OCreate (s : Session) | OFind (sid : string) | OEnd (sid : string).

Definition sop_run `{SessionStore St} (st : St) (o : sop) : option (St * option Session) :=
  match o with
  | OCreate s => '(st', s') ← ss_create false st s; Some (st', Some s')
  | OFind sid => r ← ss_find false st sid; Some (st, r)
  | OEnd sid => Some (ss_end false st sid, None)
  end.
Fixpoint sops_run `{SessionStore St} (st : St) (os : list sop) : option (list (option Session)) :=
  match os with
  | [] => Some []
  | o :: os => '(st', r) ← sop_run st o; l ← sops_run st' os; Some (r :: l)
  end.

(** The in-process store gives a session without an identifier one of its
    own; the negotiation never creates such a session. *)
Definition named (o : sop) : Prop := match o with OCreate s => PlexSessionID s ≠ "" | _ => True end.

(** The states answer every look-up alike. *)
Definition agree (m : gmap string Session) (st : PGStore) : Prop :=
  ∀ sid, ∃ r r', ss_find false m sid = Some r ∧ ss_find false st sid = Some r' ∧ option_Forall2 same_selection r r'.

Lemma agree_start gen : agree NewMemoryStore (mkPG gen []).
Proof.
  intros sid. exists None, None. split; [done|]. split; [|constructor].
  cbn. unfold pg_FindActive. by destruct (sid =s "").
Qed.

Lemma agree_create m st s m' st' s1 s2 :
  agree m st → PlexSessionID s ≠ "" →
  ss_create false m s = Some (m', s1) → ss_create false st s = Some (st', s2) → agree m' st' ∧ same_selection s1 s2.
Proof.
  intros Ha Hn E1 E2. pose proof E1 as E1'. pose proof E2 as E2'.
  cbn in E1', E2'. unfold mem_Create in E1'. rewrite (proj2 (String.eqb_neq _ _) Hn) in E1'.
  injection E1' as _ <-. unfold pg_Create in E2'. injection E2' as _ <-. split; [|done]. intros sid.
  destruct (decide (sid = PlexSessionID s)) as [->|Hne].
  - destruct (ss_create_find _ _ _ _ _ _ E1 eq_refl Hn) as (t1 & F1 & S1).
    destruct (ss_create_find _ _ _ _ _ _ E2 eq_refl Hn) as (t2 & F2 & S2).
    exists (Some t1), (Some t2). split; [done|]. split; [done|]. constructor. unfold same_selection in *. congruence.
  - rewrite (ss_create_other _ _ _ _ _ _ E1 Hne), (ss_create_other _ _ _ _ _ sid E2 Hne). apply Ha.
Qed.

Lemma agree_end m st sid : agree m st → agree (ss_end false m sid) (ss_end false st sid).
Proof.
  intros Ha sid'. destruct (decide (sid' = sid)) as [->|Hne].
  - exists None, None. split; [cbn; unfold mem_FindActive, mem_EndSession; by rewrite lookup_delete_eq|].
    split; [|constructor]. destruct (decide (sid = "")) as [->|Hn]; [done|by apply ss_end_find].
  - rewrite !ss_end_other by done. apply Ha.
Qed.

Lemma agree_run os m st :
  agree m st → Forall named os →
  ∃ l l', sops_run m os = Some l ∧ sops_run st os = Some l' ∧ Forall2 (option_Forall2 same_selection) l l'.
Proof.
  intros Ha Hok. revert m st Ha. induction Hok as [|o os Ho _ IH]; intros m st Ha.
  { exists [], []. by split_and!. }
  assert (∃ m1 st1 r r', sop_run m o = Some (m1, r) ∧ sop_run st o = Some (st1, r') ∧ agree m1 st1 ∧
            option_Forall2 same_selection r r') as (m1 & st1 & r & r' & E1 & E2 & Ha1 & Hr).
  { destruct o as [s|sid|sid].
    - destruct (ss_create false m s) as [[m1 s1]|] eqn:C1; [|done].
      destruct (ss_create false st s) as [[st1 s2]|] eqn:C2; [|done].
      destruct (agree_create _ _ _ _ _ _ _ Ha Ho C1 C2) as [Ha1 Hs].
      exists m1, st1, (Some s1), (Some s2). unfold sop_run. rewrite C1, C2. split_and!; try done. by constructor.
    - destruct (Ha sid) as (r & r' & F1 & F2 & Hr). exists m, st, r, r'. unfold sop_run. by rewrite F1, F2.
    - exists (ss_end false m sid), (ss_end false st sid), None, None. split_and!; try done; [by apply agree_end|constructor]. }
  destruct (IH m1 st1 Ha1) as (l & l' & R1 & R2 & Hl). exists (r :: l), (r' :: l').
  cbn [sops_run]. rewrite E1, E2. cbn [mbind option_bind]. rewrite R1, R2. split_and!; try done. by constructor.
Qed.


Definition w_created : Session :=
  mkSession "" "plex" "7" "" "tv" 1 "2" "/library/parts/2" "" "" "direct" "tunnel" "{}".
Definition w_sops : list sop := [OCreate w_created; OEnd "other"; OFind "plex"; OEnd "plex"; OFind "plex"].


End Sessions.
