(* ===== verification/Playback.v ===== *)
(** * Playback negotiation and the media boundary (internal/playback)

    The negotiation request and answer (decision.go), candidates and
    forwarding (flow.go), [HandleDecision] (engine.go) and the part and
    manifest boundary (boundary.go), with the dynamic-range vocabulary of
    internal/sync/normalize.go.

    The services around the engine are arguments: the owner index and the
    policy table, the identity resolver, the PMS origin and the JSON
    decoders. *)

From S2P Require Import Prelude GoStrings GoHttp GoCrypto CacheKeys Policy Trace Sessions.

Module Playback.

Import Sessions.

(** ** The dynamic-range vocabulary (internal/sync/normalize.go) *)

Definition NormalizeDynamicRange (dynamicRange hdrFormat videoCodec videoProfile : string) : string :=
  let text := ToLower (Join [dynamicRange; hdrFormat; videoCodec; videoProfile] " ") in
  let has l := existsb (Contains text) l in
  if has ["dovi"; "dvhe"; "dvav"] || (has ["dolby"] && has ["vision"]) then "DOLBY_VISION"
  else if has ["hdr10+"; "hdr10 plus"; "hdr10plus"] then "HDR10_PLUS"
  else if has ["hdr10"] || (has ["pq"] && negb (has ["hlg"])) then "HDR10"
  else if has ["hlg"] then "HLG"
  else if has ["hdr"] then "HDR_OTHER"
  else if has ["sdr"] then "SDR"
  else "UNKNOWN".

(** ** Candidates (engine.go, flow.go) *)

Record variantSource := mkSource {
  vsMediaIndex : Z;
  vsPlexMediaID : string;
  vsWidth : option Z;
  vsHeight : option Z;
  vsBitrateKbps : option Z;
  vsDynamicRange : string;
  vsVideoCodec : string;
  vsAudioChannels : option Z;
  vsPartAvailable : bool;
  vsPartKey : string;
  vsPartPlexID : string;
  vsVariantUUID : string;
  vsPartUUID : string;
}.

Definition toPolicy (v : variantSource) : Engine.Variant :=
  Engine.mkVariant (vsMediaIndex v) (vsWidth v) (vsHeight v) (vsBitrateKbps v) (vsDynamicRange v)
    (vsVideoCodec v) (vsAudioChannels v) Engine.UnknownPlayability (vsPartAvailable v).

Fixpoint indexOf (sources : list variantSource) (idx : Z) : option variantSource :=
  match sources with
  | [] => None
  | s :: r => if vsMediaIndex s =? idx then Some s else indexOf r idx
  end.

(** ** The negotiation request (decision.go) *)

Record decisionRequest := mkDecisionRequest {
  dRatingKey : string;
  RequestedIndex : Z;
  dSessionID : string;
  ExistingMaxBR : option Z;
  dQuery : Values;
}.

Definition parseDecision (r : Request) : decisionRequest :=
  let q := URLQuery r in
  let idx := match Atoi (QueryGet q "mediaIndex") with
             | Some n => if 0 <=? n then n else 0
             | None => 0
             end in
  let br := match Atoi (QueryGet q "maxVideoBitrate") with
            | Some n => if 0 <? n then Some n else None
            | None => None
            end in
  mkDecisionRequest (Trace.ExtractRatingKey r) idx (Trace.ExtractSession r) br q.

Definition rewriteQuery (q : Values) (selected : Z) (outputCap : option Z) : Values :=
  let out := QuerySet q "mediaIndex" (Itoa selected) in
  match outputCap with
  | None => out
  | Some cap =>
      let cur := QueryGet out "maxVideoBitrate" in
      match (if cur =s "" then None else Atoi cur) with
      | Some n => if n <? cap then out else QuerySet out "maxVideoBitrate" (Itoa cap)
      | None => QuerySet out "maxVideoBitrate" (Itoa cap)
      end
  end.

(** ** The PMS answer *)

(** The decoded JSON envelope: decision code, the three flags, media index. *)
Record decision_env := mkEnv {
  env_code : option Z;
  env_directPlay : bool;
  env_directStream : bool;
  env_transcode : bool;
  env_mediaIndex : option Z;
}.

Record decisionResponse := mkResponse {
  rCode : Z;
  rDirectPlay : bool;
  rDirectStream : bool;
  rTranscode : bool;
  rMediaIndex : option Z;
}.

Definition response_of (e : decision_env) : decisionResponse :=
  mkResponse (default 0 (env_code e)) (env_directPlay e) (env_directStream e) (env_transcode e)
    (env_mediaIndex e).

Definition modeOf (d : decisionResponse) : string :=
  if rDirectPlay d then "directPlay" else if rDirectStream d then "directStream" else "transcode".

(** ** Live candidates (decision.go) *)

Record liveStream := mkLiveStream {
  lsCodec : string; lsProfile : string; lsDisplayTitle : string; lsExtendedDisplayTitle : string;
}.
Record livePart := mkLivePart { lpID : option Z; lpKey : string; lpStream : list liveStream }.
Record liveMedia := mkLiveMedia {
  lmID : option Z;
  lmVideoCodec : string;
  lmVideoProfile : string;
  lmWidth : option Z;
  lmHeight : option Z;
  lmBitrate : option Z;
  lmDynamicRange : string;
  lmHDRFormat : string;
  lmHDR : string;
  lmDisplayTitle : string;
  lmExtendedDisplayTitle : string;
  lmAudioChannels : option Z;
  lmPart : list livePart;
}.

Definition stream_text (l : list liveStream) : string :=
  foldr (λ st acc, " " +:+ lsDisplayTitle st +:+ " " +:+ lsExtendedDisplayTitle st +:+
                   " " +:+ lsCodec st +:+ " " +:+ lsProfile st +:+ acc) "" l.

(** The part loop: it stops after the first part with a key, whose streams
    are still read. *)
Fixpoint live_parts (parts : list livePart) (text : string) : bool * string * string * string :=
  match parts with
  | [] => (false, "", "", text)
  | p :: r =>
      let text := text +:+ stream_text (lpStream p) in
      if negb (lpKey p =s "") then (true, lpKey p, match lpID p with Some n => Itoa n | None => "" end, text)
      else live_parts r text
  end.

Definition live_source (idx : Z) (m : liveMedia) : variantSource :=
  let '(partOK, partKey, partPlexID, text) := live_parts (lmPart m) "" in
  let id := match lmID m with Some n => Itoa n | None => "" end in
  let dr := NormalizeDynamicRange
    (TrimSpace (lmDynamicRange m +:+ " " +:+ lmHDRFormat m +:+ " " +:+ lmHDR m +:+ " " +:+
                lmDisplayTitle m +:+ " " +:+ lmExtendedDisplayTitle m +:+ text))
    "" (lmVideoCodec m) (lmVideoProfile m) in
  mkSource idx id (lmWidth m) (lmHeight m) (lmBitrate m) dr (lmVideoCodec m) (lmAudioChannels m)
    partOK partKey partPlexID "" "".

Fixpoint live_sources (idx : Z) (l : list liveMedia) : list variantSource :=
  match l with [] => [] | m :: r => live_source idx m :: live_sources (idx + 1) r end.

(** ** The owner index *)

(** A row of the candidate query; the part columns come from a left join
    and are absent for a variant without a first part. *)
Record index_row := mkIndexRow {
  ir_index : Z; ir_media : string; ir_width : option Z; ir_height : option Z; ir_bitrate : option Z;
  ir_range : string; ir_codec : string; ir_channels : option Z; ir_variant : string;
  ir_part : option (string * string * string);
}.

(** The queries of the engine: candidates of a title, the variant row of a
    part with its title, the variant id of a part within a title, the
    enabled server and the policy rows.  [None] is an error or, for the
    single-row queries, no row. *)
Record IndexDB := mkIndexDB {
  db_variants : string → option (list index_row);
  db_part : string → option (index_row * string);
  db_variant_of : string → string → option string;
  db_server : option string;
  db_policy : string → string → option string → Load.RowResult;
}.

(** Scanning a row into a source.  The part id column is not coalesced, so a
    row without a part fails to scan. *)
Definition scan_row (r : index_row) : option variantSource :=
  '(uuid, plex, key) ← ir_part r;
  Some (mkSource (ir_index r) (ir_media r) (ir_width r) (ir_height r) (ir_bitrate r) (ir_range r)
          (ir_codec r) (ir_channels r) (negb (key =s "")) key plex (ir_variant r) uuid).

Definition indexVariants (db : option IndexDB) (ratingKey : string) : list variantSource :=
  match db with
  | None => []
  | Some db =>
      if ratingKey =s "" then []
      else match db_variants db ratingKey with
           | None => []
           | Some rows => default [] (mapM scan_row rows)
           end
  end.

Definition lookupPart (db : option IndexDB) (partPlexID : string) : option (variantSource * string) :=
  db ← db;
  if partPlexID =s "" then None
  else '(row, ratingKey) ← db_part db partPlexID; v ← scan_row row; Some (v, ratingKey).

(** ** The engine *)

Record forwarded := mkForwarded { fStatus : Z; fContentType : string; fBody : string }.

(** A row of the decision audit. *)
Record audit := mkAudit {
  aSession : string; aRequested : Z; aSelected : Z; aDecision : string; aReason : string; aCode : Z;
  aRejected : list Engine.Rejection;
}.

Section engine.
(** [json.Unmarshal] of a policy row, of the PMS answer, of PMS metadata
    (the media of each item) and of the stored policy's transcode field,
    and [json.Marshal] of a policy. *)
Context (decode_policy : string → Engine.Policy + string)
        (decode_decision : string → option decision_env)
        (decode_metadata : string → option (list (list liveMedia)))
        (decode_transcode : string → string)
        (encode_policy : Engine.Policy → string).

(** The engine's fields.  The origin's answers are the two functions: a GET
    of metadata (200 with its body, or nothing) and the forwarded decision
    (method, target, headers). *)
Record Config := mkConfig {
  DB : option IndexDB;
  Origin : string;
  Secret : string;
  Resolve : option (string → string → Trace.Client → string * string);
  LoadPolicy : option (option string → option string → option (Engine.Policy * string));
  pms_metadata : string → string → option string;
  pms_decision : string → string → list (string * list string) → option forwarded;
}.

Definition strOrNil (s : string) : option string := if s =s "" then None else Some s.

Definition DefaultPolicyLoader (db : option IndexDB) (identityID clientID : option string)
    : option (Engine.Policy * string) :=
  match db with
  | None => Some (Engine.Defaults, "GLOBAL")
  | Some db =>
      serverID ← db_server db;
      match Load.LoadEffective (db_policy db) decode_policy true serverID identityID clientID with
      | inl ps => Some ps
      | inr _ => None
      end
  end.

Definition load (e : Config) : option string → option string → option (Engine.Policy * string) :=
  match LoadPolicy e with Some f => f | None => DefaultPolicyLoader (DB e) end.

Definition parseDecisionResponse (body : string) : option decisionResponse :=
  response_of <$> decode_decision body.

Definition parseLiveVariants (raw : string) : option (list variantSource) :=
  match decode_metadata raw with
  | None | Some [] => None
  | Some (media :: _) => Some (live_sources 0 media)
  end.

Definition liveVariants (e : Config) (rawPath token : string) : option (list variantSource) :=
  raw ← pms_metadata e (TrimSuffix (Origin e) "/" +:+ rawPath) token; parseLiveVariants raw.

Definition unescaped (s : string) : string :=
  if s =s "" then "" else default "" (QueryUnescape s).

Definition variants (e : Config) (d : decisionRequest) (token : string) : list variantSource * bool :=
  match indexVariants (DB e) (dRatingKey d) with
  | (_ :: _) as out => (out, true)
  | [] =>
      let p := unescaped (QueryGet (dQuery d) "path") in
      let rawPath := if p =s "" then unescaped (QueryGet (dQuery d) "key") else p in
      if rawPath =s "" then ([], false)
      else (default [] (liveVariants e rawPath token), false)
  end.

Definition skipped_header (k : string) : bool :=
  existsb (String.eqb (ToLower k))
    ["connection"; "keep-alive"; "te"; "trailer"; "transfer-encoding"; "upgrade";
     "proxy-authenticate"; "proxy-authorization"; "x-plex-token"; "content-length"].

Definition copyDecisionHeaders (src : list (string * list string)) : list (string * list string) :=
  foldl (λ dst e, if skipped_header e.1 then dst else foldl (λ dst v, HAdd dst e.1 v) dst e.2) [] src.

Definition forward (e : Config) (r : Request) (d : decisionRequest) (token : string) (selected : Z)
    (cap : option Z) : option forwarded :=
  pms_decision e (Method r)
    (TrimSuffix (Origin e) "/" +:+ Path r +:+ "?" +:+ Encode (rewriteQuery (dQuery d) selected cap))
    (HSet (copyDecisionHeaders (ReqHeader r)) "X-Plex-Token" token).

Definition routingMode (p : Engine.Policy) : string :=
  if negb (Engine.RoutingMode p =s "") then Engine.RoutingMode p else "automatic".

Definition persistDecision (e : Config) (log : list audit) (sessionID : string) (requested selected : Z)
    (decision reason : string) (code : Z) (rejected : list Engine.Rejection) : list audit :=
  match DB e with
  | None => log
  | Some _ => log ++ [mkAudit sessionID requested selected decision reason code rejected]
  end.

Inductive result :=
  | Transparent
  | DenyWith (code : string)
  | WriteError (status : Z) (code : string)
  | WritePolicyError (code : string) (rejected : list Engine.Rejection)
  | Relay (fwd : forwarded) (selected : Session).

Definition DecisionUnsupported : string := "POLICY_DECISION_UNSUPPORTED".
Definition DecisionRequired : string := "POLICY_DECISION_REQUIRED".
Definition SessionIdentityMismatch : string := "POLICY_SESSION_IDENTITY_MISMATCH".

Context {St : Type} `{SessionStore St}.

(** The choice after PMS answered: [None] when PMS picked a rejected index. *)
Definition adopt (dec : Engine.Decision) (sources : list variantSource) (selected : variantSource)
    (resp : decisionResponse) : option (Z * variantSource) :=
  match rMediaIndex resp with
  | Some n =>
      if n =? Engine.SelectedIndex dec then Some (Engine.SelectedIndex dec, selected)
      else if existsb (λ rj, Engine.rMediaIndex rj =? n) (Engine.Rejected dec) then None
      else match indexOf sources n with
           | Some s => Some (n, s)
           | None => Some (Engine.SelectedIndex dec, selected)
           end
  | None => Some (Engine.SelectedIndex dec, selected)
  end.

(** [HandleDecision]; [fails] is a failure of the session store. *)
Definition HandleDecision (e : option Config) (fails : bool) (st : St) (log : list audit) (r : Request)
    (sessionID identityID clientUUID : string) : St * list audit * result :=
  match e with
  | None => (st, log, Transparent)
  | Some e =>
      let d := parseDecision r in
      if dRatingKey d =s "" then (st, log, DenyWith DecisionUnsupported)
      else
        let token := Trace.ExtractToken r in
        if token =s "" then (st, log, DenyWith DecisionUnsupported)
        else
          match load e (strOrNil identityID) (strOrNil clientUUID) with
          | None => (st, log, WriteError 502 "POLICY_LOAD_FAILED")
          | Some (pol, scope) =>
              let sources := (variants e d token).1 in
              match sources with
              | [] => (st, log, WriteError 502 "NO_ORIGIN_VARIANTS")
              | _ =>
                  let persist := persistDecision e log in
                  match Engine.Evaluate pol scope (toPolicy <$> sources) with
                  | (dec, Some err) =>
                      if Engine.Code err =s Engine.NoAllowedVariant then
                        (st, persist "" (RequestedIndex d) (-1) "deny" (Engine.Code err) 0 (Engine.Rejected dec),
                         WritePolicyError (Engine.Code err) (Engine.Rejected dec))
                      else (st, log, WriteError 500 "POLICY_EVAL_FAILED")
                  | (dec, None) =>
                      match indexOf sources (Engine.SelectedIndex dec) with
                      | None => (st, log, WriteError 500 "POLICY_EVAL_FAILED")
                      | Some selected =>
                          match forward e r d token (Engine.SelectedIndex dec) (Engine.OutputBitrateKbps dec) with
                          | None => (st, log, WriteError 502 "ORIGIN_UNAVAILABLE")
                          | Some fwd =>
                              match parseDecisionResponse (fBody fwd) with
                              | None => (st, log, WriteError 502 "DECISION_PARSE_FAILED")
                              | Some resp =>
                                  if (fStatus fwd <? 200) || (299 <? fStatus fwd) then
                                    (st, persist "" (RequestedIndex d) (RequestedIndex d) "deny"
                                           "PMS_DECISION_REJECTED" (rCode resp) (Engine.Rejected dec),
                                     WriteError 502 "PMS_DECISION_REJECTED")
                                  else if (rCode resp =? 0) && negb (rDirectPlay resp) &&
                                          negb (rDirectStream resp) && negb (rTranscode resp) then
                                    (st, persist "" (RequestedIndex d) (RequestedIndex d) "deny"
                                           "PMS_DECISION_REJECTED" 0 (Engine.Rejected dec),
                                     WriteError 502 "PMS_DECISION_REJECTED")
                                  else
                                    match adopt dec sources selected resp with
                                    | None =>
                                        (st, persist "" (RequestedIndex d) (default 0 (rMediaIndex resp))
                                               "deny" Engine.OriginMismatch (rCode resp) (Engine.Rejected dec),
                                         WritePolicyError Engine.OriginMismatch (Engine.Rejected dec))
                                    | Some (index, selected) =>
                                        if (modeOf resp =s "transcode") &&
                                           (Engine.Normalize (Engine.AllowTranscode pol) =s Engine.Deny) then
                                          (st, persist "" (RequestedIndex d) index "deny"
                                                 Engine.TranscodeForbidden (rCode resp) (Engine.Rejected dec),
                                           WritePolicyError Engine.TranscodeForbidden (Engine.Rejected dec))
                                        else
                                          let s := mkSession "" sessionID (dRatingKey d) identityID clientUUID
                                            index (vsPartPlexID selected) (vsPartKey selected)
                                            (vsVariantUUID selected) (vsPartUUID selected) (modeOf resp)
                                            (routingMode pol) (encode_policy pol) in
                                          match ss_create fails st s with
                                          | None => (st, log, WriteError 500 "SESSION_PERSIST_FAILED")
                                          | Some (st', s') =>
                                              (st', persist (ID s') (RequestedIndex d) index "allow"
                                                      (modeOf resp) (rCode resp) (Engine.Rejected dec), Relay fwd s')
                                          end
                                    end
                              end
                          end
                      end
                  end
              end
          end
  end.

(** ** The boundary (boundary.go) *)

(** [PartIDFromPath]: the segment after [library/parts]; [SplitN] with a
    limit of one returns its argument whole. *)
Fixpoint part_id (parts : list string) : string :=
  match parts with
  | a :: ((b :: id :: _) as r) =>
      if (a =s "library") && (b =s "parts") && negb (id =s "") then id else part_id r
  | _ => ""
  end.
Definition PartIDFromPath (path : string) : string := part_id (Split (ToLower path) "/").

Definition bindingMismatch (storedIdentity storedClient curIdentity curClient : string) : bool :=
  if (storedIdentity =s "") && (storedClient =s "") then false
  else if negb (storedIdentity =s "") && negb (storedIdentity =s curIdentity) then true
  else if negb (storedClient =s "") && negb (storedClient =s curClient) then true
  else false.

(** The identity and client the request proves. *)
Definition current (e : Config) (r : Request) (token : string) : string * string :=
  match Resolve e with
  | None => ("", "")
  | Some f => f (Trace.Fingerprint (Secret e) token) token (Trace.ExtractClient r)
  end.

Definition checkSessionBinding (e : Config) (r : Request) (sess : Session) : option string :=
  if (IdentityID sess =s "") && (ClientUUID sess =s "") then None
  else
    let token := Trace.ExtractToken r in
    if token =s "" then Some SessionIdentityMismatch
    else
      let '(curIdentity, curClient) := current e r token in
      if bindingMismatch (IdentityID sess) (ClientUUID sess) curIdentity curClient
      then Some SessionIdentityMismatch else None.

(** A verdict: substitute key, denied, reason. *)
Notation verdict := (string * bool * string)%type (only parsing).
Definition allow : verdict := ("", false, "").
Definition deny (reason : string) : verdict := ("", true, reason).

Definition enforceStateless (e : Config) (r : Request) (partID : string) : verdict :=
  let token := Trace.ExtractToken r in
  if token =s "" then deny DecisionRequired
  else
    match lookupPart (DB e) partID with
    | None => deny DecisionRequired
    | Some (variant, _) =>
        let '(identityID, clientUUID) := current e r token in
        match load e (strOrNil identityID) (strOrNil clientUUID) with
        | None => deny DecisionRequired
        | Some (pol, scope) =>
            match Engine.Evaluate pol scope [toPolicy variant] with
            | (_, Some _) => deny DecisionRequired
            | (_, None) => allow
            end
        end
    end.

Definition sameVariant (e : Config) (sess : Session) (partPlexID : string) : bool :=
  match DB e with
  | None => false
  | Some db =>
      if partPlexID =s "" then false
      else if negb (SelectedVariantID sess =s "") then
        match db_variant_of db partPlexID (RatingKey sess) with
        | None => false
        | Some variantID => variantID =s SelectedVariantID sess
        end
      else if (SelectedMediaIndex sess <? 0) || (RatingKey sess =s "") then false
      else match lookupPart (DB e) partPlexID with
           | None => false
           | Some (v, ratingKey) =>
               (ratingKey =s RatingKey sess) && (vsMediaIndex v =? SelectedMediaIndex sess)
           end
  end.

Definition TranscodeForbidden : string := "POLICY_TRANSCODE_FORBIDDEN".

(** The requested media index of a manifest; [None] is malformed. *)
Definition manifest_index (q : Values) : option Z :=
  let mi := QueryGet q "mediaIndex" in
  if mi =s "" then Some 0
  else match Atoi mi with Some n => if n <? 0 then None else Some n | None => None end.

Definition enforceManifest (e : Config) (fails : bool) (st : St) (r : Request) (sessionID : string) : verdict :=
  match ss_find fails st sessionID with
  | None | Some None => deny DecisionRequired
  | Some (Some sess) =>
      match checkSessionBinding e r sess with
      | Some reason => deny reason
      | None =>
          let reqRating := Trace.ExtractRatingKey r in
          if negb (reqRating =s "") && negb (reqRating =s RatingKey sess) then deny Engine.OriginMismatch
          else
            let q := URLQuery r in
            let stored := if EffectivePolicy sess =s "" then "" else decode_transcode (EffectivePolicy sess) in
            if (QueryGet q "directPlay" =s "0") && (QueryGet q "directStream" =s "0") &&
               EqualFold stored "deny" then deny TranscodeForbidden
            else if SelectedMediaIndex sess <? 0 then deny DecisionRequired
            else match manifest_index q with
                 | None => deny Engine.OriginMismatch
                 | Some n => if negb (n =? SelectedMediaIndex sess) then deny Engine.OriginMismatch else allow
                 end
      end
  end.

Definition EnforcePart (e : option Config) (fails : bool) (st : St) (r : Request)
    (partID sessionID : string) : verdict :=
  match e with
  | None => allow
  | Some e =>
      if partID =s "" then enforceManifest e fails st r sessionID
      else if sessionID =s "" then enforceStateless e r partID
      else match ss_find fails st sessionID with
           | None | Some None => enforceStateless e r partID
           | Some (Some sess) =>
               match checkSessionBinding e r sess with
               | Some reason => deny reason
               | None =>
                   if negb (SelectedPartPlexID sess =s "") && (partID =s SelectedPartPlexID sess) then allow
                   else if negb (SelectedPartPlexID sess =s "") && sameVariant e sess partID then allow
                   else if negb (SelectedPartKey sess =s "") then (SelectedPartKey sess, false, "substituted")
                   else deny DecisionRequired
               end
           end
  end.

Definition EndSession (e : option Config) (fails : bool) (st : St) (r : Request) : St :=
  match e with
  | None => st
  | Some _ =>
      let sessionID := Trace.ExtractSession r in
      if sessionID =s "" then st else ss_end fails st sessionID
  end.

(** ** Facts *)

Lemma indexOf_spec sources idx s :
  indexOf sources idx = Some s → s ∈ sources ∧ vsMediaIndex s = idx.
Proof.
  induction sources as [|x l IH]; cbn [indexOf]; [done|].
  destruct (Z.eqb_spec (vsMediaIndex x) idx) as [<-|].
  - intros [= <-]. set_solver.
  - intros E. apply IH in E as [? ?]. set_solver.
Qed.

Lemma indexOf_unique sources s :
  NoDup (vsMediaIndex <$> sources) → s ∈ sources → indexOf sources (vsMediaIndex s) = Some s.
Proof.
  induction sources as [|x l IH]; [set_solver|]. rewrite fmap_cons. intros [Hx Hd]%NoDup_cons Hs.
  cbn [indexOf]. apply elem_of_cons in Hs as [->|Hs]; [by rewrite Z.eqb_refl|].
  destruct (Z.eqb_spec (vsMediaIndex x) (vsMediaIndex s)) as [E|]; [|by apply IH].
  exfalso. apply Hx. rewrite E. by apply (list_elem_of_fmap_2 vsMediaIndex).
Qed.

(** A candidate with a usable part has its key. *)
Definition keyed (s : variantSource) : Prop := vsPartAvailable s = true → vsPartKey s ≠ "".

Lemma scan_row_keyed r s : scan_row r = Some s → keyed s.
Proof.
  unfold scan_row. destruct (ir_part r) as [[[u pl] key]|]; [|done]. intros [= <-] Hp. cbn in *.
  by destruct (String.eqb_spec key "").
Qed.

Lemma live_source_keyed idx m : keyed (live_source idx m).
Proof.
  unfold live_source, keyed.
  assert (Hp : ∀ l t, match live_parts l t with (ok, key, _, _) => ok = true → key ≠ "" end).
  { induction l as [|p l IH]; intros t; cbn [live_parts]; [done|]. cbv zeta.
    destruct (String.eqb_spec (lpKey p) ""); cbn [negb]; [apply IH|done]. }
  specialize (Hp (lmPart m) ""). by destruct (live_parts (lmPart m) "") as [[[ok key] pid] t].
Qed.

Lemma variants_keyed e d token s : s ∈ (variants e d token).1 → keyed s.
Proof.
  unfold variants. destruct (indexVariants _ _) as [|x l] eqn:E.
  - cbv zeta. case_match; [set_solver|]. cbn [fst]. unfold liveVariants, parseLiveVariants.
    destruct (pms_metadata _ _ _) as [raw|]; cbn; [|set_solver].
    destruct (decode_metadata raw) as [[|media ?]|]; cbn; try set_solver.
    generalize 0. induction media as [|m media IH]; intros idx; cbn; [set_solver|].
    rewrite elem_of_cons. intros [->|?]; [apply live_source_keyed|eauto].
  - cbn [fst]. rewrite <- E. unfold indexVariants. destruct (DB e) as [db|]; [|set_solver].
    case_match; [set_solver|]. destruct (db_variants db _) as [rows|]; [|set_solver].
    destruct (mapM scan_row rows) as [out|] eqn:Em; cbn; [|set_solver]. intros Hs.
    apply mapM_Some in Em. apply list_elem_of_lookup in Hs as [i Hi].
    destruct (Forall2_lookup_r _ _ _ _ _ Em Hi) as (r & _ & Hr). by eapply scan_row_keyed.
Qed.

(** ** Negotiation *)

(** What a relayed negotiation went through. *)
Lemma HandleDecision_relay e fails st log r sid iid cid st' log' fwd s' :
  HandleDecision (Some e) fails st log r sid iid cid = (st', log', Relay fwd s') →
  ∃ pol scope dec selected resp index src s,
    let d := parseDecision r in
    let token := Trace.ExtractToken r in
    let sources := (variants e d token).1 in
    load e (strOrNil iid) (strOrNil cid) = Some (pol, scope) ∧
    Engine.Evaluate pol scope (toPolicy <$> sources) = (dec, None) ∧
    indexOf sources (Engine.SelectedIndex dec) = Some selected ∧
    forward e r d token (Engine.SelectedIndex dec) (Engine.OutputBitrateKbps dec) = Some fwd ∧
    parseDecisionResponse (fBody fwd) = Some resp ∧ 200 <= fStatus fwd <= 299 ∧
    adopt dec sources selected resp = Some (index, src) ∧
    (modeOf resp = "transcode" → Engine.denied (Engine.AllowTranscode pol) = false) ∧
    s = mkSession "" sid (Trace.ExtractRatingKey r) iid cid index (vsPartPlexID src) (vsPartKey src)
          (vsVariantUUID src) (vsPartUUID src) (modeOf resp) (routingMode pol) (encode_policy pol) ∧
    ss_create fails st s = Some (st', s').
Proof.
  unfold HandleDecision. cbv zeta. intros E.
  destruct (dRatingKey (parseDecision r) =s ""); [done|].
  destruct (Trace.ExtractToken r =s ""); [done|].
  destruct (load e _ _) as [[pol scope]|] eqn:Hload; [|done].
  destruct (variants e (parseDecision r) (Trace.ExtractToken r)).1 as [|x l] eqn:Hsrc; [done|].
  destruct (Engine.Evaluate _ _ _) as [dec [err|]] eqn:Hev; [by destruct (_ =s _)|].
  destruct (indexOf _ _) as [selected|] eqn:Hidx; [|done].
  destruct (forward _ _ _ _ _ _) as [fwd'|] eqn:Hfwd; [|done].
  destruct (parseDecisionResponse _) as [resp|] eqn:Hresp; [|done].
  destruct (Z.ltb_spec (fStatus fwd') 200); [done|]. destruct (Z.ltb_spec 299 (fStatus fwd')); [done|].
  cbn [orb] in E. destruct (_ && _); [done|].
  destruct (adopt _ _ _ _) as [[index src]|] eqn:Ha; [|done].
  destruct ((modeOf resp =s "transcode") && _) eqn:Hm; [done|].
  destruct (ss_create _ _ _) as [[st1 s1]|] eqn:Hc; [|done]. injection E as <- <- <- <-.
  exists pol, scope, dec, selected, resp, index, src. eexists. split; [done|].
  do 4 (split; [done|]). split; [lia|]. split; [done|]. split; [|split; [reflexivity|exact Hc]].
  intros Ht. rewrite Ht in Hm. cbn [String.eqb andb] in Hm. exact Hm.
Qed.

(** The adopted candidate is one the policy permits. *)
Lemma adopt_permitted pol scope sources dec selected resp index src :
  NoDup (vsMediaIndex <$> sources) →
  Engine.Evaluate pol scope (toPolicy <$> sources) = (dec, None) →
  indexOf sources (Engine.SelectedIndex dec) = Some selected →
  adopt dec sources selected resp = Some (index, src) →
  src ∈ sources ∧ vsMediaIndex src = index ∧ Engine.permitted pol (toPolicy src).
Proof.
  intros Hd Hev Hidx. rewrite Engine.Evaluate_winner in Hev. cbv zeta in Hev.
  destruct (Engine.winner _ _) as [best|] eqn:Hw; [|done].
  destruct (_ && _); [done|]. injection Hev as <-.
  apply Engine.winner_spec in Hw as (Hb & Hp & _).
  apply list_elem_of_fmap in Hb as (bs & -> & Hbs). cbn [Engine.SelectedIndex] in *.
  change (Engine.MediaIndex (toPolicy bs)) with (vsMediaIndex bs) in *.
  rewrite (indexOf_unique _ _ Hd Hbs) in Hidx. injection Hidx as <-.
  unfold adopt. cbn [Engine.SelectedIndex Engine.Rejected].
  destruct (rMediaIndex resp) as [n|]; [|intros [= <- <-]; done].
  destruct (n =? _); [intros [= <- <-]; done|].
  destruct (existsb _ _) eqn:Hex; [done|].
  destruct (indexOf sources n) as [s|] eqn:Hn; [|intros [= <- <-]; done].
  intros [= <- <-]. apply indexOf_spec in Hn as [Hs <-]. split; [done|]. split; [done|].
  destruct (Engine.screen pol (Engine.effScope scope) (toPolicy s)) as [rj|] eqn:Esc;
    [|by apply (Engine.screen_permitted pol (Engine.effScope scope))].
  exfalso. rewrite existsb_false_forall in Hex. specialize (Hex rj).
  rewrite list_elem_of_omap in Hex.
  assert (Hz : (Engine.rMediaIndex rj =? vsMediaIndex s) = false).
  { apply Hex. exists (toPolicy s). split; [by apply (list_elem_of_fmap_2 toPolicy)|done]. }
  apply Engine.screen_reason in Esc as [Hri _]. rewrite Hri in Hz. cbn in Hz. by rewrite Z.eqb_refl in Hz.
Qed.

(** Negotiation fails closed: a wired engine never lets a decision
    request through untouched, and every outcome other than a relayed
    answer leaves the session store as it was. *)
Theorem HandleDecision_fails_closed e fails st log r sid iid cid :
  let '(st', _, res) := HandleDecision (Some e) fails st log r sid iid cid in
  res ≠ Transparent ∧ ((∀ fwd s, res ≠ Relay fwd s) → st' = st) ∧
  (Trace.ExtractToken r = "" ∨ Trace.ExtractRatingKey r = "" → res = DenyWith DecisionUnsupported).
Proof using decode_policy decode_decision decode_metadata encode_policy H.
  destruct (HandleDecision _ _ _ _ _ _ _ _) as [[st' log'] res] eqn:E.
  unfold HandleDecision in E. cbv zeta in E.
  change (dRatingKey (parseDecision r)) with (Trace.ExtractRatingKey r) in E.
  destruct (String.eqb_spec (Trace.ExtractRatingKey r) "") as [E1|E1]; [by injection E as <- <- <-|].
  destruct (String.eqb_spec (Trace.ExtractToken r) "") as [E2|E2]; [by injection E as <- <- <-|].
  split; [|split; [|by intros [?|?]]].
  - intros ->. by repeat (case_match; simplify_eq; try done).
  - intros Hr. repeat (case_match; simplify_eq; try done). by edestruct Hr.
Qed.

Context {Laws : SessionLaws St}.

(** C37: What a negotiation records is permitted.  When a decision is
    relayed, the session it creates names a candidate of the requested title
    that the effective policy permits, with that candidate's part, for the
    identity and client of the request, and its mode is not a denied
    transcode, also when PMS picked another candidate than the engine. *)
Theorem HandleDecision_session_permitted e fails st log r sid iid cid st' log' fwd s :
  NoDup (vsMediaIndex <$> (variants e (parseDecision r) (Trace.ExtractToken r)).1) →
  HandleDecision (Some e) fails st log r sid iid cid = (st', log', Relay fwd s) →
  ∃ pol scope src,
    load e (strOrNil iid) (strOrNil cid) = Some (pol, scope) ∧
    src ∈ (variants e (parseDecision r) (Trace.ExtractToken r)).1 ∧
    Engine.permitted pol (toPolicy src) ∧
    SelectedMediaIndex s = vsMediaIndex src ∧ SelectedPartPlexID s = vsPartPlexID src ∧
    SelectedPartKey s = vsPartKey src ∧ SelectedPartKey s ≠ "" ∧
    RatingKey s = Trace.ExtractRatingKey r ∧ IdentityID s = iid ∧ ClientUUID s = cid ∧
    (PlaybackMode s = "transcode" → Engine.denied (Engine.AllowTranscode pol) = false).
Proof.
  intros Hd HE. apply HandleDecision_relay in HE.
  destruct HE as (pol & scope & dec & selected & resp & index & src & s0 & Hload & Hev & Hidx & _ & _ & _ &
                  Ha & Ht & -> & Hc).
  destruct (adopt_permitted _ _ _ _ _ _ _ _ Hd Hev Hidx Ha) as (Hin & <- & Hp).
  apply ss_create_ret in Hc. destruct s; injection Hc as; simplify_eq/=.
  exists pol, scope, src. split_and!; try done.
  apply (variants_keyed _ _ _ _ Hin). apply (Engine.perm_part _ _ Hp).
Qed.

(** The negotiated media and nothing else.  After a relayed decision,
    every part request of that Plex session whose sender passes the binding
    check is answered either by letting the negotiated part (or another
    part of the same variant) through, or by substituting the negotiated
    part's key: no other part is ever released, and none is refused. *)
Theorem EnforcePart_after_decision e fails st log r sid iid cid st' log' fwd s r2 partID sess :
  NoDup (vsMediaIndex <$> (variants e (parseDecision r) (Trace.ExtractToken r)).1) →
  HandleDecision (Some e) fails st log r sid iid cid = (st', log', Relay fwd s) →
  sid ≠ "" → partID ≠ "" →
  ss_find false st' sid = Some (Some sess) → checkSessionBinding e r2 sess = None →
  same_selection sess (with_plex s sid) ∧
  EnforcePart (Some e) false st' r2 partID sid =
    if (negb (SelectedPartPlexID s =s "") && (partID =s SelectedPartPlexID s)) ||
       (negb (SelectedPartPlexID s =s "") && sameVariant e sess partID)
    then allow else (SelectedPartKey s, false, "substituted").
Proof.
  intros Hd HE Hsid Hpart Hf Hb. apply HandleDecision_relay in HE.
  destruct HE as (pol & scope & dec & selected & resp & index & src & s0 & Hload & Hev & Hidx & _ & _ & _ &
                  Ha & Ht & Hs0 & Hc).
  destruct (adopt_permitted _ _ _ _ _ _ _ _ Hd Hev Hidx Ha) as (Hin & <- & Hp).
  pose proof (ss_create_ret _ _ _ _ _ Hc) as Hr.
  destruct (ss_create_find _ _ _ _ _ sid Hc) as (t & Hf' & Hsel); [by rewrite Hs0|done|].
  rewrite Hf in Hf'. injection Hf' as <-.
  assert (Hkey : vsPartKey src ≠ "").
  { apply (variants_keyed _ _ _ _ Hin). apply (Engine.perm_part _ _ Hp). }
  unfold same_selection in *. subst s0. destruct s, sess; cbn in *. injection Hr as; injection Hsel as.
  subst. split; [done|]. unfold EnforcePart.
  rewrite !(proj2 (String.eqb_neq _ _)) by done. rewrite Hf, Hb. cbn [SelectedPartPlexID SelectedPartKey].
  destruct (negb (_ =s "") && (partID =s _)); [done|]. cbn [orb].
  destruct (negb (_ =s "") && sameVariant _ _ _); [done|].
  by rewrite (proj2 (String.eqb_neq _ _)) by done.
Qed.

(** ** The boundary *)

(** The requester proves the session's binding. *)
Definition bound_to (e : Config) (r : Request) (sess : Session) : Prop :=
  let '(curIdentity, curClient) := current e r (Trace.ExtractToken r) in
  (IdentityID sess = "" ∨ Trace.ExtractToken r ≠ "" ∧ IdentityID sess = curIdentity) ∧
  (ClientUUID sess = "" ∨ Trace.ExtractToken r ≠ "" ∧ ClientUUID sess = curClient).

Lemma checkSessionBinding_spec e r sess : checkSessionBinding e r sess = None ↔ bound_to e r sess.
Proof using Type.
  clear decode_policy decode_decision decode_metadata decode_transcode encode_policy Laws.
  unfold checkSessionBinding, bound_to, bindingMismatch. cbv zeta.
  destruct (current e r (Trace.ExtractToken r)) as [ci cc].
  destruct (String.eqb_spec (IdentityID sess) ""), (String.eqb_spec (ClientUUID sess) ""),
    (String.eqb_spec (Trace.ExtractToken r) ""), (String.eqb_spec (IdentityID sess) ci),
    (String.eqb_spec (ClientUUID sess) cc); cbn [andb negb]; naive_solver.
Qed.

(** The policy of the requester permits the indexed variant of a part. *)
Definition statelessly_permitted (e : Config) (r : Request) (partID : string) : Prop :=
  Trace.ExtractToken r ≠ "" ∧
  ∃ v title pol scope,
    lookupPart (DB e) partID = Some (v, title) ∧
    load e (strOrNil (current e r (Trace.ExtractToken r)).1)
           (strOrNil (current e r (Trace.ExtractToken r)).2) = Some (pol, scope) ∧
    Engine.permitted pol (toPolicy v).

Lemma enforceStateless_spec e r partID :
  enforceStateless e r partID = allow ∧ statelessly_permitted e r partID ∨
  enforceStateless e r partID = deny DecisionRequired ∧ ¬ statelessly_permitted e r partID.
Proof using decode_policy.
  clear decode_decision decode_metadata decode_transcode encode_policy Laws.
  unfold enforceStateless, statelessly_permitted. cbv zeta.
  destruct (String.eqb_spec (Trace.ExtractToken r) "") as [->|Ht]; [right; naive_solver|].
  destruct (lookupPart (DB e) partID) as [[v title]|] eqn:El; [|right; naive_solver].
  destruct (current e r (Trace.ExtractToken r)) as [ci cc]. cbn [fst snd].
  destruct (load e (strOrNil ci) (strOrNil cc)) as [[pol scope]|] eqn:Eload; [|right; naive_solver].
  rewrite Engine.Evaluate_winner. cbv zeta.
  destruct (Engine.winner pol [toPolicy v]) as [best|] eqn:Ew.
  - left. apply Engine.winner_spec in Ew as (Hb & Hp & _). apply list_elem_of_singleton in Hb as ->.
    split; [done|]. split; [done|]. eauto 10.
  - right. split; [done|]. intros (_ & v' & t' & pol' & sc' & [= <- <-] & [= <- <-] & Hp).
    rewrite Engine.winner_none in Ew. apply (Ew (toPolicy v)); [set_solver|done].
Qed.

(** C38: The part boundary.  A raw part is released unchanged only if the
    active session is bound to the requester and the part is the negotiated
    one or of the negotiated variant, or, without a usable session, if the
    requester's own effective policy permits the indexed variant; otherwise
    the answer is a substitution by the session's selection or a refusal.
    Failures of the session store, the index or the policy load never
    release a part. *)
Theorem EnforcePart_releases e fails st r partID sid :
  partID ≠ "" → EnforcePart (Some e) fails st r partID sid = allow →
  (∃ sess, ss_find fails st sid = Some (Some sess) ∧ bound_to e r sess ∧ SelectedPartPlexID sess ≠ "" ∧
     (partID = SelectedPartPlexID sess ∨ sameVariant e sess partID = true)) ∨
  ((sid = "" ∨ ss_find fails st sid = None ∨ ss_find fails st sid = Some None) ∧
   statelessly_permitted e r partID).
Proof using decode_policy decode_transcode H.
  clear decode_decision decode_metadata encode_policy Laws.
  intros Hp. unfold EnforcePart. rewrite (proj2 (String.eqb_neq _ _)) by done.
  pose proof (enforceStateless_spec e r partID) as Hs.
  assert (Hst : enforceStateless e r partID = allow → statelessly_permitted e r partID).
  { destruct Hs as [[_ ?]|[-> _]]; done. }
  destruct (String.eqb_spec sid "") as [->|Hsid]; [auto|].
  destruct (ss_find fails st sid) as [[sess|]|] eqn:Ef; [|auto..].
  destruct (checkSessionBinding e r sess) eqn:Eb; [done|]. apply checkSessionBinding_spec in Eb.
  destruct (String.eqb_spec (SelectedPartPlexID sess) "") as [Esp|Esp]; cbn [negb andb].
  { destruct (String.eqb_spec (SelectedPartKey sess) "") as [?|Hk]; cbn [negb]; [done|].
    by intros [= E]. }
  destruct (String.eqb_spec partID (SelectedPartPlexID sess)); [eauto 10|].
  destruct (sameVariant e sess partID) eqn:Esv; [eauto 10|].
  destruct (String.eqb_spec (SelectedPartKey sess) "") as [?|Hk]; cbn [negb]; [done|]. by intros [= E].
Qed.

(** The manifest boundary.  A manifest is released exactly when an
    active session exists, is bound to the requester, was negotiated for
    the requested title (when one is named) and for exactly the requested
    media index (zero by default), and an explicit transcode retry is not
    denied by the session's stored policy. *)
Theorem enforceManifest_spec e fails st r sid :
  enforceManifest e fails st r sid = allow ↔
  ∃ sess, ss_find fails st sid = Some (Some sess) ∧ bound_to e r sess ∧
    (Trace.ExtractRatingKey r = "" ∨ Trace.ExtractRatingKey r = RatingKey sess) ∧
    ¬ (QueryGet (URLQuery r) "directPlay" = "0" ∧ QueryGet (URLQuery r) "directStream" = "0" ∧
       EqualFold (if EffectivePolicy sess =s "" then "" else decode_transcode (EffectivePolicy sess)) "deny" = true) ∧
    manifest_index (URLQuery r) = Some (SelectedMediaIndex sess) ∧ 0 <= SelectedMediaIndex sess.
Proof using decode_transcode H.
  clear decode_policy decode_decision decode_metadata encode_policy Laws.
  unfold enforceManifest. cbv zeta.
  destruct (ss_find fails st sid) as [[sess|]|]; [|naive_solver..].
  destruct (checkSessionBinding e r sess) eqn:Eb.
  { split; [done|]. intros (? & [= <-] & Hb & _). apply checkSessionBinding_spec in Hb. congruence. }
  apply checkSessionBinding_spec in Eb.
  destruct (negb (Trace.ExtractRatingKey r =s "") && negb (Trace.ExtractRatingKey r =s RatingKey sess)) eqn:Er.
  { zbool. split; [done|]. intros (? & [= <-] & _ & [?|?] & _); done. }
  apply andb_false_iff in Er. rewrite !negb_false_iff, !String.eqb_eq in Er.
  set (dn := EqualFold _ "deny").
  destruct ((QueryGet (URLQuery r) "directPlay" =s "0") && (QueryGet (URLQuery r) "directStream" =s "0") && dn) eqn:Et.
  { zbool. split; [done|]. intros (? & [= <-] & _ & _ & Hn & _). destruct Hn. done. }
  assert (Hn : ¬ (QueryGet (URLQuery r) "directPlay" = "0" ∧ QueryGet (URLQuery r) "directStream" = "0" ∧ dn = true)).
  { intros (H1 & H2 & H3). by rewrite H1, H2, H3 in Et. }
  destruct (Z.ltb_spec (SelectedMediaIndex sess) 0).
  { split; [done|]. intros (? & [= <-] & _ & _ & _ & _ & ?). lia. }
  destruct (manifest_index (URLQuery r)) as [n|].
  - destruct (Z.eqb_spec n (SelectedMediaIndex sess)) as [->|Hne]; cbn [negb].
    + split; [|done]. intros _. exists sess. done.
    + split; [done|]. intros (? & [= <-] & _ & _ & _ & [= ?] & _). done.
  - split; [done|]. naive_solver.
Qed.

End engine.

(** ** The rewritten request *)

Lemma QueryGet_set q k v : QueryGet (QuerySet q k v) k = v.
Proof. unfold QueryGet, QuerySet, values_of. by rewrite lookup_insert_eq. Qed.

Lemma values_of_set_ne q k k' v : k ≠ k' → values_of (QuerySet q k v) k' = values_of q k'.
Proof. intros. unfold QuerySet, values_of. by rewrite lookup_insert_ne. Qed.

(** The forwarded request asks for the selected media: it carries
    exactly one media index, the selected one; under an output cap its
    bitrate parameter is a number no larger than the cap; and no other
    parameter changes. *)
Theorem rewriteQuery_enforces q selected cap :
  0 <= cap < 2 ^ 63 →
  let out := rewriteQuery q selected (Some cap) in
  values_of out "mediaIndex" = [Itoa selected] ∧
  (∃ n, Atoi (QueryGet out "maxVideoBitrate") = Some n ∧ n <= cap) ∧
  (∀ k, k ≠ "mediaIndex" → k ≠ "maxVideoBitrate" → values_of out k = values_of q k).
Proof.
  intros Hcap out. unfold out, rewriteQuery. cbv zeta.
  set (o := QuerySet q "mediaIndex" (Itoa selected)).
  assert (Ho : values_of o "mediaIndex" = [Itoa selected]).
  { unfold o, values_of, QuerySet. by rewrite lookup_insert_eq. }
  assert (Hk : ∀ k, k ≠ "mediaIndex" → values_of o k = values_of q k)
    by (intros; unfold o; by apply values_of_set_ne).
  assert (Hset : values_of (QuerySet o "maxVideoBitrate" (Itoa cap)) "mediaIndex" = [Itoa selected] ∧
    (∃ n, Atoi (QueryGet (QuerySet o "maxVideoBitrate" (Itoa cap)) "maxVideoBitrate") = Some n ∧ n <= cap) ∧
    (∀ k, k ≠ "mediaIndex" → k ≠ "maxVideoBitrate" →
       values_of (QuerySet o "maxVideoBitrate" (Itoa cap)) k = values_of q k)).
  { split; [by rewrite values_of_set_ne|]. split.
    - exists cap. rewrite QueryGet_set, Atoi_Itoa by done. split; [done|lia].
    - intros k H1 H2. rewrite values_of_set_ne by congruence. by apply Hk. }
  destruct (String.eqb_spec (QueryGet o "maxVideoBitrate") "") as [|Hcur]; [exact Hset|].
  destruct (Atoi (QueryGet o "maxVideoBitrate")) as [n|] eqn:En; [|exact Hset].
  destruct (Z.ltb_spec n cap); [|exact Hset]. split; [done|]. split; [|auto].
  exists n. split; [done|lia].
Qed.

(** A client value that is not a positive number, and a repeated parameter,
    survive the rewriting. *)
Lemma rewriteQuery_first_value_only :
  values_of (rewriteQuery {[ "maxVideoBitrate" := ["1"; "100000"] ]} 0 (Some 2000)) "maxVideoBitrate" =
    ["1"; "100000"] ∧
  QueryGet (rewriteQuery {[ "maxVideoBitrate" := ["0"] ]} 0 (Some 2000)) "maxVideoBitrate" = "0".
Proof. vm_compute. done. Qed.

Example part_ex : (PartIDFromPath "/library/parts/12/file.mkv", PartIDFromPath "/Library/Parts/7?x/f",
                   PartIDFromPath "/library/parts/") = ("12", "7?x", "").
Proof. vm_compute. reflexivity. Qed.

Example range_ex :
  (NormalizeDynamicRange "4K DoVi/HDR10" "" "hevc" "", NormalizeDynamicRange "HDR10+" "" "" "",
   NormalizeDynamicRange "" "" "h264" "high") = ("DOLBY_VISION", "HDR10_PLUS", "UNKNOWN").
Proof. vm_compute. reflexivity. Qed.

(** ** Witnesses: a user limited to 1080p negotiates a title with a 4K and a
    1080p version, and then asks for parts and manifests. *)

Definition w_media (id : Z) (w h : Z) (key : string) : liveMedia :=
  mkLiveMedia (Some id) "h264" "" (Some w) (Some h) (Some 8000) "SDR" "" "" "" "" (Some 2)
    [mkLivePart (Some id) key []].

Definition w_decode_policy : string → Engine.Policy + string := λ _, inl Engine.zeroPolicy.
Definition w_decode_decision : string → option decision_env :=
  λ _, Some (mkEnv (Some 1000) true false false (Some 1)).
Definition w_decode_metadata : string → option (list (list liveMedia)) :=
  λ _, Some [[w_media 40 3840 2160 "/library/parts/40/f.mkv"; w_media 41 1920 1080 "/library/parts/41/f.mkv"]].
Definition w_decode_transcode : string → string := λ s, s.
Definition w_encode_policy : Engine.Policy → string := Engine.AllowTranscode.

(** The index knows part 41 of the title as the 1080p variant. *)
Definition w_db : IndexDB :=
  mkIndexDB (λ _, None)
    (λ p, if p =s "41" then
            Some (mkIndexRow 1 "41" (Some 1920) (Some 1080) (Some 8000) "SDR" "h264" (Some 2) "v41"
                    (Some ("p41", "41", "/library/parts/41/f.mkv")), "7")
          else None)
    (λ _ _, None) None (λ _ _ _, Load.NoRows).

Definition w_config : Config :=
  mkConfig (Some w_db) "http://pms:32400/" "secret" (Some (λ _ _ _, ("alice", "tv")))
    (Some (λ _ _, Some (PolicyWitness.user_policy, "USER")))
    (λ _ _, Some "metadata") (λ _ _ _, Some (mkForwarded 200 "application/json" "{}")).

Definition w_request (query : string) : Request :=
  mkRequest "GET" "/video/:/transcode/universal/decision" query [("X-Plex-Token", ["tok"])] 0.
Definition w_decision : Request := w_request "path=%2Flibrary%2Fmetadata%2F7&session=s1&mediaIndex=0".

Definition w_run : gmap string Session * list audit * result :=
  HandleDecision w_decode_policy w_decode_decision w_decode_metadata w_encode_policy
    (Some w_config) false NewMemoryStore [] w_decision "s1" "alice" "tv".

Definition w_session : Session :=
  mkSession "" "s1" "7" "alice" "tv" 1 "41" "/library/parts/41/f.mkv" "" "" "directPlay" "automatic" "allow".

Lemma w_run_relays : w_run = (w_run.1.1, w_run.1.2, Relay (mkForwarded 200 "application/json" "{}") w_session).
Proof. vm_compute. reflexivity. Qed.

Lemma w_indexes :
  NoDup (vsMediaIndex <$> (variants w_decode_metadata w_config (parseDecision w_decision)
                             (Trace.ExtractToken w_decision)).1).
Proof. apply (bool_decide_unpack _). vm_compute. exact I. Qed.

Lemma HandleDecision_session_permitted_witness :
  ∃ pol, load w_decode_policy w_config (Some "alice") (Some "tv") = Some (pol, "USER") ∧
    (PlaybackMode w_session = "transcode" → Engine.denied (Engine.AllowTranscode pol) = false).
Proof.
  destruct (HandleDecision_session_permitted w_decode_policy w_decode_decision w_decode_metadata
              w_encode_policy w_config false NewMemoryStore [] w_decision "s1" "alice" "tv"
              _ _ _ w_session w_indexes w_run_relays)
    as (pol & scope & src & Hload & _ & _ & _ & _ & _ & _ & _ & _ & _ & Ht).
  exists PolicyWitness.user_policy. split; [reflexivity|]. intros Hm. discriminate Hm.
Defined.

Lemma EnforcePart_after_decision_witness :
  EnforcePart w_decode_policy w_decode_transcode (Some w_config) false w_run.1.1
    (w_request "session=s1") "40" "s1" = ("/library/parts/41/f.mkv", false, "substituted").
Proof.
  destruct (EnforcePart_after_decision w_decode_policy w_decode_decision w_decode_metadata w_decode_transcode
              w_encode_policy w_config false NewMemoryStore [] w_decision "s1" "alice" "tv"
              _ _ _ w_session (w_request "session=s1") "40" w_session w_indexes w_run_relays) as [_ E].
  - discriminate.
  - discriminate.
  - vm_compute. reflexivity.
  - vm_compute. reflexivity.
  - rewrite E. vm_compute. reflexivity.
Defined.

Lemma EnforcePart_releases_witness :
  statelessly_permitted w_decode_policy w_config (w_request "") "41".
Proof.
  destruct (EnforcePart_releases w_decode_policy w_decode_transcode w_config false NewMemoryStore
              (w_request "") "41" "") as [(sess & Hf & _)|[_ Hp]].
  - discriminate.
  - vm_compute. reflexivity.
  - discriminate Hf.
  - exact Hp.
Defined.

Lemma rewriteQuery_enforces_witness :
  values_of (rewriteQuery {[ "maxVideoBitrate" := ["9000"] ]} 1 (Some 2000)) "mediaIndex" = [Itoa 1].
Proof. apply (rewriteQuery_enforces {[ "maxVideoBitrate" := ["9000"] ]} 1 2000). lia. Defined.

End Playback.
