(* ===== verification/Spike.v ===== *)
(** * The redirect resolver

    internal/spike/spike.go: the location of a media request in tunnel mode,
    from the onboarded server, the part boundary and a delegated token, with
    its ring of redacted events; internal/spike/observations.go: the
    compatibility observations of an operator. *)

From S2P Require Import Prelude GoStrings GoHttp GoNet GoUrl Rings Routing Logging Gateway Trace Playback.

Module Spike.

(** A request as the server received it: its URL with the escaped path. *)
Record http_request := mkHttp { hmethod : string; hurl : URL; hheader : list (string * list string); hlength : Z }.
Definition request_of (r : http_request) : Request :=
  mkRequest (hmethod r) (UPath (hurl r)) (URawQuery (hurl r)) (hheader r) (hlength r).

Record Event := mkEvent {
  Timestamp : string; RequestID : string; SessionID : string; PlaybackTraceID : string; Method : string;
  Path : string; Client : string; Decision : string; RedactedLocation : string; RangePresent : bool; Reason : string
}.
Record ResolveContext := mkCtx { ctxRequestID : string; ctxSessionID : string; ctxPlaybackTraceID : string }.

Definition maxEvents : nat := 200.

(** The store with what its hooks answer now: the lookup of the onboarded
    server, the delegation (an error is its message) and the boundary. *)
Record Store := mkStore {
  Lookup : option (string * string);
  FetchTransient : string → string → string + string;
  PartPolicy : option (Request → string → string → string * bool * string);
  PublicHost : string;
  events : list Event;
}.

Definition ExtractToken (r : http_request) : string := Trace.ExtractToken (request_of r).
Definition partIDFromPath (path : string) : string := Playback.PartIDFromPath path.

Definition spikeEventBase (r : http_request) (ctx : ResolveContext) : Event :=
  mkEvent "" (ctxRequestID ctx) (ctxSessionID ctx) (ctxPlaybackTraceID ctx) (hmethod r)
    (Logging.RedactURLString (RequestURI (hurl r))) (HGet (hheader r) "X-Plex-Client-Identifier") "" ""
    (negb (HGet (hheader r) "Range" =s "")) "".

Definition decided (e : Event) (decision reason location : string) : Event :=
  mkEvent (Timestamp e) (RequestID e) (SessionID e) (PlaybackTraceID e) (Method e) (Path e) (Client e) decision location
    (RangePresent e) reason.

(** [record] stamps the event; the log line it also writes is [event_entry]. *)
Definition record (now : string) (s : Store) (e : Event) : Store :=
  let e := mkEvent now (RequestID e) (SessionID e) (PlaybackTraceID e) (Method e) (Path e) (Client e) (Decision e)
             (RedactedLocation e) (RangePresent e) (Reason e) in
  mkStore (Lookup s) (FetchTransient s) (PartPolicy s) (PublicHost s) (push maxEvents (events s) e).
Definition event_entry (now : string) (e : Event) : Logging.Entry :=
  Logging.Log now (Logging.mkEntry "info" "" "routing.spike" (RequestID e) (Method e) (Path e) 0 0 "" ""
    ((if Reason e =s "" then id else <["reason" := Logging.AString (Reason e)]>)
     (<["event" := Logging.AString ("spike_" +:+ Decision e)]> (<["client" := Logging.AString (Client e)]>
       (<["range" := Logging.ABool (RangePresent e)]> {["location" := Logging.AString (RedactedLocation e)]}))))).

(** The boundary: a denial with its reason, or the reference to redirect to
    and whether it was substituted. *)
Definition boundary (s : Store) (r : http_request) : string + (string * bool) :=
  let uri := RequestURI (hurl r) in
  match PartPolicy s with
  | None => inr (uri, false)
  | Some policy =>
      let partID := partIDFromPath (UPath (hurl r)) in
      if negb (partID =s "") || Gateway.IsBulkMediaRoute (UPath (hurl r)) then
        let '(substitute, deny, reason) := policy (request_of r) partID (Trace.ExtractSession (request_of r)) in
        if deny then inl (if reason =s "" then "part boundary denied" else reason)
        else if negb (substitute =s "") then
          let q := URawQuery (hurl r) in
          inr (if negb (q =s "") && negb (Contains substitute "?") then substitute +:+ "?" +:+ q else substitute, true)
        else inr (uri, false)
      else inr (uri, false)
  end.

Definition Resolve (now : string) (s : Store) (r : http_request) (ctx : ResolveContext) : Store * option string :=
  let base := spikeEventBase r ctx in
  let unavailable reason := (record now s (decided base "unavailable" reason ""), None) in
  match Lookup s with
  | None => unavailable "no onboarded media origin"
  | Some (mediaOrigin, internalOrigin) =>
      let userToken := ExtractToken r in
      if userToken =s "" then unavailable "no user token presented"
      else
        match boundary s r with
        | inl reason => unavailable reason
        | inr (uri, substituted) =>
            match FetchTransient s internalOrigin userToken with
            | inl err => unavailable ("delegation failed: " +:+ err)
            | inr transient =>
                match Routing.BuildDirectOriginURL mediaOrigin uri transient (PublicHost s) with
                | Ok loc =>
                    (record now s (decided base (if substituted then "substituted" else "redirected") ""
                                     (Routing.RedactedLocation loc)), Some loc)
                | Err e => unavailable e
                | Panic => unavailable ""
                end
            end
        end
  end.

(** [Events] copies the ring. *)
Definition Events (s : Store) : list Event := events s.

(** [BoundaryPolicy] of a nil store is nil. *)
Definition BoundaryPolicy (s : option Store) : option (Request → string → string → string * bool * string) :=
  s ← s; PartPolicy s.

(** [NewPostgresStore]: the newest enabled server with both origins; [rows]
    are the servers, oldest first. *)
Record server_row := mkServer { enabled : bool; client_media_origin_url : option string; internal_origin_url : option string }.
Definition postgres_lookup (rows : list server_row) : option (string * string) :=
  row ← last (filter (λ r, enabled r = true) rows);
  media ← client_media_origin_url row; internal ← internal_origin_url row;
  if (media =s "") || (internal =s "") then None else Some (media, internal).
Definition NewPostgresStore (rows : list server_row) (fetch : string → string → string + string) (publicHost : string) : Store :=
  mkStore (postgres_lookup rows) fetch None publicHost [].

(** ** Every decision is recorded *)

Lemma record_events now s e :
  (length (events (record now s e)) <= maxEvents)%nat ∧
  ∃ e', last (events (record now s e)) = Some e' ∧ Decision e' = Decision e ∧ RedactedLocation e' = RedactedLocation e ∧
        Path e' = Path e ∧ Reason e' = Reason e.
Proof.
  split; [apply push_bound|]. eexists. split; [apply push_last; unfold maxEvents; lia|done].
Qed.


Definition w_base : URL := mkURL "https" "" None "1-2-3-4.abc.plex.direct:32400" "" "" false false "" "" "".
Definition w_store : Store :=
  NewPostgresStore [mkServer true (Some "https://1-2-3-4.abc.plex.direct:32400") (Some "http://10.0.0.2:32400")]
    (λ _ t, inr ("transient-" +:+ t)) "edge.example".
Definition w_request (raw : string) : http_request :=
  mkHttp "GET" (default w_base (Parse raw)) [("Range", ["bytes=0-"])] 0.


(** Without a location the decision is "unavailable", and it is recorded. *)
Lemma Resolve_unavailable now s r ctx s' :
  Resolve now s r ctx = (s', None) → ∃ e, last (events s') = Some e ∧ Decision e = "unavailable" ∧ RedactedLocation e = "".
Proof.
  unfold Resolve. cbv zeta.
  assert (Hu : ∀ reason, (record now s (decided (spikeEventBase r ctx) "unavailable" reason ""), None : option string) = (s', None) →
    ∃ e, last (events s') = Some e ∧ Decision e = "unavailable" ∧ RedactedLocation e = "").
  { intros reason [= <-]. destruct (record_events now s (decided (spikeEventBase r ctx) "unavailable" reason "")) as (_ & e & ? & ? & ? & _).
    by exists e. }
  destruct (Lookup s) as [[media internal]|]; [|apply Hu]. destruct (_ =s ""); [apply Hu|].
  destruct (boundary s r) as [|[uri sub]]; [apply Hu|]. destruct (FetchTransient _ _ _); [apply Hu|].
  destruct (Routing.BuildDirectOriginURL _ _ _ _); [done|apply Hu..].
Qed.

(** A caller that presents its token as [token] or [authToken] has it copied
    into the location: only [X-Plex-Token] is replaced. *)
Lemma caller_token_in_location :
  ExtractToken (w_request "/library/parts/7/1/file.mkv?token=persistent") = "persistent" ∧
  (Resolve "now" w_store (w_request "/library/parts/7/1/file.mkv?token=persistent") (mkCtx "1" "s" "")).2 =
  Some "https://1-2-3-4.abc.plex.direct:32400/library/parts/7/1/file.mkv?X-Plex-Token=transient-persistent&token=persistent".
Proof. vm_compute. done. Qed.

(** ** Observations *)

Definition validStates : list string := ["UNKNOWN"; "SUPPORTED"; "UNSUPPORTED"; "DEGRADED"; "ADMIN_FORCED"].

Record Observation := mkObservation {
  Platform : string; Product : string; ProductVersion : string; PlaybackType : string; Status : string; Notes : string
}.
(** A row of [compatibility_profiles] without patterns. *)
Record profile := mkProfile {
  p_platform : string; p_product : string; p_playback : string; p_status : string; p_count : Z;
  p_version : option string; p_notes : option string; p_updated : Z
}.
Definition nullIfEmpty (s : string) : option string := if s =s "" then None else Some s.
Definition profile_for (o : Observation) (p : profile) : bool :=
  (p_platform p =s Platform o) && (p_product p =s Product o) && (p_playback p =s PlaybackType o).
Fixpoint update_first (f : profile → bool) (g : profile → profile) (l : list profile) : list profile :=
  match l with [] => [] | p :: r => if f p then g p :: r else p :: update_first f g r end.

Definition cleaned (o : Observation) : Observation :=
  mkObservation (TrimSpace (Platform o)) (TrimSpace (Product o)) (ProductVersion o) (TrimSpace (PlaybackType o))
    (ToUpper (TrimSpace (Status o))) (Notes o).
Definition version_note (last : option string) (o : Observation) : string :=
  match last with
  | Some v => if negb (v =s "") && negb (v =s ProductVersion o)
              then "version changed " +:+ v +:+ " -> " +:+ ProductVersion o +:+ "; certainty reset by operator review. " +:+ Notes o
              else Notes o
  | None => Notes o
  end.

(** [Record] over the stored profiles; the select finds the row by its
    id. *)
Definition Record_ (now : Z) (rows : list profile) (o : Observation) : outcome (list profile) :=
  let o := cleaned o in
  if (Platform o =s "") || (Product o =s "") || (PlaybackType o =s "")
  then Err "spike: platform, product and playbackType are required"
  else if negb (bool_decide (Status o ∈ validStates)) then Err "spike: invalid status"
  else match find (profile_for o) rows with
       | None => Ok (rows ++ [mkProfile (Platform o) (Product o) (PlaybackType o) (Status o) 1
                                (nullIfEmpty (ProductVersion o)) (nullIfEmpty (Notes o)) now])
       | Some p => Ok (update_first (profile_for o)
                         (λ q, mkProfile (p_platform q) (p_product q) (p_playback q) (Status o) (p_count q + 1)
                                 (nullIfEmpty (ProductVersion o)) (nullIfEmpty (version_note (p_version p) o)) now) rows)
       end.

Definition profile_key (p : profile) : string * string * string := (p_platform p, p_product p, p_playback p).
Definition profiles_ok (rows : list profile) : Prop :=
  NoDup (profile_key <$> rows) ∧ Forall (λ p, p_status p ∈ validStates ∧ 1 <= p_count p) rows.

Lemma update_first_keys f g l : (∀ p, profile_key (g p) = profile_key p) → profile_key <$> update_first f g l = profile_key <$> l.
Proof. intros Hg. induction l as [|p l IH]; [done|]. cbn. destruct (f p); cbn; [by rewrite Hg|by rewrite IH]. Qed.

Lemma Forall_update_first (P : profile → Prop) f g l : Forall P l → (∀ p, P p → P (g p)) → Forall P (update_first f g l).
Proof. intros Hl Hg. induction Hl as [|p l Hp Hl IH]; cbn; [done|]. destruct (f p); constructor; auto. Qed.

Lemma profile_for_key o p : profile_for o p = true ↔ profile_key p = (Platform o, Product o, PlaybackType o).
Proof.
  unfold profile_for, profile_key. rewrite !andb_true_iff, !String.eqb_eq. split; [by intros [[-> ->] ->]|by intros [= -> -> ->]].
Qed.

(** The matrix has one row for a platform, product and playback type, with a
    known state. *)
Lemma Record_ok now rows o rows' : profiles_ok rows → Record_ now rows o = Ok rows' → profiles_ok rows'.
Proof.
  intros [Hd Hf] HR. unfold Record_ in HR. cbv zeta in HR. destruct (_ || _ || _); [done|].
  destruct (bool_decide (Status (cleaned o) ∈ validStates)) eqn:Es; [|done]. apply bool_decide_eq_true in Es. cbn [negb] in HR.
  destruct (find _ rows) as [p|] eqn:Ef; injection HR as <-.
  - split; [by rewrite update_first_keys|]. apply Forall_update_first; [done|]. intros q [_ Hq]. split; [done|cbn; lia].
  - split; [|rewrite Forall_app, Forall_singleton; by split].
    rewrite fmap_app, NoDup_app. split; [done|]. split; [|apply NoDup_singleton].
    intros k (q & -> & Hq)%list_elem_of_fmap Hk%list_elem_of_singleton.
    apply list_elem_of_In in Hq. pose proof (find_none _ _ Ef q Hq) as Hn. cbn in Hn.
    assert (profile_for (cleaned o) q = true) by (by apply profile_for_key). congruence.
Qed.

End Spike.
