(* ===== verification/Capture.v ===== *)
(** * Targeted capture

    internal/capture/capture.go: an operator arms capture for a client or an
    item; a target expires by itself, their number is bounded and so is the
    ring of captured events.  Times are nanoseconds. *)

From S2P Require Import Prelude GoStrings GoHttp Rings Trace.

Module Capture.

Definition maxTargets : nat := 32.
Definition maxEvents : nat := 200.
Definition Minute : Z := 60000000000.
Definition Hour : Z := 60 * Minute.

Record Target := mkTarget { ClientID : string; RatingKey : string; Reason : string; expires : Z }.
#[global] Instance Target_eq_dec : EqDecision Target.
Proof. solve_decision. Defined.

Record Event := mkEvent {
  Timestamp : string; RequestID : string; PlaybackTraceID : string; Method : string; Path : string; Client : string;
  ClientProduct : string; EvRatingKey : string; Note : string
}.
Record Store := mkStore { targets : list Target; events : list Event }.
Definition New : Store := mkStore [] [].

Definition pruneLocked (now : Z) (s : Store) : Store := mkStore (filter (λ t, now < expires t) (targets s)) (events s).

Definition clamp (ttl : Z) : Z :=
  let ttl := if ttl <? Minute then Minute else ttl in
  if 8 * Hour <? ttl then 8 * Hour else ttl.

Definition Start (now : Z) (s : Store) (clientID ratingKey : string) (ttl : Z) (reason : string) : Store * outcome Target :=
  if (clientID =s "") && (ratingKey =s "") then (s, Err "capture: clientId or ratingKey is required")
  else
    let t := mkTarget clientID ratingKey reason (now + clamp ttl) in
    let s := pruneLocked now s in
    if (maxTargets <=? length (targets s))%nat then (s, Err "capture: too many active targets")
    else (mkStore (targets s ++ [t]) (events s), Ok t).

Definition named (clientID ratingKey : string) (t : Target) : bool := (ClientID t =s clientID) && (RatingKey t =s ratingKey).
Definition Stop (s : Store) (clientID ratingKey : string) : Store * nat :=
  let kept := filter (λ t, named clientID ratingKey t = false) (targets s) in
  (mkStore kept (events s), length (filter (λ t, named clientID ratingKey t = true) (targets s))).

Definition hits (clientID ratingKey : string) (t : Target) : bool :=
  negb (ClientID t =s "") && (ClientID t =s clientID) || negb (RatingKey t =s "") && (RatingKey t =s ratingKey).

Definition Match (now : Z) (s : Store) (r : Request) : Store * bool :=
  let clientID := HGet (ReqHeader r) "X-Plex-Client-Identifier" in
  let ratingKey := Trace.ExtractRatingKey r in
  if (clientID =s "") && (ratingKey =s "") then (s, false)
  else let s := pruneLocked now s in (s, existsb (hits clientID ratingKey) (targets s)).

(** [now] is the formatted time. *)
Definition Record_ (now : string) (s : Store) (e : Event) : Store :=
  let e := if Timestamp e =s "" then
             mkEvent now (RequestID e) (PlaybackTraceID e) (Method e) (Path e) (Client e) (ClientProduct e) (EvRatingKey e) (Note e)
           else e in
  mkStore (targets s) (push maxEvents (events s) e).

Definition Targets (now : Z) (s : Store) : Store * list Target :=
  let s := pruneLocked now s in (s, targets s).
Definition Events (s : Store) : list Event := events s.

(** ** Runs *)

Inductive call :=
  | CStart (clientID ratingKey : string) (ttl : Z) (reason : string)
  | CStop (clientID ratingKey : string)
  | CMatch (r : Request)
  | CRecord (stamp : string) (e : Event)
  | CTargets.

Definition step (s : Store) (c : Z * call) : Store :=
  let '(now, c) := c in
  match c with
  | CStart a b ttl reason => (Start now s a b ttl reason).1
  | CStop a b => (Stop s a b).1
  | CMatch r => (Match now s r).1
  | CRecord stamp e => Record_ stamp s e
  | CTargets => (Targets now s).1
  end.
Definition run (h : list (Z * call)) : Store := foldl step New h.

(** The calls of [h] that armed [t] and were not followed by a stop of
    it. *)
Definition armed_by (h : list (Z * call)) (t : Target) : Prop :=
  ∃ before now ttl after, h = before ++ (now, CStart (ClientID t) (RatingKey t) ttl (Reason t)) :: after ∧
    expires t = now + clamp ttl ∧ Forall (λ c, c.2 ≠ CStop (ClientID t) (RatingKey t)) after.

Lemma clamp_bounds ttl : Minute <= clamp ttl <= 8 * Hour ∧ (Minute <= ttl <= 8 * Hour → clamp ttl = ttl).
Proof. unfold clamp, Hour, Minute. repeat case_match; lia. Qed.

Lemma armed_by_snoc h c t : armed_by h t → c.2 ≠ CStop (ClientID t) (RatingKey t) → armed_by (h ++ [c]) t.
Proof.
  intros (b & n & ttl & a & -> & He & Hf) Hc. exists b, n, ttl, (a ++ [c]). rewrite <- app_assoc. split_and!; [done..|].
  by apply Forall_app; split; [|apply Forall_singleton].
Qed.

Record invariant (h : list (Z * call)) (s : Store) : Prop := mkInvariant {
  few_targets : (length (targets s) <= maxTargets)%nat;
  few_events : (length (events s) <= maxEvents)%nat;
  all_armed : Forall (λ t, armed_by h t ∧ (ClientID t ≠ "" ∨ RatingKey t ≠ "")) (targets s);
}.

Lemma invariant_prune h s now : invariant h s → invariant h (pruneLocked now s).
Proof.
  intros [H1 H2 H3]. split; [|done|].
  - cbn. etrans; [apply length_filter|done].
  - cbn. apply Forall_forall. intros t [_ Ht]%list_elem_of_filter. by rewrite Forall_forall in H3; apply H3.
Qed.

Lemma invariant_more h s c :
  invariant h s → (∀ a b, c.2 ≠ CStop a b) → invariant (h ++ [c]) s.
Proof.
  intros [H1 H2 H3] Hc. split; [done..|]. eapply Forall_impl; [done|]. cbn. intros t [Ht ?]. split; [|done]. by apply armed_by_snoc.
Qed.

Lemma invariant_step h s c : invariant h s → invariant (h ++ [c]) (step s c).
Proof.
  intros Hi. destruct c as [now [a b ttl reason|a b|r|stamp e|]]; cbn [step].
  - unfold Start. destruct ((a =s "") && (b =s "")) eqn:Eab; [by apply invariant_more|]. cbv zeta.
    pose proof (invariant_more _ _ (now, CStart a b ttl reason) (invariant_prune _ _ now Hi)) as Hp.
    destruct (Nat.leb_spec maxTargets (length (targets (pruneLocked now s)))) as [Hl|Hl]; [by apply Hp|].
    destruct Hp as [_ Hp2 Hp3]; [done|]. split; cbn [fst targets events]; [rewrite length_app; cbn [length]; lia|done|].
    rewrite Forall_app, Forall_singleton. split; [done|]. split.
    + exists h, now, ttl, []. split_and!; by try constructor.
    + cbn. apply andb_false_iff in Eab as [?%String.eqb_neq|?%String.eqb_neq]; auto.
  - destruct Hi as [H1 H2 H3]. split; [|done|]; cbn.
    + etrans; [apply length_filter|done].
    + apply Forall_forall. intros t [Hn Ht]%list_elem_of_filter. rewrite Forall_forall in H3. destruct (H3 t Ht) as [Ha ?].
      split; [|done]. apply armed_by_snoc; [done|]. cbn. intros [= -> ->]. unfold named in Hn. by rewrite !String.eqb_refl in Hn.
  - unfold Match. destruct (_ && _); [by apply invariant_more|]. by apply invariant_more; [apply invariant_prune|].
  - apply (invariant_more _ _ (now, CRecord stamp e)) in Hi as [H1 H2 H3]; [|done]. split; [done| |done]. apply push_bound.
  - by apply invariant_more; [apply invariant_prune|].
Qed.

Lemma invariant_run h : invariant h (run h).
Proof.
  induction h as [|c h IH] using rev_ind; [split; cbn; [lia|lia|constructor]|].
  unfold run in *. rewrite foldl_app. by apply invariant_step.
Qed.

(** Capture ends by itself: after any calls at most 32 targets are armed and
    at most 200 events are kept, and when a request matches, an operator armed
    a target for its client or its item, that target was not stopped since,
    and less than its time, at least a minute and at most eight hours, has
    passed. *)
Theorem capture_is_targeted_and_time_limited h now r :
  (length (targets (run h)) <= 32)%nat ∧ (length (events (run h)) <= 200)%nat ∧
  ((Match now (run h) r).2 = true →
   ∃ t before armed ttl after,
     h = before ++ (armed, CStart (ClientID t) (RatingKey t) ttl (Reason t)) :: after ∧
     Forall (λ c, c.2 ≠ CStop (ClientID t) (RatingKey t)) after ∧
     now < armed + clamp ttl ∧ Minute <= clamp ttl <= 8 * Hour ∧
     (ClientID t ≠ "" ∧ ClientID t = HGet (ReqHeader r) "X-Plex-Client-Identifier" ∨
      RatingKey t ≠ "" ∧ RatingKey t = Trace.ExtractRatingKey r)).
Proof.
  destruct (invariant_run h) as [H1 H2 H3]. split; [done|]. split; [done|]. unfold Match. destruct (_ && _); [done|]. cbn [snd].
  intros (t & Ht%list_elem_of_In & Hh)%existsb_exists. cbn [targets pruneLocked] in Ht. apply list_elem_of_filter in Ht as [He Ht].
  rewrite Forall_forall in H3. destruct (H3 t Ht) as [(b & n & ttl & a & Eh & Ee & Hf) _].
  exists t, b, n, ttl, a. rewrite <- Ee. split_and!; try done; [apply clamp_bounds..|].
  unfold hits in Hh. apply orb_prop in Hh as [[Hx%negb_true_iff%String.eqb_neq Hy%String.eqb_eq]%andb_prop|
    [Hx%negb_true_iff%String.eqb_neq Hy%String.eqb_eq]%andb_prop]; auto.
Qed.

Definition w_history : list (Z * call) :=
  [(0, CStart "tv" "" (5 * Minute) "stutter"); (Minute, CStart "phone" "" (10 * Minute) ""); (2 * Minute, CStop "phone" "")].
Definition w_request : Request := mkRequest "GET" "/hubs" "" [("X-Plex-Client-Identifier", ["tv"])] 0.
Lemma capture_is_targeted_and_time_limited_witness :
  (length (targets (run w_history)) <= 32)%nat ∧ (Match (5 * Minute - 1) (run w_history) w_request).2 = true ∧
  (Match (5 * Minute) (run w_history) w_request).2 = false.
Proof.
  destruct (capture_is_targeted_and_time_limited w_history (5 * Minute - 1) w_request) as (H & _ & _).
  split; [exact H|vm_compute; done].
Defined.

(** What is armed for a client matches its requests until it expires. *)
Lemma started_matches now s a b ttl reason t r later :
  (Start now s a b ttl reason).2 = Ok t → a ≠ "" → HGet (ReqHeader r) "X-Plex-Client-Identifier" = a →
  now <= later < now + clamp ttl → (Match later (Start now s a b ttl reason).1 r).2 = true.
Proof.
  unfold Start. intros HS Ha Hr Hl. destruct ((a =s "") && (b =s "")); [done|]. cbv zeta in *.
  destruct (_ <=? _)%nat; [done|]. unfold Match. rewrite Hr. apply String.eqb_neq in Ha. rewrite Ha. cbn [andb fst snd].
  apply existsb_exists. eexists. split; [apply list_elem_of_In, list_elem_of_filter; split; [|cbn [targets]; apply elem_of_app; right; apply list_elem_of_singleton; reflexivity]|].
  - cbn. lia.
  - unfold hits. cbn. by rewrite Ha, String.eqb_refl.
Qed.

End Capture.
