(* ===== verification/Warmer.v ===== *)
(** * The background warmer (internal/warmer)

    Jobs and their priorities, short-lived credential contexts, eviction,
    candidate selection and the refresh pass (scheduling.go), and one refresh
    with its publication checks (warmer.go).

    The warmer's lock makes each operation atomic; a pass releases it between
    its steps, so the pass is a state machine whose steps interleave with the
    foreground operations.  The order in which a loop ranges over a map is an
    argument of the operation. *)

From S2P Require Import Prelude GoStrings GoHttp GoCrypto CacheEntry CacheKeys.

Module Warmer.

Import CacheEntry.

(** ** Jobs *)

Definition credentialTTL : Z := 2 * Minute.
Definition maxContexts : nat := 32%nat.
Definition maxTracked : Z := 512.

Definition Low : Z := 0.
Definition Normal : Z := 1.
Definition High : Z := 2.
Definition Protected : Z := 3.

Record Snapshot := mkSnapshot {
  sMethod : string; sPath : string; sRawQuery : string; sAccept : string;
  Scope : string; Class_ : string; TTL : Z; Priority : Z;
}.

#[global] Instance Snapshot_eq_dec : EqDecision Snapshot.
Proof. solve_decision. Defined.

Record tracked := mkTracked {
  key : string; snap : Snapshot; last : Z; observed : Z; next : Z; failures : Z;
  requiresContext : bool; sequence : Z;
}.

Record credentialContext := mkContext { token : string; expires : Z; version : Z }.

Record Config := mkConfig {
  Enabled : bool; MaxTracked : Z; RequestsPerPass : Z; MaxPerScopePerPass : Z; BytesPerPass : Z;
}.

Definition DefaultConfig : Config := mkConfig true 512 16 4 (Z.shiftl 64 20).

Record Warmer := mkWarmer {
  jobs : gmap string tracked;
  contexts : gmap string credentialContext;
  served : gmap string Z;
  config : Config;
  paused : bool;
  foreground : Z;
  contextVersion : Z;
  wsequence : Z;
  servedSequence : Z;
  dropped : Z;
}.

Definition New : Warmer := mkWarmer ∅ ∅ ∅ DefaultConfig false 0 0 0 0 0.

Definition set_jobs (w : Warmer) (j : gmap string tracked) (d : Z) : Warmer :=
  mkWarmer j (contexts w) (served w) (config w) (paused w) (foreground w) (contextVersion w)
    (wsequence w) (servedSequence w) (dropped w + d).

(** ** Secrets in queries *)

Section strip.
(** [url.Parse] of a parameter value: its raw query, when it has one, and
    how the value reads with that query replaced. *)
Context (parse_url : string → option (string * (string → string))).

(** Whether [url.ParseQuery] reports no error. *)
Definition setting_ok (s : string) : bool :=
  negb (Contains s ";") &&
  match Cut s "=" with
  | Some (k, v) => match QueryUnescape k, QueryUnescape v with Some _, Some _ => true | _, _ => false end
  | None => match QueryUnescape s with Some _ => true | None => false end
  end.
Definition query_ok (raw : string) : bool := forallb setting_ok (Split raw "&").

(** The fuel bounds the nesting of queries in parameter values. *)
Fixpoint stripSecrets (fuel : nat) (raw : string) : string :=
  if raw =s "" then ""
  else if negb (query_ok raw) then ""
  else match fuel with
       | O => ""
       | S f =>
           let strip_value v :=
             match parse_url v with
             | Some (nested, rebuild) => if nested =s "" then v else rebuild (stripSecrets f nested)
             | None => v
             end in
           Encode (fmap (M := gmap string) (fmap (M := list) strip_value)
             (filter (λ kv, CacheKeys.isSecretParam kv.1 = false) (ParseQuery raw)))
       end.
End strip.

(** ** Operations under the lock *)

Definition routePriority (path : string) : Z :=
  let p := ToLower path in
  if Contains p "/collections" then Protected
  else if HasPrefix p "/library/sections" then High
  else if HasPrefix p "/library/metadata" then Normal
  else Low.

(** JSON arrays of strings are written with an injective quoting; the job id
    is the digest of the array. *)
Definition snapshotID (quote : list string → string) (s : Snapshot) : string :=
  sha256hex (quote [Scope s; sMethod s; sPath s; sRawQuery s; sAccept s]).

Definition live_scopes (w : Warmer) : list string := (λ jt, Scope (snap jt.2)) <$> map_to_list (jobs w).

Definition expireContexts (now : Z) (w : Warmer) : Warmer :=
  mkWarmer (jobs w) (filter (λ sc, now < expires sc.2) (contexts w))
    (filter (λ sv, sv.1 ∈ live_scopes w) (served w)) (config w) (paused w) (foreground w)
    (contextVersion w) (wsequence w) (servedSequence w) (dropped w).

(** The job an eviction prefers: lower priority, then observed earlier. *)
Definition evict_before (a b : string * tracked) : bool :=
  (Priority (snap a.2) <? Priority (snap b.2)) ||
  ((Priority (snap a.2) =? Priority (snap b.2)) && (observed a.2 <? observed b.2)).

(** [evictJobLocked]; [it] is the iteration order of the jobs. *)
Definition evictJob (it : list (string * tracked)) (incoming : option Z) (w : Warmer) : Warmer * bool :=
  match it with
  | [] => (w, true)
  | first :: rest =>
      let victim := best_of evict_before first rest in
      if match incoming with Some p => p <? Priority (snap victim.2) | None => false end
      then (set_jobs w (jobs w) 1, false)
      else (set_jobs w (delete victim.1 (jobs w)) 1, true)
  end.

Definition config_ok (c : Config) : bool :=
  negb ((MaxTracked c <? 1) || (maxTracked <? MaxTracked c) || (RequestsPerPass c <? 1) ||
        (64 <? RequestsPerPass c) || (MaxPerScopePerPass c <? 1) || (16 <? MaxPerScopePerPass c) ||
        (RequestsPerPass c <? MaxPerScopePerPass c) || (BytesPerPass c <? Z.shiftl 8 20) ||
        (Z.shiftl 256 20 <? BytesPerPass c)).

(** The eviction loop of [Configure]; each turn takes the next iteration
    order, and one turn per job is enough. *)
Fixpoint evict_until (its : list (list (string * tracked))) (limit : Z) (w : Warmer) : Warmer :=
  match its with
  | [] => w
  | it :: r => if limit <? Z.of_nat (size (jobs w)) then evict_until r limit (evictJob it None w).1 else w
  end.

Definition Configure (its : list (list (string * tracked))) (c : Config) (w : Warmer) : Warmer * bool :=
  if negb (config_ok c) then (w, false)
  else
    let w := mkWarmer (jobs w) (if Enabled c then contexts w else ∅) (served w) c (paused w)
               (foreground w) (contextVersion w) (wsequence w) (servedSequence w) (dropped w) in
    (evict_until its (MaxTracked c) w, true).

Definition SetPaused (p : bool) (w : Warmer) : Warmer :=
  mkWarmer (jobs w) (contexts w) (served w) (config w) p (foreground w) (contextVersion w)
    (wsequence w) (servedSequence w) (dropped w).

Definition add_foreground (d : Z) (w : Warmer) : Warmer :=
  mkWarmer (jobs w) (contexts w) (served w) (config w) (paused w) (foreground w + d) (contextVersion w)
    (wsequence w) (servedSequence w) (dropped w).

(** Drop every job of a scope. *)
Definition drop_scope (scope : string) (w : Warmer) : Warmer :=
  let rest := filter (λ jt, Scope (snap jt.2) ≠ scope) (jobs w) in
  set_jobs w rest (Z.of_nat (size (jobs w)) - Z.of_nat (size rest)).

Definition without_context (scope : string) (w : Warmer) : Warmer :=
  mkWarmer (jobs w) (delete scope (contexts w)) (served w) (config w) (paused w) (foreground w)
    (contextVersion w) (wsequence w) (servedSequence w) (dropped w).

Definition ForgetScope (scope : string) (w : Warmer) : Warmer :=
  if scope =s "" then w
  else
    let w := without_context scope w in
    let w := mkWarmer (jobs w) (contexts w) (delete scope (served w)) (config w) (paused w) (foreground w)
               (contextVersion w) (wsequence w) (servedSequence w) (dropped w) in
    drop_scope scope w.

(** The context replaced when all slots are in use: the soonest to expire. *)
Definition context_before (a b : string * credentialContext) : bool := expires a.2 <? expires b.2.

Definition admit_context (itc : list (string * credentialContext)) (now : Z) (scope credential : string)
    (w : Warmer) : Warmer :=
  let ctxs := match contexts w !! scope with
              | Some _ => contexts w
              | None =>
                  if (maxContexts <=? size (contexts w))%nat then
                    match itc with
                    | [] => contexts w
                    | first :: rest => delete (best_of context_before first rest).1 (contexts w)
                    end
                  else contexts w
              end in
  let v := uint64 (contextVersion w + 1) in
  mkWarmer (jobs w) (<[scope := mkContext credential (now + credentialTTL) v]> ctxs) (served w) (config w)
    (paused w) (foreground w) v (wsequence w) (servedSequence w) (dropped w).

Definition track_ok (key : string) (s : Snapshot) (credential : string) (authorized : bool) : bool :=
  negb ((key =s "") || (512 <? slen key) || (Scope s =s "") || (256 <? slen (Scope s)) ||
        (4096 <? slen (sPath s)) || (8192 <? slen (sRawQuery s)) || (512 <? slen (sAccept s)) ||
        (TTL s <=? 0) || (authorized && ((credential =s "") || (8192 <? slen credential)))) &&
  negb ((Priority s <? Low) || (Protected <? Priority s)).

(** The job as it is stored: stripped query, route priority. *)
Definition stored_snapshot (parse_url : string → option (string * (string → string))) (s : Snapshot) : Snapshot :=
  mkSnapshot (sMethod s) (sPath s) (stripSecrets parse_url (String.length (sRawQuery s)) (sRawQuery s))
    (sAccept s) (Scope s) (Class_ s) (TTL s)
    (if Priority s =? Low then routePriority (sPath s) else Priority s).

Definition insert_job (now : Z) (id key : string) (s : Snapshot) (authorized : bool) (w : Warmer) : Warmer :=
  let n := uint64 (wsequence w + 1) in
  mkWarmer (<[id := mkTracked key s now now 0 0 authorized n]> (jobs w)) (contexts w) (served w) (config w)
    (paused w) (foreground w) (contextVersion w) n (servedSequence w) (dropped w).

(** [track], after validation, with the job's stored snapshot and id. *)
Definition track (itj : list (string * tracked)) (itc : list (string * credentialContext)) (now : Z)
    (id key : string) (s : Snapshot) (credential : string) (authorized : bool) (w : Warmer) : Warmer :=
  if negb (Enabled (config w)) then w
  else
    let w := expireContexts now w in
    let w := if authorized then admit_context itc now (Scope s) credential w else w in
    match jobs w !! id with
    | Some _ => insert_job now id key s authorized w
    | None =>
        if MaxTracked (config w) <=? Z.of_nat (size (jobs w)) then
          match evictJob itj (Some (Priority s)) w with
          | (w, true) => insert_job now id key s authorized w
          | (w, false) => w
          end
        else insert_job now id key s authorized w
    end.

(** The whole call: validation, the stored snapshot and its id. *)
Definition track_call (parse_url : string → option (string * (string → string)))
    (quote : list string → string) (itj : list (string * tracked))
    (itc : list (string * credentialContext)) (now : Z) (key : string) (s : Snapshot)
    (credential : string) (authorized : bool) (w : Warmer) : Warmer :=
  if negb (track_ok key s credential authorized) then w
  else
    let s := stored_snapshot parse_url s in
    track itj itc now (snapshotID quote s) key s credential authorized w.

(** ** Choosing the next refresh *)

Record candidate := mkCandidate {
  c_id : string; c_job : tracked; c_token : string; c_version : Z; c_owner : bool; c_served : Z;
}.
Definition c_scope (c : candidate) : string := Scope (snap (c_job c)).

Definition served_of (w : Warmer) (scope : string) : Z := default 0 (served w !! scope).

Definition not_due (w : Warmer) (now : Z) (perScope : gmap string Z) (t : tracked) : bool :=
  (now - last t <? Z.quot (TTL (snap t)) 2) || (now <? next t) ||
  (MaxPerScopePerPass (config w) <=? default 0 (perScope !! Scope (snap t))).

(** The credential a job may use now: token, version and whether it is the
    owner's. *)
Definition pick_token (w : Warmer) (now : Z) (owner ownerScope : string) (t : tracked)
    : option (string * Z * bool) :=
  match contexts w !! Scope (snap t) with
  | Some c => if now <? expires c then Some (token c, version c, false)
              else if negb (requiresContext t) && negb (owner =s "") && (Scope (snap t) =s ownerScope)
                   then Some (owner, 0, true) else None
  | None => if negb (requiresContext t) && negb (owner =s "") && (Scope (snap t) =s ownerScope)
            then Some (owner, 0, true) else None
  end.

Definition replaces (t : tracked) (old : option candidate) : bool :=
  match old with
  | None => true
  | Some o =>
      (Priority (snap (c_job o)) <? Priority (snap t)) ||
      ((Priority (snap t) =? Priority (snap (c_job o))) && (last t <? last (c_job o)))
  end.

(** The loop over the jobs: the warmer (stale owner jobs are dropped) and the
    best job of each scope. *)
Fixpoint candidates (it : list (string * tracked)) (now : Z) (owner ownerScope : string)
    (perScope : gmap string Z) (w : Warmer) (byScope : gmap string candidate)
    : Warmer * gmap string candidate :=
  match it with
  | [] => (w, byScope)
  | (id, t) :: r =>
      if not_due w now perScope t then candidates r now owner ownerScope perScope w byScope
      else
        let scope := Scope (snap t) in
        match pick_token w now owner ownerScope t with
        | Some (tk, v, own) =>
            let c := mkCandidate id t tk v own (served_of w scope) in
            candidates r now owner ownerScope perScope w
              (if replaces t (byScope !! scope) then <[scope := c]> byScope else byScope)
        | None =>
            candidates r now owner ownerScope perScope
              (if negb (requiresContext t) && negb (ownerScope =s "") && negb (scope =s ownerScope)
               then set_jobs w (delete id (jobs w)) 1 else w) byScope
        end
  end.

(** The order of the choices: least recently served scope, then priority,
    then first tracked. *)
Definition choice_before (a b : candidate) : bool :=
  if negb (c_served a =? c_served b) then c_served a <? c_served b
  else if negb (Priority (snap (c_job a)) =? Priority (snap (c_job b)))
       then Priority (snap (c_job b)) <? Priority (snap (c_job a))
       else sequence (c_job a) <? sequence (c_job b).

Definition nextCandidate (it : list (string * tracked)) (now : Z) (owner ownerScope : string)
    (perScope : gmap string Z) (w : Warmer) : Warmer * option candidate :=
  let '(w, byScope) := candidates it now owner ownerScope perScope w ∅ in
  match snd <$> map_to_list byScope with
  | [] => (w, None)
  | c :: r => (w, Some (best_of choice_before c r))
  end.

(** ** The pass *)

Inductive stage := Idle | Picked (c : candidate) | Fetching (c : candidate).

Record pass := mkPass {
  p_owner : string; p_ownerScope : string; p_perScope : gmap string Z; p_requests : Z; p_used : Z;
  p_stage : stage;
}.

Record world := mkWorld { wm : Warmer; clock : Z; running : option pass }.

Definition start : world := mkWorld New 1 None.

Definition blocked (w : Warmer) : bool := (0 <? foreground w) || paused w || negb (Enabled (config w)).

Definition at_stage (p : pass) (st : stage) : pass :=
  mkPass (p_owner p) (p_ownerScope p) (p_perScope p) (p_requests p) (p_used p) st.

(** The [permit] closure, evaluated just before publication. *)
Definition permit (wd : world) (c : candidate) : bool :=
  match jobs (wm wd) !! c_id c with
  | None => false
  | Some current =>
      (sequence current =? sequence (c_job c)) && negb (blocked (wm wd)) &&
      (c_owner c ||
       match contexts (wm wd) !! c_scope c with
       | Some cr => (version cr =? c_version c) && (clock wd <? expires cr)
       | None => false
       end)
  end.

(** Accounting after a refresh: the request counts, whatever its result. *)
Definition account (p : pass) (c : candidate) (n : Z) : pass :=
  mkPass (p_owner p) (p_ownerScope p)
    (<[c_scope c := default 0 (p_perScope p !! c_scope c) + 1]> (p_perScope p))
    (p_requests p + 1) (p_used p + n) Idle.

Definition on_job (w : Warmer) (c : candidate) (f : tracked → tracked) : Warmer :=
  match jobs w !! c_id c with
  | Some t => if sequence t =? sequence (c_job c) then set_jobs w (<[c_id c := f t]> (jobs w)) 0 else w
  | None => w
  end.

Definition backoff (now : Z) (t : tracked) : tracked :=
  let f := failures t + 1 in
  mkTracked (key t) (snap t) (last t) (observed t) (now + 15 * Second * 2 ^ Z.min (f - 1) 4) f
    (requiresContext t) (sequence t).

Definition refreshed (now : Z) (t : tracked) : tracked :=
  mkTracked (key t) (snap t) now (observed t) 0 0 (requiresContext t) (sequence t).

Definition fail_result (now : Z) (c : candidate) (status : Z) (w : Warmer) : Warmer :=
  let w := if (status =? 401) || (status =? 403)
           then drop_scope (c_scope c) (without_context (c_scope c) w) else w in
  on_job w c (backoff now).

Definition mark_served (scope : string) (w : Warmer) : Warmer :=
  let n := uint64 (servedSequence w + 1) in
  mkWarmer (jobs w) (contexts w) (<[scope := n]> (served w)) (config w) (paused w) (foreground w)
    (contextVersion w) (wsequence w) n (dropped w).

(** What can happen: time passes, foreground operations, and the steps of the
    pass. *)
Inductive event :=
  | Tick (d : Z)
  | Track (itj : list (string * tracked)) (itc : list (string * credentialContext))
      (key : string) (s : Snapshot) (credential : string) (authorized : bool)
  | Forget (scope : string)
  | Pause (b : bool)
  | Foreground
  | ForegroundDone
  | Reconfigure (its : list (list (string * tracked))) (c : Config)
  | PassStart (owner ownerScope : string)
  | PassPick (it : list (string * tracked))
  | PassStale
  | PassAbort
  | PassBegin
  | PassPublish (n : Z)
  | PassFail (n status : Z).

Definition on_wm (wd : world) (f : Warmer → Warmer) : world := mkWorld (f (wm wd)) (clock wd) (running wd).

Definition exhausted (w : Warmer) (p : pass) : bool :=
  (RequestsPerPass (config w) <=? p_requests p) || (BytesPerPass (config w) - p_used p <? MaxEntryBytes + 1).

Section system.
Context (parse_url : string → option (string * (string → string))) (quote : list string → string).

Definition step (wd : world) (ev : event) : world :=
  let now := clock wd in
  let w := wm wd in
  match ev with
  | Tick d => mkWorld w (now + d) (running wd)
  | Track itj itc key s credential authorized =>
      on_wm wd (track_call parse_url quote itj itc now key s credential authorized)
  | Forget scope => on_wm wd (ForgetScope scope)
  | Pause b => on_wm wd (SetPaused b)
  | Foreground => on_wm wd (add_foreground 1)
  | ForegroundDone => on_wm wd (add_foreground (-1))
  | Reconfigure its c => on_wm wd (λ w, (Configure its c w).1)
  | PassStart owner ownerScope =>
      match running wd with
      | Some _ => wd
      | None => if blocked w then wd
                else mkWorld (expireContexts now w) now (Some (mkPass owner ownerScope ∅ 0 0 Idle))
      end
  | PassPick it =>
      match running wd with
      | Some (mkPass _ _ _ _ _ Idle as p) =>
          if exhausted w p then mkWorld w now None
          else
            let w := expireContexts now w in
            if blocked w then mkWorld w now None
            else match nextCandidate it now (p_owner p) (p_ownerScope p) (p_perScope p) w with
                 | (w, None) => mkWorld w now None
                 | (w, Some c) => mkWorld w now (Some (at_stage p (Picked c)))
                 end
      | _ => wd
      end
  | PassStale =>
      match running wd with
      | Some (mkPass _ _ _ _ _ (Picked c) as p) =>
          mkWorld (set_jobs w (delete (c_id c) (jobs w)) 1) now (Some (at_stage p Idle))
      | _ => wd
      end
  | PassAbort =>
      match running wd with
      | Some (mkPass _ _ _ _ _ (Fetching _)) => wd
      | Some _ => mkWorld w now None
      | None => wd
      end
  | PassBegin =>
      match running wd with
      | Some (mkPass _ _ _ _ _ (Picked c) as p) =>
          if blocked w then mkWorld w now None
          else mkWorld (mark_served (c_scope c) w) now (Some (at_stage p (Fetching c)))
      | _ => wd
      end
  | PassPublish n =>
      match running wd with
      | Some (mkPass _ _ _ _ _ (Fetching c) as p) =>
          if permit wd c
          then mkWorld (on_job w c (refreshed now)) now (Some (account p c n))
          else mkWorld (fail_result now c 0 w) now (Some (account p c n))
      | _ => wd
      end
  | PassFail n status =>
      match running wd with
      | Some (mkPass _ _ _ _ _ (Fetching c) as p) =>
          mkWorld (fail_result now c status w) now (Some (account p c n))
      | _ => wd
      end
  end.

(** ** Reachable worlds *)

Fixpoint valid_its (its : list (list (string * tracked))) (limit : Z) (w : Warmer) : Prop :=
  if limit <? Z.of_nat (size (jobs w)) then
    match its with
    | [] => False
    | it :: r => it ≡ₚ map_to_list (jobs w) ∧ valid_its r limit (evictJob it None w).1
    end
  else True.

(** The arguments an event can have: iteration orders are orders of the
    actual maps, time does not run backwards, and a fetch reads at most one
    byte more than an entry may hold. *)
Definition valid (wd : world) (ev : event) : Prop :=
  match ev with
  | Tick d => 0 <= d
  | Track itj itc _ _ _ _ =>
      itj ≡ₚ map_to_list (jobs (wm wd)) ∧
      itc ≡ₚ map_to_list (contexts (expireContexts (clock wd) (wm wd)))
  | ForegroundDone => 0 < foreground (wm wd)
  | Reconfigure its c =>
      valid_its its (MaxTracked c)
        (mkWarmer (jobs (wm wd)) (if Enabled c then contexts (wm wd) else ∅) (served (wm wd)) c
           (paused (wm wd)) (foreground (wm wd)) (contextVersion (wm wd)) (wsequence (wm wd))
           (servedSequence (wm wd)) (dropped (wm wd)))
  | PassPick it => it ≡ₚ map_to_list (jobs (wm wd))
  | PassPublish n | PassFail n _ => 0 <= n <= MaxEntryBytes + 1
  | _ => True
  end.

(** The history, latest event first, with the time of each event. *)
Inductive reached : list (Z * event) → world → Prop :=
  | reached_start : reached [] start
  | reached_step h wd ev :
      reached h wd → valid wd ev → reached ((clock wd, ev) :: h) (step wd ev).

(** ** Bounds *)

Definition bounded (w : Warmer) : Prop :=
  config_ok (config w) = true ∧ Z.of_nat (size (jobs w)) <= MaxTracked (config w) ∧
  (size (contexts w) <= maxContexts)%nat.

Lemma config_ok_bounds c :
  config_ok c = true →
  1 <= MaxTracked c <= 512 ∧ 1 <= RequestsPerPass c <= 64 ∧
  1 <= MaxPerScopePerPass c <= 16 ∧ MaxPerScopePerPass c <= RequestsPerPass c ∧
  8388608 <= BytesPerPass c <= 268435456.
Proof.
  unfold config_ok, maxTracked. intros E. apply negb_true_iff in E. zbool.
  change (Z.shiftl 8 20) with 8388608 in *. change (Z.shiftl 256 20) with 268435456 in *. lia.
Qed.

Lemma evictJob_spec it inc w :
  it ≡ₚ map_to_list (jobs w) → (0 < size (jobs w))%nat →
  let '(w', ok) := evictJob it inc w in
  config w' = config w ∧ contexts w' = contexts w ∧ jobs w' ⊆ jobs w ∧
  if ok then (size (jobs w') < size (jobs w))%nat else jobs w' = jobs w.
Proof.
  intros Hp Hs. unfold evictJob. destruct it as [|first rest].
  { apply Permutation_nil_l in Hp. apply (f_equal length) in Hp.
    rewrite length_map_to_list in Hp. cbn in Hp. lia. }
  cbv zeta. set (v := best_of evict_before first rest).
  assert (Hv : jobs w !! v.1 = Some v.2).
  { apply elem_of_map_to_list. rewrite <- Hp.
    pose proof (best_of_in evict_before first rest) as Hin. fold v in Hin. by destruct v. }
  destruct (match inc with Some p => p <? Priority (snap v.2) | None => false end); cbn; [done|].
  split; [done|]. split; [done|]. split; [apply delete_subseteq|].
  rewrite map_size_delete, Hv. lia.
Qed.

Lemma evict_until_bounded its limit w :
  valid_its its limit w → 0 <= limit →
  Z.of_nat (size (jobs (evict_until its limit w))) <= limit ∧
  config (evict_until its limit w) = config w ∧ contexts (evict_until its limit w) = contexts w.
Proof.
  revert w. induction its as [|it its IH]; intros w; cbn [valid_its evict_until];
    destruct (Z.ltb_spec limit (Z.of_nat (size (jobs w)))); try done; [lia..|].
  intros [Hp Hv] Hl. pose proof (evictJob_spec it None w Hp ltac:(lia)) as He.
  destruct (evictJob it None w) as [w' ok]. cbn [fst] in *. destruct He as (E1 & E2 & _).
  destruct (IH w' Hv Hl) as (? & ? & ?). split; [done|]. split; congruence.
Qed.

Lemma expire_bounded now w : bounded w → bounded (expireContexts now w).
Proof.
  intros (H1 & H2 & H3). split; [done|]. split; [done|]. cbn. etrans; [apply map_size_filter|done].
Qed.

Lemma admit_context_bounded itc now scope cr w :
  itc ≡ₚ map_to_list (contexts w) → bounded w → bounded (admit_context itc now scope cr w).
Proof.
  intros Hp (H1 & H2 & H3). split; [done|]. split; [done|]. unfold admit_context. cbn [contexts].
  destruct (contexts w !! scope) as [c|] eqn:E.
  { rewrite map_size_insert, E. done. }
  destruct (Nat.leb_spec maxContexts (size (contexts w))) as [Hfull|Hroom].
  - destruct itc as [|first rest].
    { apply Permutation_nil_l in Hp. apply (f_equal length) in Hp.
      rewrite length_map_to_list in Hp. cbn in Hp. unfold maxContexts in *. lia. }
    set (v := best_of context_before first rest).
    assert (Hv : contexts w !! v.1 = Some v.2).
    { apply elem_of_map_to_list. rewrite <- Hp.
      pose proof (best_of_in context_before first rest) as Hin. fold v in Hin. by destruct v. }
    rewrite map_size_insert, lookup_delete_ne, E by congruence. rewrite map_size_delete, Hv. unfold maxContexts in *; lia.
  - rewrite map_size_insert, E. lia.
Qed.

Lemma insert_job_bounded now id key s auth w :
  bounded w → (Z.of_nat (size (jobs w)) < MaxTracked (config w) ∨ is_Some (jobs w !! id)) →
  bounded (insert_job now id key s auth w).
Proof.
  intros (H1 & H2 & H3) Hr. split; [done|]. split; [|done]. cbn. rewrite map_size_insert.
  destruct Hr as [Hr|[t ->]]; [case_match; unfold Datatypes.id; lia|done].
Qed.

Lemma track_bounded itj itc now id key s cr auth w :
  itj ≡ₚ map_to_list (jobs w) → itc ≡ₚ map_to_list (contexts (expireContexts now w)) →
  bounded w → bounded (track itj itc now id key s cr auth w).
Proof.
  intros Hj Hc Hb. unfold track. case_match; [done|]. cbv zeta.
  set (w1 := if auth then _ else _).
  assert (H1 : bounded w1 ∧ jobs w1 = jobs w).
  { unfold w1. destruct auth; (split; [|done]); [apply admit_context_bounded|]; auto using expire_bounded. }
  destruct H1 as [H1 Ej]. clearbody w1.
  destruct (jobs w1 !! id) as [t|] eqn:E.
  { apply insert_job_bounded; [done|]. right. by rewrite E. }
  destruct (Z.leb_spec (MaxTracked (config w1)) (Z.of_nat (size (jobs w1)))).
  - destruct H1 as (C1 & C2 & C3). pose proof (config_ok_bounds _ C1).
    pose proof (evictJob_spec itj (Some (Priority s)) w1 ltac:(by rewrite Ej) ltac:(lia)) as He.
    destruct (evictJob itj (Some (Priority s)) w1) as [w2 ok]. destruct He as (E1 & E2 & _ & E3).
    destruct ok.
    + apply insert_job_bounded.
      * split; [by rewrite E1|]. split; [rewrite E1; lia|by rewrite E2].
      * left. rewrite E1. lia.
    + split; [by rewrite E1|]. split; [rewrite E1, E3; lia|by rewrite E2].
  - apply insert_job_bounded; [done|]. left. lia.
Qed.

(** The selection loop drops jobs at most and leaves the credentials. *)
Lemma candidates_frame it now owner os per w by_ :
  let '(w', _) := candidates it now owner os per w by_ in
  jobs w' ⊆ jobs w ∧ contexts w' = contexts w ∧ config w' = config w ∧
  contextVersion w' = contextVersion w.
Proof.
  revert w by_. induction it as [|[id t] it IH]; intros w by_; cbn [candidates]; [done|].
  destruct (not_due w now per t); [apply IH|]. cbv zeta.
  destruct (pick_token w now owner os t) as [[[tk v] own]|]; [apply IH|].
  destruct (negb (requiresContext t) && _ && _); [|apply IH]. specialize (IH (set_jobs w (delete id (jobs w)) 1) by_).
  destruct (candidates _ _ _ _ _ _ _) as [w' b']. destruct IH as (H1 & H2 & H3 & H4).
  split; [|done]. etrans; [exact H1|apply delete_subseteq].
Qed.

(** What is known of a chosen candidate. *)
Definition choice_ok (w : Warmer) (now : Z) (owner os : string) (per : gmap string Z)
    (it : list (string * tracked)) (c : candidate) : Prop :=
  (c_id c, c_job c) ∈ it ∧
  pick_token w now owner os (c_job c) = Some (c_token c, c_version c, c_owner c) ∧
  not_due w now per (c_job c) = false.

Lemma choice_ok_frame w w' now owner os per it c :
  contexts w' = contexts w → config w' = config w →
  choice_ok w' now owner os per it c → choice_ok w now owner os per it c.
Proof.
  intros E1 E2. unfold choice_ok, pick_token, not_due. by rewrite E1, E2.
Qed.

Lemma candidates_ok it0 it now owner os per w by_ :
  (∀ e, e ∈ it → e ∈ it0) →
  (∀ s c, by_ !! s = Some c → choice_ok w now owner os per it0 c) →
  ∀ s c, (candidates it now owner os per w by_).2 !! s = Some c → choice_ok w now owner os per it0 c.
Proof.
  revert w by_. induction it as [|[id t] it IH]; intros w by_ Hit Hb; cbn [candidates]; [exact Hb|].
  assert (Hit' : ∀ e, e ∈ it → e ∈ it0) by (intros; apply Hit; set_solver).
  destruct (not_due w now per t) eqn:Ed; [by apply IH|]. cbv zeta.
  destruct (pick_token w now owner os t) as [[[tk v] own]|] eqn:Ep.
  - apply IH; [done|]. intros s c. destruct (replaces t _); [|apply Hb].
    rewrite lookup_insert_Some. intros [[_ <-]|[_ ?]]; [|by eapply Hb].
    split; [apply Hit; set_solver|]. done.
  - destruct (negb (requiresContext t) && _ && _); [|by apply IH]. intros s c Hc.
    eapply (choice_ok_frame _ (set_jobs w (delete id (jobs w)) 1)); [done|done|].
    eapply IH; [done| |exact Hc]. intros s' c' Hc'. apply Hb in Hc'. exact Hc'.
Qed.

Lemma nextCandidate_spec it now owner os per w :
  let '(w', oc) := nextCandidate it now owner os per w in
  jobs w' ⊆ jobs w ∧ contexts w' = contexts w ∧ config w' = config w ∧
  contextVersion w' = contextVersion w ∧
  ∀ c, oc = Some c → choice_ok w now owner os per it c.
Proof.
  unfold nextCandidate. pose proof (candidates_frame it now owner os per w ∅) as Hf.
  pose proof (candidates_ok it it now owner os per w ∅ ltac:(done)) as Hc.
  destruct (candidates it now owner os per w ∅) as [w' by_]. destruct Hf as (H1 & H2 & H3 & H4).
  destruct (snd <$> map_to_list by_) as [|c r] eqn:E; [done|].
  do 4 (split; [done|]). intros c' [= <-].
  pose proof (best_of_in choice_before c r) as Hin. rewrite <- E in Hin.
  apply list_elem_of_fmap in Hin as ([s c'] & -> & Hs). apply elem_of_map_to_list in Hs. cbn [snd].
  eapply Hc; [|exact Hs]. intros ? ?. by rewrite lookup_empty.
Qed.

(** ** The invariant of a pass *)

Definition pass_ok (p : pass) : Prop :=
  0 <= p_requests p <= 64 ∧ 0 <= p_used p <= 268435456 ∧
  (∀ s, 0 <= default 0 (p_perScope p !! s) <= 16) ∧
  match p_stage p with
  | Idle => True
  | Picked c | Fetching c =>
      p_requests p < 64 ∧ p_used p + (MaxEntryBytes + 1) <= 268435456 ∧
      default 0 (p_perScope p !! c_scope c) < 16
  end.

Definition world_ok (wd : world) : Prop :=
  bounded (wm wd) ∧ match running wd with None => True | Some p => pass_ok p end.

Lemma bounded_sub w w' :
  jobs w' ⊆ jobs w → contexts w' ⊆ contexts w → config w' = config w → bounded w → bounded w'.
Proof.
  intros H1 H2 H3 (B1 & B2 & B3). rewrite <- H3 in *.
  apply map_subseteq_size in H1, H2. split; [done|]. split; lia.
Qed.

Lemma drop_scope_bounded sc w : bounded w → bounded (drop_scope sc w).
Proof. apply bounded_sub; cbn; [apply map_filter_subseteq|done..]. Qed.

Lemma without_context_bounded sc w : bounded w → bounded (without_context sc w).
Proof. apply bounded_sub; cbn; [done|apply delete_subseteq|done]. Qed.

Lemma on_job_bounded w c f : bounded w → bounded (on_job w c f).
Proof.
  intros Hb. unfold on_job. destruct (jobs w !! c_id c) as [t|] eqn:E; [|done].
  case_match; [|done]. destruct Hb as (B1 & B2 & B3). split; [done|]. split; [|done]. cbn.
  by rewrite map_size_insert, E.
Qed.

Lemma fail_result_bounded now c st w : bounded w → bounded (fail_result now c st w).
Proof.
  intros Hb. unfold fail_result. apply on_job_bounded. case_match; [|done].
  by apply drop_scope_bounded, without_context_bounded.
Qed.

Lemma account_ok p c n :
  pass_ok p → p_stage p = Fetching c → 0 <= n <= MaxEntryBytes + 1 → pass_ok (account p c n).
Proof.
  intros (H1 & H2 & H3 & H4) E Hn. rewrite E in H4. destruct H4 as (H5 & H6 & H7).
  unfold account, pass_ok. cbn [p_requests p_used p_perScope p_stage]. split; [lia|]. split; [lia|].
  split; [|done]. intros s. destruct (decide (s = c_scope c)) as [->|Hne].
  - rewrite lookup_insert_eq. cbn. pose proof (H3 (c_scope c)). lia.
  - rewrite lookup_insert_ne by done. apply H3.
Qed.

Lemma pick_ok p w c :
  config_ok (config w) = true → pass_ok p → exhausted w p = false →
  MaxPerScopePerPass (config w) <=? default 0 (p_perScope p !! c_scope c) = false →
  pass_ok (at_stage p (Picked c)).
Proof.
  intros Hc (H1 & H2 & H3 & _) He Hp. pose proof (config_ok_bounds _ Hc).
  unfold exhausted in He. zbool. unfold pass_ok. cbn. split; [done|]. split; [done|]. split; [done|].
  change MaxEntryBytes with 2097152 in *. lia.
Qed.

Lemma step_ok wd ev : world_ok wd → valid wd ev → world_ok (step wd ev).
Proof.
  intros [Hb Hp] Hv.
  assert (Hsame : ∀ f, bounded (f (wm wd)) → world_ok (on_wm wd f)) by (intros f ?; split; done).
  destruct ev as [d|itj itc key s cr auth|sc|b| | |its c|owner os|it| | | |n|n st]; cbn [step valid] in *.
  - split; done.
  - apply Hsame. unfold track_call. destruct (track_ok key s cr auth); cbn [negb]; [|done].
    cbv zeta. destruct Hv as [Hv1 Hv2]. by apply track_bounded.
  - apply Hsame. unfold ForgetScope. destruct (sc =s ""); [done|].
    apply drop_scope_bounded. by apply (without_context_bounded sc) in Hb.
  - by apply Hsame.
  - by apply Hsame.
  - by apply Hsame.
  - apply Hsame. unfold Configure. destruct (config_ok c) eqn:Ec; cbn [negb fst]; [|done].
    pose proof (config_ok_bounds _ Ec). destruct Hb as (B1 & B2 & B3).
    destruct (evict_until_bounded _ _ _ Hv ltac:(lia)) as (E1 & E2 & E3).
    split; [by rewrite E2|]. split; [by rewrite E2|]. rewrite E3. cbn [contexts]. case_match; [done|].
    rewrite map_size_empty. lia.
  - destruct (running wd) as [p|] eqn:Er; [split; [done|by rewrite Er]|].
    destruct (blocked (wm wd)); [split; [done|by rewrite Er]|]. split; [by apply expire_bounded|]. cbn. unfold pass_ok. cbn.
    split; [lia|]. split; [lia|]. split; [|done]. intros s. rewrite lookup_empty. cbn. lia.
  - destruct (running wd) as [p|] eqn:Er; [|split; [done|by rewrite Er]].
    destruct p as [ow os per rq us stg]. destruct stg; [|split; [done|by rewrite Er]..].
    set (p := mkPass ow os per rq us Idle) in *. destruct (exhausted (wm wd) p) eqn:Ex; [by split|].
    cbv zeta. apply (expire_bounded (clock wd)) in Hb.
    destruct (blocked (expireContexts (clock wd) (wm wd))); [by split|].
    pose proof (nextCandidate_spec it (clock wd) (p_owner p) (p_ownerScope p) (p_perScope p)
                  (expireContexts (clock wd) (wm wd))) as Hn.
    destruct (nextCandidate _ _ _ _ _ _) as [w' oc]. destruct Hn as (N1 & N2 & N3 & _ & N5).
    assert (bounded w') by (eapply bounded_sub; [exact N1|by rewrite N2|exact N3|done]).
    destruct oc as [c|]; [|by split]. split; [done|]. cbn [running].
    destruct (N5 c eq_refl) as (_ & _ & Hd). unfold not_due in Hd. zbool.
    eapply (pick_ok p (wm wd)); [apply Hb|done|done|]. by apply Z.leb_gt.
  - destruct (running wd) as [p|] eqn:Er; [|split; [done|by rewrite Er]].
    destruct p as [ow os per rq us stg]. destruct stg; [split; [done|by rewrite Er]| |split; [done|by rewrite Er]].
    split.
    + cbn. revert Hb. apply bounded_sub; cbn; [apply delete_subseteq|done..].
    + cbn. destruct Hp as (H1 & H2 & H3 & _). done.
  - destruct (running wd) as [p|] eqn:Er; [|split; [done|by rewrite Er]].
    destruct p as [ow os per rq us stg]. destruct stg; [by split|by split|split; [done|by rewrite Er]].
  - destruct (running wd) as [p|] eqn:Er; [|split; [done|by rewrite Er]].
    destruct p as [ow os per rq us stg]. destruct stg; [split; [done|by rewrite Er]| |split; [done|by rewrite Er]].
    destruct (blocked (wm wd)); by split.
  - destruct (running wd) as [p|] eqn:Er; [|split; [done|by rewrite Er]].
    destruct p as [ow os per rq us stg]. destruct stg as [| |c]; [split; [done|by rewrite Er]..|].
    destruct (permit wd c); (split; [|by eapply account_ok]); [by apply on_job_bounded|by apply fail_result_bounded].
  - destruct (running wd) as [p|] eqn:Er; [|split; [done|by rewrite Er]].
    destruct p as [ow os per rq us stg]. destruct stg as [| |c]; [split; [done|by rewrite Er]..|].
    split; [by apply fail_result_bounded|by eapply account_ok].
Qed.

Lemma start_ok : world_ok start.
Proof. split; [|done]. split; [done|]. split; vm_compute; [discriminate|lia]. Qed.

(** Warming is bounded.  In every reachable state, whatever the
    interleaving of browsing, operator actions and background refreshes,
    there are at most [MaxTracked] jobs (at most 512) and 32 credential
    contexts, and a running pass has made at most 64 requests, at most 16
    for one scope, and read at most 256 MiB. *)
Theorem warmer_bounded h wd :
  reached h wd →
  Z.of_nat (size (jobs (wm wd))) <= MaxTracked (config (wm wd)) <= 512 ∧
  (size (contexts (wm wd)) <= 32)%nat ∧
  ∀ p, running wd = Some p →
    p_requests p <= 64 ∧ p_used p <= 268435456 ∧ ∀ s, default 0 (p_perScope p !! s) <= 16.
Proof.
  intros Hr. assert (Hw : world_ok wd).
  { induction Hr as [|h wd ev Hr IH Hv]; [apply start_ok|by apply step_ok]. }
  destruct Hw as [(B1 & B2 & B3) Hp]. pose proof (config_ok_bounds _ B1).
  split; [lia|]. split; [done|]. intros p E. rewrite E in Hp. destruct Hp as (H1 & H2 & H3 & _).
  split; [lia|]. split; [lia|]. intros s. pose proof (H3 s). lia.
Qed.

(** ** Credentials *)

Lemma evictJob_frame it inc w :
  contexts (evictJob it inc w).1 = contexts w ∧ contextVersion (evictJob it inc w).1 = contextVersion w.
Proof. unfold evictJob. destruct it; [done|]. cbv zeta. by destruct (match inc with Some _ => _ | None => _ end). Qed.

Lemma evict_until_frame its limit w :
  contexts (evict_until its limit w) = contexts w ∧
  contextVersion (evict_until its limit w) = contextVersion w.
Proof.
  revert w. induction its as [|it its IH]; intros w; cbn [evict_until]; [done|].
  destruct (limit <? _); [|done]. destruct (IH (evictJob it None w).1) as [-> ->]. apply evictJob_frame.
Qed.

(** What a foreground observation does to the contexts. *)
Lemma track_call_contexts itj itc now key s cr auth w scope cx :
  let w' := track_call parse_url quote itj itc now key s cr auth w in
  (contexts w' !! scope = Some cx →
     contexts w !! scope = Some cx ∨
     (auth = true ∧ Scope s = scope ∧ scope ≠ "" ∧
      cx = mkContext cr (now + credentialTTL) (uint64 (contextVersion w + 1)) ∧
      contextVersion w' = uint64 (contextVersion w + 1))) ∧
  (contextVersion w' = contextVersion w ∨
   auth = true ∧ contextVersion w' = uint64 (contextVersion w + 1)).
Proof.
  cbv zeta. unfold track_call. destruct (track_ok key s cr auth) eqn:Ek; cbn [negb]; [|auto]. cbv zeta.
  unfold track. destruct (Enabled (config w)); cbn [negb]; [|auto]. cbv zeta.
  assert (Hs : Scope s ≠ "").
  { unfold track_ok in Ek. apply andb_prop in Ek as [Ek _]. apply negb_true_iff in Ek. by zbool. }
  set (w1 := if auth then _ else _).
  assert (H1 : (∀ cx, contexts w1 !! scope = Some cx →
     contexts w !! scope = Some cx ∨
     (auth = true ∧ Scope s = scope ∧ scope ≠ "" ∧
      cx = mkContext cr (now + credentialTTL) (uint64 (contextVersion w + 1)) ∧
      contextVersion w1 = uint64 (contextVersion w + 1))) ∧
     (contextVersion w1 = contextVersion w ∨ auth = true ∧ contextVersion w1 = uint64 (contextVersion w + 1))).
  { assert (Hexp : ∀ cx, contexts (expireContexts now w) !! scope = Some cx → contexts w !! scope = Some cx).
    { intros c. cbn. rewrite map_lookup_filter_Some. naive_solver. }
    unfold w1. destruct auth; [|split; [|by left]; intros c Hc; left; by apply Hexp].
    split; [|by right]. intros c. unfold admit_context. cbn [contexts].
    change (Scope (stored_snapshot parse_url s)) with (Scope s). rewrite lookup_insert_Some.
    intros [[<- <-]|[Hne Hc]]; [right; done|]. left. apply Hexp. revert Hc.
    destruct (contexts (expireContexts now w) !! Scope s); [done|].
    destruct (maxContexts <=? _)%nat; [|done]. destruct itc; [done|]. rewrite lookup_delete_Some. tauto. }
  clearbody w1. destruct H1 as [H1 H2].
  assert (Hins : ∀ w2 id, contexts w2 = contexts w1 → contextVersion w2 = contextVersion w1 →
    contexts (insert_job now id key (stored_snapshot parse_url s) auth w2) = contexts w1 ∧
    contextVersion (insert_job now id key (stored_snapshot parse_url s) auth w2) = contextVersion w1) by done.
  destruct (jobs w1 !! _); [split; [apply H1|exact H2]|].
  destruct (MaxTracked (config w1) <=? _); [|split; [apply H1|exact H2]].
  pose proof (evictJob_frame itj (Some (Priority (stored_snapshot parse_url s))) w1) as [E1 E2].
  destruct (evictJob _ _ w1) as [w2 []]; cbn [fst] in *; cbn; rewrite ?E1, ?E2; (split; [apply H1|exact H2]).
Qed.

(** The credential [tok] of [scope] comes from a foreground observation of
    that scope at an instant [t0], and the scope was not forgotten since. *)
Definition authorized_by (h : list (Z * event)) (scope tok : string) (t0 : Z) : Prop :=
  ∃ h1 itj itc key s h2,
    h = h1 ++ (t0, Track itj itc key s tok true) :: h2 ∧ Scope s = scope ∧ scope ≠ "" ∧
    ∀ t, (t, Forget scope) ∉ h1.

Lemma authorized_by_later h scope tok t0 now ev :
  ev ≠ Forget scope → authorized_by h scope tok t0 → authorized_by ((now, ev) :: h) scope tok t0.
Proof.
  intros Hev (h1 & itj & itc & key & s & h2 & -> & Hs & Hne & Hno).
  exists ((now, ev) :: h1), itj, itc, key, s, h2. split; [done|]. split; [done|]. split; [done|].
  intros t [E|E]%elem_of_cons; [|by eapply Hno]. injection E as _ E. by apply Hev.
Qed.

(** What a chosen candidate may send. *)
Definition candidate_ok (h : list (Z * event)) (w : Warmer) (p : pass) (c : candidate) : Prop :=
  if c_owner c then
    c_token c = p_owner p ∧ c_scope c = p_ownerScope p ∧ p_owner p ≠ "" ∧ requiresContext (c_job c) = false
  else
    c_version c <= contextVersion w ∧
    (∀ cx, contexts w !! c_scope c = Some cx → version cx = c_version c → token cx = c_token c) ∧
    ∃ t itj itc key s, (t, Track itj itc key s (c_token c) true) ∈ h ∧ Scope s = c_scope c.

Definition cred_ok (h : list (Z * event)) (wd : world) : Prop :=
  0 <= contextVersion (wm wd) <= Z.of_nat (length h) ∧
  (∀ scope cx, contexts (wm wd) !! scope = Some cx →
     version cx <= contextVersion (wm wd) ∧
     ∃ t0, authorized_by h scope (token cx) t0 ∧ expires cx = t0 + credentialTTL) ∧
  match running wd with
  | Some p => match p_stage p with Idle => True | Picked c | Fetching c => candidate_ok h (wm wd) p c end
  | None => True
  end.

(** A step that creates no context keeps the facts about credentials. *)
Lemma cred_ok_sub h now ev wd w' r' :
  cred_ok h wd →
  contextVersion w' = contextVersion (wm wd) →
  (∀ scope cx, contexts w' !! scope = Some cx →
     contexts (wm wd) !! scope = Some cx ∧ (ev = Forget scope → scope = "")) →
  (r' = None ∨ (∃ p, r' = Some p ∧ p_stage p = Idle) ∨
   ∃ p p' c, running wd = Some p ∧ r' = Some p' ∧ p_owner p' = p_owner p ∧ p_ownerScope p' = p_ownerScope p ∧
     (p_stage p = Picked c ∨ p_stage p = Fetching c) ∧ (p_stage p' = Picked c ∨ p_stage p' = Fetching c)) →
  ∀ t, cred_ok ((now, ev) :: h) (mkWorld w' t r').
Proof.
  intros (H1 & H2 & H3) Hv Hc Hr t. split; [cbn [wm length]; rewrite Hv; lia|]. split.
  - cbn [wm]. intros scope cx Hcx. apply Hc in Hcx as [Hcx Hf]. rewrite Hv.
    destruct (H2 _ _ Hcx) as (? & t0 & Ha & ?). split; [done|]. exists t0. split; [|done].
    apply authorized_by_later; [|done]. intros E. apply Hf in E.
    destruct Ha as (? & ? & ? & ? & ? & ? & _ & _ & Hne & _). done.
  - cbn [running wm]. destruct Hr as [->|[(p & -> & ->)|(p & p' & c & Er & -> & Eo & Es & Hs & Hs')]]; [done|done|].
    assert (Hok : candidate_ok h (wm wd) p c).
    { rewrite Er in H3. by destruct Hs as [E|E]; rewrite E in H3. }
    assert (Hok' : candidate_ok ((now, ev) :: h) w' p' c).
    { unfold candidate_ok in *. destruct (c_owner c); [by rewrite Eo, Es|]. rewrite Hv.
      destruct Hok as (V1 & V2 & (t1 & a & b & k & s & Hin & Hsc)). split; [done|]. split.
      - intros cx Hcx. apply Hc in Hcx as [Hcx _]. by apply V2.
      - exists t1, a, b, k, s. split; [set_solver|done]. }
    by destruct Hs' as [->| ->].
Qed.

Lemma same_running wd :
  running wd = None ∨ (∃ p, running wd = Some p ∧ p_stage p = Idle) ∨
  ∃ p p' c, running wd = Some p ∧ running wd = Some p' ∧ p_owner p' = p_owner p ∧
    p_ownerScope p' = p_ownerScope p ∧
    (p_stage p = Picked c ∨ p_stage p = Fetching c) ∧ (p_stage p' = Picked c ∨ p_stage p' = Fetching c).
Proof.
  destruct (running wd) as [p|]; [|by left]. right. destruct (p_stage p) as [|c|c] eqn:E; [left; eauto|..].
  - right. exists p, p, c. auto 10.
  - right. exists p, p, c. auto 10.
Qed.

Lemma on_job_frame w c f :
  contexts (on_job w c f) = contexts w ∧ contextVersion (on_job w c f) = contextVersion w.
Proof. unfold on_job. destruct (jobs w !! c_id c); [|done]. by destruct (sequence _ =? _). Qed.

Lemma fail_result_frame now c st w scope cx :
  contextVersion (fail_result now c st w) = contextVersion w ∧
  (contexts (fail_result now c st w) !! scope = Some cx → contexts w !! scope = Some cx).
Proof.
  unfold fail_result. destruct (on_job_frame (if (st =? 401) || (st =? 403)
    then drop_scope (c_scope c) (without_context (c_scope c) w) else w) c (backoff now)) as [-> ->].
  destruct (_ || _); [|done]. split; [done|]. cbn. rewrite lookup_delete_Some. tauto.
Qed.

Lemma track_cred h wd itj itc key s cr auth :
  Z.of_nat (length h) < 2 ^ 64 - 1 → cred_ok h wd →
  cred_ok ((clock wd, Track itj itc key s cr auth) :: h) (step wd (Track itj itc key s cr auth)).
Proof.
  intros Hlen (H1 & H2 & H3). cbn [step]. unfold on_wm.
  set (ev := Track itj itc key s cr auth).
  pose proof (track_call_contexts itj itc (clock wd) key s cr auth (wm wd)) as Hc.
  set (w' := track_call _ _ _ _ _ _ _ _ _ _) in *.
  assert (Hu : uint64 (contextVersion (wm wd) + 1) = contextVersion (wm wd) + 1)
    by (apply uint64_id; unfold is_uint64; lia).
  assert (Hv : contextVersion (wm wd) <= contextVersion w' <= contextVersion (wm wd) + 1).
  { destruct (Hc "" (mkContext "" 0 0)) as [_ [->|[_ ->]]]; lia. }
  assert (Hev : ∀ sc, ev ≠ Forget sc) by done.
  split; [cbn [wm length]; lia|]. split.
  - cbn [wm]. intros scope cx Hcx. destruct (Hc scope cx) as [Hc1 Hc2].
    destruct (Hc1 Hcx) as [Hold|(-> & Hs & Hne & -> & Hver)].
    + destruct (H2 _ _ Hold) as (? & t0 & Ha & ?). split; [lia|]. exists t0.
      split; [by apply authorized_by_later|done].
    + cbn [token version expires]. split; [lia|].
      exists (clock wd). split; [|done]. exists [], itj, itc, key, s, h. split; [done|].
      split; [done|]. split; [done|]. intros t. apply not_elem_of_nil.
  - cbn [running wm]. destruct (running wd) as [p|]; [|done].
    assert (Hk : ∀ c, candidate_ok h (wm wd) p c → candidate_ok ((clock wd, ev) :: h) w' p c).
    { intros c. unfold candidate_ok. destruct (c_owner c); [done|].
      intros (V1 & V2 & (t1 & a & b & k & s' & Hin & Hsc)). split; [lia|]. split.
      - intros cx Hcx Hver. destruct (Hc (c_scope c) cx) as [Hc1 _].
        destruct (Hc1 Hcx) as [Hold|(_ & _ & _ & -> & _)]; [by apply V2|]. cbn [version] in Hver. lia.
      - exists t1, a, b, k, s'. split; [set_solver|done]. }
    destruct (p_stage p); [done|by apply Hk..].
Qed.

(** A chosen candidate uses its scope's context or the owner's token. *)
Lemma pick_candidate_ok h wd p per it c w' :
  cred_ok h wd → contexts w' = contexts (wm wd) → contextVersion w' = contextVersion (wm wd) →
  choice_ok (wm wd) (clock wd) (p_owner p) (p_ownerScope p) per it c → candidate_ok h w' p c.
Proof.
  intros (H1 & H2 & _) Ec Ev (_ & Hp & _). unfold pick_token in Hp. fold (c_scope c) in Hp.
  unfold candidate_ok. rewrite Ec, Ev.
  assert (Hown : (if negb (requiresContext (c_job c)) && negb (p_owner p =s "") && (c_scope c =s p_ownerScope p)
    then Some (p_owner p, 0, true) else None) = Some (c_token c, c_version c, c_owner c) →
    c_owner c = true ∧ c_token c = p_owner p ∧ c_scope c = p_ownerScope p ∧ p_owner p ≠ "" ∧
    requiresContext (c_job c) = false).
  { destruct (negb _ && _ && _) eqn:E; [|done]. zbool. intros [= E1 _ E3]. split_and!; congruence. }
  destruct (contexts (wm wd) !! c_scope c) as [cx|] eqn:Ex.
  - destruct (clock wd <? expires cx).
    + injection Hp as E1 E2 E3. rewrite <- E1, <- E2, <- E3.
      destruct (H2 _ _ Ex) as (? & t0 & Ha & _). split; [done|]. split.
      * intros cx' [= <-]. done.
      * destruct Ha as (h1 & a & b & k & s & h2 & -> & Hs & _). exists t0, a, b, k, s. split; [set_solver|done].
    + apply Hown in Hp as (-> & ?). done.
  - apply Hown in Hp as (-> & ?). done.
Qed.

Lemma expire_contexts_sub now w scope cx :
  contexts (expireContexts now w) !! scope = Some cx → contexts w !! scope = Some cx.
Proof. cbn. rewrite map_lookup_filter_Some. tauto. Qed.

Lemma cred_ok_expire h wd : cred_ok h wd → cred_ok h (mkWorld (expireContexts (clock wd) (wm wd)) (clock wd) (running wd)).
Proof.
  intros (H1 & H2 & H3). split; [done|]. split.
  - cbn [wm]. intros scope cx Hcx. apply expire_contexts_sub in Hcx. by apply H2.
  - cbn [running wm]. destruct (running wd) as [p|]; [|done].
    assert (Hk : ∀ c, candidate_ok h (wm wd) p c → candidate_ok h (expireContexts (clock wd) (wm wd)) p c).
    { intros c. unfold candidate_ok. destruct (c_owner c); [done|]. intros (V1 & V2 & V3).
      split; [done|]. split; [|done]. intros cx Hcx. apply V2. by eapply expire_contexts_sub. }
    destruct (p_stage p); [done|by apply Hk..].
Qed.

Lemma step_cred h wd ev :
  Z.of_nat (length h) < 2 ^ 64 - 1 → cred_ok h wd → cred_ok ((clock wd, ev) :: h) (step wd ev).
Proof.
  intros Hlen Hok.
  assert (Hsub : ∀ w', contextVersion w' = contextVersion (wm wd) →
    (∀ scope cx, contexts w' !! scope = Some cx →
       contexts (wm wd) !! scope = Some cx ∧ (ev = Forget scope → scope = "")) →
    ∀ t, cred_ok ((clock wd, ev) :: h) (mkWorld w' t (running wd))).
  { intros w' Hv Hc t. eapply cred_ok_sub; [exact Hok|exact Hv|exact Hc|apply same_running]. }
  assert (Hsame : (∀ sc, ev ≠ Forget sc) → cred_ok ((clock wd, ev) :: h) wd).
  { intros Hne. destruct wd as [w t r]. apply Hsub; [done|]. intros sc cx Hcx.
    split; [done|]. intros E. by destruct (Hne sc). }
  assert (Hend : ∀ w', (∀ sc, ev ≠ Forget sc) → contextVersion w' = contextVersion (wm wd) →
    (∀ scope cx, contexts w' !! scope = Some cx → contexts (wm wd) !! scope = Some cx) →
    ∀ r, (r = None ∨ ∃ p, r = Some p ∧ p_stage p = Idle) →
    cred_ok ((clock wd, ev) :: h) (mkWorld w' (clock wd) r)).
  { intros w' Hne Hv Hc r Hr. eapply cred_ok_sub; [exact Hok|exact Hv| |destruct Hr; auto].
    intros sc cx Hcx. split; [by apply Hc|]. intros E. by destruct (Hne sc). }
  destruct ev as [d|itj itc key s cr auth|sc|b| | |its c|owner os|it| | | |n|n st]; cbn [step];
    try (unfold on_wm; apply Hsub; [done|]; intros scope cx Hcx; split; [exact Hcx|done]).
  - by apply track_cred.
  - unfold on_wm. apply Hsub; unfold ForgetScope; destruct (String.eqb_spec sc ""); try done.
    + intros scope cx Hcx. split; [done|]. intros [= ->]. done.
    + intros scope cx. cbn. rewrite lookup_delete_Some. intros [Hne Hcx]. split; [done|].
      intros [= ->]. done.
  - unfold on_wm. apply Hsub; unfold Configure; destruct (config_ok c); cbn [negb fst]; try done.
    + by destruct (evict_until_frame its (MaxTracked c) (mkWarmer (jobs (wm wd))
        (if Enabled c then contexts (wm wd) else ∅) (served (wm wd)) c (paused (wm wd)) (foreground (wm wd))
        (contextVersion (wm wd)) (wsequence (wm wd)) (servedSequence (wm wd)) (dropped (wm wd)))) as [_ ->].
    + intros scope cx. rewrite (proj1 (evict_until_frame _ _ _)). cbn [contexts].
      destruct (Enabled c); [done|]. by rewrite lookup_empty.
  - destruct (running wd) as [p|] eqn:Er; [by apply Hsame|]. destruct (blocked (wm wd)); [by apply Hsame|].
    apply Hend; [done|done|apply expire_contexts_sub|]. right. eexists. split; [reflexivity|done].
  - destruct (running wd) as [[ow os per rq us [|c|c]]|] eqn:Er; try by apply Hsame.
    set (p := mkPass ow os per rq us Idle) in *.
    destruct (exhausted (wm wd) p); [apply Hend; auto|]. cbv zeta.
    destruct (blocked _); [apply Hend; [done|done|apply expire_contexts_sub|auto]|].
    pose proof (nextCandidate_spec it (clock wd) (p_owner p) (p_ownerScope p) (p_perScope p)
                  (expireContexts (clock wd) (wm wd))) as Hn.
    destruct (nextCandidate _ _ _ _ _ _) as [w' oc]. destruct Hn as (_ & N2 & _ & N4 & N5).
    assert (Hb : cred_ok ((clock wd, PassPick it) :: h) (mkWorld w' (clock wd) None)).
    { apply Hend; [done|exact N4| |by left]. intros sc cx. rewrite N2. apply expire_contexts_sub. }
    destruct oc as [c|]; [|exact Hb]. destruct Hb as (B1 & B2 & _). split; [done|]. split; [done|].
    cbn [running at_stage p_stage wm].
    assert (Hk : candidate_ok h w' p c).
    { eapply (pick_candidate_ok h (mkWorld (expireContexts (clock wd) (wm wd)) (clock wd) (running wd)) p);
        [by apply cred_ok_expire|exact N2|exact N4|by apply N5]. }
    revert Hk. unfold candidate_ok. destruct (c_owner c); [done|].
    intros (? & ? & (t & a & b & k & s & Hin & ?)). split; [done|]. split; [done|].
    exists t, a, b, k, s. split; [set_solver|done].
  - destruct (running wd) as [[ow os per rq us [|c|c]]|] eqn:Er; try by apply Hsame.
    apply Hend; [done|done|done|]. right. eexists. split; [reflexivity|done].
  - destruct (running wd) as [[ow os per rq us [|c|c]]|] eqn:Er; try (by apply Hsame); apply Hend; auto.
  - destruct (running wd) as [[ow os per rq us [|c|c]]|] eqn:Er; try by apply Hsame.
    destruct (blocked (wm wd)); [apply Hend; auto|].
    eapply cred_ok_sub; [exact Hok|done| |].
    + intros scope cx Hcx. split; [exact Hcx|done].
    + right. right. do 3 eexists. split; [exact Er|]. split; [reflexivity|]. cbn. auto.
  - destruct (running wd) as [[ow os per rq us [|c|c]]|] eqn:Er; try by apply Hsame.
    destruct (permit wd c); (apply Hend; [done| | |right; eexists; split; [reflexivity|done]]).
    + apply on_job_frame.
    + intros sc cx. by rewrite (proj1 (on_job_frame _ _ _)).
    + apply (fail_result_frame _ _ _ _ "" (mkContext "" 0 0)).
    + intros sc cx. apply fail_result_frame.
  - destruct (running wd) as [[ow os per rq us [|c|c]]|] eqn:Er; try by apply Hsame.
    apply Hend; [done| | |right; eexists; split; [reflexivity|done]].
    + apply (fail_result_frame _ _ _ _ "" (mkContext "" 0 0)).
    + intros sc cx. apply fail_result_frame.
Qed.

Lemma reached_cred h wd : reached h wd → Z.of_nat (length h) < 2 ^ 64 → cred_ok h wd.
Proof.
  induction 1 as [|h wd ev Hr IH Hv]; intros Hlen.
  - split; [done|]. split; [|done]. intros sc cx Hcx. cbn in Hcx; by rewrite lookup_empty in Hcx.
  - cbn [length] in Hlen. apply step_cred; [lia|]. apply IH. lia.
Qed.

(** Credentials stay with their user.  A background request for a
    scope is sent either with a credential that a foreground observation
    presented for that very scope, or, for a job no user credential is
    required for, with the owner's token in the owner's own scope: no
    user's token is ever used for another user's entries. *)
Theorem fetch_credential h wd p c :
  reached h wd → Z.of_nat (length h) < 2 ^ 64 → running wd = Some p → p_stage p = Fetching c →
  if c_owner c then
    c_token c = p_owner p ∧ c_scope c = p_ownerScope p ∧ requiresContext (c_job c) = false
  else
    ∃ t itj itc key s, (t, Track itj itc key s (c_token c) true) ∈ h ∧ Scope s = c_scope c.
Proof.
  intros Hr Hlen Er Es. destruct (reached_cred h wd Hr Hlen) as (_ & _ & H3).
  rewrite Er, Es in H3. unfold candidate_ok in H3. destruct (c_owner c); tauto.
Qed.


End system.

(** ** One refresh (warmer.go) *)

(** What the origin answers: status, headers, the body up to the read limit,
    and whether reading it failed. *)
Record origin_reply := mkReply {
  o_status : Z; o_header : list (string * list string); o_body : string; o_read_err : bool;
}.

(** The effect of a refresh on the response store. *)
Record publication := mkPublication { pub_key : string; pub_entry : Entry; pub_ttl : Z; pub_delete : option string }.

Inductive refresh_error := RKeyUnavailable | RNotCacheable | RTransport | RStatus (status : Z) | RNotStorable
  | RTooLarge | RGenerationChanged | RExpired | RStore.

(** [refreshChecked].  [key1] and [key2] are the results of the key function
    before and after the fetch ([None] when it is unset), [req] the request
    built for the snapshot's target, [reply] the origin's answer, [permit]
    the publication check and [set_ok] whether the store accepted. *)
Definition refreshChecked (keys : option (string * string)) (key : string) (s : Snapshot)
    (req : option Request) (reply : option origin_reply) (permit set_ok : bool)
    : Z * option refresh_error * option publication :=
  let storeKey := match keys with Some (k1, _) => k1 | None => key end in
  if match keys with Some (k1, _) => k1 =s "" | None => false end then (0, Some RKeyUnavailable, None)
  else match req with
  | None => (0, Some RTransport, None)
  | Some req =>
      match CacheKeys.RequestCacheable req with
      | None => (0, Some RNotCacheable, None)
      | Some _ =>
          match reply with
          | None => (0, Some RTransport, None)
          | Some o =>
              let n := slen (o_body o) in
              if negb (o_status o =? 200) then (Z.min n (2 ^ 16), Some (RStatus (o_status o)), None)
              else if negb (CacheKeys.StorableResponse (o_header o)) then
                (Z.min n (2 ^ 16), Some RNotStorable, None)
              else if o_read_err o then (n, Some RTransport, None)
              else if MaxEntryBytes <? n then (n, Some RTooLarge, None)
              else if match keys with Some (_, k2) => negb (k2 =s storeKey) | None => false end then
                (n, Some RGenerationChanged, None)
              else if negb permit then (n, Some RExpired, None)
              else if negb set_ok then (n, Some RStore, None)
              else (n, None,
                Some (mkPublication storeKey
                  (mkEntry (o_status o) (HGet (o_header o) "Content-Type") (SafeHeaders (o_header o)) (o_body o))
                  (TTL s) (if storeKey =s key then None else Some key)))
          end
      end
  end.

(** A refresh stores a response only under the key that
    was current both before and after the fetch, only a complete storable
    200 within the entry limit, only with the publication permit, with
    allowlisted headers; and the previous key is removed when it changed. *)
Theorem refreshChecked_publishes keys key s req reply permit set_ok n e pub :
  refreshChecked keys key s req reply permit set_ok = (n, e, Some pub) →
  e = None ∧ permit = true ∧
  (∀ k1 k2, keys = Some (k1, k2) → k1 ≠ "" ∧ k2 = k1 ∧ pub_key pub = k1) ∧
  (keys = None → pub_key pub = key) ∧
  (∃ o, reply = Some o ∧ o_status o = 200 ∧ CacheKeys.StorableResponse (o_header o) = true ∧
     o_read_err o = false ∧ Body (pub_entry pub) = o_body o ∧ slen (o_body o) <= MaxEntryBytes) ∧
  (∀ k v, Headers (pub_entry pub) !! k = Some v → isSafeHeader k = true) ∧
  (pub_key pub ≠ key → pub_delete pub = Some key).
Proof.
  unfold refreshChecked. cbv zeta. intros E.
  destruct (match keys with Some (k1, _) => k1 =s "" | None => false end) eqn:E1; [done|].
  destruct req as [rq|]; [|done]. destruct (CacheKeys.RequestCacheable rq); [|done].
  destruct reply as [o|]; [|done]. destruct (Z.eqb_spec (o_status o) 200) as [Hst|]; cbn [negb] in E; [|done].
  destruct (CacheKeys.StorableResponse (o_header o)) eqn:E2; cbn [negb] in E; [|done].
  destruct (o_read_err o) eqn:E3; [done|]. destruct (Z.ltb_spec MaxEntryBytes (slen (o_body o))); [done|].
  destruct (match keys with Some (_, k2) => negb (k2 =s match keys with Some (k1, _) => k1 | None => key end)
            | None => false end) eqn:E4; [done|].
  destruct permit; cbn [negb] in E; [|done]. destruct set_ok; cbn [negb] in E; [|done].
  injection E as <- <- <-. cbn [pub_key pub_entry pub_delete Body Headers].
  split; [done|]. split; [done|]. split.
  { intros k1 k2 ->. zbool. done. }
  split; [by intros ->|]. split; [eauto 10|]. split; [apply SafeHeaders_safe|].
  intros Hne. by rewrite (proj2 (String.eqb_neq _ _)).
Qed.

(** A stored snapshot's query holds no token parameter under any spelling. *)
Lemma stripSecrets_no_secret parse_url fuel raw k :
  ToLower k ∈ CacheKeys.secretParams → values_of (ParseQuery (stripSecrets parse_url fuel raw)) k = [].
Proof.
  intros Hk. assert (He : values_of (ParseQuery "") k = []) by done.
  destruct fuel; cbn [stripSecrets]; destruct (raw =s ""); try done; destruct (negb _); try done.
  rewrite ParseQuery_Encode. unfold values_of. rewrite lookup_fmap.
  destruct (filter _ (ParseQuery raw) !! k) as [vs|] eqn:E; [|done]. exfalso.
  apply map_lookup_filter_Some in E as [_ E]. cbn in E. apply CacheKeys.secretParams_spec in E. done.
Qed.

(** An eviction for an incoming job never removes a job of higher priority. *)
Lemma evictJob_priority it inc w w' id t :
  it ≡ₚ map_to_list (jobs w) → evictJob it (Some inc) w = (w', true) →
  jobs w !! id = Some t → jobs w' !! id = None →
  Priority (snap t) <= inc ∧ ∀ id' t', jobs w !! id' = Some t' → Priority (snap t) <= Priority (snap t').
Proof.
  intros Hp. unfold evictJob. destruct it as [|first rest]; [intros [= <-]; congruence|]. cbv zeta.
  set (v := best_of evict_before first rest).
  destruct (Z.ltb_spec inc (Priority (snap v.2))); [done|]. intros [= <-] Hid. cbn.
  rewrite lookup_delete_None. intros [E|?]; [|congruence].
  assert (Hv : jobs w !! v.1 = Some v.2).
  { apply elem_of_map_to_list. rewrite <- Hp.
    pose proof (best_of_in evict_before first rest) as Hin. fold v in Hin. by destruct v. }
  rewrite E, Hid in Hv. injection Hv as Hv. rewrite Hv. split; [done|]. intros id' t' Hid'.
  assert (Hmin : evict_before (id', t') v = false).
  { apply best_of_min.
    - intros [i a] [j b] [k c]. unfold evict_before. cbn.
      rewrite !orb_true_iff, orb_false_iff, !andb_true_iff, andb_false_iff, !Z.ltb_lt, !Z.ltb_ge, !Z.eqb_eq, !Z.eqb_neq. lia.
    - intros [i a] [j b]. unfold evict_before. cbn.
      rewrite orb_true_iff, orb_false_iff, !andb_true_iff, andb_false_iff, !Z.ltb_lt, !Z.ltb_ge, !Z.eqb_eq, !Z.eqb_neq. lia.
    - rewrite Hp. by apply elem_of_map_to_list. }
  unfold evict_before in Hmin. cbn in Hmin. rewrite orb_false_iff, Z.ltb_ge in Hmin. lia.
Qed.

(** ** Witnesses: a user's section page is tracked and refreshed after its
    half-life. *)

Definition w_parse : string → option (string * (string → string)) := λ _, None.
Definition w_quote : list string → string := λ l, Join l "|".
Definition w_snap : Snapshot := mkSnapshot "GET" "/library/sections/1/all" "" "" "user:1" "sections" Minute Low.
Definition w_events : list event :=
  [Track [] [] "key" w_snap "tok" true; Tick (40 * Second); PassStart "" "";
   PassPick [(snapshotID w_quote (stored_snapshot w_parse w_snap),
              mkTracked "key" (stored_snapshot w_parse w_snap) 1 1 0 0 true 1)]; PassBegin].
Definition w_world : world := foldl (step w_parse w_quote) start w_events.

Fixpoint w_hist (wd : world) (l : list event) (h : list (Z * event)) : list (Z * event) :=
  match l with [] => h | ev :: r => w_hist (step w_parse w_quote wd ev) r ((clock wd, ev) :: h) end.

Lemma w_reached : reached w_parse w_quote (w_hist start w_events []) w_world.
Proof.
  unfold w_world, w_events, w_hist, foldl.
  apply reached_step; [apply reached_step; [apply reached_step; [apply reached_step;
    [apply reached_step; [apply reached_start|]|]|]|]|].
  - split; vm_compute; reflexivity.
  - vm_compute. discriminate.
  - exact I.
  - vm_compute. reflexivity.
  - exact I.
Qed.

Lemma warmer_bounded_witness : Z.of_nat (size (jobs (wm w_world))) <= MaxTracked (config (wm w_world)) <= 512.
Proof. exact (proj1 (warmer_bounded w_parse w_quote (w_hist start w_events []) w_world w_reached)). Defined.

Definition w_pass : pass := mkPass "" "" ∅ 0 0 Idle.
Definition w_candidate : candidate :=
  mkCandidate (snapshotID w_quote (stored_snapshot w_parse w_snap))
    (mkTracked "key" (stored_snapshot w_parse w_snap) 1 1 0 0 true 1) "tok" 1 false 0.

Lemma fetch_credential_witness :
  ∃ t itj itc key s, (t, Track itj itc key s "tok" true) ∈ w_hist start w_events [] ∧ Scope s = "user:1".
Proof.
  refine (fetch_credential w_parse w_quote (w_hist start w_events []) w_world
            (at_stage w_pass (Fetching w_candidate)) w_candidate w_reached _ _ _).
  - vm_compute. reflexivity.
  - vm_compute. reflexivity.
  - reflexivity.
Defined.


Lemma refreshChecked_publishes_witness :
  slen "{}" <= MaxEntryBytes.
Proof.
  destruct (refreshChecked_publishes (Some ("k2", "k2")) "k1" w_snap
    (Some (mkRequest "GET" "/library/sections/1/all" "" [("X-Plex-Token", ["tok"])] 0))
    (Some (mkReply 200 [] "{}" false)) true true 2 None
    (mkPublication "k2" (mkEntry 200 "" ∅ "{}") Minute (Some "k1"))) as (_ & _ & _ & _ & (o & Ho & _ & _ & _ & _ & Hn) & _).
  - vm_compute. reflexivity.
  - injection Ho as <-. exact Hn.
Defined.

End Warmer.
