(* ===== verification/WarmerView.v ===== *)
(** * What the warmer shows (internal/warmer: scheduling.go, warmer.go)

    The snapshot of the queue an operator reads, and the scope under which
    the owner's own entries are refreshed, with the cache of the account
    look-up behind it.  The counters of past refreshes are not part of
    [Warmer.Warmer] and so not of the snapshot. *)

From S2P Require Import Prelude GoStrings CacheKeys Warmer.

Module WarmerView.
Import CacheKeys Warmer.

(** ** Statistics *)

(** [Priority.String] indexes an array of four names. *)
Definition priority_name (p : Z) : option string :=
  if p <? 0 then None else ["low"; "normal"; "high"; "protected"] !! Z.to_nat p.

Record Stats := mkStats {
  st_tracked : Z; st_queued : Z; st_enabled : bool; st_paused : bool; st_due : Z; st_activeContexts : Z; st_coldScopes : Z;
  st_byPriority : gmap string Z; st_dropped : Z; st_requestsPerPass : Z; st_bytesPerPass : Z;
}.

Definition is_due (now : Z) (t : tracked) : bool := (TTL (snap t) ÷ 2 <=? now - last t) && negb (now <? next t).
Definition is_cold (w : Warmer) (t : tracked) : bool :=
  requiresContext t && negb (bool_decide (is_Some (contexts w !! Scope (snap t)))).
Definition cold_scopes (w : Warmer) (ts : list tracked) : gset string :=
  list_to_set ((λ t, Scope (snap t)) <$> filter (λ t, is_cold w t = true) ts).

Fixpoint by_priority (ts : list tracked) : option (gmap string Z) :=
  match ts with
  | [] => Some ∅
  | t :: r =>
      match priority_name (Priority (snap t)), by_priority r with
      | Some n, Some m => Some (<[n := default 0 (m !! n) + 1]> m)
      | _, _ => None
      end
  end.

(** [stats]: the expired credentials go first; a priority outside the four
    is an index out of range. *)
Definition stats (now : Z) (w : Warmer) : Warmer * outcome Stats :=
  let w := expireContexts now w in
  let ts := (map_to_list (jobs w)).*2 in
  (w, match by_priority ts with
      | None => Panic
      | Some m =>
          Ok (mkStats (Z.of_nat (size (jobs w))) (Z.of_nat (size (jobs w))) (Enabled (config w)) (paused w)
                (Z.of_nat (length (filter (λ t, is_due now t = true) ts))) (Z.of_nat (size (contexts w)))
                (Z.of_nat (size (cold_scopes w ts))) m (dropped w) (RequestsPerPass (config w)) (BytesPerPass (config w)))
      end).

(** ** The owner's scope *)

(** The cached account look-up: [ownerAcct], [ownerUUID], [ownerOK],
    [ownerAt]. *)
Record owner_cache := mkOwner { o_acct : Z; o_uuid : string; o_ok : bool; o_at : Z }.

(** [canonicalScope]; [db] says whether an identity store is wired. *)
Definition canonicalScope (db : bool) (accountID : Z) (uuid : string) : string :=
  if negb (uuid =s "") then UserScope uuid else if db then "" else "acct:" +:+ Itoa accountID.

(** [ownerScope]: [account] is [OwnerAccount] where it is wired, [identity]
    the identity that the two statements find for an account ("" when none).
    [now] and [later] are the readings of the clock before and after the
    look-up. *)
Definition ownerScope (account : option (option Z)) (db : bool) (identity : Z → string) (now later : Z) (c : owner_cache)
    : owner_cache * string :=
  match account with
  | None => (c, "")
  | Some found =>
      if o_ok c && (now - o_at c <? Minute) then (c, canonicalScope db (o_acct c) (o_uuid c))
      else
        let uuid := match found with Some id => if db then identity id else "" | None => "" end in
        let c := mkOwner (default 0 found) uuid (bool_decide (is_Some found)) later in
        (c, match found with Some id => canonicalScope db id uuid | None => "" end)
  end.

(** ** Properties *)

Lemma by_priority_total ts m : by_priority ts = Some m → map_fold (λ _ n a, n + a) 0 m = Z.of_nat (length ts).
Proof.
  revert m. induction ts as [|t ts IH]; intros m; cbn [by_priority].
  - intros [= <-]. by rewrite map_fold_empty.
  - destruct (priority_name _) as [n|]; [|done]. destruct (by_priority ts) as [m'|] eqn:Em; [|done]. intros [= <-].
    specialize (IH m' eq_refl). cbn [length]. destruct (m' !! n) as [v|] eqn:En; cbn [default from_option].
    + rewrite (map_fold_delete_L _ _ n v m') in IH; [|intros; lia|done].
      rewrite <- insert_delete_eq, map_fold_insert_L; [cbn beta in *; unfold id in *; lia|intros; lia|apply lookup_delete_eq].
    + rewrite map_fold_insert_L; [cbn beta in *; unfold id in *; lia|intros; lia|done].
Qed.

Lemma size_list_to_set_le (l : list string) : (size (list_to_set l : gset string) <= length l)%nat.
Proof.
  induction l as [|x l IH]; [done|]. cbn [list_to_set length]. rewrite size_union_alt, size_singleton.
  assert (size (list_to_set l ∖ {[x]} : gset string) <= size (list_to_set l : gset string))%nat by (apply subseteq_size; set_solver).
  lia.
Qed.

(** The snapshot adds up: the priorities share out the tracked jobs, no more
    jobs are due or scopes cold than are tracked, and reading it changes
    nothing but expired credentials. *)
Lemma stats_add_up now w w' s :
  stats now w = (w', Ok s) →
  map_fold (λ _ n a, n + a) 0 (st_byPriority s) = st_tracked s ∧ 0 <= st_due s <= st_tracked s ∧
  0 <= st_coldScopes s <= st_tracked s ∧ jobs w' = jobs w ∧ config w' = config w ∧ paused w' = paused w ∧
  contexts w' = filter (λ kv, now < expires kv.2) (contexts w).
Proof.
  unfold stats. cbv zeta. destruct (by_priority _) as [m|] eqn:Em; [|done]. intros [= <- <-]. cbn.
  apply by_priority_total in Em. cbn [jobs expireContexts] in Em. rewrite length_fmap, length_map_to_list in Em.
  set (ts := (map_to_list (jobs w)).*2). assert (Hl : length ts = size (jobs w)) by (unfold ts; by rewrite length_fmap, length_map_to_list).
  split; [done|]. rewrite <- Hl. split; [split; [lia|apply inj_le, length_filter]|]. split; [split; [lia|apply inj_le]|done].
  unfold cold_scopes. etrans; [apply size_list_to_set_le|]. rewrite length_fmap. apply length_filter.
Qed.

(** The owner's entries are warmed under the scope that requests of the
    owner use, or, where it is not known, under none: with an identity store
    the scope is that of an identity found for the owner's account at most a
    minute before.  An account without an identity warms nothing. *)
Lemma ownerScope_canonical account identity now later c c' sc :
  ownerScope account true identity now later c = (c', sc) → sc ≠ "" →
  (∃ id, account = Some (Some id) ∧ identity id ≠ "" ∧ sc = UserScope (identity id)) ∨
  (c' = c ∧ o_ok c = true ∧ now - o_at c < Minute ∧ o_uuid c ≠ "" ∧ sc = UserScope (o_uuid c)).
Proof.
  unfold ownerScope, canonicalScope. destruct account as [found|]; [|by intros [= _ <-]].
  destruct (o_ok c && (now - o_at c <? Minute)) eqn:E.
  - zbool. intros [= <- <-]. destruct (String.eqb_spec (o_uuid c) ""); [done|]. right. split_and!; try done; lia.
  - intros [= _ <-]. destruct found as [id|]; [|done]. destruct (String.eqb_spec (identity id) ""); [done|]. left. by exists id.
Qed.

(** ** Who configures the warmer *)

Lemma evictJob_config it inc w : config (evictJob it inc w).1 = config w.
Proof. unfold evictJob. destruct it; [done|]. cbv zeta. by destruct (match inc with Some _ => _ | None => _ end). Qed.

Lemma evict_until_config its limit w : config (evict_until its limit w) = config w.
Proof.
  revert w. induction its as [|it its IH]; intros w; cbn [evict_until]; [done|].
  destruct (limit <? _); [|done]. rewrite IH. apply evictJob_config.
Qed.

Lemma track_config itj itc now id k s cr auth w : config (track itj itc now id k s cr auth w) = config w.
Proof.
  unfold track. destruct (Enabled (config w)); [|done]. cbn [negb]. cbv zeta.
  set (w1 := if auth then _ else _). assert (E : config w1 = config w) by (unfold w1; by destruct auth).
  destruct (jobs w1 !! id); [done|]. destruct (_ <=? _); [|done].
  pose proof (evictJob_config itj (Some (Priority s)) w1) as Ee. destruct (evictJob _ _ _) as [w2 []]; cbn in *; congruence.
Qed.

Lemma on_job_config w c f : config (on_job w c f) = config w.
Proof. unfold on_job. destruct (jobs w !! c_id c); [|done]. by destruct (sequence _ =? _). Qed.

Lemma fail_result_config now c st w : config (fail_result now c st w) = config w.
Proof. unfold fail_result. cbv zeta. rewrite on_job_config. by destruct ((st =? 401) || (st =? 403)). Qed.

(** Only [Configure] and [SetPaused] are the operator's: no other step of the
    warmer changes the configuration. *)
Lemma step_config parse quote wd ev :
  (∀ its c, ev ≠ Reconfigure its c) → config (wm (step parse quote wd ev)) = config (wm wd).
Proof.
  intros Hr. destruct ev; cbn [step]; try done; try (by destruct (Hr its c)).
  - unfold on_wm, track_call. destruct (track_ok _ _ _ _); [apply track_config|done].
  - unfold on_wm, ForgetScope. cbn. by repeat case_match.
  - destruct (running wd); [done|]. by destruct (blocked _).
  - destruct (running wd) as [[ow os per rq us []]|]; try done. destruct (exhausted _ _); [done|]. cbv zeta.
    destruct (blocked _); [done|]. cbn [p_owner p_ownerScope p_perScope].
    pose proof (nextCandidate_spec parse it (clock wd) ow os per (expireContexts (clock wd) (wm wd))) as Hn.
    destruct (nextCandidate _ _ _ _ _ _) as [w' []]; cbn; destruct Hn as (_ & _ & -> & _); done.
  - by destruct (running wd) as [[? ? ? ? ? []]|].
  - by destruct (running wd) as [[? ? ? ? ? []]|].
  - destruct (running wd) as [[? ? ? ? ? []]|]; try done. by destruct (blocked _).
  - destruct (running wd) as [[? ? ? ? ? []]|]; try done. destruct (permit _ _); cbn; [apply on_job_config|apply fail_result_config].
  - destruct (running wd) as [[? ? ? ? ? []]|]; try done. cbn. apply fail_result_config.
Qed.

Lemma Configure_spec its c w :
  (Configure its c w).2 = config_ok c ∧ config (Configure its c w).1 = if config_ok c then c else config w.
Proof. unfold Configure. destruct (config_ok c); cbn; [|done]. by rewrite evict_until_config. Qed.

End WarmerView.
