(* ===== verification/Effects.v ===== *)
(** * Handlers as programs over atomic actions

    A request handler reads and writes state shared with other requests and
    calls out to other systems.  Such code is translated to a program whose
    nodes are the atomic actions (a locked section, an atomic load, a call
    to another system) and whose branches are what the action returned.  A
    program is finite by construction, so a handler written in it
    terminates.

    [always G p h Q] says that, whatever the actions return, each action of
    [p] meets the guard [G] when it is performed and [Q] holds of the
    result; both see the actions the handler performed before, latest
    first. *)

From Stdlib Require Import Eqdep_dec.
From S2P Require Import Prelude.

Section effects.
Context {op : Type} {resp : op → Type}.

Inductive prog (A : Type) : Type :=
  | Ret (a : A)
  | Act (o : op) (k : resp o → prog A).
Arguments Ret {A} a.
Arguments Act {A} o k.

(** An action with what it returned. *)
Inductive event : Type := Ev (o : op) (x : resp o).

Fixpoint pbind {A B} (p : prog A) (f : A → prog B) : prog B :=
  match p with
  | Ret a => f a
  | Act o k => Act o (λ x, pbind (k x) f)
  end.

Definition act (o : op) : prog (resp o) := Act o Ret.

(** The executions of a program, complete ([Some] result) or cut short. *)
Inductive trace_of {A} : prog A → list event → option A → Prop :=
  | trace_ret a : trace_of (Ret a) [] (Some a)
  | trace_cut p : trace_of p [] None
  | trace_act o k x t r : trace_of (k x) t r → trace_of (Act o k) (Ev o x :: t) r.

Lemma trace_act_inv `{!EqDecision op} {A} o (k : resp o → prog A) x t r :
  trace_of (Act o k) (Ev o x :: t) r → trace_of (k x) t r.
Proof.
  intros H. inversion H; subst.
  repeat match goal with
  | E : existT _ _ = existT _ _ |- _ => apply inj_pair2_eq_dec in E; [|intros; apply EqDecision0]
  end. by subst.
Qed.

Notation guard := (list event → op → Prop).

Fixpoint always {A} (G : guard) (p : prog A) (h : list event) (Q : list event → A → Prop) : Prop :=
  match p with
  | Ret a => Q h a
  | Act o k => G h o ∧ ∀ x, always G (k x) (Ev o x :: h) Q
  end.

Lemma always_bind {A B} (G : guard) (p : prog A) (f : A → prog B) h R :
  always G p h (λ h' a, always G (f a) h' R) → always G (pbind p f) h R.
Proof.
  revert h. induction p as [a|o k IH]; intros h; cbn [always pbind]; [done|].
  intros [HG H]. split; [done|]. intros x. by apply IH.
Qed.

Lemma always_mono {A} (G G' : guard) (p : prog A) h (Q Q' : list event → A → Prop) :
  (∀ h o, G h o → G' h o) → (∀ h a, Q h a → Q' h a) → always G p h Q → always G' p h Q'.
Proof.
  intros HG HQ. revert h. induction p as [a|o k IH]; intros h; cbn [always]; [apply HQ|].
  intros [H1 H2]. split; [by apply HG|]. intros x. by apply IH.
Qed.

Lemma always_and {A} (G G' : guard) (p : prog A) h (Q Q' : list event → A → Prop) :
  always G p h Q → always G' p h Q' →
  always (λ h o, G h o ∧ G' h o) p h (λ h a, Q h a ∧ Q' h a).
Proof.
  revert h. induction p as [a|o k IH]; intros h; cbn [always]; [done|].
  intros [H1 H2] [H3 H4]. split; [done|]. intros x. by apply IH.
Qed.

(** A fact about the past persists through a program. *)
Lemma always_keep {A} (P : list event → Prop) (G : guard) (p : prog A) h (Q : list event → A → Prop) :
  (∀ e h, P h → P (e :: h)) → P h → always G p h Q → always G p h (λ h' a, P h' ∧ Q h' a).
Proof.
  intros HP. revert h. induction p as [a|o k IH]; intros h Hh; cbn [always]; [done|].
  intros [HG H]. split; [done|]. intros x. apply IH; [by apply HP|done].
Qed.

(** [only F p]: the actions of [p] all satisfy [F]. *)
Fixpoint only {A} (F : op → bool) (p : prog A) : Prop :=
  match p with
  | Ret _ => True
  | Act o k => F o = true ∧ ∀ x, only F (k x)
  end.

Lemma only_bind {A B} F (p : prog A) (f : A → prog B) :
  only F p → (∀ a, only F (f a)) → only F (pbind p f).
Proof.
  intros Hp Hf. induction p as [a|o k IH]; cbn [only pbind] in *; [apply Hf|].
  destruct Hp as [HF Hp]. split; [done|]. intros x. by apply IH.
Qed.

(** The actions of an execution. *)
Definition op_of (e : event) : op := match e with Ev o _ => o end.

Lemma only_trace {A} F (p : prog A) t r : only F p → trace_of p t r → Forall (λ e, F (op_of e) = true) t.
Proof.
  intros Ho Ht. induction Ht as [|p|o k x t r Ht IH]; [constructor|constructor|].
  cbn [only] in Ho. destruct Ho as [Hf Ho]. constructor; [done|]. by apply IH.
Qed.

(** The part of a history that falls outside [F]. *)
Definition outside (F : op → bool) (h : list event) : list event := filter (λ e, F (op_of e) = false) h.

Lemma outside_cons_in F o x h : F o = true → outside F (Ev o x :: h) = outside F h.
Proof. intros E. unfold outside. rewrite filter_cons, decide_False; [done|]. cbn. congruence. Qed.

Lemma outside_cons_out F o x h : F o = false → outside F (Ev o x :: h) = Ev o x :: outside F h.
Proof. intros E. unfold outside. rewrite filter_cons, decide_True; done. Qed.

Lemma only_always {A} F (G : guard) (p : prog A) h :
  (∀ h o, F o = true → G h o) → only F p → always G p h (λ h' _, outside F h' = outside F h).
Proof.
  intros HG. revert h. induction p as [a|o k IH]; intros h; cbn [only always]; [done|].
  intros [HF Hk]. split; [by apply HG|]. intros x. eapply always_mono; [done| |by apply IH].
  cbn. intros h' a ->. by apply outside_cons_in.
Qed.

(** [seen h ev h']: [ev] happened in [h], after exactly [h']. *)
Definition seen {E} (h : list E) (ev : E) (h' : list E) : Prop := ∃ a, h = a ++ ev :: h'.

Lemma seen_now {E} (h : list E) ev : seen (ev :: h) ev h.
Proof. by exists []. Qed.

Lemma seen_later {E} (h : list E) ev h' x : seen h ev h' → seen (x :: h) ev h'.
Proof. intros [a ->]. by exists (x :: a). Qed.

Lemma seen_app {E} (h : list E) ev h' l : seen h ev h' → seen (l ++ h) ev h'.
Proof. intros [a ->]. exists (l ++ a). by rewrite <- app_assoc. Qed.

Lemma seen_trans {E} (h h1 h2 : list E) e1 e2 : seen h e1 h1 → seen h1 e2 h2 → seen h e2 h2.
Proof. intros [a ->] [b ->]. exists (a ++ e1 :: b). by rewrite <- app_assoc. Qed.

Lemma seen_in {E} (h : list E) ev h' : seen h ev h' → ev ∈ h.
Proof. intros [a ->]. set_solver. Qed.

Lemma in_seen {E} (h : list E) ev : ev ∈ h → ∃ h', seen h ev h'.
Proof. intros (a & h' & ->)%list_elem_of_split. exists h', a. done. Qed.

(** [ext h h']: the history went on from [h] to [h']. *)
Definition ext {E} (h h' : list E) : Prop := ∃ l, h' = l ++ h.

#[global] Instance ext_preorder {E} : PreOrder (@ext E).
Proof.
  split; [by exists []|]. intros h1 h2 h3 [a ->] [b ->]. exists (b ++ a). by rewrite <- app_assoc.
Qed.

Lemma ext_cons {E} (e : E) h : ext h (e :: h).
Proof. by exists [e]. Qed.
Lemma ext_cons_r {E} (e : E) h h' : ext h h' → ext h (e :: h').
Proof. intros H. etransitivity; [done|]. apply ext_cons. Qed.
Lemma ext_in {E} (h h' : list E) e : ext h h' → e ∈ h → e ∈ h'.
Proof. intros [l ->] H. set_solver. Qed.
Lemma ext_seen {E} (h h' : list E) e p : ext h h' → seen h e p → seen h' e p.
Proof. intros [l ->]. apply seen_app. Qed.

(** What [always] says of the executions: every action of an execution met
    its guard. *)
Lemma always_trace {A} (G : guard) (p : prog A) h (Q : list event → A → Prop) t r :
  always G p h Q → trace_of p t r →
  (∀ pre o x post, t = pre ++ Ev o x :: post → G (rev pre ++ h) o) ∧
  (∀ a, r = Some a → Q (rev t ++ h) a).
Proof.
  intros Ha Ht. revert h Ha. induction Ht as [a|p|o k x t r Ht IH]; intros h Ha.
  - split; [intros [|] ???; discriminate|]. intros a' [= <-]. done.
  - split; [intros [|] ???; discriminate|discriminate].
  - cbn [always] in Ha. destruct Ha as [HG Ha]. destruct (IH _ (Ha x)) as [IH1 IH2]. split.
    + intros [|e pre] o' x' post E; cbn in E; injection E.
      * intros. subst. done.
      * intros E' <-. specialize (IH1 pre o' x' post E'). cbn [rev]. by rewrite <- app_assoc.
    + intros a E. specialize (IH2 a E). cbn [rev]. by rewrite <- app_assoc.
Qed.

(** The same by position: the past of the [n]-th action. *)
Lemma always_at {A} (G : guard) (p : prog A) (Q : list event → A → Prop) t r n o x :
  always G p [] Q → trace_of p t r → t !! n = Some (Ev o x) → G (rev (take n t)) o.
Proof.
  intros Ha Ht Hn. destruct (always_trace G p [] Q t r Ha Ht) as [H _].
  specialize (H (take n t) o x (drop (S n) t)). rewrite app_nil_r in H. apply H.
  symmetry. by apply take_drop_middle.
Qed.

Lemma seen_at {E} (t : list E) n e t' :
  seen (rev (take n t)) e t' → ∃ k, (k < n)%nat ∧ t !! k = Some e ∧ t' = rev (take k t).
Proof.
  intros [a Ha]. apply (f_equal (@rev E)) in Ha. rewrite rev_involutive, rev_app_distr in Ha. cbn [rev] in Ha.
  rewrite <- app_assoc in Ha. cbn [app] in Ha.
  assert (Hk : take n t !! length (rev t') = Some e).
  { rewrite Ha, lookup_app_r, Nat.sub_diag by lia. done. }
  apply lookup_take_Some in Hk as [Hk Hlt].
  exists (length (rev t')). split; [done|]. split; [done|].
  apply (f_equal (take (length (rev t')))) in Ha. rewrite take_take, Nat.min_l, take_app_length in Ha by lia.
  rewrite Ha. by rewrite rev_involutive.
Qed.

Lemma outside_at F (t : list event) n k e :
  t !! k = Some e → (k < n)%nat → F (op_of e) = false → e ∈ outside F (rev (take n t)).
Proof.
  intros Hk Hlt HF. apply list_elem_of_filter. split; [done|].
  apply list_elem_of_In, in_rev. rewrite rev_involutive. apply list_elem_of_In, list_elem_of_lookup.
  exists k. by apply lookup_take_Some.
Qed.

Lemma outside_in F (t : list event) n e :
  e ∈ outside F (rev (take n t)) → ∃ k, (k < n)%nat ∧ t !! k = Some e.
Proof.
  intros He. apply list_elem_of_filter in He as [_ He]. apply list_elem_of_In, in_rev in He.
  apply list_elem_of_In, list_elem_of_lookup in He as [k He]. apply lookup_take_Some in He as [? ?]. eauto.
Qed.

(** An action with a given property, when there is one. *)
Lemma find_at (f : op → bool) (t : list event) :
  existsb (λ e, f (op_of e)) t = true → ∃ n o x, t !! n = Some (Ev o x) ∧ f o = true.
Proof.
  intros ([o x] & Hin & Hf)%existsb_exists. apply list_elem_of_In, list_elem_of_lookup in Hin as [n Hn]. eauto.
Qed.

(** The execution in which each action returns what an oracle says. *)
Fixpoint answered {A} (ans : ∀ o, resp o) (p : prog A) : list event * A :=
  match p with
  | Ret a => ([], a)
  | Act o k => let '(t, a) := answered ans (k (ans o)) in (Ev o (ans o) :: t, a)
  end.

Lemma answered_trace {A} (ans : ∀ o, resp o) (p : prog A) :
  trace_of p (answered ans p).1 (Some (answered ans p).2).
Proof.
  induction p as [a|o k IH]; cbn [answered]; [constructor|].
  specialize (IH (ans o)). destruct (answered ans (k (ans o))) as [t a]. by constructor.
Qed.

End effects.

Arguments prog : clear implicits.
Arguments prog {op} resp A.
Arguments event : clear implicits.
Arguments event {op} resp.
Arguments Ret {op resp A} a.
Arguments Act {op resp A} o k.
Arguments Ev {op resp} o x.
Arguments act {op resp} o.

Notation "x <~ c ;; k" := (pbind c (λ x, k)) (at level 60, c at next level, right associativity) : go_scope.
Notation "'do' c ;; k" := (pbind c (λ _, k)) (at level 60, c at next level, right associativity) : go_scope.

#[export] Hint Resolve seen_now seen_later : replx.
