(* ===== verification/Threads.v ===== *)
(** * Interleaved programs on a shared world

    Any number of calls of a component run at the same time.  Each call is a
    program of atomic actions (Effects); an action reads and changes the
    shared world and may depend on what the environment chooses (time that
    passed, a call that fails, the order of a map iteration, what another
    system answers).  The process may stop at any moment and start again
    with what survives.

    [reached_safe] is the proof rule of the components built on this file:
    an invariant of the world, facts a call may remember about its own past
    actions, and a guard every action of every program meets. *)

From S2P Require Import Prelude Effects.

Section threads.
Context {op : Type} {resp : op → Type} {A W kind choice : Type}.
Context (program : kind → prog resp A).
(** One action under a choice of the environment; [None] when the choice is
    not possible in this world. *)
Context (exec : choice → W → ∀ o : op, option (W * resp o)).
(** The worlds a process can start in, and what a stop leaves. *)
Context (boot : W → Prop) (restart : W → W).

(** A call: what it is, what is left of it, its actions so far (latest
    first). *)
Record thread := mkThread { what : kind; left : prog resp A; own : list (event resp) }.
Record state := mkState { mem : W; pool : list thread }.

Inductive reached : state → Prop :=
  | reached_boot w : boot w → reached (mkState w [])
  | reached_spawn s k : reached s → reached (mkState (mem s) (pool s ++ [mkThread k (program k) []]))
  | reached_act s c n k o next h w x :
      reached s → pool s !! n = Some (mkThread k (Act o next) h) → exec c (mem s) o = Some (w, x) →
      reached (mkState w (<[n := mkThread k (next x) (Ev o x :: h)]> (pool s)))
  | reached_restart s : reached s → reached (mkState (restart (mem s)) []).

Section rule.
Context (I : W → Prop) (fact : W → event resp → list (event resp) → Prop).
Context (K : kind → list (event resp) → op → Prop) (Q : kind → list (event resp) → A → Prop).

(** Every action of [h] has its fact, given what preceded it. *)
Definition facts (w : W) (h : list (event resp)) : Prop := ∀ e h', seen h e h' → fact w e h'.

Context (I_boot : ∀ w, boot w → I w) (I_restart : ∀ w, I w → I (restart w)).
Context (guarded : ∀ k, always (K k) (program k) [] (Q k)).
Context (stable : ∀ c w o w' x e h, I w → exec c w o = Some (w', x) → fact w e h → fact w' e h).
Context (step : ∀ c w k h o w' x,
  I w → facts w h → K k h o → exec c w o = Some (w', x) → I w' ∧ fact w' (Ev o x) h).

Lemma facts_nil w : facts w [].
Proof. intros e h' [[|] H]; discriminate. Qed.

Lemma facts_cons w e h : fact w e h → facts w h → facts w (e :: h).
Proof.
  intros He Hh e' h' [[|a l] H]; cbn in H; injection H; intros.
  - by subst.
  - subst. apply Hh. by exists l.
Qed.

Lemma facts_in w h e : facts w h → e ∈ h → ∃ h', seen h e h' ∧ fact w e h'.
Proof. intros Hf [h' Hs]%in_seen. eauto. Qed.

Lemma reached_safe s :
  reached s → I (mem s) ∧
  ∀ n k p h, pool s !! n = Some (mkThread k p h) → facts (mem s) h ∧ always (K k) p h (Q k).
Proof.
  intros Hr. induction Hr as [w Hb|s k Hr [HI IH]|s c m k o next h w x Hr [HI IH] Hp He|s Hr [HI IH]]; cbn [mem pool].
  - split; [by apply I_boot|]. intros n k p h Hn. by rewrite lookup_nil in Hn.
  - split; [done|]. intros n k' p h Hn. apply lookup_app_Some in Hn as [Hn|[_ Hn]]; [by apply (IH n)|].
    destruct (n - length (pool s))%nat; [|done]. injection Hn as <- <- <-. split; [apply facts_nil|apply guarded].
  - destruct (IH _ _ _ _ Hp) as [Hf Ha]. cbn [always] in Ha. destruct Ha as [HK Ha].
    destruct (step _ _ _ _ _ _ _ HI Hf HK He) as [HI' Hx]. split; [done|].
    assert (Hst : ∀ h, facts (mem s) h → facts w h).
    { intros h0 H0 e h' Hs. exact (stable _ _ _ _ _ _ _ HI He (H0 _ _ Hs)). }
    intros n k' p h' Hn. destruct (decide (m = n)) as [->|Hne].
    + rewrite list_lookup_insert_eq in Hn by (by eapply lookup_lt_Some). injection Hn as <- <- <-.
      split; [|apply Ha]. apply facts_cons; auto.
    + rewrite list_lookup_insert_ne in Hn by done. destruct (IH _ _ _ _ Hn). split; auto.
  - split; [by apply I_restart|]. intros n k p h Hn. by rewrite lookup_nil in Hn.
Qed.

(** Every action a call has performed met its guard. *)
Lemma reached_met s :
  reached s → ∀ n k p h, pool s !! n = Some (mkThread k p h) →
  always (K k) p h (Q k) ∧ ∀ o x h', seen h (Ev o x) h' → K k h' o.
Proof.
  intros Hr. induction Hr as [w Hb|s k Hr IH|s c m k o next h w x Hr IH Hp He|s Hr IH]; cbn [mem pool].
  - intros n k p h Hn. by rewrite lookup_nil in Hn.
  - intros n k' p h Hn. apply lookup_app_Some in Hn as [Hn|[_ Hn]]; [by apply (IH n)|].
    destruct (n - length (pool s))%nat; [|done]. injection Hn as <- <- <-.
    split; [apply guarded|]. intros o x h' [[|] H]; discriminate.
  - destruct (IH _ _ _ _ Hp) as [Ha Hm]. cbn [always] in Ha. destruct Ha as [HK Ha].
    intros n k' p h' Hn. destruct (decide (m = n)) as [->|Hne].
    + rewrite list_lookup_insert_eq in Hn by (by eapply lookup_lt_Some). injection Hn as <- <- <-.
      split; [apply Ha|]. intros o' x' h' [[|e l] H]; cbn in H; injection H; intros; subst; [done|].
      eapply Hm. by exists l.
    + rewrite list_lookup_insert_ne in Hn by done. by apply (IH n).
  - intros n k p h Hn. by rewrite lookup_nil in Hn.
Qed.

(** A call that has returned. *)
Lemma returned_safe s n k h a :
  reached s → pool s !! n = Some (mkThread k (Ret a) h) → I (mem s) ∧ facts (mem s) h ∧ Q k h a.
Proof.
  intros Hr Hn. destruct (reached_safe s Hr) as [HI H]. split; [done|].
  destruct (H _ _ _ _ Hn) as [Hf Hq]. done.
Qed.

End rule.

(** ** Running a schedule *)

Inductive move := Spawn (k : kind) | Go (n : nat) (c : choice) | Crash.

Definition perform (s : state) (m : move) : option state :=
  match m with
  | Spawn k => Some (mkState (mem s) (pool s ++ [mkThread k (program k) []]))
  | Go n c =>
      match pool s !! n with
      | Some (mkThread k (Act o next) h) =>
          match exec c (mem s) o with
          | Some (w, x) => Some (mkState w (<[n := mkThread k (next x) (Ev o x :: h)]> (pool s)))
          | None => None
          end
      | _ => None
      end
  | Crash => Some (mkState (restart (mem s)) [])
  end.

Fixpoint schedule (s : state) (l : list move) : option state :=
  match l with
  | [] => Some s
  | m :: l => match perform s m with Some s' => schedule s' l | None => None end
  end.

Lemma perform_reached s m s' : reached s → perform s m = Some s' → reached s'.
Proof.
  intros Hr. destruct m as [k|n c|]; cbn [perform].
  - intros [= <-]. by constructor.
  - destruct (pool s !! n) as [[k [a|o next] h]|] eqn:En; [done| |done].
    destruct (exec c (mem s) o) as [[w x]|] eqn:Ee; [|done]. intros [= <-]. by eapply reached_act.
  - intros [= <-]. by constructor.
Qed.

Lemma schedule_reached s l s' : reached s → schedule s l = Some s' → reached s'.
Proof.
  revert s. induction l as [|m l IH]; intros s Hr; cbn [schedule]; [by intros [= <-]|].
  destruct (perform s m) as [s1|] eqn:E; [|done]. intros H. eapply IH; [|done]. by eapply perform_reached.
Qed.

(** One call from a world, alone, with the choices given in order. *)
Fixpoint run (cs : list choice) (w : W) (p : prog resp A) : option (W * A) :=
  match p, cs with
  | Ret a, _ => Some (w, a)
  | Act o k, c :: cs => match exec c w o with Some (w, x) => run cs w (k x) | None => None end
  | Act o k, [] => None
  end.

End threads.

Arguments mkThread {op resp A kind} what left own.
Arguments mkState {op resp A W kind} mem pool.
Arguments mem {op resp A W kind} s.
Arguments pool {op resp A W kind} s.
Arguments what {op resp A kind} t.
Arguments left {op resp A kind} t.
Arguments own {op resp A kind} t.
Arguments Spawn {kind choice} k.
Arguments Go {kind choice} n c.
Arguments Crash {kind choice}.
