(* ===== verification/ArtworkFiles.v ===== *)
(** * Artwork in plain files (internal/artwork/artwork.go)

    The store without a database that [New] creates: a transcode is a body
    file and a metadata file in one directory, each written to a temporary
    file and renamed into place; a sweep keeps the bodies within a budget.
    Requests, sweeps and crashes interleave: every access to the directory
    is an atomic action, and a crash may happen between any two of them.

    The JSON of a metadata file is represented by its record: decoding
    gives the record back, and nothing else decodes.  [os.CreateTemp] picks
    names of digits that it has not used before. *)

From S2P Require Import Prelude GoStrings GoHttp GoCrypto CacheKeys Effects Threads.

Module ArtworkFiles.

Definition TTL : Z := 7 * 24 * Hour.
Definition MaxBodyBytes : Z := Z.shiftl 8 20.

(** ** Keys *)

Definition isSecret (k : string) : bool :=
  let l := ToLower k in (l =s "x-plex-token") || (l =s "token") || (l =s "authtoken").

Definition zero_byte : string := String (Ascii.ascii_of_nat 0) EmptyString.
Definition pair_text (k v : string) : string := ToLower k +:+ "=" +:+ v +:+ "&".
Fixpoint pairs_text (k : string) (vals : list string) : string :=
  match vals with [] => "" | v :: r => pair_text k v +:+ pairs_text k r end.
Fixpoint query_text (l : list (string * list string)) : string :=
  match l with [] => "" | (k, vs) :: r => pairs_text k (merge_sort String.le vs) +:+ query_text r end.
Definition key_text (scope path : string) (query : Values) : string :=
  scope +:+ zero_byte +:+ ToLower path +:+ zero_byte
  +:+ query_text (merge_sort (λ a b, String.le a.1 b.1) (map_to_list (filter (λ kv, isSecret kv.1 = false) query))).
Definition Key (scope path : string) (query : Values) : string := sha256hex (key_text scope path query).

(** ** The directory *)

Inductive data := Raw (b : string) | Json (contentType : string) (storedAt : Z).
Record file := mkFile { content : data; modTime : Z }.
#[global] Instance data_eq_dec : EqDecision data.
Proof. solve_decision. Defined.

Definition meta_name (key : string) : string := key +:+ ".meta".
Definition body_name (key : string) : string := key +:+ ".body".
Definition tmp_prefix : string := ".artwork-tmp-".
Definition tmp_name (digits : string) : string := tmp_prefix +:+ digits.

(** [Format(time.RFC3339)] keeps whole seconds. *)
Definition whole_seconds (t : Z) : Z := t ÷ Second * Second.
Definition size_of (f : file) : Z := match content f with Raw b => slen b | Json _ _ => 0 end.

(** ** Actions *)

(** [Stamp] is the reading of the clock of [Set]; [WriteTemp] is the whole of
    [writeTemp], whose file nobody else has a name for. *)
Inductive op :=
  | Now
  | Stamp (key contentType body : string)
  | WriteTemp (d : data)
  | Rename (from to : string)
  | Remove (name : string)
  | ReadFile (name : string)
  | ReadDir
  | Info (name : string).
Definition resp (o : op) : Type :=
  match o with
  | Now | Stamp _ _ _ => Z
  | WriteTemp _ => option string
  | Rename _ _ => bool
  | Remove _ => unit
  | ReadFile _ => option data
  | ReadDir => option (list string)
  | Info _ => option (Z * Z)
  end.
Notation code := (prog resp).

Inductive reply :=
  | Hit (contentType body : string)
  | Miss
  | Stored
  | Failed (error : string)
  | Swept (removed : nat) (freed : Z).

(** ** The store *)

(** [New]: the directory is created for the owner only; the budget is in
    gigabytes. *)
Definition New (dir : string) (maxGB : Z) (mkdir : bool) : outcome (string * Z) :=
  if dir =s "" then Err "artwork: empty directory"
  else if negb mkdir then Err "artwork: mkdir" else Ok (dir, int64 (Z.shiftl maxGB 30)).

Section store.
Context (maxBytes : Z).

Definition remove_both (key : string) : code reply :=
  do act (resp := resp) (Remove (meta_name key)) ;; do act (resp := resp) (Remove (body_name key)) ;; Ret Miss.

(** [Get] *)
Definition Get (key : string) : code reply :=
  if key =s "" then Ret Miss
  else
    m <~ act (resp := resp) (ReadFile (meta_name key)) ;;
    match m with
    | None => Ret Miss
    | Some (Raw _) => remove_both key
    | Some (Json ct stored) =>
        now <~ act (resp := resp) Now ;;
        if TTL <? now - stored then remove_both key
        else
          b <~ act (resp := resp) (ReadFile (body_name key)) ;;
          Ret match b with
              | Some (Raw body) => Hit ct body
              | _ => Miss
              end
    end.

(** The deferred removals of [Set], latest first. *)
Fixpoint cleanup (tmps : list string) (e : string) : code reply :=
  match tmps with
  | [] => Ret (Failed e)
  | t :: r => do act (resp := resp) (Remove (tmp_name t)) ;; cleanup r e
  end.

(** [Set] *)
Definition Set_ (key contentType body : string) : code reply :=
  if key =s "" then Ret (Failed "artwork: empty key")
  else if MaxBodyBytes <? slen body then Ret (Failed "artwork: body exceeds entry cap")
  else
    t <~ act (resp := resp) (Stamp key contentType body) ;;
    b <~ act (resp := resp) (WriteTemp (Raw body)) ;;
    match b with
    | None => Ret (Failed "write")
    | Some tmpBody =>
        m <~ act (resp := resp) (WriteTemp (Json contentType (whole_seconds t))) ;;
        match m with
        | None => cleanup [tmpBody] "write"
        | Some tmpMeta =>
            ok <~ act (resp := resp) (Rename (tmp_name tmpBody) (body_name key)) ;;
            if negb ok then cleanup [tmpMeta; tmpBody] "rename"
            else
              ok <~ act (resp := resp) (Rename (tmp_name tmpMeta) (meta_name key)) ;;
              if negb ok then
                do act (resp := resp) (Remove (body_name key)) ;; cleanup [tmpMeta; tmpBody] "rename"
              else Ret Stored
        end
    end.

(** ** The sweep *)

Record body_file := mkBody { f_name : string; f_size : Z; f_time : Z }.

(** The directory scan: temporaries are removed, bodies are measured. *)
Fixpoint scan (names : list string) (bodies : list body_file) (total : Z) : code (list body_file * Z) :=
  match names with
  | [] => Ret (bodies, total)
  | n :: r =>
      if HasPrefix n tmp_prefix then do act (resp := resp) (Remove n) ;; scan r bodies total
      else if negb (HasSuffix n ".body") then scan r bodies total
      else
        i <~ act (resp := resp) (Info n) ;;
        match i with
        | None => scan r bodies total
        | Some (size, time) => scan r (bodies ++ [mkBody n size time]) (total + size)
        end
  end.

Definition older (a b : body_file) : Prop := f_time a <= f_time b.
(** What [sort.Slice] makes of the bodies: oldest first, those of the same age
    in any order. *)
Definition arranges (arrange : list body_file → list body_file) : Prop := ∀ l, arrange l ≡ₚ l ∧ StronglySorted older (arrange l).

(** Which bodies go, oldest first, until the rest fits. *)
Fixpoint victims (bodies : list body_file) (total : Z) : list body_file :=
  match bodies with
  | [] => []
  | b :: r => if total <=? maxBytes then [] else b :: victims r (total - f_size b)
  end.

Fixpoint remove_all (l : list body_file) : code unit :=
  match l with
  | [] => Ret tt
  | b :: r =>
      do act (resp := resp) (Remove (f_name b)) ;;
      do act (resp := resp) (Remove (meta_name (TrimSuffix (f_name b) ".body"))) ;;
      remove_all r
  end.
Fixpoint sizes (l : list body_file) : Z := match l with [] => 0 | b :: r => f_size b + sizes r end.

(** [Sweep] *)
Definition Sweep (arrange : list body_file → list body_file) : code reply :=
  names <~ act (resp := resp) ReadDir ;;
  match names with
  | None => Ret (Swept 0 0)
  | Some names =>
      x <~ scan names [] 0 ;;
      let '(bodies, total) := x in
      if (maxBytes <=? 0) || (total <=? maxBytes) then Ret (Swept 0 0)
      else
        let gone := victims (arrange bodies) total in
        do remove_all gone ;;
        Ret (Swept (length gone) (sizes gone))
  end.

Inductive call := CGet (key : string) | CSet (key contentType body : string) | CSweep.
Definition program (arrange : list body_file → list body_file) (k : call) : code reply :=
  match k with CGet key => Get key | CSet key ct body => Set_ key ct body | CSweep => Sweep arrange end.

End store.

(** ** The shared directory *)

(** [sets] and [temps] are columns the program does not have: the calls of
    [Set] that were stamped, and what was written to each temporary. *)
Record world := mkWorld {
  files : gmap string file; clock : Z; sets : list (string * string * string * Z); temps : gmap string data;
}.

(** A write may fail before or after it left something behind; a rename may
    fail; a name is digits. *)
Inductive fate := Works | Fails | Torn (b : string).
Record choice := mkChoice { advance : N; fate_ : fate; digits : string; listing : list string }.

Definition put (w : world) (f : gmap string file) : world := mkWorld f (clock w) (sets w) (temps w).

Definition write_temp (w : world) (c : choice) (d : data) : option (world * option string) :=
  let n := digits c in
  let wrote x := mkWorld (<[tmp_name n := mkFile x (clock w)]> (files w)) (clock w) (sets w) (<[n := x]> (temps w)) in
  if all_chars is_digit n && bool_decide (temps w !! n = None) then
    Some match fate_ c with
         | Works => (wrote d, Some n)
         | Fails => (w, None)
         | Torn b => (wrote (Raw b), None)
         end
  else None.

(** A rename that works replaces the target in one step. *)
Definition rename (w : world) (f : fate) (from to : string) : world * bool :=
  match f, files w !! from with
  | Works, Some x => (put w (<[to := x]> (delete from (files w))), true)
  | _, _ => (w, false)
  end.

Definition exec (c : choice) (w0 : world) (o : op) : option (world * resp o) :=
  let w := mkWorld (files w0) (clock w0 + Z.of_N (advance c)) (sets w0) (temps w0) in
  match o return option (world * resp o) with
  | Now => Some (w, clock w)
  | Stamp key ct body => Some (mkWorld (files w) (clock w) ((key, ct, body, clock w) :: sets w) (temps w), clock w)
  | WriteTemp d => write_temp w c d
  | Rename from to => Some (rename w (fate_ c) from to)
  | Remove n => Some (match fate_ c with Works => put w (delete n (files w)) | _ => w end, tt)
  | ReadFile n => Some (w, match fate_ c with Works => content <$> files w !! n | _ => None end)
  | ReadDir => Some (w, match fate_ c with Works => Some (listing c) | _ => None end)
  | Info n => Some (w, match fate_ c with Works => (λ f, (size_of f, modTime f)) <$> files w !! n | _ => None end)
  end.

(** The directory starts empty. *)
Definition boot (w : world) : Prop := files w = ∅ ∧ sets w = [] ∧ temps w = ∅ ∧ 0 <= clock w.

Section safety.
Context (maxBytes : Z) (arrange : list body_file → list body_file).
Notation prog_of := (program maxBytes arrange).
(** A crash ends every call and keeps the directory. *)
Notation reached := (Threads.reached prog_of exec boot (λ w, w)).

(** ** Names *)

Lemma meta_body key key' : meta_name key ≠ body_name key'.
Proof. intros H. by apply sapp_inj_len_r in H as [_ ?]. Qed.
Lemma body_inj key key' : body_name key = body_name key' → key = key'.
Proof. intros H. by apply sapp_inj_len_r in H as [? _]. Qed.
Lemma meta_inj key key' : meta_name key = meta_name key' → key = key'.
Proof. intros H. by apply sapp_inj_len_r in H as [? _]. Qed.

Lemma digits_free (c : ascii) d : is_digit c = false → all_chars is_digit d = true → free_of c d.
Proof.
  intros Hc. unfold free_of. induction d as [|x d IH]; [done|]. cbn. intros [Hx Hd]%andb_true_iff. apply andb_true_iff. split; [|auto].
  apply negb_true_iff, Ascii.eqb_neq. congruence.
Qed.
Lemma tmp_body d key : all_chars is_digit d = true → tmp_name d ≠ body_name key.
Proof.
  intros Hd E. assert (Hf : free_of "y" (tmp_name d)) by (apply free_of_app; split; [done|by apply digits_free]).
  rewrite E in Hf. apply free_of_app in Hf as [_ Hf]. by vm_compute in Hf.
Qed.
Lemma tmp_meta d key : all_chars is_digit d = true → tmp_name d ≠ meta_name key.
Proof.
  intros Hd E. assert (Hf : free_of "e" (tmp_name d)) by (apply free_of_app; split; [done|by apply digits_free]).
  rewrite E in Hf. apply free_of_app in Hf as [_ Hf]. by vm_compute in Hf.
Qed.
Lemma tmp_inj d d' : tmp_name d = tmp_name d' → d = d'.
Proof. intros H. by apply sapp_inj_len in H as [_ ?]. Qed.

(** ** Guards *)

Definition K (k : call) (h : list (event resp)) (o : op) : Prop :=
  match o with
  | Stamp key ct body => k = CSet key ct body ∧ slen body <= MaxBodyBytes
  | Rename from to => ∃ key ct body t d, Ev (Stamp key ct body) t ∈ h ∧ from = tmp_name d ∧
      (to = body_name key ∧ Ev (WriteTemp (Raw body)) (Some d) ∈ h ∨
       to = meta_name key ∧ Ev (WriteTemp (Json ct (whole_seconds t))) (Some d) ∈ h)
  | _ => True
  end.
Definition Q (k : call) (h : list (event resp)) (a : reply) : Prop :=
  match a with
  | Hit ct body => ∃ key stored now, k = CGet key ∧ Ev (ReadFile (meta_name key)) (Some (Json ct stored)) ∈ h ∧
      Ev (ReadFile (body_name key)) (Some (Raw body)) ∈ h ∧ Ev Now now ∈ h ∧ now - stored <= TTL
  | _ => True
  end.

Lemma scan_safe k names bodies total h Q' :
  (∀ h' x, Q' h' x) → always (K k) (scan names bodies total) h Q'.
Proof.
  intros HQ. revert bodies total h. induction names as [|n r IH]; intros bodies total h; cbn [scan]; [apply HQ|].
  destruct (HasPrefix n tmp_prefix); [by cbn [always pbind act]|]. destruct (HasSuffix n ".body"); cbn [negb]; [|apply IH].
  cbn [always pbind act]. split; [done|]. intros [[size time]|]; apply IH.
Qed.

Lemma remove_all_safe k l h Q' : (∀ h' x, Q' h' x) → always (K k) (remove_all l) h Q'.
Proof. intros HQ. revert h. induction l as [|b r IH]; intros h; cbn [remove_all always pbind act]; [apply HQ|]. by repeat split. Qed.

Lemma cleanup_safe k l e h : always (K k) (cleanup l e) h (Q k).
Proof. revert h. induction l as [|t r IH]; intros h; cbn [cleanup always pbind act]; [done|]. by split. Qed.

Ltac have := solve [apply list_elem_of_In; cbn; auto 10].

Lemma files_program_safe k : always (K k) (prog_of k) [] (Q k).
Proof.
  destruct k as [key|key ct body|]; cbn [program].
  - unfold Get, remove_both. destruct (key =s ""); [done|]. cbn [always pbind act]. split; [done|].
    intros [[b|ct stored]|]; cbn [always pbind act]; try done. split; [done|]. intros now.
    destruct (Z.ltb_spec TTL (now - stored)); cbn [always pbind act]; [done|]. split; [done|]. intros [[body|]|]; try done.
    exists key, stored, now. split_and!; [done|have|have|have|done].
  - unfold Set_. destruct (key =s ""); [done|]. destruct (Z.ltb_spec MaxBodyBytes (slen body)); [done|].
    cbn [always pbind act]. split; [done|]. intros t. split; [done|]. intros [tb|]; [|done]. cbn [always pbind act]. split; [done|].
    intros [tm|]; [|apply cleanup_safe]. cbn [always pbind act]. split.
    { exists key, ct, body, t, tb. split_and!; [have|done|left; split; [done|have]]. }
    intros []; cbn [negb]; [|apply cleanup_safe]. cbn [always pbind act]. split.
    { exists key, ct, body, t, tm. split_and!; [have|done|right; split; [done|have]]. }
    intros []; cbn [negb always pbind act]; [done|]. split; [done|]. intros []. apply (cleanup_safe (CSet key ct body)).
  - unfold Sweep. cbn [always pbind act]. split; [done|]. intros [names|]; [|done]. apply always_bind, scan_safe.
    intros h' [bodies total]. destruct (_ || _); [done|]. cbv zeta. apply always_bind, remove_all_safe. done.
Qed.

(** ** The invariant *)

Definition body_from (w : world) (key : string) (x : data) : Prop := ∃ ct b t, (key, ct, b, t) ∈ sets w ∧ x = Raw b.
Definition meta_from (w : world) (key : string) (x : data) : Prop :=
  ∃ ct b t, (key, ct, b, t) ∈ sets w ∧ x = Json ct (whole_seconds t).

Record Inv (w : world) : Prop := mkInv {
  I_body : ∀ key f, files w !! body_name key = Some f → body_from w key (content f);
  I_meta : ∀ key f, files w !! meta_name key = Some f → meta_from w key (content f);
  I_tmp : ∀ d f, all_chars is_digit d = true → files w !! tmp_name d = Some f → temps w !! d = Some (content f);
  I_sets : ∀ key ct b t, (key, ct, b, t) ∈ sets w → slen b <= MaxBodyBytes ∧ 0 <= t <= clock w;
  I_clock : 0 <= clock w;
}.

Definition fact (w : world) (e : event resp) (h : list (event resp)) : Prop :=
  match e with
  | Ev o x =>
      match o as o return resp o → Prop with
      | Now => λ t, t <= clock w
      | Stamp key ct body => λ t, (key, ct, body, t) ∈ sets w
      | WriteTemp d => λ x, ∀ n, x = Some n → all_chars is_digit n = true ∧ temps w !! n = Some d
      | ReadFile n => λ x, ∀ c, x = Some c →
          (∀ key, n = body_name key → body_from w key c) ∧ (∀ key, n = meta_name key → meta_from w key c)
      | _ => λ _, True
      end x
  end.

Definition grows (w w' : world) : Prop := clock w <= clock w' ∧ sets w ⊆ sets w' ∧ temps w ⊆ temps w'.

Lemma body_from_grows w w' key x : grows w w' → body_from w key x → body_from w' key x.
Proof. intros (_ & Hs & _) (ct & b & t & Hin & ->). exists ct, b, t. auto. Qed.
Lemma meta_from_grows w w' key x : grows w w' → meta_from w key x → meta_from w' key x.
Proof. intros (_ & Hs & _) (ct & b & t & Hin & ->). exists ct, b, t. auto. Qed.

Lemma file_op_grows c w o w' x : exec c w o = Some (w', x) → grows w w'.
Proof.
  intros He. destruct o; cbn [exec] in He.
  - injection He as <- _. split_and!; cbn; done || lia.
  - injection He as <- _. split_and!; cbn; [lia|set_solver|done].
  - unfold write_temp in He. cbv zeta in He. destruct (_ && _) eqn:E; [|discriminate]. apply andb_true_iff in E as [_ E].
    apply bool_decide_eq_true in E. cbn [temps] in E. injection He as He.
    destruct (fate_ c); injection He as <- _; split_and!; cbn; try done; try lia; by apply insert_subseteq.
  - injection He as He. unfold rename in He. repeat case_match; injection He as <- _; split_and!; cbn; done || lia.
  - injection He as <- _. destruct (fate_ c); split_and!; cbn; done || lia.
  - injection He as <- _. split_and!; cbn; done || lia.
  - injection He as <- _. split_and!; cbn; done || lia.
  - injection He as <- _. split_and!; cbn; done || lia.
Qed.

Lemma files_fact_stable c w o w' x e h : Inv w → exec c w o = Some (w', x) → fact w e h → fact w' e h.
Proof.
  intros _ Hg%file_op_grows. pose proof Hg as (Hc & Hs & Ht). destruct e as [[] y]; cbn [fact]; try done; [lia|auto|..].
  - intros H n E. destruct (H n E). split; [done|]. by eapply lookup_weaken.
  - intros H d E. destruct (H d E) as [H1 H2]. split; intros key En; [eapply body_from_grows|eapply meta_from_grows]; eauto.
Qed.

(** An action that only removes files, or touches none. *)
Lemma Inv_fewer w f now : Inv w → f ⊆ files w → clock w <= now → Inv (mkWorld f now (sets w) (temps w)).
Proof.
  intros [H1 H2 H3 H4 H5] Hf Hle. split; cbn.
  - intros key x Hx. eapply (body_from_grows w); [done|]. eapply H1. by eapply lookup_weaken.
  - intros key x Hx. eapply (meta_from_grows w); [done|]. eapply H2. by eapply lookup_weaken.
  - intros d x Hd Hx. eapply H3; [done|]. by eapply lookup_weaken.
  - intros key ct b t Hin. destruct (H4 _ _ _ _ Hin). split; [done|lia].
  - lia.
Qed.

Lemma Inv_stamp w key ct body : Inv w → slen body <= MaxBodyBytes → Inv (mkWorld (files w) (clock w) ((key, ct, body, clock w) :: sets w) (temps w)).
Proof.
  intros [H1 H2 H3 H4 H5] Hb. assert (Hg : grows w (mkWorld (files w) (clock w) ((key, ct, body, clock w) :: sets w) (temps w)))
    by (split_and!; cbn; [lia|set_solver|done]). split; cbn; try done.
  - intros k f Hf. eapply body_from_grows; [done|by apply H1].
  - intros k f Hf. eapply meta_from_grows; [done|by apply H2].
  - intros k c b t [[= -> -> -> ->]|Hin]%elem_of_cons; [lia|by eapply H4].
Qed.

Lemma Inv_written w n d :
  Inv w → all_chars is_digit n = true → Inv (mkWorld (<[tmp_name n := mkFile d (clock w)]> (files w)) (clock w) (sets w) (<[n := d]> (temps w))).
Proof.
  intros [H1 H2 H3 H4 H5] Hn. split; cbn; try done.
  - intros key f. rewrite lookup_insert_ne by (by apply tmp_body). apply H1.
  - intros key f. rewrite lookup_insert_ne by (by apply tmp_meta). apply H2.
  - intros d' f Hd' Hf. apply lookup_insert_Some in Hf as [[E%tmp_inj <-]|[Hne Hf]].
    + subst. by rewrite lookup_insert_eq.
    + rewrite lookup_insert_ne by congruence. by apply H3.
Qed.

Lemma Inv_renamed w d f to key :
  Inv w → all_chars is_digit d = true → files w !! tmp_name d = Some f →
  (to = body_name key ∧ body_from w key (content f) ∨ to = meta_name key ∧ meta_from w key (content f)) →
  Inv (put w (<[to := f]> (delete (tmp_name d) (files w)))).
Proof.
  intros HI Hd Hf Hto. pose proof (Inv_fewer w (delete (tmp_name d) (files w)) (clock w) HI (delete_subseteq _ _) ltac:(lia)) as [H1 H2 H3 H4 H5].
  cbn in *. split; cbn; try done.
  - intros k x Hx. apply lookup_insert_Some in Hx as [[E <-]|[_ Hx]]; [|by apply H1].
    destruct Hto as [[-> ?]|[-> _]]; [apply body_inj in E as ->; done|by destruct (meta_body key k)].
  - intros k x Hx. apply lookup_insert_Some in Hx as [[E <-]|[_ Hx]]; [|by apply H2].
    destruct Hto as [[-> _]|[-> ?]]; [by destruct (meta_body k key)|apply meta_inj in E as ->; done].
  - intros d' x Hd' Hx. apply lookup_insert_Some in Hx as [[E _]|[_ Hx]]; [|by apply H3].
    destruct Hto as [[-> _]|[-> _]]; [by destruct (tmp_body d' key Hd')|by destruct (tmp_meta d' key Hd')].
Qed.

Lemma rename_ok w k h from to f :
  Inv w → facts fact w h → K k h (Rename from to) → Inv (rename w f from to).1.
Proof.
  intros HI Hf (key & ct & body & t & d & Hst & -> & Hto). unfold rename.
  destruct f; [|done..]. destruct (files w !! tmp_name d) as [x|] eqn:Ex; [|done]. cbn [fst].
  destruct (facts_in fact w h _ Hf Hst) as (? & _ & Hs). cbn [fact] in Hs.
  assert (Hw : ∀ c, Ev (WriteTemp c) (Some d) ∈ h → all_chars is_digit d = true ∧ content x = c).
  { intros c Hc. destruct (facts_in fact w h _ Hf Hc) as (? & _ & Hd). cbn [fact] in Hd. destruct (Hd d eq_refl) as [Hdig Hdata].
    split; [done|]. pose proof (I_tmp _ HI d x Hdig Ex). congruence. }
  destruct Hto as [[-> Hc]|[-> Hc]]; destruct (Hw _ Hc) as [Hd Hx]; eapply (Inv_renamed w d x _ key); try done;
    [left|right]; (split; [done|]); by exists ct, body, t.
Qed.

Lemma files_exec_ok c w k h o w' x :
  Inv w → facts fact w h → K k h o → exec c w o = Some (w', x) → Inv w' ∧ fact w' (Ev o x) h.
Proof.
  intros HI Hf HK He. set (w1 := mkWorld (files w) (clock w + Z.of_N (advance c)) (sets w) (temps w)).
  assert (H1 : Inv w1) by (apply Inv_fewer; [done|done|lia]).
  assert (Hf1 : facts fact w1 h).
  { intros e h' Hs. eapply (files_fact_stable c w Now w1 (clock w1)); [done|reflexivity|by apply Hf]. }
  destruct o; cbn [exec] in He; fold w1 in He.
  - injection He as <- <-. split; [done|]. cbn. lia.
  - injection He as <- <-. destruct HK as [_ Hb]. split; [by apply (Inv_stamp w1)|]. cbn. by left.
  - unfold write_temp in He. cbv zeta in He. destruct (_ && _) eqn:E; [|discriminate]. apply andb_true_iff in E as [E1 E2].
    injection He as He. destruct (fate_ c); injection He as <- <-.
    + split; [by apply (Inv_written w1)|]. cbn. intros n [= <-]. split; [done|]. by rewrite lookup_insert_eq.
    + split; [done|]. cbn. discriminate.
    + split; [by apply (Inv_written w1)|]. cbn. discriminate.
  - injection He as He. split; [|done]. pose proof (rename_ok w1 k h from to (fate_ c) H1 Hf1 HK) as Hr. by rewrite He in Hr.
  - injection He as <- _. split; [|done]. destruct (fate_ c); [|done..]. apply (Inv_fewer w1); [done|apply delete_subseteq|cbn; lia].
  - injection He as <- <-. split; [done|]. cbn [fact]. destruct (fate_ c); [|done..]. intros d Hd.
    apply fmap_Some in Hd as (f & Hn & ->). split; intros key ->; [by apply (I_body _ H1)|by apply (I_meta _ H1)].
  - injection He as <- _. done.
  - injection He as <- _. done.
Qed.

Lemma files_boot_ok w : boot w → Inv w.
Proof.
  intros (E1 & E2 & E3 & E4). split; try done; rewrite ?E1, ?E2; try (intros *; by rewrite lookup_empty).
  by intros ? ? ? ? []%elem_of_nil.
Qed.

Lemma files_reached_ok s :
  reached s → Inv (mem s) ∧
  ∀ n k p h, pool s !! n = Some (mkThread k p h) → facts fact (mem s) h ∧ always (K k) p h (Q k).
Proof.
  by apply (reached_safe prog_of exec boot (λ w, w) Inv fact K Q files_boot_ok (λ _ H, H) files_program_safe files_fact_stable files_exec_ok).
Qed.

(** What the file cache returns was stored under the same key and is whole.
    However gets, sets, sweeps and crashes interleave, the body of a hit is
    the complete body of a [Set] of that key and within the eight-megabyte
    cap, and its content type is that of a [Set] of that key at most seven
    days old; a temporary file, torn or not, never becomes an entry of
    another key. *)
Theorem hits_are_whole_and_their_own s n key h ct body :
  reached s → pool s !! n = Some (mkThread (CGet key) (Ret (Hit ct body)) h) →
  (∃ ct' t, (key, ct', body, t) ∈ sets (mem s) ∧ slen body <= MaxBodyBytes) ∧
  ∃ body' t now, (key, ct, body', t) ∈ sets (mem s) ∧ Ev Now now ∈ h ∧ now <= clock (mem s) ∧ now - t <= TTL.
Proof.
  intros Hr Hn. destruct (files_reached_ok s Hr) as [HI Hall]. destruct (Hall _ _ _ _ Hn) as [Hf Hq].
  cbn in Hq. destruct Hq as (key' & stored & now & [= <-] & Hm & Hb & Hnow & Hage).
  destruct (facts_in fact _ h _ Hf Hm) as (? & _ & Fm). destruct (facts_in fact _ h _ Hf Hb) as (? & _ & Fb).
  destruct (facts_in fact _ h _ Hf Hnow) as (? & _ & Fn). cbn [fact] in *.
  destruct (proj2 (Fm _ eq_refl) key eq_refl) as (ct1 & b1 & t1 & Hin1 & [= -> ->]).
  destruct (proj1 (Fb _ eq_refl) key eq_refl) as (ct2 & b2 & t2 & Hin2 & [= ->]).
  destruct (I_sets _ HI _ _ _ _ Hin1) as [_ Ht]. destruct (I_sets _ HI _ _ _ _ Hin2) as [Hlen _].
  split; [by exists ct2, t2|]. exists b1, t1, now. split_and!; [done..|].
  unfold whole_seconds in Hage. pose proof (Z.mul_quot_le t1 Second ltac:(lia) ltac:(done)). lia.
Qed.

(** ** The budget *)

Lemma sizes_app a b : sizes (a ++ b) = sizes a + sizes b.
Proof. induction a as [|x a IH]; cbn; [done|]. rewrite IH. lia. Qed.
Lemma sizes_perm a b : a ≡ₚ b → sizes a = sizes b.
Proof. induction 1; cbn; lia. Qed.

Lemma victims_fit l :
  ∃ rest, l = victims maxBytes l (sizes l) ++ rest ∧ (sizes rest <= maxBytes ∨ rest = []) ∧
    ∀ v b, victims maxBytes l (sizes l) = v ++ [b] → maxBytes < f_size b + sizes rest.
Proof.
  induction l as [|b l (rest & Hl & Hfit & Hlast)]; [exists []; split_and!; [done|by right|by intros []]|].
  cbn [victims sizes]. replace (f_size b + sizes l - f_size b) with (sizes l) by lia.
  destruct (Z.leb_spec (f_size b + sizes l) maxBytes) as [Hle|Hgt].
  - exists (b :: l). split_and!; [done|by left|]. by intros [].
  - exists rest. split_and!; [cbn; by f_equal|done|]. intros [|x v] y E; injection E as <- E; [|by eapply Hlast].
    rewrite E in Hl. cbn in Hl. subst l. lia.
Qed.

(** A sweep keeps the newest bodies that fit: what it deletes is older than
    what it keeps, what it keeps fits the budget, and with the newest body it
    deleted it would not. *)
Lemma sweep_keeps_the_newest bodies :
  arranges arrange → 0 <= maxBytes →
  ∃ rest, arrange bodies = victims maxBytes (arrange bodies) (sizes bodies) ++ rest ∧ sizes rest <= maxBytes ∧
    (∀ a b, a ∈ victims maxBytes (arrange bodies) (sizes bodies) → b ∈ rest → older a b) ∧
    ∀ v b, victims maxBytes (arrange bodies) (sizes bodies) = v ++ [b] → maxBytes < f_size b + sizes rest.
Proof.
  intros Ha Hm. destruct (Ha bodies) as [Hp Hs]. rewrite <- (sizes_perm _ _ Hp).
  destruct (victims_fit (arrange bodies)) as (rest & Hl & Hfit & Hlast). exists rest. split; [done|].
  split; [destruct Hfit as [?| ->]; [done|cbn; lia]|]. split; [|done].
  rewrite Hl in Hs. apply StronglySorted_app in Hs. intros a b Hin Hb. by apply Hs.
Qed.

End safety.

(** ** Concrete runs *)

Definition w_go (d : string) : choice := mkChoice 1 Works d [].
Definition w_boot : world := mkWorld ∅ 0 [] ∅.
Notation w_prog := (program 0 id).
Notation st := (state (resp := resp) (W := world) (kind := call) (A := reply)).
Definition w_state (l : list (move (kind := call) (choice := choice))) : st :=
  default (mkState w_boot []) (schedule w_prog exec (λ w, w) (mkState w_boot []) l).
Definition w_set (n : nat) (a b : string) : list (move (kind := call) (choice := choice)) :=
  [Go n (w_go ""); Go n (w_go a); Go n (w_go b); Go n (w_go ""); Go n (w_go "")].
Definition w_get (n : nat) : list (move (kind := call) (choice := choice)) := replicate 3 (Go n (w_go "")).

Definition w_moves : list (move (kind := call) (choice := choice)) :=
  [Spawn (CSet "k" "image/jpeg" "jpeg bytes"); Spawn (CGet "k")] ++ w_set 0 "1" "2" ++ w_get 1.
Definition w_end : st := Eval vm_compute in w_state w_moves.
Lemma files_reached : Threads.reached w_prog exec boot (λ w, w) w_end.
Proof.
  apply (schedule_reached w_prog exec boot (λ w, w) (mkState w_boot []) w_moves); [apply reached_boot; by repeat split|].
  vm_compute. reflexivity.
Qed.

Lemma hits_are_whole_and_their_own_witness :
  ∃ h, pool w_end !! 1%nat = Some (mkThread (CGet "k") (Ret (Hit "image/jpeg" "jpeg bytes")) h) ∧
    ∃ ct' t, ("k", ct', "jpeg bytes", t) ∈ sets (mem w_end).
Proof.
  eexists. split; [reflexivity|].
  destruct (hits_are_whole_and_their_own 0 id w_end 1 "k" _ "image/jpeg" "jpeg bytes" files_reached eq_refl) as [(ct' & t & Hin & _) _].
  by exists ct', t.
Defined.

(** A crash between the two renames of an update leaves the new body under
    the old metadata, and that reads as a hit. *)
Lemma crash_mixes_metadata_and_body :
  let s := w_state ([Spawn (CSet "k" "image/jpeg" "jpeg bytes"); Spawn (CSet "k" "image/png" "png bytes")]
                    ++ w_set 0 "1" "2" ++ take 4 (w_set 1 "3" "4") ++ [Crash; Spawn (CGet "k")] ++ w_get 0) in
  (λ th, match left th with Ret a => Some a | _ => None end) <$> pool s = [Some (Hit "image/jpeg" "png bytes")].
Proof. vm_compute. reflexivity. Qed.

(** A sweep takes the temporaries of a [Set] that is still running, which
    then fails. *)
Lemma sweep_breaks_a_running_set :
  let sweep := [Go 1 (mkChoice 1 Works "" [tmp_name "1"; tmp_name "2"]); Go 1 (w_go ""); Go 1 (w_go "")] in
  let s := w_state ([Spawn (CSet "k" "image/jpeg" "jpeg bytes"); Spawn CSweep] ++ take 3 (w_set 0 "1" "2") ++ sweep
                    ++ replicate 3 (Go 0 (w_go ""))) in
  (λ th, match left th with Ret a => Some a | _ => None end) <$> pool s = [Some (Failed "rename"); Some (Swept 0 0)].
Proof. vm_compute. reflexivity. Qed.

(** ** Keys *)

(** The token of a request does not reach its key. *)
Lemma Key_ignores_secrets scope path q k v : isSecret k = true → Key scope path (<[k := v]> q) = Key scope path (delete k q).
Proof.
  intros Hs. unfold Key, key_text. rewrite map_filter_insert_False by (cbn; congruence). done.
Qed.

End ArtworkFiles.
