(* ===== verification/Onboarding.v ===== *)
(** * Onboarding

    internal/onboarding: the installation identity (identity.go), sign-in and
    the selection of one server (flow.go) and the check that the gateway is
    that server (verify.go).  A method is a program over the statements it
    sends to the database and the calls it makes to plex.tv and to the origin;
    OnboardingSystem runs any number of them at the same time.

    A setting is stored as a JSON string and read back the same; clearing a
    buffer and writing a log line have no effect here, and the texts of errors
    of other systems are left out. *)

From S2P Require Import Prelude GoStrings GoHttp GoBase64 GoNet GoUrl GoCrypto Secrets Effects.

Module Onboarding.

(** ** plex.tv and the origin (internal/plextv, internal/pms) *)

Record PIN := mkPIN { PinID : Z; Code : string }.
Record User := mkAccount { UserID : Z; Username : string }.
Record Connection := mkConnection { URI : string; Protocol : string; Local_ : bool; Relay : bool }.
Record Resource := mkResource { ClientIdentifier : string; Name : string; AccessToken : string; Connections : list Connection }.
(** What [pms.FetchIdentity] read. *)
Record PMSIdentity := mkPMS { MachineIdentifier : string; FriendlyName : string; PMSVersion : string }.

(** An answer of plex.tv: a value, a status that is not 2xx, or no usable
    answer. *)
Inductive tv (A : Type) := TvOk (a : A) | TvStatus (code : Z) | TvError.
Arguments TvOk {A} a.
Arguments TvStatus {A} code.
Arguments TvError {A}.
Definition IsClientError {A} (r : tv A) : bool := match r with TvStatus c => (400 <=? c) && (c <? 500) | _ => false end.

(** ** Names *)

Definition StagePending : string := "pending".
Definition StagePINIssued : string := "pin_issued".
Definition StageOwnerAuthenticated : string := "owner_authenticated".
Definition StageSelected : string := "selected".
Definition StageVerified : string := "verified".

Definition PurposeDeviceKey : string := "device-key".
Definition PurposeOwnerJWT : string := "owner-token".
Definition PurposePMSToken : string := "pms-token".

Definition authModeJWT : string := "jwt".
Definition authModeLegacy : string := "legacy".

Definition setPINID : string := "onboarding.pin_id".
Definition setPINCode : string := "onboarding.pin_code".
Definition setOwnerToken : string := "onboarding.owner_token".
Definition setVerified : string := "onboarding.verified".
Definition setAuthMode : string := "onboarding.auth_mode".
Definition setOwnerExp : string := "onboarding.owner_expires".

(** ** Rows *)

Record identity_row := mkIdentityRow { client_identifier : string; jwk_public : string; jwk_private_ciphertext : string }.
Record server_row := mkServerRow {
  sv_name : string; sv_internal : string; sv_media : string; sv_machine : string; sv_friendly : string; sv_version : string;
  sv_enabled : bool
}.
Record cred_row := mkCredRow {
  cr_account : Z; cr_client : string; cr_jwk : string; cr_jwk_private : string; cr_owner : string; cr_pms : string;
  cr_resource : string; cr_status : string; cr_error : option string
}.
(** What the selecting transaction is given. *)
Record selection := mkSelection {
  sel_name : string; sel_internal : string; sel_media : string; sel_identity : PMSIdentity; sel_account : Z; sel_client : string;
  sel_owner : string; sel_pms : string; sel_resource : string
}.

(** One row of a query: none, one, or the query failed. *)
Inductive row (A : Type) := NoRow | Row (a : A) | Broken.
Arguments NoRow {A}.
Arguments Row {A} a.
Arguments Broken {A}.

(** ** Actions *)

Inductive op : Type :=
  | SelectIdentity
  | GenerateIdentity
  | RandomNonce
  | InsertIdentity (r : identity_row)
  | GetSetting (key : string)
  | SetSetting (key value : string)
  | DelSetting (key : string)
  | CreatePINJWT (clientID jwk : string)
  | CreatePIN (clientID : string)
  | PollPINJWT (clientID : string) (id : Z) (deviceJWT : string)
  | PollPIN (clientID : string) (id : Z)
  | GetUser (clientID token : string)
  | TVListServers (clientID token : string)
  | TVNonce (clientID token : string)
  | RefreshToken (clientID deviceJWT : string)
  | Sign (clientID kid seed : string) (nonce : option string)
  | FetchIdentity (base token : string)
  | LookupIPAddr (host : string)
  | PrefsGet (base token : string)
  | PrefsPut (base token value : string)
  | SelectServer (s : selection)
  | EnabledServer
  | CredentialsOf (server : nat)
  | EnabledCredentials
  | MarkVerified (server : nat)
  | StoreRefreshed (server : nat) (cipher : string)
  | MarkDegraded (server : nat)
  | MarkEnabledInvalid (cause : string)
  | Now.

Definition resp (o : op) : Type :=
  match o with
  | SelectIdentity => row identity_row
  | GenerateIdentity => option (string * string * string)  (* client id, seed, public key *)
  | RandomNonce => option string
  | InsertIdentity _ | SetSetting _ _ | SelectServer _ | MarkVerified _ | StoreRefreshed _ _ => bool
  | GetSetting _ => option string
  | DelSetting _ | MarkDegraded _ | MarkEnabledInvalid _ => unit
  | CreatePINJWT _ _ | CreatePIN _ => tv PIN
  | PollPINJWT _ _ _ | PollPIN _ _ => tv string
  | GetUser _ _ => tv User
  | TVListServers _ _ => tv (list Resource)
  | TVNonce _ _ | RefreshToken _ _ => tv string
  | Sign _ _ _ _ => option string
  | FetchIdentity _ _ => option PMSIdentity
  | LookupIPAddr _ => option (list addr)
  | PrefsGet _ _ => bool
  | PrefsPut _ _ _ => option Z
  | EnabledServer => option (nat * server_row)
  | CredentialsOf _ => option cred_row
  | EnabledCredentials => option (nat * cred_row)
  | Now => Z
  end.
Notation code := (prog resp).

Section service.
(** The service: its cipher, what [json.Unmarshal] reads as [exp] of a token's
    claims, and its configuration. *)
Context (seal : list Z → string → string → string) (open : list Z → string → string → option string).
Context (claims_exp : string → option Z).
Context (Secret PublicURL InternalURL ControlBase : string).

Definition bad {A} (e : string) : code (outcome A) := Ret (Err e).

(** ** Identity (identity.go) *)

Definition quoted (s : string) : string := String (ascii_of_N 34) (s +:+ String (ascii_of_N 34) "").
Definition jwk_json (pub id : string) : string :=
  "{" +:+ quoted "crv" +:+ ":" +:+ quoted "Ed25519" +:+ "," +:+ quoted "kid" +:+ ":" +:+ quoted (stake 8 id) +:+ "," +:+
  quoted "kty" +:+ ":" +:+ quoted "OKP" +:+ "," +:+ quoted "x" +:+ ":" +:+ quoted (EncodeToString64 url_alphabet pub) +:+ "}".

Definition EnsureIdentity : code (outcome string) :=
  r <~ act (resp := resp) SelectIdentity ;;
  match r with
  | Row i => Ret (Ok (client_identifier i))
  | Broken => bad "onboarding: identity lookup"
  | NoRow =>
      g <~ act (resp := resp) GenerateIdentity ;;
      match g with
      | None => bad "onboarding: rand"
      | Some (id, seed, pub) =>
          n <~ act (resp := resp) RandomNonce ;;
          match Secrets.Encrypt seal n Secret PurposeDeviceKey seed with
          | Ok seedCipher =>
              ok <~ act (resp := resp) (InsertIdentity (mkIdentityRow id (jwk_json pub id) seedCipher)) ;;
              if negb ok then bad "onboarding: save identity"
              else
                r <~ act (resp := resp) SelectIdentity ;;
                match r with Row i => Ret (Ok (client_identifier i)) | _ => bad "onboarding: identity re-read" end
          | _ => bad "crypto: nonce"
          end
      end
  end.

Definition credentials_of (i : identity_row) : code (outcome (string * string * string)) :=
  match Secrets.Decrypt open Secret PurposeDeviceKey (jwk_private_ciphertext i) with
  | Ok seed => Ret (Ok (client_identifier i, seed, jwk_public i))
  | _ => bad "onboarding: device key"
  end.

Definition DeviceCredentials : code (outcome (string * string * string)) :=
  r <~ act (resp := resp) SelectIdentity ;;
  match r with
  | Row i => credentials_of i
  | Broken => bad "onboarding: identity lookup"
  | NoRow =>
      e <~ EnsureIdentity ;;
      match e with
      | Ok _ =>
          r <~ act (resp := resp) SelectIdentity ;;
          match r with Row i => credentials_of i | _ => bad "onboarding: identity re-read" end
      | Err m => bad m
      | Panic => Ret Panic
      end
  end.

(** ** Sign-in (flow.go) *)

Record PINIssue := mkIssue { AuthURL : string; IssueCode : string; IssueStage : string; AuthMode : string }.

(** [plextv.AuthURL] *)
Definition auth_url (clientID : string) (p : PIN) : string :=
  "https://app.plex.tv/auth#?" +:+
  Encode (QuerySet (QuerySet (QuerySet ∅ "clientID" clientID) "code" (Code p)) "pinID" (Itoa (PinID p))).

Definition store_pin (clientID : string) (p : PIN) (mode : string) : code (outcome PINIssue) :=
  ok <~ act (resp := resp) (SetSetting setAuthMode mode) ;;
  if negb ok then bad "settings"
  else
    do act (resp := resp) (DelSetting setVerified) ;;
    ok <~ act (resp := resp) (SetSetting setPINID (Itoa (PinID p))) ;;
    if negb ok then bad "settings"
    else
      ok <~ act (resp := resp) (SetSetting setPINCode (Code p)) ;;
      if negb ok then bad "settings"
      else Ret (Ok (mkIssue (auth_url clientID p) (Code p) StagePINIssued mode)).

Definition IssuePIN : code (outcome PINIssue) :=
  d <~ DeviceCredentials ;;
  match d with
  | Ok (id, _, jwk) =>
      p <~ act (resp := resp) (CreatePINJWT id jwk) ;;
      match p with
      | TvOk pin => store_pin id pin authModeJWT
      | _ =>
          if negb (IsClientError p) then bad "onboarding: PIN"
          else
            p <~ act (resp := resp) (CreatePIN id) ;;
            match p with TvOk pin => store_pin id pin authModeLegacy | _ => bad "onboarding: PIN" end
      end
  | Err m => bad m
  | Panic => Ret Panic
  end.

Definition kidFor (clientID : string) : string :=
  if (8 <=? String.length clientID)%nat then stake 8 clientID else clientID.

(** [deviceSigner] and [Sign]; a seed of a wrong length is an error. *)
Definition sign (clientID seed : string) (nonce : option string) : code (option string) :=
  if negb (String.length seed =? 32)%nat then Ret None else act (resp := resp) (Sign clientID (kidFor clientID) seed nonce).

Definition poll_legacy (clientID : string) (pinID : Z) : code (outcome string) :=
  t <~ act (resp := resp) (PollPIN clientID pinID) ;;
  match t with TvOk token => Ret (Ok token) | _ => bad "onboarding: poll" end.

Definition pollByMode (pinID : Z) (mode clientID seed : string) : code (outcome string) :=
  if negb (mode =s authModeLegacy) then
    j <~ sign clientID seed None ;;
    match j with
    | None => bad "onboarding: bad device seed"
    | Some deviceJWT =>
        t <~ act (resp := resp) (PollPINJWT clientID pinID deviceJWT) ;;
        match t with
        | TvOk token => Ret (Ok token)
        | _ =>
            if negb (IsClientError t) then bad "onboarding: poll"
            else do act (resp := resp) (SetSetting setAuthMode authModeLegacy) ;; poll_legacy clientID pinID
        end
    end
  else poll_legacy clientID pinID.

(** [plextv.ParseExpiry] *)
Definition ParseExpiry (token : string) : option Z :=
  match Split token "." with
  | [_; claims; _] =>
      raw ← DecodeString64 url_alphabet claims; e ← claims_exp raw; if e =? 0 then None else Some e
  | _ => None
  end.

Definition store_expiry (token : string) : code unit :=
  match ParseExpiry token with
  | Some e => do act (resp := resp) (SetSetting setOwnerExp (Itoa e)) ;; Ret tt
  | None => act (resp := resp) (DelSetting setOwnerExp)
  end.

(** Both sign-ins store a validated token the same way. *)
Definition store_token (token : string) : code (outcome unit) :=
  n <~ act (resp := resp) RandomNonce ;;
  match Secrets.Encrypt seal n Secret PurposeOwnerJWT token with
  | Ok ct =>
      do store_expiry token ;;
      ok <~ act (resp := resp) (SetSetting setOwnerToken (EncodePadded64 std_alphabet ct)) ;;
      if negb ok then bad "settings"
      else
        do act (resp := resp) (DelSetting setPINID) ;;
        do act (resp := resp) (DelSetting setPINCode) ;;
        do act (resp := resp) (DelSetting setVerified) ;;
        Ret (Ok tt)
  | _ => bad "crypto: nonce"
  end.

Definition PollClaim : code (outcome bool) :=
  raw <~ act (resp := resp) (GetSetting setPINID) ;;
  match raw with
  | None => bad "onboarding: no PIN issued"
  | Some rawID =>
      match Atoi rawID with
      | None => bad "onboarding: bad PIN state"
      | Some pinID =>
          d <~ DeviceCredentials ;;
          match d with
          | Ok (clientID, seed, _) =>
              mode <~ act (resp := resp) (GetSetting setAuthMode) ;;
              t <~ pollByMode pinID (default "" mode) clientID seed ;;
              match t with
              | Ok token =>
                  if token =s "" then Ret (Ok false)
                  else
                    u <~ act (resp := resp) (GetUser clientID token) ;;
                    match u with
                    | TvOk _ =>
                        s <~ store_token token ;;
                        match s with Ok _ => Ret (Ok true) | Err m => bad m | Panic => Ret Panic end
                    | _ => bad "onboarding: token invalid"
                    end
              | Err m => bad m
              | Panic => Ret Panic
              end
          | Err m => bad m
          | Panic => Ret Panic
          end
      end
  end.

Definition SubmitToken (rawToken : string) : code (outcome string) :=
  let token := TrimSpace rawToken in
  if (String.length token <? 8)%nat then bad "onboarding: token too short to be valid"
  else
    e <~ EnsureIdentity ;;
    match e with
    | Ok clientID =>
        u <~ act (resp := resp) (GetUser clientID token) ;;
        match u with
        | TvOk user =>
            s <~ store_token token ;;
            match s with
            | Ok _ => do act (resp := resp) (SetSetting setAuthMode authModeLegacy) ;; Ret (Ok (Username user))
            | Err m => bad m
            | Panic => Ret Panic
            end
        | _ => bad "onboarding: token invalid"
        end
    | Err m => bad m
    | Panic => Ret Panic
    end.

(** A stored pending token, decoded and decrypted. *)
Definition decode_pending (raw : string) : option string :=
  ct ← DecodePadded64 std_alphabet raw;
  match Secrets.Decrypt open Secret PurposeOwnerJWT ct with Ok pt => Some pt | _ => None end.
Definition pendingOwnerToken : code (option string) :=
  raw <~ act (resp := resp) (GetSetting setOwnerToken) ;; Ret (raw ≫= decode_pending).

Definition ownerTokenForAdmin : code (option string) :=
  p <~ pendingOwnerToken ;;
  match p with
  | Some tok => Ret (Some tok)
  | None =>
      c <~ act (resp := resp) EnabledCredentials ;;
      Ret ('(_, cr) ← c; match Secrets.Decrypt open Secret PurposeOwnerJWT (cr_owner cr) with Ok pt => Some pt | _ => None end)
  end.

(** ** Servers *)

Record ServerSummary := mkSummary {
  SumClient : string; SumName : string; SumConnections : nat; HTTPSDirect : bool; ConnectionHosts : list string
}.

Definition hasHTTPSDirect (conns : list Connection) : bool := existsb (λ c, EqualFold (Protocol c) "https" && negb (Relay c)) conns.

Fixpoint hosts_from (seen : list string) (conns : list Connection) : list string :=
  match conns with
  | [] => []
  | c :: r =>
      match Parse (URI c) with
      | Some u => if (Host u =s "") || bool_decide (Host u ∈ seen) then hosts_from seen r else Host u :: hosts_from (Host u :: seen) r
      | None => hosts_from seen r
      end
  end.
Definition connectionHosts (conns : list Connection) : list string := hosts_from [] conns.

Definition summary (r : Resource) : ServerSummary :=
  mkSummary (ClientIdentifier r) (Name r) (length (Connections r)) (hasHTTPSDirect (Connections r)) (connectionHosts (Connections r)).

Definition ListServers : code (outcome (list ServerSummary)) :=
  t <~ ownerTokenForAdmin ;;
  match t with
  | None => bad "onboarding: authenticate first"
  | Some token =>
      e <~ EnsureIdentity ;;
      match e with
      | Ok clientID =>
          rs <~ act (resp := resp) (TVListServers clientID token) ;;
          match rs with TvOk l => Ret (Ok (summary <$> l)) | _ => bad "onboarding: resources" end
      | Err m => bad m
      | Panic => Ret Panic
      end
  end.

(** ** The media origin (verify.go) *)

(** [resolveGlobal]: proven public, or unknown. *)
Definition resolveGlobal (host : string) : code (bool * bool) :=
  match ParseIP host with
  | Some ip => Ret (IsGlobalUnicast ip, false)
  | None =>
      a <~ act (resp := resp) (LookupIPAddr host) ;;
      Ret match a with
          | None | Some [] => (false, true)
          | Some l => (existsb IsGlobalUnicast l, false)
          end
  end.

Definition publicHost (publicURL : string) : string :=
  match Parse publicURL with Some u => ToLower (Hostname u) | None => "" end.

(** A connection that may carry media, as its URL. *)
Definition candidate (own : string) (c : Connection) : option URL :=
  if negb (EqualFold (Protocol c) "https") || Relay c || Local_ c || (URI c =s "") then None
  else
    u ← Parse (URI c);
    if Host u =s "" then None
    else if negb (own =s "") && EqualFold (Hostname u) own then None else Some u.

Fixpoint select_from (own fallback : string) (conns : list Connection) : code (outcome string) :=
  match conns with
  | [] => if negb (fallback =s "") then Ret (Ok fallback) else bad "onboarding: no non-local https origin connection"
  | c :: r =>
      match candidate own c with
      | None => select_from own fallback r
      | Some u =>
          let uri := TrimSuffix (URI c) "/" in
          p <~ resolveGlobal (Hostname u) ;;
          let '(public, unknown) := p in
          if public then Ret (Ok uri)
          else select_from own (if unknown && (fallback =s "") then uri else fallback) r
      end
  end.
Definition SelectMediaOrigin (conns : list Connection) (own : string) : code (outcome string) := select_from own "" conns.

(** ** Selection *)

Record SelectReport := mkSelected { SelMachine : string; SelMedia : string; SelStage : string }.

Definition bind_server (token : string) (clientID : string) (user : User) (picked : Resource) : code (outcome SelectReport) :=
  if AccessToken picked =s "" then bad "onboarding: resource has no access token"
  else
    o <~ act (resp := resp) (FetchIdentity InternalURL (AccessToken picked)) ;;
    match o with
    | None => bad "onboarding: origin unreachable"
    | Some originID =>
        if negb (MachineIdentifier originID =s ClientIdentifier picked) then bad "onboarding: refusing to bind the wrong server"
        else
          m <~ SelectMediaOrigin (Connections picked) (publicHost PublicURL) ;;
          match m with
          | Ok media =>
              n1 <~ act (resp := resp) RandomNonce ;;
              match Secrets.Encrypt seal n1 Secret PurposePMSToken (AccessToken picked) with
              | Ok pmsCipher =>
                  n2 <~ act (resp := resp) RandomNonce ;;
                  match Secrets.Encrypt seal n2 Secret PurposeOwnerJWT token with
                  | Ok ownerCipher =>
                      ok <~ act (resp := resp) (SelectServer (mkSelection (Name picked) InternalURL media originID (UserID user) clientID
                              ownerCipher pmsCipher (ClientIdentifier picked))) ;;
                      if negb ok then bad "onboarding: save"
                      else
                        do act (resp := resp) (DelSetting setOwnerToken) ;;
                        do act (resp := resp) (DelSetting setVerified) ;;
                        Ret (Ok (mkSelected (MachineIdentifier originID) media StageSelected))
                  | _ => bad "crypto: nonce"
                  end
              | _ => bad "crypto: nonce"
              end
          | Err e => bad e
          | Panic => Ret Panic
          end
    end.

Definition SelectResource (clientIdentifier : string) : code (outcome SelectReport) :=
  t <~ ownerTokenForAdmin ;;
  match t with
  | None => bad "onboarding: authenticate first"
  | Some token =>
      e <~ EnsureIdentity ;;
      match e with
      | Ok clientID =>
          u <~ act (resp := resp) (GetUser clientID token) ;;
          match u with
          | TvOk user =>
              rs <~ act (resp := resp) (TVListServers clientID token) ;;
              match rs with
              | TvOk resources =>
                  match find (λ r, ClientIdentifier r =s clientIdentifier) resources with
                  | None => bad "onboarding: unknown resource"
                  | Some picked => bind_server token clientID user picked
                  end
              | _ => bad "onboarding: resources"
              end
          | _ => bad "onboarding: owner token invalid"
          end
      | Err m => bad m
      | Panic => Ret Panic
      end
  end.

(** ** Status *)

Record StatusReport := mkStatus { stage : string; authMode : option string; pinCode : option string; machineIdentifier : option string }.

Definition Status : code StatusReport :=
  mode <~ act (resp := resp) (GetSetting setAuthMode) ;;
  pin <~ act (resp := resp) (GetSetting setPINID) ;;
  c <~ (match pin with Some _ => act (resp := resp) (GetSetting setPINCode) | None => Ret None end) ;;
  tok <~ pendingOwnerToken ;;
  sv <~ act (resp := resp) EnabledServer ;;
  v <~ act (resp := resp) (GetSetting setVerified) ;;
  let machine := match sv with Some (_, s) => sv_machine s | None => "" end in
  let st := match pin with Some _ => StagePINIssued | None => StagePending end in
  let st := match tok with Some _ => StageOwnerAuthenticated | None => st end in
  let st := match sv with Some _ => StageSelected | None => st end in
  let st := match v with Some x => if (x =s machine) && negb (machine =s "") then StageVerified else st | None => st end in
  Ret (mkStatus st mode c (match sv with Some (_, s) => Some (sv_machine s) | None => None end)).

(** ** Verification (verify.go) *)

Definition TripleMatch (origin resource proxied : string) : bool :=
  negb (origin =s "") && (origin =s resource) && (resource =s proxied).

Definition publishes (own : string) (c : Connection) : bool :=
  match Parse (URI c) with Some u => EqualFold (Hostname u) own | None => false end.
Definition CustomURLPresent (resources : list Resource) (selectedID own : string) : bool :=
  if own =s "" then false
  else existsb (λ r, (ClientIdentifier r =s selectedID) && existsb (publishes own) (Connections r)) resources.

Definition host_of (c : Connection) : list string :=
  match Parse (URI c) with Some u => if Host u =s "" then [] else [Host u] | None => [] end.
Definition seenHosts (resources : list Resource) (selectedID : string) : list string :=
  match find (λ r, ClientIdentifier r =s selectedID) resources with Some r => Connections r ≫= host_of | None => [] end.

(** [tryConfigureCustomURL]: read the preferences, then write. *)
Definition tryConfigureCustomURL (internalOrigin pmsToken publicURL : string) : code bool :=
  g <~ act (resp := resp) (PrefsGet internalOrigin pmsToken) ;;
  if negb g then Ret false
  else
    p <~ act (resp := resp) (PrefsPut internalOrigin pmsToken publicURL) ;;
    Ret match p with Some status => negb ((status <? 200) || (300 <=? status)) | None => false end.

Record VerifyReport := mkReport {
  RepStage : string; OriginID : string; ResourceID : string; ProxiedID : string; Match : bool; CustomURL : bool; MediaOrigin : string
}.

(** The second look at the resources, after the URL was configured. *)
Definition recheck (internalURL pmsToken ownerToken resourceID : string) (present : bool) : code bool :=
  if present then Ret true
  else if PublicURL =s "" then Ret false
  else
    ok <~ tryConfigureCustomURL internalURL pmsToken PublicURL ;;
    if negb ok then Ret false
    else
      e <~ EnsureIdentity ;;
      match e with
      | Ok id2 =>
          rs <~ act (resp := resp) (TVListServers id2 ownerToken) ;;
          match rs with TvOk l => Ret (CustomURLPresent l resourceID (publicHost PublicURL)) | _ => Ret false end
      | _ => Ret false
      end.

(** The report, and the error that goes with it. *)
Definition finish_verify (serverID : nat) (internalURL pmsToken ownerToken resourceID machineID media : string)
    (originID proxiedID : PMSIdentity) (resources : list Resource) : code (option VerifyReport * option string) :=
  let report st present :=
    mkReport st (MachineIdentifier originID) resourceID (MachineIdentifier proxiedID)
      (TripleMatch (MachineIdentifier originID) resourceID (MachineIdentifier proxiedID) && (MachineIdentifier originID =s machineID))
      present media in
  let present := CustomURLPresent resources resourceID (publicHost PublicURL) in
  if negb (Match (report StageVerified present)) then Ret (Some (report StageSelected present), Some "onboarding: identity mismatch")
  else
    present <~ recheck internalURL pmsToken ownerToken resourceID present ;;
    if negb present then Ret (Some (report StageSelected false), Some "onboarding: Custom Server Access URL not published")
    else
      ok <~ act (resp := resp) (MarkVerified serverID) ;;
      if negb ok then Ret (None, Some "database")
      else
        ok <~ act (resp := resp) (SetSetting setVerified (MachineIdentifier originID)) ;;
        if negb ok then Ret (None, Some "settings") else Ret (Some (report StageVerified true), None).

Definition fails {A} (e : string) : code (option A * option string) := Ret (None, Some e).

Definition Verify : code (option VerifyReport * option string) :=
  sv <~ act (resp := resp) EnabledServer ;;
  match sv with
  | None => fails "onboarding: no selected server"
  | Some (serverID, s) =>
      c <~ act (resp := resp) (CredentialsOf serverID) ;;
      match c with
      | None => fails "onboarding: no owner credentials"
      | Some cr =>
          match Secrets.Decrypt open Secret PurposePMSToken (cr_pms cr), Secrets.Decrypt open Secret PurposeOwnerJWT (cr_owner cr) with
          | Ok pmsToken, Ok ownerToken =>
              o <~ act (resp := resp) (FetchIdentity (sv_internal s) pmsToken) ;;
              match o with
              | None => fails "onboarding: origin identity"
              | Some originID =>
                  e <~ EnsureIdentity ;;
                  match e with
                  | Ok clientID =>
                      rs <~ act (resp := resp) (TVListServers clientID ownerToken) ;;
                      match rs with
                      | TvOk resources =>
                          let control := if ControlBase =s "" then "http://127.0.0.1:32400" else ControlBase in
                          p <~ act (resp := resp) (FetchIdentity control pmsToken) ;;
                          match p with
                          | None => fails "onboarding: proxied identity"
                          | Some proxiedID =>
                              finish_verify serverID (sv_internal s) pmsToken ownerToken (cr_resource cr) (sv_machine s) (sv_media s)
                                originID proxiedID resources
                          end
                      | _ => fails "onboarding: resources"
                      end
                  | Err m => fails m
                  | Panic => fails ""
                  end
              end
          | _, _ => fails "onboarding: credential decrypt failed"
          end
      end
  end.

(** ** Refresh *)

Definition Day : Z := 24 * 60 * 60 * 1000000000.

Definition degraded (server : nat) : code (outcome bool) :=
  do act (resp := resp) (MarkDegraded server) ;; bad "onboarding: refresh degraded".

Definition store_refreshed (server : nat) (fresh : string) : code (outcome bool) :=
  n <~ act (resp := resp) RandomNonce ;;
  match Secrets.Encrypt seal n Secret PurposeOwnerJWT fresh with
  | Ok freshCipher =>
      ok <~ act (resp := resp) (StoreRefreshed server freshCipher) ;;
      if negb ok then bad "database"
      else
        match ParseExpiry fresh with
        | Some e => do act (resp := resp) (SetSetting setOwnerExp (Itoa e)) ;; Ret (Ok true)
        | None => Ret (Ok true)
        end
  | _ => bad "crypto: nonce"
  end.

(** From the enabled server's credential on. *)
Definition refresh_credential (server : nat) (cr : cred_row) : code (outcome bool) :=
  match Secrets.Decrypt open Secret PurposeOwnerJWT (cr_owner cr) with
  | Ok owner =>
      d <~ DeviceCredentials ;;
      match d with
      | Ok (clientID, seed, _) =>
          if negb (String.length seed =? 32)%nat then bad "onboarding: bad device seed"
          else
            n <~ act (resp := resp) (TVNonce clientID owner) ;;
            match n with
            | TvOk nonce =>
                j <~ sign clientID seed (Some nonce) ;;
                match j with
                | None => bad "plextv: sign"
                | Some deviceJWT =>
                    f <~ act (resp := resp) (RefreshToken clientID deviceJWT) ;;
                    match f with TvOk fresh => store_refreshed server fresh | _ => degraded server end
                end
            | _ => degraded server
            end
      | Err m => bad m
      | Panic => Ret Panic
      end
  | _ => bad "crypto: decrypt"
  end.

Definition RefreshOwnerJWT : code (outcome bool) :=
  mode <~ act (resp := resp) (GetSetting setAuthMode) ;;
  if default "" mode =s authModeLegacy then Ret (Ok false)
  else
    raw <~ act (resp := resp) (GetSetting setOwnerExp) ;;
    match raw ≫= Atoi with
    | None => Ret (Ok false)
    | Some expUnix =>
        now <~ act (resp := resp) Now ;;
        if Day <? expUnix * 1000000000 - now then Ret (Ok false)
        else
          c <~ act (resp := resp) EnabledCredentials ;;
          match c with None => Ret (Ok false) | Some (server, cr) => refresh_credential server cr end
    end.

Definition MarkInvalid (cause : string) : code unit := act (resp := resp) (MarkEnabledInvalid cause).

End service.

(** ** The calls *)

Inductive call :=
  | CallEnsureIdentity | CallIssuePIN | CallPollClaim | CallSubmitToken (raw : string) | CallListServers
  | CallSelect (clientIdentifier : string) | CallVerify | CallStatus | CallRefresh | CallMarkInvalid (cause : string).

Inductive reply :=
  | ReIdentity (r : outcome string) | ReIssue (r : outcome PINIssue) | ReClaim (r : outcome bool) | ReSubmit (r : outcome string)
  | ReList (r : outcome (list ServerSummary)) | ReSelect (r : outcome SelectReport) | ReVerify (r : option VerifyReport * option string)
  | ReStatus (r : StatusReport) | ReRefresh (r : outcome bool) | ReDone.

End Onboarding.
