(* ===== verification/Panels.v ===== *)
(** * The administrator's pages (internal/admin/admin.go)

    The onboarding panel and the spike matrix are written with [fmt.Fprintf]
    from templates; names that Plex reports, a message from the query
    string and recorded observations go into them.  This file has the pages
    as text and shows that nothing put into them can become markup.

    A template of the source is a raw string, which cannot contain a
    backquote: in the literals below a backquote stands for the double
    quote ([raw]). *)

From S2P Require Import Prelude GoStrings Spike Onboarding.

Module Panels.

(** ** Text *)

Definition dquote : ascii := Ascii.ascii_of_nat 34.
Definition backquote : ascii := Ascii.ascii_of_nat 96.
Fixpoint raw (s : string) : string :=
  match s with
  | EmptyString => EmptyString
  | String c r => String (if Ascii.eqb c backquote then dquote else c) (raw r)
  end.

(** [html.EscapeString] *)
Fixpoint EscapeString (s : string) : string :=
  match s with
  | EmptyString => EmptyString
  | String c r =>
      (if Ascii.eqb c "&" then "&amp;"
       else if Ascii.eqb c "'" then "&#39;"
       else if Ascii.eqb c "<" then "&lt;"
       else if Ascii.eqb c ">" then "&gt;"
       else if Ascii.eqb c dquote then "&#34;"
       else String c EmptyString) +:+ EscapeString r
  end.

(** [fmt.Sprintf] for a format whose verbs are plain and as many as the
    arguments, which are given as they print. *)
Fixpoint Sprintf (f : string) (args : list string) : string :=
  match f with
  | String "%" (String _ r) => match args with a :: args => a +:+ Sprintf r args | [] => Sprintf r [] end
  | String c r => String c (Sprintf r args)
  | EmptyString => EmptyString
  end.
Definition show_bool (b : bool) : string := if b then "true" else "false".

(** ** The onboarding panel *)

Definition panel_head : string := raw "<!doctype html><html><head><meta charset=`utf-8`><title>Replx Edge onboarding</title></head><body>
<h1>Replx Edge owner onboarding</h1>
<p>Stage: <b>%s</b></p>
<p>%s</p>
<h2>1. PIN</h2>
<form method=`post`><input type=`hidden` name=`csrf` value=`%s`><button name=`issue-pin` value=`1` type=`submit`>Issue PIN</button>
<button name=`poll-pin` value=`1` type=`submit`>Poll claim</button></form>
<h2>2. Select PMS (exactly one)</h2>
<ul>".
Definition panel_server : string := raw "<li>%s (%s) connections=%d httpsDirect=%v<br>hosts: %s
<form method=`post` style=`display:inline`><input type=`hidden` name=`csrf` value=`%s`><input type=`hidden` name=`clientIdentifier` value=`%s`>
<button name=`select` value=`1` type=`submit`>Select</button></form></li>".
Definition panel_tail : string := raw "</ul>
<h2>3. Verify identity triple-check</h2>
<form method=`post`><input type=`hidden` name=`csrf` value=`%s`><button name=`verify` value=`1` type=`submit`>Run verify</button></form>
<p>Verify proves origin root, plex.tv resource and proxied root name the same machineIdentifier, and the Custom Server Access URL is published.</p>
<h2>Backup: paste a Plex token</h2>
<p>Only if the PIN flow is unreachable. The token is validated before storage, never shown back, and treated as legacy (no refresh).</p>
<form method=`post` action=`/api/v1/onboarding/token`><input type=`hidden` name=`csrf` value=`%s`><input type=`password` name=`token` size=`52` autocomplete=`off`>
<button type=`submit`>Submit token</button></form>
</body></html>".

Definition server_args (csrf : string) (s : Onboarding.ServerSummary) : list string :=
  [EscapeString (Onboarding.SumName s); EscapeString (Onboarding.SumClient s); Itoa (Z.of_nat (Onboarding.SumConnections s));
   show_bool (Onboarding.HTTPSDirect s); EscapeString (Join (Onboarding.ConnectionHosts s) ", "); csrf;
   EscapeString (Onboarding.SumClient s)].

Fixpoint concat_all (l : list string) : string := match l with [] => "" | s :: r => s +:+ concat_all r end.

Definition onboarding_page (stage msg csrfToken : string) (servers : list Onboarding.ServerSummary) : string :=
  let csrf := EscapeString csrfToken in
  Sprintf panel_head [EscapeString stage; EscapeString msg; csrf]
  +:+ concat_all ((λ s, Sprintf panel_server (server_args csrf s)) <$> servers)
  +:+ Sprintf panel_tail [csrf; csrf].

(** ** The spike matrix *)

Definition spike_head : string := raw "<!doctype html><html><head><meta charset=`utf-8`><title>Replx Edge spike matrix</title></head><body>
<h1>P0 spike matrix</h1>
<p>Spike routing: <b>%v</b></p>
<p>%s</p>
<h2>Record observation</h2>
<form method=`post`>
<input type=`hidden` name=`csrf` value=`%s`>
platform <input name=`platform` value=`Web`> product <input name=`product` value=`Plex Web`>
version <input name=`productVersion`> playbackType <input name=`playbackType` value=`progressive`>
status <select name=`status`><option>SUPPORTED</option><option>DEGRADED</option><option>UNSUPPORTED</option><option>UNKNOWN</option><option>ADMIN_FORCED</option></select>
notes <input name=`notes` size=`60`> <button type=`submit`>Record</button></form>
<h2>Matrix</h2>
<ul>".
Definition spike_row : string := "<li>%s %s %s %s n=%d: %s</li>".
Definition spike_between : string := "</ul><h2>Recent spike traces (redacted, newest last)</h2><ul>".
Definition spike_event : string := "<li>%s %s %s %s range=%v %s</li>".
Definition spike_tail : string := "</ul></body></html>".

(** [spike.ObservationRow] *)
Record matrix_row := mkMatrix { m_observation : Spike.Observation; m_count : Z; m_updated : string }.

Definition row_args (r : matrix_row) : list string :=
  let o := m_observation r in
  [EscapeString (Spike.Platform o); EscapeString (Spike.Product o); EscapeString (Spike.PlaybackType o);
   EscapeString (Spike.Status o); Itoa (m_count r); EscapeString (Spike.Notes o)].
Definition trace_args (e : Spike.Event) : list string :=
  [EscapeString (Spike.Timestamp e); EscapeString (Spike.Method e); EscapeString (Spike.Path e); EscapeString (Spike.Decision e);
   show_bool (Spike.RangePresent e); EscapeString (Spike.RedactedLocation e)].

Definition spike_page (enabled : bool) (msg csrfToken : string) (rows : list matrix_row) (events : list Spike.Event) : string :=
  let csrf := EscapeString csrfToken in
  Sprintf spike_head [show_bool enabled; EscapeString msg; csrf]
  +:+ concat_all ((λ o, Sprintf spike_row (row_args o)) <$> rows)
  +:+ spike_between
  +:+ concat_all ((λ e, Sprintf spike_event (trace_args e)) <$> events)
  +:+ spike_tail.

(** ** Markup *)

(** The characters that open or close a tag or an attribute. *)
Definition is_markup (c : ascii) : bool := Ascii.eqb c "<" || Ascii.eqb c ">" || Ascii.eqb c dquote || Ascii.eqb c "'".
Fixpoint markup (s : string) : string :=
  match s with
  | EmptyString => EmptyString
  | String c r => if is_markup c then String c (markup r) else markup r
  end.

Lemma markup_app a b : markup (a +:+ b) = markup a +:+ markup b.
Proof. induction a as [|c a IH]; [done|]. cbn. destruct (is_markup c); [|done]. cbn. by rewrite IH. Qed.

Lemma EscapeString_plain s : markup (EscapeString s) = "".
Proof.
  induction s as [|c s IH]; [done|]. cbn [EscapeString]. rewrite markup_app, IH.
  destruct (Ascii.eqb c "&") eqn:E1; [done|]. destruct (Ascii.eqb c "'") eqn:E2; [done|]. destruct (Ascii.eqb c "<") eqn:E3; [done|].
  destruct (Ascii.eqb c ">") eqn:E4; [done|]. destruct (Ascii.eqb c dquote) eqn:E5; [done|].
  cbn [markup]. unfold is_markup. by rewrite E2, E3, E4, E5.
Qed.

Lemma show_bool_plain b : markup (show_bool b) = "".
Proof. by destruct b. Qed.

Lemma all_plain s : all_chars (λ c, negb (is_markup c)) s = true → markup s = "".
Proof. induction s as [|c s IH]; [done|]. cbn. destruct (is_markup c); [done|]. exact IH. Qed.

Lemma Itoa_plain n : markup (Itoa n) = "".
Proof. apply all_plain, Itoa_chars; [|done]. intros m Hm. unfold pretty_N_char. by repeat case_match. Qed.

Lemma Sprintf_cons_plain c r args : c ≠ "%"%char → Sprintf (String c r) args = String c (Sprintf r args).
Proof. intros Hc. cbn [Sprintf]. by destruct c as [[] [] [] [] [] [] [] []]. Qed.

(** Arguments without markup leave the markup of the format. *)
Lemma Sprintf_markup f args :
  Forall (λ a, markup a = "") args → markup (Sprintf f args) = markup (Sprintf f []).
Proof.
  remember (String.length f) as n eqn:Hn. assert (Hle : (String.length f <= n)%nat) by lia. clear Hn. revert f Hle args.
  induction n as [|n IH]; intros f Hle args Hp; (destruct f as [|c f]; [done|]); cbn [String.length] in Hle; [lia|].
  destruct (decide (c = "%"%char)) as [->|Hc].
  - destruct f as [|v f]; [done|]. cbn [String.length] in Hle. cbn [Sprintf]. destruct args as [|a args]; [done|].
    apply Forall_cons_1 in Hp as [Ha Hp]. rewrite markup_app, Ha. cbn. apply IH; [lia|done].
  - rewrite !Sprintf_cons_plain by done. cbn [markup]. rewrite (IH f) by (done || lia). done.
Qed.

Lemma markup_concat {A} (f : A → string) (t : string) l :
  (∀ x, markup (f x) = t) → markup (concat_all (f <$> l)) = concat_all (replicate (length l) t).
Proof. intros Hf. induction l as [|x l IH]; [done|]. cbn. by rewrite markup_app, Hf, IH. Qed.

(** ** The pages are inert *)

(** The tags and attributes of the pages, which only depend on how many
    servers, rows and traces there are. *)
Definition onboarding_markup (n : nat) : string :=
  markup panel_head +:+ concat_all (replicate n (markup panel_server)) +:+ markup panel_tail.
Definition spike_markup (rows events : nat) : string :=
  markup spike_head +:+ concat_all (replicate rows (markup spike_row)) +:+ markup spike_between
  +:+ concat_all (replicate events (markup spike_event)) +:+ markup spike_tail.

(** Filling in a template of the pages. *)
Lemma filled f args :
  f ∈ [panel_head; panel_server; panel_tail; spike_head; spike_row; spike_event] →
  Forall (λ a, markup a = "") args → markup (Sprintf f args) = markup f.
Proof.
  intros Hf Hp. rewrite Sprintf_markup by done. revert Hf. clear.
  rewrite !elem_of_cons. intros [->|[->|[->|[->|[->|[->|[]%elem_of_nil]]]]]]; vm_compute; reflexivity.
Qed.

#[local] Hint Resolve EscapeString_plain show_bool_plain Itoa_plain : plain.
Ltac inert := rewrite filled; [reflexivity|apply list_elem_of_In; cbn [In]; auto 10|repeat apply Forall_cons_2; auto with plain; apply Forall_nil_2].

(** C31: Nothing shown on an administrator's page becomes markup: whatever Plex
    names a server or its hosts, whatever message the address carries and
    whatever was recorded as an observation or traced, the page has exactly
    the tags, attributes and quotes of its template, once per server, row
    and trace. *)
Theorem pages_are_inert stage msg csrf servers enabled rows events :
  markup (onboarding_page stage msg csrf servers) = onboarding_markup (length servers) ∧
  markup (spike_page enabled msg csrf rows events) = spike_markup (length rows) (length events).
Proof.
  unfold onboarding_page, spike_page, onboarding_markup, spike_markup. cbv zeta. rewrite !markup_app.
  rewrite (markup_concat _ (markup panel_server)) by (intros s; unfold server_args; inert).
  rewrite (markup_concat _ (markup spike_row)) by (intros o; unfold row_args; inert).
  rewrite (markup_concat _ (markup spike_event)) by (intros e; unfold trace_args; inert).
  rewrite (filled panel_head), (filled panel_tail), (filled spike_head); [done|..];
    first [apply list_elem_of_In; cbn [In]; auto 10; fail | repeat apply Forall_cons_2; auto with plain; apply Forall_nil_2].
Qed.

End Panels.
