(* ===== verification/OnboardingSystem.v ===== *)
(** * Onboarding as a concurrent system

    The calls of Onboarding run at the same time on one database; a write may
    fail, or be done although it is reported as failed, and the process may
    stop between any two actions.  [log] keeps what plex.tv and the origin
    answered; a theorem about what is stored says which answers it rests
    on. *)

From S2P Require Import Prelude GoStrings GoHttp GoBase64 GoNet GoUrl GoCrypto Secrets Effects Threads Onboarding.

Module OnboardingSystem.
Import Onboarding.

Record world := mkWorld {
  settings : gmap string string;
  identity : option identity_row;
  servers : list server_row;
  creds : gmap nat cred_row;
  log : list (event resp);
}.

(** What the environment chooses: whether a statement works, fails, or is
    done and reported as failed, and what other systems answer. *)
Inductive fate := Works | Fails | Lost.
Record choice := mkChoice { fate_ : fate; oracle : ∀ o : op, resp o }.

Definition with_settings (w : world) (s : gmap string string) : world := mkWorld s (identity w) (servers w) (creds w) (log w).
Definition with_creds (w : world) (c : gmap nat cred_row) : world := mkWorld (settings w) (identity w) (servers w) c (log w).
Definition heard (w : world) (e : event resp) : world := mkWorld (settings w) (identity w) (servers w) (creds w) (e :: log w).

(** A write: the new world, and what is reported. *)
Definition write (f : fate) (w w' : world) : world * bool :=
  match f with Works => (w', true) | Fails => (w, false) | Lost => (w', false) end.
Definition quiet_write (f : fate) (w w' : world) : world * unit := match f with Fails => (w, tt) | _ => (w', tt) end.

Definition insert_identity (w : world) (r : identity_row) : world :=
  mkWorld (settings w) (match identity w with Some i => Some i | None => Some r end) (servers w) (creds w) (log w).

Definition disable (s : server_row) : server_row :=
  mkServerRow (sv_name s) (sv_internal s) (sv_media s) (sv_machine s) (sv_friendly s) (sv_version s) false.

(** The transaction of [SelectResource], which the advisory lock and the
    unique index on the enabled row serialise. *)
Definition select_tx (w : world) (s : selection) : option world :=
  i ← identity w;
  let servers' := disable <$> servers w in
  let sv := mkServerRow (sel_name s) (sel_internal s) (sel_media s) (MachineIdentifier (sel_identity s))
              (FriendlyName (sel_identity s)) (PMSVersion (sel_identity s)) true in
  let cr := mkCredRow (sel_account s) (sel_client s) (jwk_public i) (jwk_private_ciphertext i) (sel_owner s) (sel_pms s)
              (sel_resource s) "selected" None in
  Some (mkWorld (settings w) (identity w) (servers' ++ [sv]) (<[length servers' := cr]> (creds w)) (log w)).

(** [WHERE enabled ORDER BY created_at DESC LIMIT 1] *)
Fixpoint last_enabled (n : nat) (l : list server_row) : option (nat * server_row) :=
  match l with
  | [] => None
  | s :: r => match last_enabled (S n) r with Some x => Some x | None => if sv_enabled s then Some (n, s) else None end
  end.
Definition enabled_server (w : world) : option (nat * server_row) := last_enabled 0 (servers w).

Definition set_status (status : string) (error : option string) (c : cred_row) : cred_row :=
  mkCredRow (cr_account c) (cr_client c) (cr_jwk c) (cr_jwk_private c) (cr_owner c) (cr_pms c) (cr_resource c) status error.
Definition set_refreshed (cipher : string) (c : cred_row) : cred_row :=
  mkCredRow (cr_account c) (cr_client c) (cr_jwk c) (cr_jwk_private c) cipher (cr_pms c) (cr_resource c) "verified" None.
Definition on_enabled (w : world) (f : cred_row → cred_row) : gmap nat cred_row :=
  match enabled_server w with Some (n, _) => alter f n (creds w) | None => creds w end.

(** An answer of another system, which is remembered. *)
Definition answer (c : choice) (w : world) (o : op) : option (world * resp o) :=
  Some (heard w (Ev o (oracle c o)), oracle c o).

Definition exec (c : choice) (w : world) (o : op) : option (world * resp o) :=
  match o as o return option (world * resp o) with
  | SelectIdentity => Some (w, match fate_ c with Works => match identity w with Some i => Row i | None => NoRow end | _ => Broken end)
  | InsertIdentity r => Some (write (fate_ c) w (insert_identity w r))
  | GetSetting k => Some (w, match fate_ c with Works => settings w !! k | _ => None end)
  | SetSetting k v => Some (write (fate_ c) w (with_settings w (<[k := v]> (settings w))))
  | DelSetting k => Some (quiet_write (fate_ c) w (with_settings w (delete k (settings w))))
  | SelectServer s => match select_tx w s with Some w' => Some (write (fate_ c) w w') | None => Some (w, false) end
  | EnabledServer => Some (w, match fate_ c with Works => enabled_server w | _ => None end)
  | CredentialsOf n => Some (w, match fate_ c with Works => creds w !! n | _ => None end)
  | EnabledCredentials =>
      Some (w, match fate_ c with Works => '(n, _) ← enabled_server w; cr ← creds w !! n; Some (n, cr) | _ => None end)
  | MarkVerified n => Some (write (fate_ c) w (with_creds w (alter (λ r, set_status "verified" (cr_error r) r) n (creds w))))
  | StoreRefreshed n cipher => Some (write (fate_ c) w (with_creds w (alter (set_refreshed cipher) n (creds w))))
  | MarkDegraded n => Some (quiet_write (fate_ c) w (with_creds w (alter (set_status "auth_degraded" (Some "refresh failed")) n (creds w))))
  | MarkEnabledInvalid cause => Some (quiet_write (fate_ c) w (with_creds w (on_enabled w (set_status "invalid" (Some cause)))))
  | RandomNonce =>
      match oracle c RandomNonce with
      | Some n => if (String.length n =? Secrets.NonceSize)%nat then answer c w RandomNonce else None
      | None => answer c w RandomNonce
      end
  | o => answer c w o
  end.

(** A new installation. *)
Definition boot (w : world) : Prop := w = mkWorld ∅ None [] ∅ [].

Section system.
Context (seal : list Z → string → string → string) (open : list Z → string → string → option string).
Context `{Haead : !Secrets.AEAD seal open}.
Context (claims_exp : string → option Z).
Context (Secret PublicURL InternalURL ControlBase : string).

Definition program (k : call) : code reply :=
  match k with
  | CallEnsureIdentity => r <~ EnsureIdentity seal Secret ;; Ret (ReIdentity r)
  | CallIssuePIN => r <~ IssuePIN seal open Secret ;; Ret (ReIssue r)
  | CallPollClaim => r <~ PollClaim seal open claims_exp Secret ;; Ret (ReClaim r)
  | CallSubmitToken raw => r <~ SubmitToken seal claims_exp Secret raw ;; Ret (ReSubmit r)
  | CallListServers => r <~ ListServers seal open Secret ;; Ret (ReList r)
  | CallSelect c => r <~ SelectResource seal open Secret PublicURL InternalURL c ;; Ret (ReSelect r)
  | CallVerify => r <~ Verify seal open Secret PublicURL ControlBase ;; Ret (ReVerify r)
  | CallStatus => r <~ Status open Secret ;; Ret (ReStatus r)
  | CallRefresh => r <~ RefreshOwnerJWT seal open claims_exp Secret ;; Ret (ReRefresh r)
  | CallMarkInvalid cause => do MarkInvalid cause ;; Ret ReDone
  end.

Definition reached := Threads.reached program exec boot (λ w, w).

(** ** What stored state rests on *)

Definition control : string := if ControlBase =s "" then "http://127.0.0.1:32400" else ControlBase.

(** The server row, whether it is still enabled or not. *)
Definition same_server (s t : server_row) : Prop := disable s = disable t.
Definition served (w : world) (n : nat) (s : server_row) : Prop := ∃ t, servers w !! n = Some t ∧ same_server s t.

(** [E] are the answers that are known. *)
Definition triple_checked (E : event resp → Prop) (s : server_row) : Prop :=
  sv_machine s ≠ "" ∧ ∃ tok cid owner o p rs,
    E (Ev (FetchIdentity (sv_internal s) tok) (Some o)) ∧ MachineIdentifier o = sv_machine s ∧
    E (Ev (FetchIdentity control tok) (Some p)) ∧ MachineIdentifier p = sv_machine s ∧
    E (Ev (TVListServers cid owner) (TvOk rs)) ∧ CustomURLPresent rs (sv_machine s) (publicHost PublicURL) = true.
Definition checked (w : world) (machine : string) : Prop :=
  ∃ n s, served w n s ∧ sv_machine s = machine ∧ triple_checked (λ e, e ∈ log w) s.

(** A ciphertext of the owner's token, and where the token came from. *)
Definition sealed (purpose token cipher : string) : Prop :=
  ∃ nonce, String.length nonce = Secrets.NonceSize ∧ Secrets.Encrypt seal (Some nonce) Secret purpose token = Ok cipher.
Definition accepted (E : event resp → Prop) (token : string) : Prop := ∃ cid u, E (Ev (GetUser cid token) (TvOk u)).
Definition issued (E : event resp → Prop) (token : string) : Prop := ∃ cid jwt, E (Ev (RefreshToken cid jwt) (TvOk token)).
Definition owner_cipher (E : event resp → Prop) (cipher : string) : Prop :=
  ∃ token, sealed PurposeOwnerJWT token cipher ∧ (accepted E token ∨ issued E token).
Definition pending_value (E : event resp → Prop) (v : string) : Prop :=
  ∃ token ct, v = EncodePadded64 std_alphabet ct ∧ sealed PurposeOwnerJWT token ct ∧ accepted E token.

(** A media origin that may be chosen from a resource. *)
Definition media_candidate (r : Resource) (media : string) : Prop :=
  ∃ c u, c ∈ Connections r ∧ EqualFold (Protocol c) "https" = true ∧ Relay c = false ∧ Local_ c = false ∧
    Parse (URI c) = Some u ∧ Host u ≠ "" ∧ (publicHost PublicURL ≠ "" → EqualFold (Hostname u) (publicHost PublicURL) = false) ∧
    media = TrimSuffix (URI c) "/".

(** A server that may be bound: plex.tv lists it for an owner whose token it
    accepted, and the internal origin itself says it is that machine. *)
Definition bound (E : event resp → Prop) (internal media machine pms : string) : Prop :=
  internal = InternalURL ∧ ∃ cid owner u rs r o,
    E (Ev (GetUser cid owner) (TvOk u)) ∧ E (Ev (TVListServers cid owner) (TvOk rs)) ∧ r ∈ rs ∧
    ClientIdentifier r = machine ∧ AccessToken r ≠ "" ∧ sealed PurposePMSToken (AccessToken r) pms ∧
    E (Ev (FetchIdentity InternalURL (AccessToken r)) (Some o)) ∧ MachineIdentifier o = machine ∧ media_candidate r media.

Record invariant (w : world) : Prop := mkInvariant {
  verified_checked : ∀ m, settings w !! setVerified = Some m → checked w m;
  pending_accepted : ∀ v, settings w !! setOwnerToken = Some v → pending_value (λ e, e ∈ log w) v;
  one_enabled : ∀ i j s t, servers w !! i = Some s → servers w !! j = Some t → sv_enabled s = true → sv_enabled t = true → i = j;
  creds_bound : ∀ n cr, creds w !! n = Some cr →
    ∃ s, servers w !! n = Some s ∧ cr_resource cr = sv_machine s ∧ owner_cipher (λ e, e ∈ log w) (cr_owner cr) ∧
         bound (λ e, e ∈ log w) (sv_internal s) (sv_media s) (sv_machine s) (cr_pms cr);
  servers_have_creds : ∀ n s, servers w !! n = Some s → is_Some (creds w !! n);
}.

(** ** What a call knows and may do *)

(** The answers of other systems, which [log] keeps. *)
Definition external (o : op) : bool :=
  match o with
  | GetUser _ _ | TVListServers _ _ | FetchIdentity _ _ | RefreshToken _ _ => true
  | _ => false
  end.

Definition fact (w : world) (e : event resp) (h : list (event resp)) : Prop :=
  (external (op_of e) = true → e ∈ log w) ∧
  match e with
  | Ev o r =>
      match o as o return resp o → Prop with
      | SelectIdentity => λ r, match r with Row i => identity w = Some i | _ => True end
      | EnabledServer => λ r, match r with Some (n, s) => served w n s | None => True end
      | GetSetting k => λ r, match r with Some m => k = setVerified → checked w m | None => True end
      | SelectServer s => λ r,
          if r then ∃ n t, servers w !! n = Some t ∧ sv_machine t = MachineIdentifier (sel_identity s) ∧ sv_media t = sel_media s else True
      | RandomNonce => λ r, match r with Some n => String.length n = Secrets.NonceSize | None => True end
      | _ => λ _, True
      end r
  end.

Definition K (k : call) (h : list (event resp)) (o : op) : Prop :=
  match o with
  | SetSetting key v =>
      (key = setVerified → ∃ n s, Ev EnabledServer (Some (n, s)) ∈ h ∧ sv_machine s = v ∧ triple_checked (λ e, e ∈ h) s) ∧
      (key = setOwnerToken → ∃ token ct n, v = EncodePadded64 std_alphabet ct ∧ Ev RandomNonce (Some n) ∈ h ∧
         Secrets.Encrypt seal (Some n) Secret PurposeOwnerJWT token = Ok ct ∧ accepted (λ e, e ∈ h) token)
  | SelectServer s =>
      sel_resource s = MachineIdentifier (sel_identity s) ∧
      ∃ token n1 n2 r cid u rs, Ev RandomNonce (Some n1) ∈ h ∧ Ev RandomNonce (Some n2) ∈ h ∧
        Secrets.Encrypt seal (Some n1) Secret PurposePMSToken (AccessToken r) = Ok (sel_pms s) ∧
        Secrets.Encrypt seal (Some n2) Secret PurposeOwnerJWT token = Ok (sel_owner s) ∧
        sel_internal s = InternalURL ∧ Ev (GetUser cid token) (TvOk u) ∈ h ∧ Ev (TVListServers cid token) (TvOk rs) ∈ h ∧
        r ∈ rs ∧ ClientIdentifier r = MachineIdentifier (sel_identity s) ∧ AccessToken r ≠ "" ∧
        Ev (FetchIdentity InternalURL (AccessToken r)) (Some (sel_identity s)) ∈ h ∧ media_candidate r (sel_media s)
  | StoreRefreshed n cipher =>
      ∃ token m, Ev RandomNonce (Some m) ∈ h ∧ Secrets.Encrypt seal (Some m) Secret PurposeOwnerJWT token = Ok cipher ∧
        issued (λ e, e ∈ h) token
  | _ => True
  end.

Definition Q (k : call) (h : list (event resp)) (a : reply) : Prop :=
  match a with
  | ReIdentity (Ok c) => ∃ i, Ev SelectIdentity (Row i) ∈ h ∧ client_identifier i = c
  | ReStatus st =>
      stage st = StageVerified → ∃ n s, Ev EnabledServer (Some (n, s)) ∈ h ∧ Ev (GetSetting setVerified) (Some (sv_machine s)) ∈ h ∧
        machineIdentifier st = Some (sv_machine s)
  | ReSelect (Ok r) => ∃ s, Ev (SelectServer s) true ∈ h ∧ SelMachine r = MachineIdentifier (sel_identity s) ∧ SelMedia r = sel_media s
  | ReVerify (Some r, None) => ∃ n s, Ev EnabledServer (Some (n, s)) ∈ h ∧ triple_checked (λ e, e ∈ h) s ∧ RepStage r = StageVerified
  | _ => True
  end.

(** ** The programs meet their guards *)

Definition safe {A} (k : call) (p : code A) (h : list (event resp)) (S : list (event resp) → A → Prop) : Prop :=
  always (K k) p h (λ h' a, ext h h' ∧ S h' a).

Lemma safe_ret {A} k (a : A) h (S : list (event resp) → A → Prop) : S h a → safe k (Ret a) h S.
Proof. intros H. split; [reflexivity|done]. Qed.

Lemma safe_act {A} k o (f : resp o → code A) h S :
  K k h o → (∀ x, safe k (f x) (Ev o x :: h) S) → safe k (pbind (act (resp := resp) o) f) h S.
Proof.
  intros HK Hf. unfold safe. cbn [pbind act always]. split; [done|]. intros x. eapply always_mono; [done| |apply Hf].
  cbn. intros h' a [He HS]. split; [|done]. etransitivity; [apply ext_cons|done].
Qed.

Lemma safe_after {A B} k (p : code A) (f : A → code B) h R S :
  safe k p h R → (∀ h' a, ext h h' → R h' a → safe k (f a) h' S) → safe k (pbind p f) h S.
Proof.
  intros Hp Hf. apply always_bind. eapply always_mono; [done| |exact Hp]. cbn. intros h' a [He HR].
  eapply always_mono; [done| |by apply Hf]. cbn. intros h2 b [He2 HS]. split; [by etransitivity|done].
Qed.

Lemma safe_mono {A} k (p : code A) h (R S : list (event resp) → A → Prop) : (∀ h' a, ext h h' → R h' a → S h' a) → safe k p h R → safe k p h S.
Proof. intros HR. apply always_mono; [done|]. intros h' a [He Ha]. split; [done|]. by apply HR. Qed.

Lemma K_setting k h key v : key ≠ setVerified → key ≠ setOwnerToken → K k h (SetSetting key v).
Proof. intros H1 H2. by split; intros E. Qed.

Ltac plain := first [exact I | by apply K_setting].
Ltac perform := apply safe_act; [plain|intros ?x].
Ltac finish := apply safe_ret; try done.

Lemma EnsureIdentity_safe k h :
  safe k (EnsureIdentity seal Secret) h (λ h' r, ∀ c, r = Ok c → ∃ i, Ev SelectIdentity (Row i) ∈ h' ∧ client_identifier i = c).
Proof.
  unfold EnsureIdentity, bad. perform. destruct x as [|i|]; [| |by finish].
  - perform. destruct x as [[[id seed] pub]|]; [|by finish]. perform.
    destruct (Secrets.Encrypt seal x Secret PurposeDeviceKey seed); [|by finish..]. perform.
    destruct x0; [|by finish]. cbn [negb]. perform. destruct x0 as [|i|]; [by finish| |by finish].
    finish. intros c [= <-]. exists i. split; [left|done].
  - finish. intros c [= <-]. exists i. split; [left|done].
Qed.

Lemma credentials_of_safe k h i : safe k (credentials_of open Secret i) h (λ _ _, True).
Proof. unfold credentials_of, bad. destruct (Secrets.Decrypt _ _ _ _); by finish. Qed.

Lemma DeviceCredentials_safe k h : safe k (DeviceCredentials seal open Secret) h (λ _ _, True).
Proof.
  unfold DeviceCredentials, bad. perform. destruct x as [|i|]; [|apply credentials_of_safe|by finish].
  eapply safe_after; [apply EnsureIdentity_safe|]. intros h' [c|m|] _ _; [|by finish..]. perform.
  destruct x as [|i|]; [by finish|apply credentials_of_safe|by finish].
Qed.

Lemma IssuePIN_safe k h : safe k (IssuePIN seal open Secret) h (λ _ _, True).
Proof.
  assert (Hs : ∀ h id p mode, safe k (store_pin id p mode) h (λ _ _, True)).
  { intros h0 id p mode. unfold store_pin, bad. perform. destruct x; [|by finish]. cbn [negb]. do 2 perform. destruct x0; [|by finish].
    cbn [negb]. perform. destruct x0; by finish. }
  unfold IssuePIN, bad. eapply safe_after; [apply DeviceCredentials_safe|]. intros h' [[[id seed] jwk]|m|] _ _; [|by finish..].
  perform. destruct x; [apply Hs| |]; (destruct (negb _); [by finish|]); perform; destruct x; try (by finish); apply Hs.
Qed.

Lemma pollByMode_safe k h pinID mode clientID seed : safe k (pollByMode pinID mode clientID seed) h (λ _ _, True).
Proof.
  assert (Hl : ∀ h, safe k (poll_legacy clientID pinID) h (λ _ _, True)).
  { intros h0. unfold poll_legacy, bad. perform. destruct x; by finish. }
  unfold pollByMode, bad. destruct (negb _); [|apply Hl]. unfold sign. destruct (negb _); [by finish|].
  perform. destruct x as [jwt|]; [|by finish]. perform. destruct x; [by finish| |]; (destruct (negb _); [by finish|]); perform; apply Hl.
Qed.

Lemma store_expiry_safe k h token : safe k (store_expiry claims_exp token) h (λ _ _, True).
Proof. unfold store_expiry. destruct (ParseExpiry claims_exp token); [perform; by finish|]. perform. by finish. Qed.

(** A token that plex.tv accepted may be stored. *)
Lemma store_token_safe k h token :
  accepted (λ e, e ∈ h) token → safe k (store_token seal claims_exp Secret token) h (λ _ _, True).
Proof.
  intros (cid & u & Hu). unfold store_token, bad. perform.
  destruct (Secrets.Encrypt seal x Secret PurposeOwnerJWT token) as [ct| |] eqn:E; [|by finish..].
  destruct x as [n|]; [|done].
  eapply safe_after; [apply store_expiry_safe|]. intros h' _ He _. apply safe_act.
  { split; [done|]. intros _. exists token, ct, n. split; [done|]. split; [eapply ext_in; [done|left]|]. split; [done|].
    exists cid, u. eapply ext_in; [done|by right]. }
  intros x. destruct x; [|by finish]. cbn [negb]. do 3 perform. by finish.
Qed.

Lemma PollClaim_safe k h : safe k (PollClaim seal open claims_exp Secret) h (λ _ _, True).
Proof.
  unfold PollClaim, bad. perform. destruct x as [raw|]; [|by finish]. destruct (Atoi raw) as [pinID|]; [|by finish].
  eapply safe_after; [apply DeviceCredentials_safe|]. intros h1 [[[cid seed] jwk]|m|] _ _; [|by finish..]. perform.
  eapply safe_after; [apply pollByMode_safe|]. intros h2 [token|m|] _ _; [|by finish..]. destruct (token =s ""); [by finish|].
  perform. destruct x0 as [u|c|]; [|by finish..]. eapply safe_after; [apply store_token_safe; exists cid, u; left|].
  intros h3 [[]|m|] _ _; by finish.
Qed.

Lemma SubmitToken_safe k h raw : safe k (SubmitToken seal claims_exp Secret raw) h (λ _ _, True).
Proof.
  unfold SubmitToken, bad. destruct (_ <? _)%nat; [by finish|]. eapply safe_after; [apply EnsureIdentity_safe|].
  intros h1 [cid|m|] _ _; [|by finish..]. perform. destruct x as [u|c|]; [|by finish..].
  eapply safe_after; [apply store_token_safe; exists cid, u; left|]. intros h2 [[]|m|] _ _; [|by finish..]. perform. by finish.
Qed.

Lemma pendingOwnerToken_safe k h : safe k (pendingOwnerToken open Secret) h (λ _ _, True).
Proof. unfold pendingOwnerToken. perform. by finish. Qed.

Lemma ownerTokenForAdmin_safe k h : safe k (ownerTokenForAdmin open Secret) h (λ _ _, True).
Proof.
  unfold ownerTokenForAdmin. eapply safe_after; [apply pendingOwnerToken_safe|]. intros h' [t|] _ _; [by finish|]. perform. by finish.
Qed.

Lemma ListServers_safe k h : safe k (ListServers seal open Secret) h (λ _ _, True).
Proof.
  unfold ListServers, bad. eapply safe_after; [apply ownerTokenForAdmin_safe|]. intros h1 [t|] _ _; [|by finish].
  eapply safe_after; [apply EnsureIdentity_safe|]. intros h2 [cid|m|] _ _; [|by finish..]. perform. destruct x; by finish.
Qed.

Lemma candidate_media r c u :
  c ∈ Connections r → candidate (publicHost PublicURL) c = Some u → media_candidate r (TrimSuffix (URI c) "/").
Proof.
  intros Hc E. unfold candidate in E. destruct (_ || _ || _ || _) eqn:E1; [done|].
  apply orb_false_elim in E1 as [[[E1%negb_false_iff E2]%orb_false_elim E3]%orb_false_elim _].
  destruct (Parse (URI c)) as [v|] eqn:EP; [|done]. cbn [mbind option_bind] in E.
  destruct (String.eqb_spec (Host v) "") as [|Hh]; [done|].
  destruct (negb _ && _) eqn:E4; [done|]. injection E as ->. exists c, u. split_and!; try done.
  intros Hp. apply String.eqb_neq in Hp. by rewrite Hp in E4.
Qed.

Lemma select_from_safe k r conns fallback h :
  (∀ c, c ∈ conns → c ∈ Connections r) → (fallback = "" ∨ media_candidate r fallback) →
  safe k (select_from (publicHost PublicURL) fallback conns) h (λ _ m, ∀ media, m = Ok media → media_candidate r media).
Proof.
  revert fallback h. induction conns as [|c conns IH]; intros fallback h Hc Hf; cbn [select_from].
  - unfold bad. destruct (String.eqb_spec fallback "") as [|Hn]; [by finish|]. cbn [negb]. finish.
    intros media [= <-]. by destruct Hf.
  - assert (Hc' : ∀ c', c' ∈ conns → c' ∈ Connections r) by (intros; apply Hc; by right).
    destruct (candidate (publicHost PublicURL) c) as [u|] eqn:E; [|by apply IH].
    assert (Hm : media_candidate r (TrimSuffix (URI c) "/")) by (eapply candidate_media; [apply Hc; left|done]).
    eapply (safe_after k _ _ _ (λ _ _, True)).
    + unfold resolveGlobal. destruct (ParseIP _); [by finish|]. perform. by finish.
    + intros h' [[] unknown] _ _; [by finish; intros ? [= <-]|]. apply IH; [done|].
      destruct (unknown && _); [by right|done].
Qed.

Lemma bind_server_safe k h token cid user r rs :
  Ev (GetUser cid token) (TvOk user) ∈ h → Ev (TVListServers cid token) (TvOk rs) ∈ h → r ∈ rs →
  safe k (bind_server seal Secret PublicURL InternalURL token cid user r) h
    (λ h' a, ∀ rep, a = Ok rep → ∃ s, Ev (SelectServer s) true ∈ h' ∧ SelMachine rep = MachineIdentifier (sel_identity s) ∧ SelMedia rep = sel_media s).
Proof.
  intros Hu Hl Hr. unfold bind_server, bad. destruct (String.eqb_spec (AccessToken r) "") as [|Ht]; [by finish|]. perform.
  destruct x as [o|]; [|by finish]. destruct (String.eqb_spec (MachineIdentifier o) (ClientIdentifier r)) as [Eo|]; [|by finish].
  cbn [negb]. eapply safe_after; [apply (select_from_safe k r); [done|by left]|]. intros h1 [media|m|] He1 Hm; [|by finish..].
  specialize (Hm _ eq_refl). perform.
  destruct (Secrets.Encrypt seal x Secret PurposePMSToken (AccessToken r)) as [pc| |] eqn:E1; [|by finish..].
  destruct x as [n1|]; [|done]. perform.
  destruct (Secrets.Encrypt seal x Secret PurposeOwnerJWT token) as [oc| |] eqn:E2; [|by finish..].
  destruct x as [n2|]; [|done]. apply safe_act.
  { split; [cbn; congruence|]. exists token, n1, n2, r, cid, user, rs. cbn [sel_pms sel_owner sel_internal sel_identity sel_media].
    assert (Hin : ∀ e, e ∈ h → e ∈ Ev RandomNonce (Some n2) :: Ev RandomNonce (Some n1) :: h1).
    { intros e Hx. do 2 right. eapply ext_in; [done|by right]. }
    split_and!; try done; [right; left|left|by apply Hin|by apply Hin|]. do 2 right. eapply ext_in; [done|left]. }
  intros x. destruct x; [|by finish]. cbn [negb]. do 2 perform. finish. intros rep [= <-]. eexists. split; [do 2 right; left|]. done.
Qed.

Lemma SelectResource_safe k h c :
  safe k (SelectResource seal open Secret PublicURL InternalURL c) h
    (λ h' a, ∀ rep, a = Ok rep → ∃ s, Ev (SelectServer s) true ∈ h' ∧ SelMachine rep = MachineIdentifier (sel_identity s) ∧ SelMedia rep = sel_media s).
Proof.
  unfold SelectResource, bad. eapply safe_after; [apply ownerTokenForAdmin_safe|]. intros h1 [t|] _ _; [|by finish].
  eapply safe_after; [apply EnsureIdentity_safe|]. intros h2 [cid|m|] _ _; [|by finish..]. perform.
  destruct x as [u|e|]; [|by finish..]. perform. destruct x as [rs|e|]; [|by finish..].
  destruct (find _ rs) as [r|] eqn:Ef; [|by finish]. apply find_some in Ef as [Hr%list_elem_of_In _].
  apply (bind_server_safe _ _ _ _ _ _ rs); [by right; left|left|done].
Qed.

Lemma Status_safe k h :
  safe k (Status open Secret) h (λ h' st, stage st = StageVerified → ∃ n s, Ev EnabledServer (Some (n, s)) ∈ h' ∧
    Ev (GetSetting setVerified) (Some (sv_machine s)) ∈ h' ∧ machineIdentifier st = Some (sv_machine s)).
Proof.
  unfold Status. do 2 perform. eapply (safe_after k _ _ _ (λ _ _, True)); [destruct x0; [perform|]; by finish|]. intros h1 c _ _.
  eapply safe_after; [apply pendingOwnerToken_safe|]. intros h2 tok _ _. do 2 perform. cbv zeta. finish. cbn [stage machineIdentifier].
  destruct x1 as [[n s]|]; destruct x2 as [v|].
  - destruct (String.eqb_spec v (sv_machine s)) as [->|]; cbn [andb]; [|done]. destruct (negb _); [|done]. intros _.
    exists n, s. split_and!; [right; left|left|done].
  - done.
  - rewrite andb_comm. cbn. destruct tok, x0; done.
  - destruct tok, x0; done.
Qed.

Lemma TripleMatch_eq o r p : TripleMatch o r p = true → o ≠ "" ∧ r = o ∧ p = o.
Proof.
  unfold TripleMatch. rewrite !andb_true_iff, negb_true_iff, String.eqb_neq, !String.eqb_eq. intros [[H1 <-] <-]. done.
Qed.

Lemma recheck_safe k h internal pms owner cid rs resource :
  Ev (TVListServers cid owner) (TvOk rs) ∈ h →
  safe k (recheck seal Secret PublicURL internal pms owner resource (CustomURLPresent rs resource (publicHost PublicURL))) h
    (λ h' present, present = true → ∃ cid rs', Ev (TVListServers cid owner) (TvOk rs') ∈ h' ∧
       CustomURLPresent rs' resource (publicHost PublicURL) = true).
Proof.
  intros Hl. unfold recheck. destruct (CustomURLPresent rs resource (publicHost PublicURL)) eqn:E; [by finish; intros _; exists cid, rs|].
  destruct (PublicURL =s ""); [by finish|]. eapply (safe_after k _ _ _ (λ _ _, True)).
  { unfold tryConfigureCustomURL. perform. destruct x; [|by finish]. cbn [negb]. perform. by finish. }
  intros h1 [] He _; [|by finish]. cbn [negb]. eapply safe_after; [apply EnsureIdentity_safe|]. intros h2 [id2|m|] _ _; [|by finish..].
  perform. destruct x as [l|c|]; [|by finish..]. finish. intros Hc. exists id2, l. split; [left|done].
Qed.

Lemma finish_verify_safe k h n s pms owner cr cid rs o p :
  Ev EnabledServer (Some (n, s)) ∈ h → Ev (FetchIdentity (sv_internal s) pms) (Some o) ∈ h →
  Ev (FetchIdentity control pms) (Some p) ∈ h → Ev (TVListServers cid owner) (TvOk rs) ∈ h →
  safe k (finish_verify seal Secret PublicURL n (sv_internal s) pms owner (cr_resource cr) (sv_machine s) (sv_media s) o p rs) h
    (λ h' a, ∀ rep, a = (Some rep, None) → ∃ n s, Ev EnabledServer (Some (n, s)) ∈ h' ∧ triple_checked (λ e, e ∈ h') s ∧ RepStage rep = StageVerified).
Proof.
  intros Hs Ho Hp Hl. unfold finish_verify. cbv zeta. cbn [Match]. destruct (negb _) eqn:Em; [by finish|].
  apply negb_false_iff, andb_prop in Em as [(Hne & Er & Ep)%TripleMatch_eq Eo%String.eqb_eq].
  eapply safe_after; [by apply (recheck_safe _ _ _ _ _ cid)|]. intros h1 present He Hpres. destruct present; [|by finish]. cbn [negb].
  destruct (Hpres eq_refl) as (cid' & rs' & Hl' & Hc). perform. destruct x; [|by finish]. cbn [negb].
  assert (Hin : ∀ h2 e, ext h1 h2 → e ∈ h → e ∈ h2) by (intros h2 e Hx He'; eapply ext_in; [|done]; by etransitivity).
  assert (Ht : ∀ h2, ext h1 h2 → triple_checked (λ e, e ∈ h2) s).
  { intros h2 Hx. split; [congruence|]. exists pms, cid', owner, o, p, rs'. split_and!; try congruence.
    - by eapply Hin. - by eapply Hin. - by eapply ext_in. }
  assert (Hx1 : ∀ e : event resp, ext h1 (e :: h1)) by (intros; apply ext_cons).
  apply safe_act.
  { split; [|done]. intros _. exists n, s. split; [by eapply Hin|]. split; [done|]. by apply Ht. }
  intros x. destruct x; [|by finish]. cbn [negb]. finish. intros rep [= <-]. exists n, s.
  assert (Hx2 : ∀ e e' : event resp, ext h1 (e :: e' :: h1)) by (intros; apply ext_cons_r, ext_cons).
  split_and!; [by eapply Hin|by apply Ht|done].
Qed.

Lemma Verify_safe k h :
  safe k (Verify seal open Secret PublicURL ControlBase) h
    (λ h' a, ∀ rep, a = (Some rep, None) → ∃ n s, Ev EnabledServer (Some (n, s)) ∈ h' ∧ triple_checked (λ e, e ∈ h') s ∧ RepStage rep = StageVerified).
Proof.
  unfold Verify, fails. perform. destruct x as [[n s]|]; [|by finish]. perform. destruct x as [cr|]; [|by finish].
  destruct (Secrets.Decrypt open Secret PurposePMSToken (cr_pms cr)) as [pms| |]; [|by finish..].
  destruct (Secrets.Decrypt open Secret PurposeOwnerJWT (cr_owner cr)) as [owner| |]; [|by finish..]. perform.
  destruct x as [o|]; [|by finish]. eapply safe_after; [apply EnsureIdentity_safe|]. intros h1 [cid|m|] He _; [|by finish..]. perform.
  destruct x as [rs|c|]; [|by finish..]. perform. destruct x as [p|]; [|by finish].
  apply (finish_verify_safe _ _ _ _ _ _ _ cid).
  - do 2 right. eapply ext_in; [done|]. do 2 right. left.
  - do 2 right. eapply ext_in; [done|]. left.
  - left.
  - right. left.
Qed.

Lemma RefreshOwnerJWT_safe k h : safe k (RefreshOwnerJWT seal open claims_exp Secret) h (λ _ _, True).
Proof.
  assert (Hd : ∀ h n, safe k (degraded n) h (λ _ _, True)) by (intros; unfold degraded, bad; perform; by finish).
  assert (Hf : ∀ h n fresh, issued (λ e, e ∈ h) fresh → safe k (store_refreshed seal claims_exp Secret n fresh) h (λ _ _, True)).
  { intros h0 n fresh (cid & jwt & Hi). unfold store_refreshed, bad. perform.
    destruct (Secrets.Encrypt seal x Secret PurposeOwnerJWT fresh) as [ct| |] eqn:E; [|by finish..]. destruct x as [m|]; [|done].
    apply safe_act. { exists fresh, m. split; [left|]. split; [done|]. exists cid, jwt. by right. }
    intros x. destruct x; [|by finish]. cbn [negb]. destruct (ParseExpiry claims_exp fresh); [perform|]; by finish. }
  unfold RefreshOwnerJWT. perform. destruct (_ =s authModeLegacy); [by finish|]. perform.
  destruct (x0 ≫= Atoi); [|by finish]. perform. destruct (Day <? _); [by finish|]. perform. destruct x2 as [[n cr]|]; [|by finish].
  unfold refresh_credential, bad. destruct (Secrets.Decrypt _ _ _ _); [|by finish..].
  eapply safe_after; [apply DeviceCredentials_safe|]. intros h1 [[[cid seed] jwk]|m|] _ _; [|by finish..].
  destruct (negb (String.length seed =? 32)%nat) eqn:El; [by finish|]. perform. destruct x2 as [nonce|c|]; [|apply Hd..].
  unfold sign. rewrite El. perform. destruct x2 as [jwt|]; [|by finish]. perform. destruct x2 as [fresh|c|]; [|apply Hd..].
  apply Hf. exists cid, jwt. left.
Qed.

Lemma call_safe k : always (K k) (program k) [] (Q k).
Proof.
  assert (Hw : ∀ A (p : code A) (f : A → reply) R, safe k p [] R → (∀ h a, R h a → Q k h (f a)) →
    always (K k) (pbind p (λ r, Ret (f r))) [] (Q k)).
  { intros A p f R Hp HR. apply always_bind. eapply always_mono; [done| |exact Hp]. cbn. intros h' a [_ Ha]. by apply HR. }
  destruct k; cbn [program].
  - eapply Hw; [apply EnsureIdentity_safe|]. intros h [c|m|] Hr; try done. by apply Hr.
  - eapply Hw; [apply IssuePIN_safe|done].
  - eapply Hw; [apply PollClaim_safe|done].
  - eapply Hw; [apply SubmitToken_safe|done].
  - eapply Hw; [apply ListServers_safe|done].
  - eapply Hw; [apply SelectResource_safe|]. intros h [r|m|] Hr; try done. by apply Hr.
  - eapply Hw; [apply Verify_safe|]. intros h [[r|] [e|]] Hr; try done. by apply Hr.
  - eapply Hw; [apply Status_safe|done].
  - eapply Hw; [apply RefreshOwnerJWT_safe|done].
  - by split.
Qed.

(** ** The world only grows *)

Record grow (w w' : world) : Prop := mkGrow {
  grow_log : ∀ e, e ∈ log w → e ∈ log w';
  grow_identity : ∀ i, identity w = Some i → identity w' = Some i;
  grow_servers : ∀ n s, servers w !! n = Some s → ∃ t, servers w' !! n = Some t ∧ same_server s t;
}.

#[local] Instance grow_refl : Reflexive grow.
Proof. intros w. split; [done|done|]. intros n s Hs. by exists s. Qed.

Lemma same_server_fields s t :
  same_server s t → sv_internal s = sv_internal t ∧ sv_media s = sv_media t ∧ sv_machine s = sv_machine t.
Proof. unfold same_server, disable. by intros [= E1 E2 E3 E4 E5 E6]. Qed.

Lemma disable_same s : same_server s (disable s).
Proof. done. Qed.

Lemma triple_checked_mono (E E' : event resp → Prop) s : (∀ e, E e → E' e) → triple_checked E s → triple_checked E' s.
Proof.
  intros HE (Hm & tok & cid & owner & o & p & rs & H1 & H2 & H3 & H4 & H5 & H6). split; [done|].
  exists tok, cid, owner, o, p, rs. by split_and!; auto.
Qed.

Lemma served_grow w w' n s : grow w w' → served w n s → served w' n s.
Proof.
  intros Hg (t & Ht & Hs). destruct (grow_servers _ _ Hg _ _ Ht) as (t' & Ht' & Hs'). exists t'. split; [done|].
  unfold same_server in *. congruence.
Qed.

Lemma checked_grow w w' m : grow w w' → checked w m → checked w' m.
Proof.
  intros Hg (n & s & Hs & Hm & Ht). exists n, s. split; [by eapply served_grow|]. split; [done|].
  eapply triple_checked_mono; [apply (grow_log _ _ Hg)|done].
Qed.

Lemma owner_cipher_mono (E E' : event resp → Prop) c : (∀ e, E e → E' e) → owner_cipher E c → owner_cipher E' c.
Proof.
  intros HE (token & Hs & [(cid & u & Hu)|(cid & j & Hj)]); exists token; (split; [done|]); [left|right]; eexists _, _; by apply HE.
Qed.

Lemma pending_mono (E E' : event resp → Prop) v : (∀ e, E e → E' e) → pending_value E v → pending_value E' v.
Proof. intros HE (token & ct & H1 & H2 & cid & u & Hu). exists token, ct. split_and!; try done. exists cid, u. by apply HE. Qed.

Lemma bound_mono (E E' : event resp → Prop) i m mc p : (∀ e, E e → E' e) → bound E i m mc p → bound E' i m mc p.
Proof.
  intros HE (Hi & cid & owner & u & rs & r & o & H1 & H2 & H3 & H4 & H5 & H6 & H7 & H8 & H9). split; [done|].
  exists cid, owner, u, rs, r, o. by split_and!; auto.
Qed.

Lemma fact_grow w w' e h : grow w w' → fact w e h → fact w' e h.
Proof.
  intros Hg [Hx Hf]. split; [intros Ho; by apply (grow_log _ _ Hg), Hx|]. destruct e as [o x]. destruct o; try done.
  - destruct x as [|i|]; [done| |done]. by apply (grow_identity _ _ Hg).
  - destruct x as [m|]; [|done]. intros Hk. eapply checked_grow; [done|]. by apply Hf.
  - destruct x; [|done]. destruct Hf as (n & t & Ht & H1 & H2). destruct (grow_servers _ _ Hg _ _ Ht) as (t' & Ht' & Hs).
    apply same_server_fields in Hs as (_ & Hm & Hi). exists n, t'. split; [done|]. by rewrite <- Hi, <- Hm.
  - destruct x as [[n t]|]; [|done]. by eapply served_grow.
Qed.

Lemma write_cases f w w1 w' x : write f w w1 = (w', x) → w' = w ∧ x = false ∨ w' = w1.
Proof. destruct f; intros [= <- <-]; auto. Qed.
Lemma quiet_write_cases f w w1 w' x : quiet_write f w w1 = (w', x) → w' = w ∨ w' = w1.
Proof. destruct f; intros [= <- <-]; auto. Qed.

Lemma select_tx_grow w s w' : select_tx w s = Some w' → grow w w'.
Proof.
  unfold select_tx. destruct (identity w) as [i|] eqn:Ei; [|done]. cbn [mbind option_bind]. intros [= <-]. split; cbn; [done|by intros j [= <-]|].
  intros n t Ht. exists (disable t). split; [|apply disable_same]. apply lookup_app_l_Some. by rewrite list_lookup_fmap, Ht.
Qed.

(** What an action does to the world. *)
Lemma exec_cases c w o w' x :
  exec c w o = Some (w', x) →
  w' = w ∨ w' = heard w (Ev o x) ∨
  match o with
  | InsertIdentity r => w' = insert_identity w r
  | SetSetting k v => w' = with_settings w (<[k := v]> (settings w))
  | DelSetting k => w' = with_settings w (delete k (settings w))
  | SelectServer s => select_tx w s = Some w'
  | MarkVerified n => w' = with_creds w (alter (λ r, set_status "verified" (cr_error r) r) n (creds w))
  | StoreRefreshed n cipher => w' = with_creds w (alter (set_refreshed cipher) n (creds w))
  | MarkDegraded n => w' = with_creds w (alter (set_status "auth_degraded" (Some "refresh failed")) n (creds w))
  | MarkEnabledInvalid cause => w' = with_creds w (on_enabled w (set_status "invalid" (Some cause)))
  | _ => False
  end.
Proof.
  destruct o; cbn [exec]; unfold answer;
    try (intros [= <- <-]; auto; fail);
    try (intros [= E]; apply write_cases in E as [[-> _]| ->]; auto; fail);
    try (intros [= E]; apply quiet_write_cases in E as [->| ->]; auto; fail).
  - destruct (oracle c RandomNonce) as [n|] eqn:E; [destruct (_ =? _)%nat; [|done]|]; intros [= <- <-]; auto.
  - destruct (select_tx w s) as [w1|] eqn:Es; [|intros [= <- <-]; auto].
    intros [= E]. apply write_cases in E as [[-> _]| ->]; auto.
Qed.

Lemma exec_extends c w o w' x : exec c w o = Some (w', x) → grow w w'.
Proof.
  intros [->|[->|He]]%exec_cases; [reflexivity|split; cbn; [by right|done|eauto; intros n s Hs; by exists s]|].
  assert (Hsame : ∀ w1, log w1 = log w → identity w1 = identity w → servers w1 = servers w → grow w w1).
  { intros w1 E1 E2 E3. split; rewrite ?E1, ?E2, ?E3; [done|done|]. intros n s Hs. by exists s. }
  destruct o; try done; subst; try (by apply Hsame); [|by eapply select_tx_grow].
  split; cbn; [done| |]; [intros i ->; done|]. intros n s Hs. by exists s.
Qed.

Lemma fact_kept c w o w' x e h : invariant w → exec c w o = Some (w', x) → fact w e h → fact w' e h.
Proof. intros _ He. apply fact_grow. by eapply exec_extends. Qed.

(** ** The invariant *)

Lemma invariant_boot w : boot w → invariant w.
Proof. intros ->. split; cbn; [intros m E|intros v E|intros i j s t E|intros n cr E|intros n s E]; try done; by rewrite lookup_nil in E. Qed.

Lemma invariant_kept w w' :
  grow w w' → invariant w →
  (∀ m, settings w' !! setVerified = Some m → settings w !! setVerified = Some m ∨ checked w' m) →
  (∀ v, settings w' !! setOwnerToken = Some v → settings w !! setOwnerToken = Some v ∨ pending_value (λ e, e ∈ log w') v) →
  servers w' = servers w →
  (∀ n cr, creds w' !! n = Some cr → ∃ cr0, creds w !! n = Some cr0 ∧ cr_resource cr = cr_resource cr0 ∧ cr_pms cr = cr_pms cr0 ∧
     (cr_owner cr = cr_owner cr0 ∨ owner_cipher (λ e, e ∈ log w') (cr_owner cr))) →
  (∀ n, is_Some (creds w !! n) → is_Some (creds w' !! n)) → invariant w'.
Proof.
  intros Hg HI H1 H2 Hs H3 H4. split.
  - intros m [E|E]%H1; [|done]. eapply checked_grow; [done|]. by eapply verified_checked.
  - intros v [E|E]%H2; [|done]. eapply pending_mono; [apply (grow_log _ _ Hg)|]. by apply pending_accepted.
  - rewrite Hs. apply (one_enabled _ HI).
  - intros n cr (cr0 & Hc & Er & Ep & Ho)%H3. destruct (creds_bound _ HI _ _ Hc) as (s & Hn & Er0 & Ho0 & Hb).
    exists s. rewrite Hs, Er, Ep. split_and!; try done; [|by eapply bound_mono; [apply (grow_log _ _ Hg)|]].
    destruct Ho as [->|Ho]; [|done]. eapply owner_cipher_mono; [apply (grow_log _ _ Hg)|done].
  - rewrite Hs. intros n s Hn. apply H4. by apply (servers_have_creds _ HI n s).
Qed.

(** A change of the credentials of a row that keeps its resource and token. *)
Lemma invariant_alter w f n :
  invariant w →
  (∀ cr, creds w !! n = Some cr → cr_resource (f cr) = cr_resource cr ∧ cr_pms (f cr) = cr_pms cr ∧
     (cr_owner (f cr) = cr_owner cr ∨ owner_cipher (λ e, e ∈ log w) (cr_owner (f cr)))) →
  invariant (with_creds w (alter f n (creds w))).
Proof.
  intros HI Hf. apply (invariant_kept w); [split; cbn; eauto; intros m s Hs; by exists s|done|by left|by left|done| |].
  - intros m cr. cbn. destruct (decide (n = m)) as [<-|Hne].
    + rewrite lookup_alter_eq. destruct (creds w !! n) as [cr0|] eqn:E; [|done]. intros [= <-]. exists cr0. split; [done|]. by apply Hf.
    + rewrite lookup_alter_ne by done. intros E. exists cr. by split_and!; auto.
  - intros m. cbn. destruct (decide (n = m)) as [<-|Hne]; [|by rewrite lookup_alter_ne].
    rewrite lookup_alter_eq. by destruct (creds w !! n).
Qed.

Lemma fact_external w h e : facts fact w h → e ∈ h → external (op_of e) = true → e ∈ log w.
Proof. intros Hf He Hx. destruct (facts_in fact w h e Hf He) as (h' & _ & Ho & _). by apply Ho. Qed.

Lemma fact_nonce w h n : facts fact w h → Ev RandomNonce (Some n) ∈ h → String.length n = Secrets.NonceSize.
Proof. intros Hf He. destruct (facts_in fact w h _ Hf He) as (h' & _ & _ & Hn). done. Qed.

Lemma fact_server w h n s : facts fact w h → Ev EnabledServer (Some (n, s)) ∈ h → served w n s.
Proof. intros Hf He. destruct (facts_in fact w h _ Hf He) as (h' & _ & _ & Hn). done. Qed.

Lemma triple_checked_log w h s : facts fact w h → triple_checked (λ e, e ∈ h) s → triple_checked (λ e, e ∈ log w) s.
Proof.
  intros Hf (Hm & tok & cid & owner & o & p & rs & H1 & H2 & H3 & H4 & H5 & H6). split; [done|].
  exists tok, cid, owner, o, p, rs. split_and!; try done; by eapply fact_external.
Qed.

Lemma invariant_setting w k h key v :
  invariant w → facts fact w h → K k h (SetSetting key v) → invariant (with_settings w (<[key := v]> (settings w))).
Proof.
  intros HI Hf [Hv Ho]. apply (invariant_kept w); [split; cbn; eauto; intros m s Hs; by exists s|done| | |done| |done].
  - intros m. cbn. destruct (decide (key = setVerified)) as [E|Hne].
    + rewrite E, lookup_insert_eq. intros [= <-]. right. destruct (Hv E) as (n & s & Hs & Em & Ht).
      exists n, s. split; [by eapply fact_server|]. split; [done|]. by eapply triple_checked_log.
    + rewrite lookup_insert_ne by done. by left.
  - intros m. cbn. destruct (decide (key = setOwnerToken)) as [E|Hne].
    + rewrite E, lookup_insert_eq. intros [= <-]. right. destruct (Ho E) as (token & ct & n & -> & Hn & Hs & cid & u & Hu).
      exists token, ct. split; [done|]. split; [exists n; split; [by eapply fact_nonce|done]|].
      exists cid, u. by eapply fact_external.
    + rewrite lookup_insert_ne by done. by left.
  - intros n cr E. exists cr. by split_and!; auto.
Qed.

Lemma last_enabled_spec l k : match last_enabled k l with Some (n, s) => ∃ i, n = (k + i)%nat ∧ l !! i = Some s | None => True end.
Proof.
  revert k. induction l as [|s l IH]; intros k; cbn [last_enabled]; [done|]. specialize (IH (S k)).
  destruct (last_enabled (S k) l) as [[n t]|]; [destruct IH as (i & -> & Hi); exists (S i); split; [lia|done]|].
  destruct (sv_enabled s); [|done]. exists O. split; [lia|done].
Qed.

Lemma enabled_served w n s : enabled_server w = Some (n, s) → servers w !! n = Some s.
Proof. unfold enabled_server. intros E. pose proof (last_enabled_spec (servers w) 0) as Hs. rewrite E in Hs. by destruct Hs as (i & -> & Hi). Qed.

Lemma invariant_select w k h s w' :
  invariant w → facts fact w h → K k h (SelectServer s) → select_tx w s = Some w' →
  invariant w' ∧ ∃ n t, servers w' !! n = Some t ∧ sv_machine t = MachineIdentifier (sel_identity s) ∧ sv_media t = sel_media s.
Proof.
  intros HI Hf HK Hw. pose proof (select_tx_grow _ _ _ Hw) as Hg. unfold select_tx in Hw.
  destruct (identity w) as [i|] eqn:Ei; [|done]. cbn [mbind option_bind] in Hw. injection Hw as Hw.
  set (sv := mkServerRow _ _ _ _ _ _ true) in Hw. set (cr := mkCredRow _ _ _ _ _ _ _ _ _) in Hw.
  assert (Hs : servers w' = (disable <$> servers w) ++ [sv]) by (by rewrite <- Hw).
  assert (Hc : creds w' = <[length (disable <$> servers w) := cr]> (creds w)) by (by rewrite <- Hw).
  assert (Hset : settings w' = settings w) by (by rewrite <- Hw). assert (Hlog : log w' = log w) by (by rewrite <- Hw). clear Hw.
  destruct HK as (Hres & token & n1 & n2 & r & cid & u & rs & N1 & N2 & C1 & C2 & Hint & A1 & A2 & Hr & Hcl & Hat & A3 & Hm).
  assert (Hnew : servers w' !! length (disable <$> servers w) = Some sv) by (rewrite Hs; by apply list_lookup_middle).
  assert (Hold : ∀ n t, servers w' !! n = Some t → n ≠ length (disable <$> servers w) → ∃ t0, servers w !! n = Some t0 ∧ t = disable t0).
  { intros n t Hn Hne. rewrite Hs in Hn. apply lookup_app_Some in Hn as [Hn|[Hge Hn]].
    - rewrite list_lookup_fmap in Hn. destruct (servers w !! n) as [t0|]; [|done]. injection Hn as <-. by exists t0.
    - apply list_lookup_singleton_Some in Hn as [E _]. lia. }
  split.
  - split.
    + rewrite Hset. intros m Hv. eapply checked_grow; [done|]. by apply verified_checked.
    + rewrite Hset. intros v Hv. eapply pending_mono; [apply (grow_log _ _ Hg)|]. by apply pending_accepted.
    + intros a b s0 t0 Ha Hb Ea Eb. destruct (decide (a = length (disable <$> servers w))) as [->|Na];
        [|destruct (Hold _ _ Ha Na) as (? & _ & ->); done].
      destruct (decide (b = length (disable <$> servers w))) as [->|Nb]; [done|destruct (Hold _ _ Hb Nb) as (? & _ & ->); done].
    + intros n c Hn. rewrite Hc in Hn. destruct (decide (length (disable <$> servers w) = n)) as [<-|Hne].
      * rewrite lookup_insert_eq in Hn. injection Hn as <-. exists sv. split; [done|]. split; [done|]. rewrite Hlog. split.
        -- exists token. split; [exists n2; split; [by eapply fact_nonce|done]|]. left. exists cid, u. by eapply fact_external.
        -- split; [done|]. exists cid, token, u, rs, r, (sel_identity s). split_and!; try done; try (by eapply fact_external).
           exists n1. split; [by eapply fact_nonce|done].
      * rewrite lookup_insert_ne in Hn by done. destruct (creds_bound _ HI _ _ Hn) as (t & Ht & Er & Ho & Hb).
        destruct (grow_servers _ _ Hg _ _ Ht) as (t' & Ht' & (E1 & E2 & E3)%same_server_fields). exists t'.
        rewrite <- E1, <- E2, <- E3, Hlog. by split_and!.
    + intros n t Hn. rewrite Hc. destruct (decide (length (disable <$> servers w) = n)) as [<-|Hne]; [by rewrite lookup_insert_eq|].
      rewrite lookup_insert_ne by done. destruct (Hold _ _ Hn ltac:(congruence)) as (t0 & Ht0 & _). by eapply servers_have_creds.
  - by exists (length (disable <$> servers w)), sv.
Qed.

Lemma exec_ok c w k h o w' x :
  invariant w → facts fact w h → K k h o → exec c w o = Some (w', x) → invariant w' ∧ fact w' (Ev o x) h.
Proof.
  intros HI Hf HK He. pose proof (exec_extends _ _ _ _ _ He) as Hg. split.
  - destruct (exec_cases _ _ _ _ _ He) as [->|[->|Hc]]; [done| |].
    { apply (invariant_kept w); [done|done|by left|by left|done| |done]. intros n cr E. exists cr. by split_and!; auto. }
    destruct o; try done; subst.
    + apply (invariant_kept w); [done|done|by left|by left|done| |done]. intros n cr E. exists cr. by split_and!; auto.
    + by eapply invariant_setting.
    + apply (invariant_kept w); [done|done| | |done| |done]; cbn.
      * intros m [_ Hm]%lookup_delete_Some. by left.
      * intros m [_ Hm]%lookup_delete_Some. by left.
      * intros n cr E. exists cr. by split_and!; auto.
    + by eapply invariant_select.
    + apply invariant_alter; [done|]. intros cr _. by split_and!; auto.
    + apply invariant_alter; [done|]. intros cr _. destruct HK as (token & m & Hm & Hs & cid & j & Hj). split_and!; [done..|]. right.
      exists token. split; [exists m; split; [by eapply fact_nonce|done]|]. right. exists cid, j. by eapply fact_external.
    + apply invariant_alter; [done|]. intros cr _. by split_and!; auto.
    + unfold on_enabled. destruct (enabled_server w) as [[n s]|]; [|by destruct w].
      apply invariant_alter; [done|]. intros cr _. by split_and!; auto.
  - split.
    + intros Hx. destruct o; try done; cbn in He; injection He as <- <-; by left.
    + destruct o; try done; cbn in He.
      * injection He as <- <-. destruct (fate_ c); [|done..]. by destruct (identity w).
      * destruct (oracle c RandomNonce) as [n|] eqn:E; [destruct (Nat.eqb_spec (String.length n) Secrets.NonceSize); [|done]|];
          unfold answer in He; rewrite E in He; injection He as <- <-; done.
      * injection He as <- <-. destruct (fate_ c); [|done..]. destruct (settings w !! key) as [m|] eqn:E; [|done].
        intros ->. by eapply verified_checked.
      * destruct x; [|done]. destruct (select_tx w s) as [w1|] eqn:Es; [|done].
        injection He as Ew. apply write_cases in Ew as [[_ ?]| ->]; [done|]. by eapply invariant_select.
      * injection He as <- <-. destruct (fate_ c); [|done..]. destruct (enabled_server w) as [[n s]|] eqn:E; [|done].
        apply enabled_served in E. by exists s.
Qed.

Lemma reached_invariant s :
  reached s → invariant (mem s) ∧
  ∀ n k p h, pool s !! n = Some (mkThread k p h) → facts fact (mem s) h ∧ always (K k) p h (Q k).
Proof. apply (reached_safe program exec boot (λ w, w) invariant fact K Q invariant_boot (λ _ H, H) call_safe fact_kept exec_ok). Qed.

(** ** What holds in every state *)


Lemma sealed_decrypts purpose token cipher : sealed purpose token cipher → Secrets.Decrypt open Secret purpose cipher = Ok token.
Proof. intros (nonce & Hn & E). apply (Secrets.secrets_round_trip seal open). by exists nonce. Qed.


(** The installation has one identity: whatever races to create it, every
    call that returns a client identifier returns the stored one, and it is
    the same for all calls. *)
Theorem one_identity s n n' k k' h h' c c' :
  reached s → pool s !! n = Some (mkThread k (Ret (ReIdentity (Ok c))) h) →
  pool s !! n' = Some (mkThread k' (Ret (ReIdentity (Ok c'))) h') →
  c = c' ∧ ∃ i, identity (mem s) = Some i ∧ client_identifier i = c.
Proof.
  intros Hr Hn Hn'. destruct (reached_invariant s Hr) as [_ H].
  assert (Hid : ∀ n k h c, pool s !! n = Some (mkThread k (Ret (ReIdentity (Ok c))) h) →
    ∃ i, identity (mem s) = Some i ∧ client_identifier i = c).
  { intros m kk hh d Hm. destruct (H _ _ _ _ Hm) as [Hf HQ]. cbn [always Q] in HQ. destruct HQ as (i & Hi & <-).
    exists i. split; [|done]. destruct (facts_in fact _ _ _ Hf Hi) as (_ & _ & _ & He). done. }
  destruct (Hid _ _ _ _ Hn) as (i & Hi & Ec). destruct (Hid _ _ _ _ Hn') as (i' & Hi' & Ec').
  split; [congruence|]. by exists i.
Qed.

End system.

(** ** Concrete runs *)

Definition w_resource : Resource :=
  mkResource "m1" "Home" "pms-token"
    [mkConnection "https://172.17.0.7:32400" "https" true false; mkConnection "https://1.2.3.4:32400/" "https" false false;
     mkConnection "https://edge.example:443" "https" false false].
Definition w_oracle (o : op) : resp o :=
  match o as o return resp o with
  | SelectIdentity => Broken
  | GenerateIdentity => Some ("0123456789abcdef0123456789abcdef", "01234567890123456789012345678901", "pub")
  | RandomNonce => Some "123456789012"
  | InsertIdentity _ | SetSetting _ _ | SelectServer _ | MarkVerified _ | StoreRefreshed _ _ => true
  | GetSetting _ => None
  | DelSetting _ | MarkDegraded _ | MarkEnabledInvalid _ => tt
  | CreatePINJWT _ _ | CreatePIN _ => TvOk (mkPIN 7 "abcd")
  | PollPINJWT _ _ _ | PollPIN _ _ => TvOk "owner-token"
  | GetUser _ _ => TvOk (mkAccount 1 "ada")
  | TVListServers _ _ => TvOk [w_resource]
  | TVNonce _ _ => TvOk "nonce"
  | RefreshToken _ _ => TvOk "fresh"
  | Sign _ _ _ _ => Some "jwt"
  | FetchIdentity _ _ => Some (mkPMS "m1" "Home" "1.41")
  | LookupIPAddr _ => None
  | PrefsGet _ _ => true
  | PrefsPut _ _ _ => Some 200
  | EnabledServer => None
  | CredentialsOf _ => None
  | EnabledCredentials => None
  | Now => 0
  end.
Definition works : choice := mkChoice Works w_oracle.
Definition breaks : choice := mkChoice Fails w_oracle.

Definition w_program : call → code reply :=
  program Secrets.toy_seal Secrets.toy_open (λ _, None) "root" "https://edge.example" "http://pms:32400" "".
(** Two calls create the identity at the same time; then a sign-in, a
    selection, a verification and a look at the status. *)
Definition w_moves : list (move (kind := call) (choice := choice)) :=
  [Spawn CallEnsureIdentity; Spawn CallEnsureIdentity] ++ replicate 3 (Go 0 works) ++ replicate 5 (Go 1 works) ++ replicate 2 (Go 0 works) ++
  [Spawn (CallSubmitToken " owner-token ")] ++ replicate 9 (Go 2 works) ++
  [Spawn (CallSelect "m1")] ++ replicate 10 (Go 3 works) ++ [Spawn CallVerify] ++ replicate 8 (Go 4 works) ++
  [Spawn CallStatus] ++ replicate 5 (Go 5 works).
Definition w_start : state (resp := resp) (W := world) (kind := call) (A := reply) := mkState (mkWorld ∅ None [] ∅ []) [].
Definition w_end (l : list (move (kind := call) (choice := choice))) : option (state (resp := resp) (W := world) (kind := call) (A := reply)) :=
  Threads.schedule (resp := resp) (A := reply) (W := world) (kind := call) (choice := choice) w_program exec (λ w, w) w_start l.
Definition w_state := default w_start (w_end w_moves).
Definition w_own (n : nat) : list (event resp) := match pool w_state !! n with Some th => own th | None => [] end.

Lemma onboarding_reached : reached Secrets.toy_seal Secrets.toy_open (λ _, None) "root" "https://edge.example" "http://pms:32400" "" w_state.
Proof.
  apply (schedule_reached w_program exec boot (λ w, w) w_start w_moves); [by apply reached_boot|]. vm_compute. reflexivity.
Qed.

Definition w_status : StatusReport := mkStatus StageVerified (Some authModeLegacy) None (Some "m1").



(** ** What the code allows *)

(** A private address counts as reachable from outside. *)
Lemma private_media_origin :
  SelectMediaOrigin [mkConnection "https://172.17.0.7:32400" "https" false false] "edge.example" = Ret (Ok "https://172.17.0.7:32400").
Proof. vm_compute. reflexivity. Qed.

(** A new sign-in leaves the verification in place when its deletion
    fails: the failure is not noticed. *)
Definition w_reissue : list (move (kind := call) (choice := choice)) :=
  w_moves ++ [Spawn CallIssuePIN] ++ replicate 3 (Go 6 works) ++ [Go 6 breaks] ++ replicate 2 (Go 6 works) ++
  [Spawn CallStatus] ++ replicate 6 (Go 7 works).
Lemma verification_survives_new_pin :
  (λ s, (left <$> pool s !! 6%nat, left <$> pool s !! 7%nat)) <$> w_end w_reissue =
  Some (Some (Ret (ReIssue (Ok (mkIssue "https://app.plex.tv/auth#?clientID=0123456789abcdef0123456789abcdef&code=abcd&pinID=7" "abcd"
                                   StagePINIssued authModeJWT)))),
        Some (Ret (ReStatus (mkStatus StageVerified (Some authModeJWT) (Some "abcd") (Some "m1"))))).
Proof. vm_compute. reflexivity. Qed.

End OnboardingSystem.
