(* ===== verification/PlexTV.v ===== *)
(** * The clients of plex.tv and of the origin

    internal/plextv/plextv.go and jwt.go, internal/pms/machine.go and pms.go:
    which requests are sent, with which credential, and which answers count.
    JSON and XML decoding and Ed25519 are parameters. *)

From S2P Require Import Prelude GoStrings GoHttp GoBase64 GoCrypto GoNet GoUrl Routing Effects Onboarding.

Module PlexTV.
Import Routing.
Import Onboarding.

Section client.
Context (BaseURL ClientID Product Version Platform : string).

(** A request: the headers every call sends, and the body. *)
Record request := mkReq { rq_method : string; rq_url : string; rq_header : list (string * list string); rq_body : string }.

Definition newRequest (method path token : string) : request :=
  let h := HSet (HSet (HSet (HSet (HSet [] "Accept" "application/json") "X-Plex-Client-Identifier" ClientID)
                  "X-Plex-Product" Product) "X-Plex-Version" Version) "X-Plex-Platform" Platform in
  mkReq method (TrimSuffix BaseURL "/" +:+ path) (if token =s "" then h else HSet h "X-Plex-Token" token) "".
Definition with_body (r : request) (body : string) : request :=
  mkReq (rq_method r) (rq_url r) (HSet (rq_header r) "Content-Type" "application/json") body.

(** [c.do]: what [net/http] got for a request, its status checked and its
    body decoded. *)
Context (send : request → option (Z * string)).
Definition do_ {A} (decode : string → option A) (r : request) : tv A :=
  match send r with
  | None => TvError
  | Some (status, body) =>
      if (status <? 200) || (300 <=? status) then TvStatus status
      else match decode body with Some a => TvOk a | None => TvError end
  end.
(** A decoded answer that is checked. *)
Definition require {A B} (f : A → option B) (r : tv A) : tv B :=
  match r with
  | TvOk a => match f a with Some b => TvOk b | None => TvError end
  | TvStatus c => TvStatus c
  | TvError => TvError
  end.

(** The decoders of the answers' shapes. *)
Context (decode_pin : string → option PIN) (decode_user : string → option User).
Context (decode_nonce : string → option (string * string)).          (* nonce, code *)
Context (decode_tokens : string → option (option string * option string)). (* authToken, token *)
Record RawResource := mkRawResource { Provides : string; resource : Resource }.
Context (decode_resources : string → option (list RawResource)).
(** [json.Marshal] of the bodies. *)
Context (jwk_body device_body : string → string).

Definition createPIN (body : option string) : tv PIN :=
  let r := newRequest "POST" "/api/v2/pins?strong=true" "" in
  require (λ p, if (PinID p =? 0) || (Code p =s "") then None else Some p)
    (do_ decode_pin (match body with Some b => with_body r b | None => r end)).
Definition CreatePIN_ : tv PIN := createPIN None.
Definition CreatePINJWT_ (jwk : string) : tv PIN := createPIN (Some (jwk_body jwk)).

Definition Nonce (token : string) : tv string :=
  require (λ '(nonce, code), let n := if nonce =s "" then code else nonce in if n =s "" then None else Some n)
    (do_ decode_nonce (newRequest "GET" "/api/v2/auth/nonce" token)).

Definition nonempty (s : option string) : option string := t ← s; if t =s "" then None else Some t.
Definition RefreshToken_ (deviceJWT : string) : tv string :=
  require (λ '(auth, tok), match nonempty auth with Some t => Some t | None => nonempty tok end)
    (do_ decode_tokens (with_body (newRequest "POST" "/api/v2/auth/token" "") (device_body deviceJWT))).

Definition pollPIN (id : Z) (deviceJWT : string) : tv string :=
  let path := "/api/v2/pins/" +:+ Itoa id +:+ (if deviceJWT =s "" then "" else "?deviceJWT=" +:+ QueryEscape deviceJWT) in
  require (λ '(auth, _), Some (default "" auth)) (do_ decode_tokens (newRequest "GET" path "")).

Definition GetUser_ (token : string) : tv User :=
  require (λ u, if UserID u =? 0 then None else Some u) (do_ decode_user (newRequest "GET" "/api/v2/user" token)).

Definition ListServers_ (token : string) : tv (list Resource) :=
  require (λ l, Some (resource <$> filter (λ r, Contains (Provides r) "server" = true) l))
    (do_ decode_resources (newRequest "GET" "/api/v2/resources?includeHttps=1&includeRelay=1&includeIPv6=1" token)).

(** An answer is used only when it is complete: a PIN has an identifier and a
    code, an account an identifier, a token and a nonce are not empty. *)
Lemma require_ok {A B} (f : A → option B) r b : require f r = TvOk b → ∃ a, r = TvOk a ∧ f a = Some b.
Proof. destruct r as [a| |]; cbn; [|done..]. destruct (f a) eqn:E; [|done]. intros [= ->]. by exists a. Qed.

Lemma answers_complete :
  (∀ body p, createPIN body = TvOk p → PinID p ≠ 0 ∧ Code p ≠ "") ∧ (∀ t u, GetUser_ t = TvOk u → UserID u ≠ 0) ∧
  (∀ t n, Nonce t = TvOk n → n ≠ "") ∧ (∀ j t, RefreshToken_ j = TvOk t → t ≠ "").
Proof.
  split_and!.
  - intros body p (q & _ & E)%require_ok. destruct ((PinID q =? 0) || _) eqn:Eq; [done|]. injection E as <-.
    by apply orb_false_elim in Eq as [?%Z.eqb_neq ?%String.eqb_neq].
  - intros t u (v & _ & E)%require_ok. destruct (Z.eqb_spec (UserID v) 0); [done|]. by injection E as <-.
  - intros t n ([a b] & _ & E)%require_ok. cbv zeta in E. destruct (String.eqb_spec (if a =s "" then b else a) ""); [done|].
    by injection E as <-.
  - intros j t ([a b] & _ & E)%require_ok. assert (Hn : ∀ s v, nonempty s = Some v → v ≠ "").
    { intros [s|] v; [|done]. cbn. destruct (String.eqb_spec s ""); [done|]. by intros [= <-]. }
    destruct (nonempty a) eqn:Ea; [injection E as <-; by eapply Hn|by eapply Hn].
Qed.
End client.

(** The client of plex.tv has no redirect policy: [net/http]'s default
    follows up to ten redirects, to any host, and drops only the standard
    credential headers.  [sends] are the hosts that get the token. *)
Fixpoint default_do (fuel : nat) (server : list URL → URL → answer) (sent : list URL) (u : URL) : list URL * option (Z * string) :=
  let sent := sent ++ [u] in
  match server sent u with
  | NoAnswer => (sent, None)
  | Final s b => (sent, Some (s, b))
  | Redirect loc =>
      match Parse loc with
      | None => (sent, None)
      | Some l => match fuel with O => (sent, None) | S f => default_do f server sent (ResolveReference u l) end
      end
  end.

Lemma plextv_follows_anywhere :
  Host <$> (default_do 9 (λ sent u, if (length sent <? 2)%nat then Redirect "https://elsewhere.example/" else NoAnswer) []
              (mkURL "https" "" None "plex.tv" "/api/v2/user" "" false false "" "" "")).1 = ["plex.tv"; "elsewhere.example"].
Proof. vm_compute. reflexivity. Qed.

(** ** The device signature (jwt.go) *)

Section jwt.
(** [json.Marshal] of the header and of the claims, and [ed25519.Sign]. *)
Context (header_json : string → string) (claims_json : string → string → Z → string → option string → string).
Context (ed25519_sign : string → string → string).

Definition SignJWT (seed kid clientID aud : string) (nonce : option string) (now : Z) (jti : option (list Z)) : outcome string :=
  if negb (String.length seed =? 32)%nat then Err "plextv: bad device seed length"
  else match jti with
       | None => Err "rand"
       | Some b =>
           let jti := foldr (λ x acc, hex_digits 2 x acc) "" b in
           let unsigned := EncodeToString64 url_alphabet (header_json kid) +:+ "." +:+
                           EncodeToString64 url_alphabet (claims_json clientID aud now jti nonce) in
           Ok (unsigned +:+ "." +:+ EncodeToString64 url_alphabet (ed25519_sign seed unsigned))
       end.

Lemma alphabet_no_dot s : free_of "." (EncodeToString64 url_alphabet s).
Proof.
  apply EncodeToString64_chars. intros n Hn. rewrite <- (N2Nat.id n). assert (Hk : (N.to_nat n < 64)%nat) by lia.
  revert Hk. generalize (N.to_nat n). clear. intros m Hm. do 64 (destruct m as [|m]; [vm_compute; reflexivity|]). lia.
Qed.

Lemma three_parts a b c : free_of "." a → free_of "." b → free_of "." c → Split ((a +:+ String "." b) +:+ String "." c) "." = [a; b; c].
Proof.
  intros Ha Hb Hc. rewrite !sapp_assoc.
  change (Split (a +:+ String "." (b +:+ String "." c)) "." = [a; b; c]). by rewrite !Split_free_app, Split_free.
Qed.

(** A signed token has three parts, and its claims are read back from the
    middle one, so its expiry is what the claims say. *)
Theorem jwt_round_trip claims_exp seed kid clientID aud nonce now jti token :
  SignJWT seed kid clientID aud nonce now jti = Ok token →
  ∃ jti', ParseExpiry claims_exp token =
          e ← claims_exp (claims_json clientID aud now jti' nonce); if e =? 0 then None else Some e.
Proof.
  unfold SignJWT. destruct (negb _); [done|]. destruct jti as [b|]; [|done]. cbv zeta. intros [= <-].
  exists (foldr (λ x acc, hex_digits 2 x acc) "" b). unfold ParseExpiry.
  rewrite three_parts by apply alphabet_no_dot.
  by rewrite DecodeString64_EncodeToString64 by apply url_alphabet_ok.
Qed.
End jwt.

(** ** The origin's identity (internal/pms) *)

Section pms.
(** [xml.Unmarshal] and [json.Unmarshal] of a root document, and the origin,
    which sees the URLs one client has asked so far. *)
Context (decode_xml decode_json : string → option PMSIdentity).
Context (server : list URL → URL → answer).

(** [io.LimitReader] *)
Definition limited (body : string) : string := stake (Z.to_nat 1048576) body.
#[local] Opaque limited.

(** One request with the trusted client: the URLs asked, and the body of a
    successful answer, at most 1 MiB of it. *)
Definition get (base path : string) : list URL * option string :=
  match api_base base with
  | None => ([], None)
  | Some b =>
      match Parse (TrimSuffix base "/" +:+ path) with
      | None => ([], None)
      | Some u =>
          let '(sent, r) := client_do 5 b server [] u in
          (sent, '(status, body) ← r;
                 if (status <? 200) || (300 <=? status) then None else Some (limited body))
      end
  end.

Definition identified (i : option PMSIdentity) : option PMSIdentity :=
  i ← i; if MachineIdentifier i =s "" then None else Some i.

Definition fetchXML (base : string) : list URL * option PMSIdentity :=
  let '(s1, b1) := get base "/identity" in
  match b1 with
  | Some body => (s1, identified (decode_xml body))
  | None => let '(s2, b2) := get base "/" in (s1 ++ s2, identified (b2 ≫= decode_xml))
  end.
Definition fetchJSON (base : string) : list URL * option PMSIdentity :=
  let '(s1, b1) := get base "/identity" in (s1, identified (b1 ≫= decode_json)).

Definition FetchIdentity_ (base : string) : list URL * option PMSIdentity :=
  let '(s1, i1) := fetchXML base in
  match i1 with
  | Some i => (s1, Some i)
  | None => let '(s2, i2) := fetchJSON base in (s1 ++ s2, i2)
  end.

(** [Check]: any answer is healthy. *)
Definition Check_ (base : string) : string :=
  if base =s "" then "unknown"
  else match api_base base with
       | None => "unknown"
       | Some b =>
           match Parse (TrimSuffix base "/" +:+ "/identity") with
           | None => "unknown"
           | Some u =>
               match (client_do 5 b server [] u).2 with
               | Some _ => "healthy"
               | None =>
                   match Parse (TrimSuffix base "/" +:+ "/") with
                   | None => "unavailable"
                   | Some u2 => match (client_do 5 b server [] u2).2 with Some _ => "healthy" | None => "unavailable" end
                   end
               end
           end
       end.

Definition at_base (b u : URL) : Prop := EqualFold (Scheme u) (Scheme b) = true ∧ EqualFold (Host u) (Host b) = true.

Lemma get_stays_home base path b sent r :
  Parse base = Some b → get base (String "/" path) = (sent, r) → Forall (at_base b) sent ∧ (length sent <= 5)%nat.
Proof.
  intros HP. unfold get, api_base. rewrite HP. cbn [mbind option_bind].
  destruct (String.eqb_spec (Scheme b) "") as [|Hs]; [intros [= <- <-]; split; [constructor|cbn; lia]|].
  destruct (String.eqb_spec (Host b) "") as [|Hh]; [intros [= <- <-]; split; [constructor|cbn; lia]|]. cbn [orb].
  destruct (Parse (TrimSuffix base "/" +:+ String "/" path)) as [u|] eqn:Eu; [|intros [= <- <-]; split; [constructor|cbn; lia]].
  destruct (Parse_extend _ _ _ _ HP Hs Hh Eu) as (E1 & _ & E3).
  destruct (client_do_spec 5 b server [] u) as [Hf Hl]; [|cbn; lia|].
  { repeat constructor; rewrite ?E1, ?E3; apply EqualFold_refl. }
  destruct (client_do 5 b server [] u) as [s' r']. by intros [= <- _].
Qed.

(** The identity of a server is never made up and asking for it never leaks
    the token: an identity has a machine identifier that was read from a
    successful answer, and whatever the origin answers, every one of at most
    fifteen requests goes to the scheme and the host of the base. *)
Theorem identity_is_read_at_home base b :
  Parse base = Some b →
  Forall (at_base b) (FetchIdentity_ base).1 ∧ (length (FetchIdentity_ base).1 <= 15)%nat ∧
  ∀ i, (FetchIdentity_ base).2 = Some i → MachineIdentifier i ≠ "" ∧
    ∃ path body, (get base path).2 = Some body ∧ (decode_xml body = Some i ∨ decode_json body = Some i).
Proof.
  intros HP. assert (Hid : ∀ o i, identified o = Some i → MachineIdentifier i ≠ "" ∧ o = Some i).
  { intros [j|] i; [|done]. cbn. destruct (String.eqb_spec (MachineIdentifier j) ""); [done|]. by intros [= ->]. }
  unfold FetchIdentity_, fetchXML, fetchJSON. destruct (get base "/identity") as [s1 b1] eqn:E1. destruct (get base "/") as [s2 b2] eqn:E2.
  destruct (get_stays_home _ "identity" _ _ _ HP E1) as [F1 L1]. destruct (get_stays_home _ "" _ _ _ HP E2) as [F2 L2].
  destruct b1 as [body|]; [destruct (identified (decode_xml body)) as [i1|] eqn:Ei|
    destruct (identified (b2 ≫= decode_xml)) as [i1|] eqn:Ei]; cbn [fst snd]; rewrite ?Forall_app, ?length_app;
    (split; [tauto|]); (split; [lia|]); intros i E.
  - injection E as <-. destruct (Hid _ _ Ei) as [Hm Hd]. split; [done|]. exists "/identity", body. rewrite E1. auto.
  - apply Hid in E as [Hm Hd]. split; [done|]. exists "/identity", body. rewrite E1. auto.
  - injection E as <-. destruct (Hid _ _ Ei) as [Hm Hd]. split; [done|]. destruct b2 as [body|]; [|done]. exists "/", body. rewrite E2. auto.
  - done.
Qed.
End pms.

Lemma identity_is_read_at_home_witness :
  (length (FetchIdentity_ (λ b, Some (mkPMS b "" "")) (λ _, None) (λ _ _, Final 200 "m1") "http://pms:32400").1 <= 15)%nat ∧
  (FetchIdentity_ (λ b, Some (mkPMS b "" "")) (λ _, None) (λ _ _, Final 200 "m1") "http://pms:32400").2 = Some (mkPMS "m1" "" "").
Proof.
  split; [|vm_compute; reflexivity].
  apply (identity_is_read_at_home (λ b, Some (mkPMS b "" "")) (λ _, None) (λ _ _, Final 200 "m1") "http://pms:32400"
    (mkURL "http" "" None "pms:32400" "" "" false false "" "" "")). vm_compute. reflexivity.
Defined.

End PlexTV.
