(* ===== verification/SyncTables.v ===== *)
(** * The library index: tables and effects

    The tables that internal/sync keeps (migrations 0001, 0004 and 0010), and
    the monad in which its code runs: every statement may fail, or be done
    and reported as failed, and between any two steps the event stream may
    mark sections as changed.  A run that stops half way is one in which
    every later statement fails.  The rows of an item, of a library and of a
    collection that others refer to by a generated identifier are kept with
    what they belong to; generated identifiers of libraries are numbers. *)

From S2P Require Import Prelude GoStrings.

Module SyncTables.

Definition nullIfEmpty (s : string) : option string := if s =s "" then None else Some s.

(** ** Rows *)

Record stream_row := mkStreamRow {
  sr_id : option string; sr_type : Z; sr_codec : option string; sr_profile : option string; sr_language : option string;
  sr_languageCode : option string; sr_channels : option Z; sr_bitrate : option Z; sr_width : option Z; sr_height : option Z;
  sr_selected : bool; sr_forced : bool; sr_default : bool
}.
Record part_cols := mkPartCols { pc_plex : string; pc_key : option string; pc_container : option string; pc_size : option Z; pc_duration : option Z }.
Record part_row := mkPartRow { pr_cols : part_cols; pr_streams : list stream_row }.
Record media_cols := mkMediaCols {
  mc_plex : option string; mc_container : option string; mc_codec : option string; mc_profile : option string; mc_width : option Z;
  mc_height : option Z; mc_bitrate : option Z; mc_resolution : option string; mc_range : string; mc_audio : option string;
  mc_channels : option Z; mc_duration : option Z
}.
Record variant_row := mkVariantRow { vr_cols : media_cols; vr_parts : gmap nat part_row }.
Record item_cols := mkItemCols {
  ic_key : option string; ic_type : string; ic_title : option string; ic_sort : option string; ic_original : option string;
  ic_year : option Z; ic_parent : option string; ic_grandparent : option string; ic_duration : option Z; ic_thumb : option string;
  ic_art : option string; ic_added : option Z; ic_updated : option Z
}.
(** An item with the rows that belong to it and go with it. *)
Record item_row := mkItemRow {
  ir_library : nat; ir_cols : item_cols; ir_gen : option Z; ir_guids : gmap string (option string * option string);
  ir_variants : gmap nat variant_row
}.
Record library_row := mkLibrary {
  l_id : nat; l_uuid : option string; l_title : string; l_type : string; l_agent : option string; l_scanner : option string; l_updated : option Z
}.
(** [c_position] is the stored page start and generation. *)
Record cursor_row := mkCursor { c_position : option (Z * Z); c_status : string; c_error : string; c_started : option Z; c_completed : option Z }.

(** *** Collections (migration 0010) *)

Record collectionMetadata := mkMetadata {
  cm_key : string; cm_title : string; cm_titleSort : string; cm_summary : string; cm_thumb : string; cm_art : string; cm_smart : bool
}.
Record collectionMember := mkMember { me_ratingKey : string; me_type : string; me_title : string; me_thumb : string; me_art : string }.
Record member_row := mkMemberRow { mr_ratingKey : string; mr_type : string; mr_title : option string; mr_thumb : option string; mr_art : option string }.
Record snapshot := mkSnapshot {
  sn_started : Z; sn_completed : option Z; sn_count : Z; sn_hash : option string; sn_metadata : collectionMetadata; sn_members : gmap Z member_row
}.
Record collection_cols := mkCollectionCols {
  cc_key : option string; cc_title : string; cc_sort : option string; cc_summary : option string; cc_thumb : option string; cc_art : option string;
  cc_smart : bool
}.
(** A catalog entry with its snapshots by generation. *)
Record collection_row := mkCollection {
  co_server : string; co_cols : collection_cols; co_catalog : Z; co_published : option Z; co_snapshots : gmap Z snapshot
}.
Record collection_sync := mkCollectionSync { cs_catalog : Z; cs_completed : option Z; cs_error : option string; cs_pending : bool }.

Record tables := mkTables {
  libraries : gmap (string * string) library_row;            (* server, section *)
  items : gmap (string * string) item_row;                   (* server, rating key *)
  cursors : gmap (string * string * option nat) cursor_row;  (* server, type, library *)
  collections : gmap (nat * string) collection_row;          (* library, rating key *)
  collection_syncs : gmap nat collection_sync;               (* library *)
  next_library : nat;
  generation_seq : Z;
}.
Definition with_items (t : tables) (i : gmap (string * string) item_row) : tables :=
  mkTables (libraries t) i (cursors t) (collections t) (collection_syncs t) (next_library t) (generation_seq t).

(** ** The monad *)

Inductive fate := Works | Fails | Lost.
Inductive mark := MarkItems (section : string) | MarkCollections (section : string).
Record memory := mkMemory { inFlight : bool; dirty : gset string; collectionsDirty : gset string }.
(** [steps] counts the actions so far, [flushes] the invalidations of the
    response caches. *)
Record St := mkSt { db : tables; mem : memory; steps : nat; flushes : nat }.

(** [MarkDirty] and [MarkCollectionsDirty] *)
Definition add_mark (m : memory) (k : mark) : memory :=
  match k with
  | MarkItems s => if s =s "" then m else mkMemory (inFlight m) ({[s]} ∪ dirty m) (collectionsDirty m)
  | MarkCollections s => if s =s "" then m else mkMemory (inFlight m) (dirty m) ({[s]} ∪ collectionsDirty m)
  end.

Definition M (A : Type) : Type := St → St * outcome A.
Definition ret {A} (a : A) : M A := λ s, (s, Ok a).
Definition fail {A} (e : string) : M A := λ s, (s, Err e).
Definition bindM {A B} (c : M A) (f : A → M B) : M B :=
  λ s, let '(s', r) := c s in match r with Ok a => f a s' | Err e => (s', Err e) | Panic => (s', Panic) end.
(** [if err := c; err != nil { h; return err }] *)
Definition catchM {A} (c : M A) (h : string → M unit) : M A :=
  λ s, let '(s', r) := c s in match r with Err e => ((h e s').1, Err e) | _ => (s', r) end.
(** [_ = c], and a continuation that sees the error. *)
Definition tryM {A} (c : M A) : M (outcome A) :=
  λ s, let '(s', r) := c s in match r with Panic => (s', Panic) | _ => (s', Ok r) end.
Definition ignore {A} (c : M A) : M unit := bindM (tryM c) (λ _, ret tt).

(** What the environment decides at each step: the fate of a statement, the
    marks that arrive before it, the clock, whether the context has ended,
    what the origin client ([HTTPClient]) answers, the owner token, the
    enabled server, and whether the response caches can be invalidated. *)
Class Env := {
  fate_at : nat → fate; marks_at : nat → list mark; now_at : nat → Z; ended_at : nat → bool; GetJSON_at : nat → string → outcome string;
  OwnerToken_at : nat → option string; enabled_at : nat → option string; invalidate_at : nat → fate;
}.

Notation "c >>> d" := (bindM c (λ _, d)) (at level 60, right associativity).
Notation "x <-- c ; k" := (bindM c (λ x, k)) (at level 60, c at next level, right associativity).

Section env.
Context {env : Env}.

Definition tick (s : St) : St := mkSt (db s) (foldl add_mark (mem s) (marks_at (steps s))) (S (steps s)) (flushes s).
Definition set_db (s : St) (t : tables) : St := mkSt t (mem s) (steps s) (flushes s).
Definition set_mem (s : St) (m : memory) : St := mkSt (db s) m (steps s) (flushes s).

(** A statement that changes the tables; [None] is a violated constraint. *)
Definition stmt_at (f : Z → tables → option tables) : M unit := λ s,
  let s' := tick s in
  match fate_at (steps s), f (now_at (steps s)) (db s) with
  | Works, Some t => (set_db s' t, Ok tt)
  | Lost, Some t => (set_db s' t, Err "database")
  | Works, None | Lost, None => (s', Err "constraint")
  | Fails, _ => (s', Err "database")
  end.
Definition stmt (f : tables → option tables) : M unit := stmt_at (λ _, f).
Definition query {A} (f : tables → A) : M A := λ s,
  match fate_at (steps s) with Works => (tick s, Ok (f (db s))) | _ => (tick s, Err "database") end.
(** A query of one row; no row is an error. *)
Definition query_row {A} (f : tables → option A) : M A :=
  bindM (query f) (λ r, match r with Some a => ret a | None => fail "no rows in result set" end).
(** A transaction: its statements work on the tables, and an error puts
    them back; so does a commit that fails. *)
Definition transaction {A} (body : M A) : M A := λ s,
  match fate_at (steps s) with
  | Works =>
      let s1 := tick s in
      match body s1 with
      | (s2, Ok a) =>
          match fate_at (steps s2) with
          | Works => (tick s2, Ok a)
          | Lost => (tick s2, Err "database")
          | Fails => (set_db (tick s2) (db s1), Err "database")
          end
      | (s2, Err e) => (set_db s2 (db s1), Err e)
      | (s2, Panic) => (set_db s2 (db s1), Panic)
      end
  | _ => (tick s, Err "database")
  end.
Definition GetJSON (url : string) : M string := λ s, (tick s, GetJSON_at (steps s) url).
(** [w.InvalidateCollections]: the generation of a class moves. *)
Definition invalidate : M unit := λ s,
  let t := tick s in
  let t' := mkSt (db t) (mem t) (steps t) (S (flushes t)) in
  match invalidate_at (steps s) with Works => (t', Ok tt) | Lost => (t', Err "generation") | Fails => (t, Err "generation") end.
(** [ctx.Err()] *)
Definition ctx_err : M bool := λ s, (s, Ok (ended_at (steps s))).

(** [for k, x := range l] from index [k] on. *)
Fixpoint each {A} (k : nat) (l : list A) (f : nat → A → M unit) : M unit :=
  match l with [] => ret tt | x :: r => f k x >>> each (S k) r f end.

(** A section of the origin with the library row it has here. *)
Record sectionInfo := mkSectionInfo { LibraryID : nat; SectionID : string; STitle : string; MediaType : string; NeverSynced : bool }.

(** ** Reasoning about runs *)

(** A computation ends in [R], or fails in a state of [E]. *)
Definition holds {A} (m : M A) (s : St) (R : St → A → Prop) (E : St → Prop) : Prop :=
  match m s with (s', Ok a) => R s' a | (s', _) => E s' end.

Lemma holds_bind {A B} (m : M A) (f : A → M B) s R1 R E :
  holds m s R1 E → (∀ s' a, R1 s' a → holds (f a) s' R E) → holds (bindM m f) s R E.
Proof. unfold holds, bindM. intros Hm Hf. destruct (m s) as [s' [a|e|]]; [|done..]. by apply Hf. Qed.

Lemma holds_stmt f s (R : St → unit → Prop) (E : St → Prop) :
  (∀ t, f (db s) = Some t → R (set_db (tick s) t) tt ∧ E (set_db (tick s) t)) → E (tick s) → holds (stmt f) s R E.
Proof.
  intros Hf HE. unfold holds, stmt, stmt_at. destruct (f (db s)) as [t|] eqn:Ef; [destruct (Hf t eq_refl) as [H1 H2]|];
    destruct (fate_at (steps s)); done.
Qed.

Lemma holds_mono {A} (m : M A) s (R R' : St → A → Prop) (E : St → Prop) :
  holds m s R E → (∀ s' a, R s' a → R' s' a) → holds m s R' E.
Proof. unfold holds. intros Hm HR. destruct (m s) as [s' [a|e|]]; [by apply HR|done..]. Qed.

Lemma holds_each {A} (l : list A) (f : nat → A → M unit) (I : nat → St → Prop) (E : St → Prop) k s :
  I k s → (∀ i x s, l !! i = Some x → I (k + i)%nat s → holds (f (k + i)%nat x) s (λ s' _, I (S (k + i)) s') E) →
  holds (each k l f) s (λ s' _, I (k + length l)%nat s') E.
Proof.
  revert k s. induction l as [|x l IH]; intros k s Hs Hf; cbn [each length].
  - unfold holds, ret. by rewrite Nat.add_0_r.
  - apply holds_bind with (R1 := λ s' _, I (S k) s').
    + specialize (Hf O x s eq_refl). rewrite Nat.add_0_r in Hf. by apply Hf.
    + intros s' _ Hs'. cbn beta in Hs'.
      replace (k + S (length l))%nat with (S k + length l)%nat by lia. apply IH; [done|].
      intros i y s2 Hy Hi. specialize (Hf (S i) y s2 Hy). rewrite Nat.add_succ_r in Hf. by apply Hf.
Qed.

Lemma holds_ret {A} (a : A) s (R : St → A → Prop) (E : St → Prop) : R s a → holds (ret a) s R E.
Proof. done. Qed.
Lemma holds_fail {A} e s (R : St → A → Prop) (E : St → Prop) : E s → holds (fail e) s R E.
Proof. done. Qed.

Lemma holds_stmt_at f s (R : St → unit → Prop) (E : St → Prop) :
  (∀ t, f (now_at (steps s)) (db s) = Some t → R (set_db (tick s) t) tt ∧ E (set_db (tick s) t)) → E (tick s) → holds (stmt_at f) s R E.
Proof.
  intros Hf HE. unfold holds, stmt_at. destruct (f _ (db s)) as [t|] eqn:Ef; [destruct (Hf t eq_refl) as [H1 H2]|];
    destruct (fate_at (steps s)); done.
Qed.

Lemma holds_query {A} (f : tables → A) s (R : St → A → Prop) (E : St → Prop) :
  R (tick s) (f (db s)) → E (tick s) → holds (query f) s R E.
Proof. intros HR HE. unfold holds, query. by destruct (fate_at (steps s)). Qed.

Lemma holds_query_row {A} (f : tables → option A) s (R : St → A → Prop) (E : St → Prop) :
  (∀ a, f (db s) = Some a → R (tick s) a) → E (tick s) → holds (query_row f) s R E.
Proof.
  intros HR HE. apply holds_bind with (R1 := λ s' r, s' = tick s ∧ r = f (db s)); [by apply holds_query|].
  intros s' r [-> ->]. destruct (f (db s)) as [a|]; [apply holds_ret; by apply HR|by apply holds_fail].
Qed.

Lemma holds_GetJSON url s (R : St → string → Prop) (E : St → Prop) :
  (∀ raw, GetJSON_at (steps s) url = Ok raw → R (tick s) raw) → E (tick s) → holds (GetJSON url) s R E.
Proof. intros HR HE. unfold holds, GetJSON. destruct (GetJSON_at (steps s) url); auto. Qed.

(** The body's postcondition must survive the commit; on every failure the
    tables are those of the beginning. *)
Lemma holds_transaction {A} (body : M A) s (R : St → A → Prop) (E : St → Prop) :
  (∀ s', db s' = db s → flushes s' = flushes s → E s') →
  holds body (tick s) (λ s' a, flushes s' = flushes s ∧ R (tick s') a ∧ E (tick s')) (λ s', flushes s' = flushes s) →
  holds (transaction body) s R E.
Proof.
  intros HE Hbody. unfold holds, transaction in *. destruct (fate_at (steps s)); [|by apply HE..].
  destruct (body (tick s)) as [s2 [a|e|]]; [destruct Hbody as (Hfl & HR & HE2)|by apply HE..].
  destruct (fate_at (steps s2)); [done| |done]. by apply HE.
Qed.

Lemma holds_catch {A} (c : M A) h s (R : St → A → Prop) (E E' : St → Prop) :
  holds c s R E' → (∀ e s', E' s' → E ((h e s').1)) → (∀ s', E' s' → E s') → holds (catchM c h) s R E.
Proof. unfold holds, catchM. intros Hc Hh Hp. destruct (c s) as [s' [a|e|]]; auto. Qed.

(** Whatever a computation does, [E] holds afterwards. *)
Lemma holds_run {A} (c : M A) s (E : St → Prop) : holds c s (λ s' _, E s') E → E (c s).1.
Proof. unfold holds. by destruct (c s) as [s' [a|e|]]. Qed.

Lemma holds_ignore {A} (c : M A) s (R : St → unit → Prop) (E : St → Prop) :
  holds c s (λ s' _, R s' tt ∧ E s') (λ s', R s' tt ∧ E s') → holds (ignore c) s R E.
Proof. unfold holds, ignore, bindM, tryM, ret. destruct (c s) as [s' [a|e|]]; by intros []. Qed.

Lemma holds_try {A} (c : M A) s (R : St → outcome A → Prop) (E : St → Prop) :
  holds c s (λ s' a, R s' (Ok a)) (λ s', (∀ e, R s' (Err e)) ∧ E s') → holds (tryM c) s R E.
Proof. unfold holds, tryM. destruct (c s) as [s' [a|e|]]; [done|by intros []..]. Qed.

End env.
End SyncTables.
