(* ===== verification/SyncIndex.v ===== *)
(** * The library index: storing one item

    internal/sync/items.go: an item of the origin with its identifiers,
    versions, parts and streams is written over what is stored. *)

From S2P Require Import Prelude GoStrings GoHttp Playback SyncTables.

Module SyncIndex.
Import SyncTables.

(** ** What the origin sends *)

Record streamJSON := mkStream {
  st_id : option Z; st_type : Z; st_default : bool; st_codec : string; st_profile : string; st_language : string;
  st_languageCode : string; st_channels : option Z; st_bitrate : option Z; st_width : option Z; st_height : option Z;
  st_selected : bool; st_forced : bool
}.
Record partJSON := mkPart {
  pj_id : option Z; pj_key : string; pj_container : string; pj_size : option Z; pj_duration : option Z; pj_streams : list streamJSON
}.
Record mediaJSON := mkMedia {
  mj_id : option Z; mj_container : string; mj_videoCodec : string; mj_videoProfile : string; mj_width : option Z;
  mj_height : option Z; mj_bitrate : option Z; mj_videoResolution : string; mj_dynamicRange : string; mj_audioCodec : string;
  mj_audioChannels : option Z; mj_duration : option Z; mj_parts : list partJSON
}.
Record itemJSON := mkItem {
  RatingKey : string; ItemKey : string; ItemType : string; Title : string; TitleSort : string; OriginalTitle : string;
  Year : option Z; ParentRatingKey : string; GrandparentRatingKey : string; ItemDuration : option Z; Thumb : string; Art : string;
  AddedAt : option Z; UpdatedAt : option Z; Guid : list string; Media : list mediaJSON
}.

Section env.
Context {env : Env}.

(** [mediaIDString], [partIDString] and [streamIDString] *)
Definition idString (id : option Z) : option string := Itoa <$> id.

(** ** Statements *)

Definition item_cols_of (it : itemJSON) : item_cols :=
  mkItemCols (nullIfEmpty (ItemKey it)) (ItemType it) (nullIfEmpty (Title it)) (nullIfEmpty (TitleSort it)) (nullIfEmpty (OriginalTitle it))
    (Year it) (nullIfEmpty (ParentRatingKey it)) (nullIfEmpty (GrandparentRatingKey it)) (ItemDuration it) (nullIfEmpty (Thumb it))
    (nullIfEmpty (Art it)) (AddedAt it) (UpdatedAt it).

(** [INSERT ... ON CONFLICT DO UPDATE], with
    [sweep_gen=COALESCE($18, library_items.sweep_gen)]. *)
Definition upsert_row (key : string * string) (library : nat) (it : itemJSON) (gen : option Z) (t : tables) : option tables :=
  let row := match items t !! key with
             | Some r => mkItemRow library (item_cols_of it) (match gen with Some g => Some g | None => ir_gen r end) (ir_guids r) (ir_variants r)
             | None => mkItemRow library (item_cols_of it) gen ∅ ∅
             end in
  Some (with_items t (<[key := row]> (items t))).

(** A change of the rows of one item, which must exist. *)
Definition on_item (key : string * string) (f : item_row → item_row) (t : tables) : option tables :=
  r ← items t !! key; Some (with_items t (<[key := f r]> (items t))).
Definition set_guids (g : gmap string (option string * option string)) (r : item_row) : item_row :=
  mkItemRow (ir_library r) (ir_cols r) (ir_gen r) g (ir_variants r).
Definition set_variants (v : gmap nat variant_row) (r : item_row) : item_row :=
  mkItemRow (ir_library r) (ir_cols r) (ir_gen r) (ir_guids r) v.

Definition splitGUID (g : string) : string * string :=
  match Index g "://" with Some i => (stake i g, sdrop (i + 3) g) | None => ("", g) end.
Definition guid_cols (g : string) : option string * option string :=
  let '(p, i) := splitGUID g in (nullIfEmpty p, nullIfEmpty i).
Definition insert_guid (g : string) (r : item_row) : item_row :=
  match ir_guids r !! g with Some _ => r | None => set_guids (<[g := guid_cols g]> (ir_guids r)) r end.
Definition prune_guids (l : list string) (r : item_row) : item_row := set_guids (filter (λ e, e.1 ∈ l) (ir_guids r)) r.

Definition media_cols_of (m : mediaJSON) : media_cols :=
  mkMediaCols (idString (mj_id m)) (nullIfEmpty (mj_container m)) (nullIfEmpty (mj_videoCodec m)) (nullIfEmpty (mj_videoProfile m))
    (mj_width m) (mj_height m) (mj_bitrate m) (nullIfEmpty (mj_videoResolution m))
    (Playback.NormalizeDynamicRange (mj_dynamicRange m) "" (mj_videoCodec m) (mj_videoProfile m))
    (nullIfEmpty (mj_audioCodec m)) (mj_audioChannels m) (mj_duration m).
Definition parts_of (r : item_row) (idx : nat) : gmap nat part_row :=
  match ir_variants r !! idx with Some v => vr_parts v | None => ∅ end.
Definition upsert_variant (idx : nat) (m : mediaJSON) (r : item_row) : item_row :=
  set_variants (<[idx := mkVariantRow (media_cols_of m) (parts_of r idx)]> (ir_variants r)) r.
Definition on_variant (idx : nat) (f : gmap nat part_row → gmap nat part_row) (r : item_row) : item_row :=
  set_variants (alter (λ v, mkVariantRow (vr_cols v) (f (vr_parts v))) idx (ir_variants r)) r.

Definition part_cols_of (plex : string) (p : partJSON) : part_cols :=
  mkPartCols plex (nullIfEmpty (pj_key p)) (nullIfEmpty (pj_container p)) (pj_size p) (pj_duration p).
Definition put_part (pidx : nat) (c : part_cols) (parts : gmap nat part_row) : gmap nat part_row :=
  <[pidx := mkPartRow c (match parts !! pidx with Some p => pr_streams p | None => [] end)]> parts.
Definition set_streams (pidx : nat) (f : list stream_row → list stream_row) (parts : gmap nat part_row) : gmap nat part_row :=
  alter (λ p, mkPartRow (pr_cols p) (f (pr_streams p))) pidx parts.
Definition prune_parts (seen : list nat) (parts : gmap nat part_row) : gmap nat part_row := filter (λ e, e.1 ∈ seen) parts.
Definition prune_variants (seen : list nat) (r : item_row) : item_row := set_variants (filter (λ e, e.1 ∈ seen) (ir_variants r)) r.

(** The unique index on [plex_part_id]: the places that hold an
    identifier. *)
Definition places (t : tables) (plex : string) : list ((string * string) * nat * nat) :=
  map_to_list (items t) ≫= λ '(k, r), map_to_list (ir_variants r) ≫= λ '(i, v),
    map_to_list (vr_parts v) ≫= λ '(j, p), if pc_plex (pr_cols p) =s plex then [(k, i, j)] else [].
Definition upsert_part (key : string * string) (idx pidx : nat) (plex : string) (p : partJSON) (t : tables) : option tables :=
  if forallb (λ x, bool_decide (x = (key, idx, pidx))) (places t plex)
  then on_item key (on_variant idx (put_part pidx (part_cols_of plex p))) t else None.

Definition stream_row_of (s : streamJSON) : stream_row :=
  mkStreamRow (idString (st_id s)) (st_type s) (nullIfEmpty (st_codec s)) (nullIfEmpty (st_profile s)) (nullIfEmpty (st_language s))
    (nullIfEmpty (st_languageCode s)) (st_channels s) (st_bitrate s) (st_width s) (st_height s) (st_selected s) (st_forced s) (st_default s).

(** ** upsertItem *)

Definition upsert_one_part (key : string * string) (idx pidx : nat) (p : partJSON) : M unit :=
  match idString (pj_id p) with
  | None => ret tt
  | Some plex =>
      stmt (upsert_part key idx pidx plex p) >>>
      stmt (on_item key (on_variant idx (set_streams pidx (λ _, [])))) >>>
      each 0 (pj_streams p) (λ _ st, stmt (on_item key (on_variant idx (set_streams pidx (λ l, l ++ [stream_row_of st])))))
  end.

(** The indices of the parts that have an identifier. *)
Fixpoint identified (k : nat) (l : list partJSON) : list nat :=
  match l with
  | [] => []
  | p :: r => match pj_id p with Some _ => k :: identified (S k) r | None => identified (S k) r end
  end.

Definition upsert_one_variant (key : string * string) (idx : nat) (m : mediaJSON) : M unit :=
  stmt (on_item key (upsert_variant idx m)) >>>
  each 0 (mj_parts m) (upsert_one_part key idx) >>>
  stmt (on_item key (on_variant idx (prune_parts (identified 0 (mj_parts m))))).

Definition upsertItem (server : string) (library : nat) (it : itemJSON) (gen : option Z) : M unit :=
  if RatingKey it =s "" then fail "sync: item without ratingKey"
  else
    let key := (server, RatingKey it) in
    stmt (upsert_row key library it gen) >>>
    each 0 (Guid it) (λ _ g, stmt (on_item key (insert_guid g))) >>>
    stmt (on_item key (prune_guids (Guid it))) >>>
    each 0 (Media it) (upsert_one_variant key) >>>
    stmt (on_item key (prune_variants (seq 0 (length (Media it))))).

(** ** What storing an item does *)

Definition row_ok (r : item_row) : Prop := ∀ g c, ir_guids r !! g = Some c → c = guid_cols g.
Definition index_ok (t : tables) : Prop := ∀ k r, items t !! k = Some r → row_ok r.

(** Nothing but the rows of one item changes, and they do not go away. *)
Record frame (key : string * string) (s s' : St) : Prop := mkFrame {
  fr_flushes : flushes s' = flushes s;
  fr_libraries : libraries (db s') = libraries (db s);
  fr_cursors : cursors (db s') = cursors (db s);
  fr_collections : collections (db s') = collections (db s);
  fr_syncs : collection_syncs (db s') = collection_syncs (db s);
  fr_next : next_library (db s') = next_library (db s);
  fr_seq : generation_seq (db s') = generation_seq (db s);
  fr_others : ∀ k, k ≠ key → items (db s') !! k = items (db s) !! k;
  fr_kept : is_Some (items (db s) !! key) → is_Some (items (db s') !! key);
  fr_ok : index_ok (db s) → index_ok (db s');
}.
#[local] Instance frame_preorder key : PreOrder (frame key).
Proof.
  split; [by intros s|]. intros a b c [] []. split; try congruence; try (intros; by auto).
  intros k Hk. rewrite <- fr_others0 by done. by apply fr_others1.
Qed.

Lemma frame_tick key s0 s : frame key s0 s → frame key s0 (tick s).
Proof. by intros []. Qed.

Lemma frame_insert key s0 s r :
  frame key s0 s → row_ok r ∨ ¬ index_ok (db s) → frame key s0 (set_db (tick s) (with_items (db s) (<[key := r]> (items (db s))))).
Proof.
  intros [] Hr. split; cbn; try done.
  - intros k Hk. rewrite lookup_insert_ne by done. by apply fr_others0.
  - intros _. by rewrite lookup_insert_eq.
  - intros H0. specialize (fr_ok0 H0). intros k r'. destruct (decide (key = k)) as [<-|Hk].
    + cbn. rewrite lookup_insert_eq. intros [= <-]. by destruct Hr.
    + cbn. rewrite lookup_insert_ne by done. apply fr_ok0.
Qed.

(** The stored row satisfies [P]. *)
Definition has_row (key : string * string) (s : St) (P : item_row → Prop) : Prop := ∃ r, items (db s) !! key = Some r ∧ P r.

Lemma holds_on_item key s0 s (P P' : item_row → Prop) f :
  index_ok (db s0) → frame key s0 s → has_row key s P → (∀ r, row_ok r → P r → row_ok (f r) ∧ P' (f r)) →
  holds (stmt (on_item key f)) s (λ s' _, frame key s0 s' ∧ has_row key s' P') (λ s', frame key s0 s').
Proof.
  intros H0 Hf (r & Hr & HP) Hstep. assert (Hok : row_ok r) by (by eapply (fr_ok _ _ _ Hf)).
  destruct (Hstep r Hok HP) as [Hok' HP']. apply holds_stmt; [|by apply frame_tick].
  intros t. unfold on_item. rewrite Hr. cbn [mbind option_bind]. intros [= <-].
  assert (Hfr : frame key s0 (set_db (tick s) (with_items (db s) (<[key := f r]> (items (db s)))))) by (apply frame_insert; [done|by left]).
  split; [|done]. split; [done|]. exists (f r). split; [by cbn; rewrite lookup_insert_eq|done].
Qed.

(** *** Parts and streams *)

Definition stored_part (pj : partJSON) (p : part_row) : Prop :=
  ∃ plex, idString (pj_id pj) = Some plex ∧ p = mkPartRow (part_cols_of plex pj) (stream_row_of <$> pj_streams pj).

(** After the parts before [k] were written. *)
Definition parts_upto (l : list partJSON) (k : nat) (parts : gmap nat part_row) : Prop :=
  ∀ j pj, (j < k)%nat → l !! j = Some pj → pj_id pj ≠ None → ∃ p, parts !! j = Some p ∧ stored_part pj p.

(** The row has variant [idx] with the columns of [m] and parts as [P]
    says, and keeps [R]. *)
Definition variant_is (idx : nat) (c : media_cols) (P : gmap nat part_row → Prop) (R : item_row → Prop) (r : item_row) : Prop :=
  R r ∧ ∃ v, ir_variants r !! idx = Some v ∧ vr_cols v = c ∧ P (vr_parts v).

(** [R] does not look at variant [idx] and at what comes later. *)
Definition local_to (idx : nat) (R : item_row → Prop) : Prop :=
  ∀ r v, R r → R (set_variants (<[idx := v]> (ir_variants r)) r).

Lemma alter_as_insert {V} (f : V → V) (m : gmap nat V) k v : m !! k = Some v → alter f k m = <[k := f v]> m.
Proof.
  intros E. apply map_eq. intros i. destruct (decide (k = i)) as [<-|Hi].
  - rewrite lookup_alter_eq, E, lookup_insert_eq. done.
  - by rewrite lookup_alter_ne, lookup_insert_ne.
Qed.

Lemma on_variant_step idx c (P P' : gmap nat part_row → Prop) R f r :
  local_to idx R → (∀ parts, P parts → P' (f parts)) → row_ok r → variant_is idx c P R r →
  row_ok (on_variant idx f r) ∧ variant_is idx c P' R (on_variant idx f r).
Proof.
  intros HR Hf Hok (Hr & v & Hv & Hc & HP). split; [done|]. unfold on_variant. rewrite (alter_as_insert _ _ _ _ Hv).
  split; [by apply HR|]. eexists. split; [cbn; by rewrite lookup_insert_eq|]. cbn. split; [done|]. by apply Hf.
Qed.

Lemma upsert_one_part_holds key s0 s idx pidx pj c l R :
  index_ok (db s0) → frame key s0 s → local_to idx R → l !! pidx = Some pj →
  has_row key s (variant_is idx c (parts_upto l pidx) R) →
  holds (upsert_one_part key idx pidx pj) s
    (λ s' _, frame key s0 s' ∧ has_row key s' (variant_is idx c (parts_upto l (S pidx)) R)) (λ s', frame key s0 s').
Proof.
  intros H0 Hf HR Hl Hrow. unfold upsert_one_part. destruct (idString (pj_id pj)) as [plex|] eqn:Eid.
  2:{ unfold holds, ret. split; [done|]. destruct Hrow as (r & Hr & HRr & v & Hv & Hc & HP). exists r. split; [done|]. split; [done|].
      exists v. split; [done|]. split; [done|]. intros j pj' Hj Hlj Hne. destruct (decide (j = pidx)) as [->|]; [|apply HP; [lia|done..]].
      rewrite Hl in Hlj. injection Hlj as <-. by destruct (pj_id pj). }
  (* the invariant while the streams are written *)
  set (writing (n : nat) (parts : gmap nat part_row) := parts_upto l pidx parts ∧
         parts !! pidx = Some (mkPartRow (part_cols_of plex pj) (stream_row_of <$> take n (pj_streams pj)))).
  eapply holds_bind with (R1 := λ s' _, frame key s0 s' ∧ has_row key s' (variant_is idx c (λ parts, parts_upto l pidx parts ∧
    ∃ ss, parts !! pidx = Some (mkPartRow (part_cols_of plex pj) ss)) R)).
  { assert (Hon : holds (stmt (on_item key (on_variant idx (put_part pidx (part_cols_of plex pj))))) s
      (λ s' _, frame key s0 s' ∧ has_row key s' (variant_is idx c (λ parts, parts_upto l pidx parts ∧
         ∃ ss, parts !! pidx = Some (mkPartRow (part_cols_of plex pj) ss)) R)) (λ s', frame key s0 s')).
    { eapply holds_on_item; [done|done|done|]. intros r. apply on_variant_step; [done|]. intros parts HP. unfold put_part. split.
      - intros j pj' Hj Hlj Hne. rewrite lookup_insert_ne by lia. by apply HP.
      - eexists. by rewrite lookup_insert_eq. }
    unfold holds, stmt, stmt_at, upsert_part in *. destruct (forallb _ _); [done|].
    destruct (fate_at (steps s)); by apply frame_tick. }
  intros s1 _ [Hf1 Hr1]. eapply holds_bind with (R1 := λ s' _, frame key s0 s' ∧ has_row key s' (variant_is idx c (writing 0%nat) R)).
  { eapply holds_on_item; [done|done|exact Hr1|]. intros r. apply on_variant_step; [done|]. intros parts [HP [ss Hs]]. split.
    - intros j pj' Hj Hlj Hne. unfold set_streams. rewrite lookup_alter_ne by lia. by apply HP.
    - unfold set_streams. by rewrite lookup_alter_eq, Hs. }
  intros s2 _ Hs2. eapply holds_mono.
  { apply (holds_each (pj_streams pj) _ (λ n s', frame key s0 s' ∧ has_row key s' (variant_is idx c (writing n) R)) _ 0%nat s2 Hs2).
    intros i st s3 Hst [Hf3 Hr3]. eapply holds_on_item; [done|done|exact Hr3|]. intros r. apply on_variant_step; [done|].
    intros parts [HP Hs]. unfold set_streams. split.
    - intros j pj' Hj Hlj Hne. rewrite lookup_alter_ne by lia. by apply HP.
    - rewrite lookup_alter_eq, Hs. cbn. by rewrite (take_S_r _ _ _ Hst), fmap_app. }
  intros s4 _ [Hf4 (r & Hr & HRr & v & Hv & Hc & HP & Hs)]. split; [done|]. exists r. split; [done|]. split; [done|].
  exists v. split; [done|]. split; [done|]. intros j pj' Hj Hlj Hne. destruct (decide (j = pidx)) as [->|]; [|apply HP; [lia|done..]].
  rewrite Hl in Hlj. injection Hlj as <-. eexists. split; [exact Hs|]. exists plex. split; [done|].
  cbn [Nat.add]. by rewrite firstn_all.
Qed.

(** *** Variants *)

Definition part_row_of (pj : partJSON) : option part_row :=
  plex ← idString (pj_id pj); Some (mkPartRow (part_cols_of plex pj) (stream_row_of <$> pj_streams pj)).
Definition variant_of (m : mediaJSON) : variant_row := mkVariantRow (media_cols_of m) (omap part_row_of (map_seq 0 (mj_parts m))).

Lemma elem_identified k l j : j ∈ identified k l ↔ ∃ i pj, j = (k + i)%nat ∧ l !! i = Some pj ∧ pj_id pj ≠ None.
Proof.
  revert k. induction l as [|p l IH]; intros k; cbn [identified].
  - rewrite elem_of_nil. split; [done|]. by intros (i & pj & _ & H & _).
  - assert (Hnext : j ∈ identified (S k) l ↔ ∃ i pj, j = (k + S i)%nat ∧ (p :: l) !! S i = Some pj ∧ pj_id pj ≠ None).
    { rewrite IH. by setoid_rewrite Nat.add_succ_r. }
    destruct (pj_id p) eqn:Ep; [rewrite elem_of_cons|]; rewrite Hnext; split.
    + intros [->|(i & pj & H)]; [|by exists (S i), pj]. exists O, p. rewrite Nat.add_0_r, Ep. done.
    + intros ([|i] & pj & Hj & Hl & Hn); [left; lia|right; by exists i, pj].
    + intros (i & pj & H). by exists (S i), pj.
    + intros ([|i] & pj & Hj & Hl & Hn); [|by exists i, pj]. cbn in Hl. congruence.
Qed.

Lemma parts_complete l parts :
  parts_upto l (length l) parts → prune_parts (identified 0 l) parts = omap part_row_of (map_seq 0 l).
Proof.
  intros HP. apply map_eq. intros j. rewrite lookup_omap, lookup_map_seq_0. unfold prune_parts.
  destruct (l !! j) as [pj|] eqn:El; cbn [mbind option_bind].
  - destruct (pj_id pj) as [id|] eqn:Eid.
    + destruct (HP j pj (lookup_lt_Some _ _ _ El) El) as (p & Hp & plex & Hplex & ->); [by rewrite Eid|].
      unfold part_row_of. rewrite Hplex. cbn [mbind option_bind]. apply map_lookup_filter_Some_2; [done|].
      apply elem_identified. exists j, pj. rewrite Eid. done.
    + unfold part_row_of. rewrite Eid. cbn. apply map_lookup_filter_None_2. right. intros p Hp Hin. cbn in Hin.
      apply elem_identified in Hin as (i & pj' & -> & Hl & Hn). cbn in *. congruence.
  - apply map_lookup_filter_None_2. right. intros p Hp Hin. cbn in Hin.
    apply elem_identified in Hin as (i & pj' & -> & Hl & Hn). cbn in *. congruence.
Qed.

(** After the variants before [k] were written. *)
Definition variants_upto (l : list mediaJSON) (k : nat) (r : item_row) : Prop :=
  ∀ i m, (i < k)%nat → l !! i = Some m → ir_variants r !! i = Some (variant_of m).

Lemma upsert_one_variant_holds key s0 s idx m l (R : item_row → Prop) :
  index_ok (db s0) → frame key s0 s → (∀ r v, R r → R (set_variants v r)) → l !! idx = Some m →
  has_row key s (λ r, R r ∧ variants_upto l idx r) →
  holds (upsert_one_variant key idx m) s
    (λ s' _, frame key s0 s' ∧ has_row key s' (λ r, R r ∧ variants_upto l (S idx) r)) (λ s', frame key s0 s').
Proof.
  intros H0 Hf HR Hl Hrow. unfold upsert_one_variant.
  set (R' r := R r ∧ variants_upto l idx r).
  assert (HR' : local_to idx R').
  { intros r v [Hr Hv]. split; [by apply HR|]. intros i m' Hi Hm. cbn. rewrite lookup_insert_ne by lia. by apply Hv. }
  apply holds_bind with (R1 := λ s' _, frame key s0 s' ∧ has_row key s' (variant_is idx (media_cols_of m) (parts_upto (mj_parts m) 0) R')).
  { eapply holds_on_item; [done|done|exact Hrow|]. intros r Hok Hr. split; [done|]. split; [by apply HR'|].
    eexists. split; [cbn; by rewrite lookup_insert_eq|]. split; [done|]. intros j pj Hj. lia. }
  intros s1 _ Hs1. eapply holds_bind.
  { apply (holds_each (mj_parts m) _ (λ n s', frame key s0 s' ∧
      has_row key s' (variant_is idx (media_cols_of m) (parts_upto (mj_parts m) n) R')) _ 0%nat s1 Hs1).
    intros i pj s2 Hpj [Hf2 Hr2]. by apply upsert_one_part_holds. }
  cbn beta. intros s3 u [Hf3 Hr3]. cbn [Nat.add] in Hr3. eapply holds_mono.
  { eapply (holds_on_item key s0 s3 _ (variant_is idx (media_cols_of m) (λ parts, parts = omap part_row_of (map_seq 0 (mj_parts m))) R'));
      [done|done|exact Hr3|]. intros r. apply on_variant_step; [done|]. intros parts HP. by apply parts_complete. }
  intros s4 _ [Hf4 (r & Hr & [HRr Hv] & v & Hlv & Hc & HP)]. split; [done|]. exists r. split; [done|]. split; [done|].
  intros i m' Hi Hm'. destruct (decide (i = idx)) as [->|]; [|apply Hv; [lia|done]].
  rewrite Hl in Hm'. injection Hm' as <-. rewrite Hlv. destruct v. cbn in *. by subst.
Qed.

(** *** The item *)

Definition stamp (gen : option Z) (old : option item_row) : option Z := match gen with Some g => Some g | None => old ≫= ir_gen end.
(** What is to be stored of an item. *)
Definition row_of (library : nat) (it : itemJSON) (gen : option Z) : item_row :=
  mkItemRow library (item_cols_of it) gen (list_to_map ((λ g, (g, guid_cols g)) <$> Guid it)) (map_seq 0 (variant_of <$> Media it)).

Lemma guids_complete l (m : gmap string (option string * option string)) :
  (∀ g c, m !! g = Some c → c = guid_cols g) → (∀ g, g ∈ l → is_Some (m !! g)) →
  filter (λ e, e.1 ∈ l) m = list_to_map ((λ g, (g, guid_cols g)) <$> l).
Proof.
  intros Hok Hall. apply map_eq. intros g. destruct (decide (g ∈ l)) as [Hg|Hg].
  - destruct (Hall g Hg) as [c Hc]. rewrite (Hok _ _ Hc) in Hc. trans (Some (guid_cols g)); [by apply map_lookup_filter_Some_2|].
    symmetry. clear -Hg. induction l as [|x l IH]; [by apply elem_of_nil in Hg|]. cbn. destruct (decide (x = g)) as [->|Hx].
    + by rewrite lookup_insert_eq.
    + rewrite lookup_insert_ne by done. apply IH. by apply elem_of_cons in Hg as [->|].
  - trans (@None (option string * option string)); [apply map_lookup_filter_None_2; by right|].
    symmetry. apply not_elem_of_list_to_map. rewrite <- list_fmap_compose. cbn. unfold compose. cbn. by rewrite list_fmap_id.
Qed.

Lemma variants_complete l r :
  variants_upto l (length l) r → ir_variants (prune_variants (seq 0 (length l)) r) = map_seq 0 (variant_of <$> l).
Proof.
  intros Hv. cbn. apply map_eq. intros i. rewrite lookup_map_seq_0, list_lookup_fmap.
  destruct (l !! i) as [m|] eqn:El; cbn.
  - apply map_lookup_filter_Some_2; [apply (Hv i m); [by eapply lookup_lt_Some|done]|]. apply elem_of_seq. cbn. apply lookup_lt_Some in El. lia.
  - apply map_lookup_filter_None_2. right. intros v _ Hs. cbn in Hs. apply elem_of_seq in Hs as [_ Hs]. apply lookup_ge_None in El. cbn in Hs. lia.
Qed.

Lemma upsertItem_holds server library it gen s :
  index_ok (db s) →
  holds (upsertItem server library it gen) s
    (λ s' _, RatingKey it ≠ "" ∧ frame (server, RatingKey it) s s' ∧
       items (db s') !! (server, RatingKey it) = Some (row_of library it (stamp gen (items (db s) !! (server, RatingKey it)))))
    (frame (server, RatingKey it) s).
Proof.
  intros H0. unfold upsertItem. destruct (String.eqb_spec (RatingKey it) "") as [|Hne]; [by unfold holds, fail|]. cbv zeta.
  set (key := (server, RatingKey it)). set (g := stamp gen (items (db s) !! key)).
  set (C r := ir_library r = library ∧ ir_cols r = item_cols_of it ∧ ir_gen r = g).
  assert (HC : ∀ r v, C r → C (set_variants v r)) by done.
  apply holds_bind with (R1 := λ s' _, frame key s s' ∧ has_row key s' (λ r, C r ∧ ∀ x, x ∈ take 0 (Guid it) → is_Some (ir_guids r !! x))).
  { apply holds_stmt; [|by apply frame_tick]. intros t. unfold upsert_row. intros [= <-].
    match goal with |- context [set_db _ (with_items _ (<[_ := ?r]> _))] => set (row := r) end.
    assert (Hrow : row_ok row ∧ C row).
    { subst row C g. unfold stamp. destruct (items (db s) !! key) as [r|] eqn:Er; [split; [exact (H0 _ _ Er)|by destruct gen]|].
      split; [done|]. by destruct gen. }
    assert (frame key s (set_db (tick s) (with_items (db s) (<[key := row]> (items (db s)))))) by (apply frame_insert; [done|left; tauto]).
    split; [|done]. split; [done|]. exists row. cbn. rewrite lookup_insert_eq. split; [done|]. split; [tauto|]. intros x. by rewrite elem_of_nil. }
  intros s1 _ Hs1. eapply holds_bind.
  { apply (holds_each (Guid it) _ (λ n s', frame key s s' ∧
      has_row key s' (λ r, C r ∧ ∀ x, x ∈ take n (Guid it) → is_Some (ir_guids r !! x))) _ 0%nat s1 Hs1).
    intros i x s2 Hx [Hf2 Hr2]. eapply holds_on_item; [done|done|exact Hr2|]. intros r Hok [HCr Hg]. cbn [Nat.add].
    unfold insert_guid. split.
    - destruct (ir_guids r !! x); [done|]. intros y c. cbn. destruct (decide (x = y)) as [->|].
      + rewrite lookup_insert_eq. by intros [= <-].
      + rewrite lookup_insert_ne by done. apply Hok.
    - rewrite (take_S_r _ _ _ Hx). split; [by destruct (ir_guids r !! x)|]. intros y [Hy|Hy]%elem_of_app; [|apply list_elem_of_singleton in Hy as ->].
      + destruct (ir_guids r !! x); [by apply Hg|]. cbn. destruct (decide (x = y)) as [->|]; [by rewrite lookup_insert_eq|].
        rewrite lookup_insert_ne by done. by apply Hg.
      + destruct (ir_guids r !! x) eqn:E; [by rewrite E|]. cbn. by rewrite lookup_insert_eq. }
  cbn beta. intros s3 u [Hf3 Hr3]. cbn [Nat.add] in Hr3. rewrite firstn_all in Hr3.
  set (D r := C r ∧ ir_guids r = list_to_map ((λ g, (g, guid_cols g)) <$> Guid it)).
  apply holds_bind with (R1 := λ s' _, frame key s s' ∧ has_row key s' (λ r, D r ∧ variants_upto (Media it) 0 r)).
  { eapply holds_on_item; [done|done|exact Hr3|]. intros r Hok [HCr Hg]. split.
    - intros y c Hy. cbn in Hy. apply map_lookup_filter_Some in Hy as [Hy _]. by apply Hok.
    - split; [split; [done|]; cbn; by apply guids_complete|]. intros i m Hi. lia. }
  intros s4 _ Hs4. eapply holds_bind.
  { apply (holds_each (Media it) _ (λ n s', frame key s s' ∧ has_row key s' (λ r, D r ∧ variants_upto (Media it) n r)) _ 0%nat s4 Hs4).
    intros i m s5 Hm [Hf5 Hr5]. by apply upsert_one_variant_holds. }
  cbn beta. intros s6 u' [Hf6 Hr6]. cbn [Nat.add] in Hr6. eapply holds_mono.
  { eapply (holds_on_item key s s6 _ (λ r, D r ∧ ir_variants r = map_seq 0 (variant_of <$> Media it))); [done|done|exact Hr6|].
    intros r Hok [HD Hv]. split; [done|]. split; [done|]. by apply variants_complete. }
  intros s7 _ [Hf7 (r & Hr & [(H1 & H2 & H3) H4] & H5)]. split; [done|]. split; [done|]. rewrite Hr. unfold row_of.
  destruct r. cbn in *. by subst.
Qed.

End env.
(** Two versions whose parts change places at the origin cannot be stored:
    the first part collides with the other's identifier, again on every
    pass. *)
Module Swapped.
#[local] Instance works : Env := {|
  fate_at := λ _, Works; marks_at := λ _, []; now_at := λ _, 0; ended_at := λ _, false; GetJSON_at := λ _ _, Err "";
  OwnerToken_at := λ _, None; enabled_at := λ _, None; invalidate_at := λ _, Works;
|}.
Definition version (id : Z) : mediaJSON := mkMedia None "" "" "" None None None "" "" "" None None [mkPart (Some id) "" "" None None []].
Definition item (m : list mediaJSON) : itemJSON := mkItem "1" "" "movie" "" "" "" None "" "" None "" "" None None [] m.
Definition start : St := mkSt (mkTables ∅ ∅ ∅ ∅ ∅ 0 0) (mkMemory false ∅ ∅) 0 0.
Definition stored : St := (upsertItem "server" 0 (item [version 10; version 11]) None start).1.
Definition again : St * outcome unit := upsertItem "server" 0 (item [version 11; version 10]) None stored.
Lemma swapped_versions_fail :
  again.2 = Err "constraint" ∧ (upsertItem "server" 0 (item [version 11; version 10]) None again.1).2 = Err "constraint" ∧
  items (db again.1) = items (db stored).
Proof. split; [vm_compute; reflexivity|]. split; vm_compute; reflexivity. Qed.
End Swapped.

End SyncIndex.
