(* ===== verification/SyncCollections.v ===== *)
(** * Collections of the library index

    internal/sync/collections.go: the collections of a library are staged
    page by page under a fresh generation and published in one transaction.
    The decoding of the origin's JSON and the content hash (SHA-256 of the
    encoded metadata and members) are parameters. *)

From S2P Require Import Prelude GoStrings GoUrl SyncTables.

Module SyncCollections.
Import SyncTables.

Record collectionJSON := mkCollectionJSON {
  cj_ratingKey : string; cj_key : string; cj_title : string; cj_titleSort : string; cj_summary : string; cj_thumb : string; cj_art : string;
  cj_smart : string (* the raw JSON of the flag *)
}.
(** A page of a listing, as [collectionPageContainer]. *)
Record container (A : Type) := mkContainer { pg_total : option Z; pg_size : option Z; pg_offset : option Z; pg_metadata : list A }.
Arguments mkContainer {A}. Arguments pg_total {A}. Arguments pg_size {A}. Arguments pg_offset {A}. Arguments pg_metadata {A}.

Class CollectionCodec := {
  decode_catalog : string → option (container collectionJSON);
  decode_children : string → option (container collectionMember);
  content_hash : collectionMetadata → list collectionMember → string;
}.

(** ** Pages *)

Definition collectionPageComplete (start requested count : Z) (size offset total : option Z) (expectedTotal : Z) : outcome (bool * Z) :=
  if (requested <? count) || match size with Some n => negb (n =? count) | None => false end
     || match offset with Some n => negb (n =? start) | None => false end
  then Err "sync: collection pagination size or offset mismatch"
  else
    let known := match total with
    | Some t =>
        if (t <? 0) || ((0 <=? expectedTotal) && negb (expectedTotal =? t)) || (t - start <? count)
        then Err "sync: collection pagination total changed or invalid" else Ok t
    | None => if 0 <=? expectedTotal then Err "sync: collection pagination total disappeared" else Ok expectedTotal
    end in
    match known with Err e => Err e | Panic => Panic | Ok expectedTotal =>
    if (start =? 0) && (count =? 0) && match total with Some t => negb (t =? 0) | None => true end
    then Err "sync: ambiguous empty collection response"
    else if 0 <=? expectedTotal then
      if start + count =? expectedTotal then Ok (true, expectedTotal)
      else if count =? 0 then Err "sync: collection page ended before advertised total" else Ok (false, expectedTotal)
    else Ok (count <? requested, expectedTotal)
    end.

(** The flag is a boolean, a number or absent. *)
Definition smart_flag (raw : string) : option bool :=
  if (raw =s "") || (raw =s "null") || (raw =s "false") || (raw =s "0") || (raw =s "-0") then Some false
  else if (raw =s "true") || (raw =s "1") then Some true else None.
Definition collectionDisplayMetadata (c : collectionJSON) : option collectionMetadata :=
  b ← smart_flag (cj_smart c);
  Some (mkMetadata (cj_key c) (cj_title c) (cj_titleSort c) (cj_summary c) (cj_thumb c) (cj_art c) b).

Section worker.
Context {env : Env} {codec : CollectionCodec}.
(** [w.Origin], [w.PageSize], and whether [w.InvalidateCollections] is set *)
Variables (Origin : string) (PageSize : Z) (hooked : bool).

Definition collectionPageSize : Z := if PageSize <=? 0 then 100 else if 1000 <? PageSize then 1000 else PageSize.
Definition collectionURL (path : string) (start size : Z) : string :=
  TrimSuffix Origin "/" +:+ path +:+ "?X-Plex-Container-Start=" +:+ Itoa start +:+ "&X-Plex-Container-Size=" +:+ Itoa size.
Definition catalog_path (section : string) : string := "/library/sections/" +:+ escape section encodePathSegment +:+ "/collections".
Definition children_path (ratingKey : string) : string := "/library/collections/" +:+ escape ratingKey encodePathSegment +:+ "/children".

(** The two paging loops: every entry has a key that was not seen before and
    is handed to [visit] with its position. *)
Definition page_bound : nat := Z.to_nat 100000.
Definition count {A} (l : list A) : Z := Z.of_nat (length l).

Fixpoint visit_all {A} (key : A → string) (visit : Z → A → M unit) (acc l : list A) : M (list A) :=
  match l with
  | [] => ret acc
  | x :: r =>
      if (key x =s "") || bool_decide (key x ∈ key <$> acc) then fail "sync: missing or repeated collection ratingKey"
      else visit (count acc) x >>> visit_all key visit (acc ++ [x]) r
  end.

Fixpoint scan {A} (fuel : nat) (path : string) (decode : string → option (container A)) (key : A → string) (visit : Z → A → M unit)
    (acc : list A) (expectedTotal : Z) : M (list A) :=
  match fuel with
  | O => fail "sync: collection list exceeds page bound"
  | S fuel =>
      raw <-- GetJSON (collectionURL path (count acc) collectionPageSize);
      match decode raw with
      | None => fail "sync: invalid collection response"
      | Some p =>
          match collectionPageComplete (count acc) collectionPageSize (count (pg_metadata p)) (pg_size p) (pg_offset p) (pg_total p) expectedTotal with
          | Ok (done, expectedTotal) =>
              acc <-- visit_all key visit acc (pg_metadata p);
              if done then ret acc else scan fuel path decode key visit acc expectedTotal
          | Err e => fail e
          | Panic => fail ""
          end
      end
  end.

(** ** Staging *)

Definition with_collections (t : tables) (c : gmap (nat * string) collection_row) : tables :=
  mkTables (libraries t) (items t) (cursors t) c (collection_syncs t) (next_library t) (generation_seq t).
Definition with_syncs (t : tables) (c : gmap nat collection_sync) : tables :=
  mkTables (libraries t) (items t) (cursors t) (collections t) c (next_library t) (generation_seq t).
Definition with_seq (t : tables) (n : Z) : tables :=
  mkTables (libraries t) (items t) (cursors t) (collections t) (collection_syncs t) (next_library t) n.

Definition no_cols (title : string) : collection_cols := mkCollectionCols None title None None None None false.
(** [ON CONFLICT(library_id,rating_key) DO NOTHING] *)
Definition insert_collection (server : string) (id : nat * string) (title : string) (t : tables) : option tables :=
  match collections t !! id with
  | Some _ => Some t
  | None => Some (with_collections t (<[id := mkCollection server (no_cols title) 0 None ∅]> (collections t)))
  end.
Definition with_snapshots (c : collection_row) (m : gmap Z snapshot) : collection_row :=
  mkCollection (co_server c) (co_cols c) (co_catalog c) (co_published c) m.
Definition insert_snapshot (id : nat * string) (gen : Z) (md : collectionMetadata) (now : Z) (t : tables) : option tables :=
  c ← collections t !! id;
  match co_snapshots c !! gen with
  | Some _ => None
  | None => Some (with_collections t (<[id := with_snapshots c (<[gen := mkSnapshot now None 0 None md ∅]> (co_snapshots c))]> (collections t)))
  end.
Definition update_snapshot (id : nat * string) (gen : Z) (f : snapshot → snapshot) (t : tables) : option tables :=
  Some (with_collections t (alter (λ c, with_snapshots c (alter f gen (co_snapshots c))) id (collections t))).
Definition find_snapshot (id : nat * string) (gen : Z) (t : tables) : option snapshot := c ← collections t !! id; co_snapshots c !! gen.

Definition member_of (m : collectionMember) : member_row :=
  mkMemberRow (me_ratingKey m) (me_type m) (nullIfEmpty (me_title m)) (nullIfEmpty (me_thumb m)) (nullIfEmpty (me_art m)).
(** The primary key, the unique rating key, and the reference to the snapshot. *)
Definition insert_member (id : nat * string) (gen pos : Z) (m : collectionMember) (t : tables) : option tables :=
  sn ← find_snapshot id gen t;
  if bool_decide (is_Some (sn_members sn !! pos)) || negb (bool_decide (map_Forall (λ _ r, mr_ratingKey r ≠ me_ratingKey m) (sn_members sn))) then None
  else update_snapshot id gen (λ sn, mkSnapshot (sn_started sn) (sn_completed sn) (sn_count sn) (sn_hash sn) (sn_metadata sn)
                                       (<[pos := member_of m]> (sn_members sn))) t.
Definition complete_snapshot (id : nat * string) (gen n : Z) (hash : string) (now : Z) (t : tables) : option tables :=
  update_snapshot id gen (λ sn, mkSnapshot (sn_started sn) (Some now) n (Some hash) (sn_metadata sn) (sn_members sn)) t.

Definition stageCollection (server : string) (library : nat) (c : collectionJSON) (gen : Z) : M unit :=
  match collectionDisplayMetadata c with
  | None => fail "sync: invalid smart collection flag"
  | Some metadata =>
      let id := (library, cj_ratingKey c) in
      stmt (insert_collection server id (cj_title c)) >>>
      query_row (λ t, collections t !! id) >>>
      stmt_at (insert_snapshot id gen metadata) >>>
      members <-- scan page_bound (children_path (cj_ratingKey c)) decode_children me_ratingKey (λ pos m, stmt (insert_member id gen pos m)) [] (-1);
      stmt_at (complete_snapshot id gen (count members) (content_hash metadata members))
  end.

(** ** Publishing *)

Definition cols_of (m : collectionMetadata) : collection_cols :=
  mkCollectionCols (nullIfEmpty (cm_key m)) (cm_title m) (nullIfEmpty (cm_titleSort m)) (nullIfEmpty (cm_summary m)) (nullIfEmpty (cm_thumb m))
    (nullIfEmpty (cm_art m)) (cm_smart m).
Definition published_snapshot (c : collection_row) : option snapshot := g ← co_published c; co_snapshots c !! g.
(** The content hash of the published snapshot, or NULL. *)
Definition old_hash (c : collection_row) : option string := published_snapshot c ≫= sn_hash.
(** [staged.generation IS NULL OR staged.content_hash IS DISTINCT FROM old.content_hash] *)
Definition row_changed (gen : Z) (c : collection_row) : bool :=
  match co_snapshots c !! gen with None => true | Some sn => negb (bool_decide (sn_hash sn = old_hash c)) end.
Definition changed_in (library : nat) (gen : Z) (t : tables) : bool :=
  existsb (λ '(id, c), bool_decide (id.1 = library) && row_changed gen c) (map_to_list (collections t)).

Definition publish_row (gen catalog : Z) (c : collection_row) : collection_row :=
  match co_snapshots c !! gen with
  | Some sn =>
      match sn_completed sn with
      | Some _ => mkCollection (co_server c) (cols_of (sn_metadata sn)) catalog
                    (if bool_decide (sn_hash sn = old_hash c) then co_published c else Some gen) (co_snapshots c)
      | None => c
      end
  | None => c
  end.
Definition prune_row (c : collection_row) : collection_row :=
  with_snapshots c (filter (λ e, Some e.1 = co_published c) (co_snapshots c)).
(** The rows of one library. *)
Definition on_library (library : nat) (f : collection_row → collection_row) (t : tables) : option tables :=
  Some (with_collections t (map_imap (λ id c, Some (if bool_decide (id.1 = library) then f c else c)) (collections t))).
Definition publish_rows (library : nat) (gen : Z) : tables → option tables := on_library library (λ c, publish_row gen gen c).
Definition delete_unlisted (library : nat) (gen : Z) (t : tables) : option tables :=
  Some (with_collections t (filter (λ e, ¬ (e.1.1 = library ∧ co_catalog e.2 ≠ gen)) (collections t))).
Definition on_sync (library : nat) (f : collection_sync → collection_sync) (t : tables) : option tables :=
  Some (with_syncs t (alter f library (collection_syncs t))).
Definition mark_published (library : nat) (gen : Z) (changed : bool) (now : Z) : tables → option tables :=
  on_sync library (λ r, mkCollectionSync gen (Some now) None (cs_pending r || changed)).
Definition set_pending (b : bool) (r : collection_sync) : collection_sync := mkCollectionSync (cs_catalog r) (cs_completed r) (cs_error r) b.

Definition flushCollectionInvalidation (library : nat) : M unit :=
  pending <-- query_row (λ t, cs_pending <$> collection_syncs t !! library);
  if pending && hooked then invalidate >>> stmt (on_sync library (set_pending false)) else ret tt.

Definition publish_tx (library : nat) (gen : Z) : M unit :=
  transaction (
    changed <-- query (changed_in library gen);
    stmt (publish_rows library gen) >>>
    stmt (delete_unlisted library gen) >>>
    stmt_at (mark_published library gen changed) >>>
    stmt (on_library library prune_row)).
Definition publishCollections (library : nat) (gen : Z) : M unit :=
  publish_tx library gen >>> flushCollectionInvalidation library.

Definition insert_sync (library : nat) (t : tables) : option tables :=
  match collection_syncs t !! library with
  | Some _ => Some t
  | None => Some (with_syncs t (<[library := mkCollectionSync 0 None None false]> (collection_syncs t)))
  end.
(** [nextval]: the value is used up even when the answer is lost. *)
Definition nextval : M Z := λ s,
  let n := generation_seq (db s) + 1 in
  let s' := set_db (tick s) (with_seq (db s) n) in
  match fate_at (steps s) with Works => (s', Ok n) | Lost => (s', Err "database") | Fails => (tick s, Err "database") end.
Definition week : Z := 7 * 86400 * 1000000000.
Definition prune_old (now : Z) (t : tables) : option tables :=
  Some (with_collections t ((λ c, with_snapshots c (filter (λ e, ¬ (sn_started e.2 < now - week ∧ Some e.1 ≠ co_published c)) (co_snapshots c)))
                             <$> collections t)).
Definition set_error (e : string) (r : collection_sync) : collection_sync := mkCollectionSync (cs_catalog r) (cs_completed r) (Some e) (cs_pending r).

Definition sync_catalog (server : string) (s : sectionInfo) : M unit :=
  gen <-- nextval;
  scan page_bound (catalog_path (SectionID s)) decode_catalog cj_ratingKey (λ _ c, stageCollection server (LibraryID s) c gen) [] (-1) >>>
  publishCollections (LibraryID s) gen >>>
  stmt_at prune_old.
Definition syncLibraryCollections (server : string) (s : sectionInfo) : M unit :=
  stmt (insert_sync (LibraryID s)) >>>
  catchM (sync_catalog server s)
    (λ e, ended <-- ctx_err; if ended then ret tt else ignore (stmt (on_sync (LibraryID s) (set_error e)))).

(** ** One collection *)

Definition publish_one_tx (id : nat * string) (gen : Z) : M unit :=
  transaction (
    changed <-- query_row (λ t, c ← collections t !! id; sn ← co_snapshots c !! gen; _ ← sn_completed sn;
                               Some (negb (bool_decide (sn_hash sn = old_hash c))));
    stmt (λ t, Some (with_collections t (alter (λ c, publish_row gen (co_catalog c) c) id (collections t)))) >>>
    stmt (on_sync id.1 (λ r, set_pending (cs_pending r || changed) r)) >>>
    stmt (λ t, Some (with_collections t (alter prune_row id (collections t))))).
Definition publishOneCollection (id : nat * string) (gen : Z) : M unit :=
  publish_one_tx id gen >>> flushCollectionInvalidation id.1.

Definition or_empty (s : option string) : string := default "" s.
(** The published row of a rating key of the server. *)
Definition find_published (server ratingKey : string) (t : tables) : option ((nat * string) * collection_row) :=
  head (filter (λ e, e.1.2 = ratingKey ∧ co_server e.2 = server ∧ is_Some (co_published e.2)) (map_to_list (collections t))).
Definition collection_of (ratingKey : string) (c : collection_cols) : collectionJSON :=
  mkCollectionJSON ratingKey (or_empty (cc_key c)) (cc_title c) (or_empty (cc_sort c)) (or_empty (cc_summary c)) (or_empty (cc_thumb c))
    (or_empty (cc_art c)) (if cc_smart c then "true" else "false").

(** [inFlight]: taken for the time of a pass. *)
Definition single_flight (body : M unit) : M unit := λ s,
  if inFlight (mem s) then (s, Err "sync: another sync is already running")
  else
    let '(s', r) := body (set_mem s (mkMemory true (dirty (mem s)) (collectionsDirty (mem s)))) in
    (set_mem s' (mkMemory false (dirty (mem s')) (collectionsDirty (mem s'))), r).
Definition ownerToken : M string := λ s,
  match OwnerToken_at (steps s) with
  | Some t => (tick s, Ok t) | None => (tick s, Err "sync: no owner credential (onboarding incomplete)") end.
Definition enabledServer : M string := λ s,
  match fate_at (steps s), enabled_at (steps s) with
  | Works, Some id => (tick s, Ok id) | _, _ => (tick s, Err "sync: no enabled server") end.

Definition SyncCollectionOnce (ratingKey : string) : M unit :=
  if ratingKey =s "" then fail "sync: collection ratingKey required"
  else single_flight (
    ownerToken >>> server <-- enabledServer;
    found <-- query_row (find_published server ratingKey);
    gen <-- nextval;
    stageCollection server found.1.1 (collection_of ratingKey (co_cols found.2)) gen >>>
    publishOneCollection found.1 gen).

(** ** What a listing was collected from *)

(** The pages answered by the origin, from the entries [acc] on. *)
Inductive Collected {A} (path : string) (decode : string → option (container A)) : list A → Z → list A → Prop :=
| collected_last acc e n raw p e' :
    GetJSON_at n (collectionURL path (count acc) collectionPageSize) = Ok raw → decode raw = Some p →
    collectionPageComplete (count acc) collectionPageSize (count (pg_metadata p)) (pg_size p) (pg_offset p) (pg_total p) e = Ok (true, e') →
    Collected path decode acc e (acc ++ pg_metadata p)
| collected_more acc e n raw p e' out :
    GetJSON_at n (collectionURL path (count acc) collectionPageSize) = Ok raw → decode raw = Some p →
    collectionPageComplete (count acc) collectionPageSize (count (pg_metadata p)) (pg_size p) (pg_offset p) (pg_total p) e = Ok (false, e') →
    Collected path decode (acc ++ pg_metadata p) e' out → Collected path decode acc e out.

Lemma visit_all_holds {A} (key : A → string) visit (I : list A → St → Prop) (E : St → Prop) l acc s :
  (∀ acc s, I acc s → E s) →
  (∀ acc x s, I acc s → key x ≠ "" → key x ∉ key <$> acc → holds (visit (count acc) x) s (λ s' _, I (acc ++ [x]) s') E) →
  I acc s → holds (visit_all key visit acc l) s (λ s' out, out = acc ++ l ∧ I out s') E.
Proof.
  intros HE Hv. revert acc s. induction l as [|x l IH]; intros acc s HI; cbn [visit_all].
  - apply holds_ret. by rewrite app_nil_r.
  - destruct (String.eqb_spec (key x) "") as [|Hne]; cbn [orb]; [apply holds_fail; by eapply HE|].
    case_bool_decide as Hin; [apply holds_fail; by eapply HE|].
    eapply holds_bind; [by apply Hv|]. cbn beta. intros s' _ HI'. eapply holds_mono; [by apply IH|].
    intros s2 out [-> HI2]. by rewrite <- app_assoc in *.
Qed.

Lemma scan_holds {A} fuel path decode (key : A → string) visit (I : list A → St → Prop) (E : St → Prop) acc e s :
  (∀ acc s, I acc s → I acc (tick s)) → (∀ acc s, I acc s → E s) →
  (∀ acc x s, I acc s → key x ≠ "" → key x ∉ key <$> acc → holds (visit (count acc) x) s (λ s' _, I (acc ++ [x]) s') E) →
  I acc s → holds (scan fuel path decode key visit acc e) s (λ s' out, I out s' ∧ Collected path decode acc e out) E.
Proof.
  intros Htick HE Hv. revert acc e s. induction fuel as [|fuel IH]; intros acc e s HI; cbn [scan]; [apply holds_fail; by eapply HE|].
  apply holds_bind with (R1 := λ s' raw, I acc s' ∧ ∃ n, GetJSON_at n (collectionURL path (count acc) collectionPageSize) = Ok raw).
  { apply holds_GetJSON; [intros raw Hraw; split; [by apply Htick|by eexists]|]. eapply HE. by apply Htick. }
  intros s1 raw [HI1 [n Hn]]. destruct (decode raw) as [p|] eqn:Ed; [|apply holds_fail; by eapply HE].
  destruct (collectionPageComplete _ _ _ _ _ _ _) as [[done e']| |] eqn:Ep; [|apply holds_fail; by eapply HE..].
  eapply holds_bind; [by apply (visit_all_holds key visit I E)|]. cbn beta. intros s2 out [-> HI2]. destruct done.
  - apply holds_ret. split; [done|]. by eapply collected_last.
  - eapply holds_mono; [by apply IH|]. intros s3 out [HI3 Hc]. split; [done|]. by eapply collected_more.
Qed.

(** ** What readers see, and the invariant *)

Definition member_rows (l : list collectionMember) : gmap Z member_row := kmap Z.of_nat (map_seq 0 (member_of <$> l)).
Definition published (t : tables) (library : nat) (ratingKey : string) : option (collection_cols * gmap Z member_row) :=
  c ← collections t !! (library, ratingKey); sn ← published_snapshot c; Some (co_cols c, sn_members sn).
Definition pending (t : tables) (library : nat) : bool :=
  match collection_syncs t !! library with Some r => cs_pending r | None => false end.

Definition snapshot_ok (sn : snapshot) : Prop :=
  sn_completed sn ≠ None → ∃ l, sn_hash sn = Some (content_hash (sn_metadata sn) l) ∧ sn_members sn = member_rows l.
Record row_ok (seq : Z) (c : collection_row) : Prop := {
  ro_catalog : 0 <= co_catalog c <= seq;
  ro_snapshots : ∀ g sn, co_snapshots c !! g = Some sn → g <= seq ∧ snapshot_ok sn;
  ro_published : ∀ g, co_published c = Some g →
    ∃ sn, co_snapshots c !! g = Some sn ∧ sn_completed sn ≠ None ∧ co_cols c = cols_of (sn_metadata sn);
}.
(** Published snapshots are complete, and generations are never reused. *)
Record coll_ok (t : tables) : Prop := {
  ok_seq : 0 <= generation_seq t;
  ok_rows : ∀ id c, collections t !! id = Some c → row_ok (generation_seq t) c ∧ is_Some (collection_syncs t !! id.1);
}.

Lemma member_rows_snoc l m : member_rows (l ++ [m]) = <[count l := member_of m]> (member_rows l).
Proof.
  unfold member_rows, count. rewrite fmap_app. cbn [fmap list_fmap]. rewrite map_seq_snoc, (kmap_insert Z.of_nat).
  by rewrite length_fmap.
Qed.

Lemma row_ok_mono seq seq' c : seq <= seq' → row_ok seq c → row_ok seq' c.
Proof.
  intros Hle [H1 H2 H3]. split; [lia| |done]. intros g sn Hg. destruct (H2 g sn Hg). split; [lia|done].
Qed.

(** ** Staging *)

Definition staging_row (gen : Z) (o o' : option collection_row) : Prop :=
  match o, o' with
  | Some c, Some c' => c' = with_snapshots c (co_snapshots c') ∧ ∀ g, g ≠ gen → co_snapshots c' !! g = co_snapshots c !! g
  | None, Some c' => co_published c' = None ∧ co_catalog c' = 0 ∧ ∀ g, g ≠ gen → co_snapshots c' !! g = None
  | None, None => True
  | Some _, None => False
  end.
(** The library items and their cursors are not touched. *)
Record same_items (s s' : St) : Prop := {
  si_items : items (db s') = items (db s); si_libraries : libraries (db s') = libraries (db s);
  si_cursors : cursors (db s') = cursors (db s); si_next : next_library (db s') = next_library (db s);
}.
#[global] Instance same_items_preorder : PreOrder same_items.
Proof. split; [by intros s|]. intros a b c [] []. split; congruence. Qed.

(** Everything done under generation [gen] since [s0]. *)
Record staging (s0 : St) (gen : Z) (s : St) : Prop := {
  sg_items : same_items s0 s;
  sg_syncs : collection_syncs (db s) = collection_syncs (db s0);
  sg_seq : generation_seq (db s) = gen;
  sg_flushes : flushes s = flushes s0;
  sg_rows : ∀ id, staging_row gen (collections (db s0) !! id) (collections (db s) !! id);
  sg_ok : coll_ok (db s);
}.

Lemma staging_tick s0 gen s : staging s0 gen s → staging s0 gen (tick s).
Proof. intros [[] ? ? ? ? ?]. split; [by split|done..]. Qed.

Lemma staging_set s0 gen s id c :
  staging s0 gen s → is_Some (collection_syncs (db s0) !! id.1) → staging_row gen (collections (db s0) !! id) (Some c) → row_ok gen c →
  staging s0 gen (set_db (tick s) (with_collections (db s) (<[id := c]> (collections (db s))))).
Proof.
  intros [[] Hsy Hse ? Hrows Hok] Hlib Hrow Hc. split; cbn; try done.
  - intros id'. destruct (decide (id = id')) as [<-|Hne]; [by rewrite lookup_insert_eq|]. rewrite (lookup_insert_ne (collections (db s))) by done. apply Hrows.
  - split; cbn; [apply Hok|]. intros id' c'. destruct (decide (id = id')) as [<-|Hne].
    + rewrite lookup_insert_eq. intros [= <-]. rewrite Hse, Hsy. done.
    + rewrite lookup_insert_ne by done. apply Hok.
Qed.

Lemma staging_row_snap gen o c m :
  staging_row gen o (Some c) → (∀ g, g ≠ gen → m !! g = co_snapshots c !! g) → staging_row gen o (Some (with_snapshots c m)).
Proof.
  destruct o as [c0|]; cbn.
  - intros [-> Hs] Hm. split; [done|]. intros g Hg. cbn in *. rewrite Hm by done. by apply Hs.
  - intros (H1 & H2 & H3) Hm. split; [done|]. split; [done|]. intros g Hg. rewrite Hm by done. by apply H3.
Qed.

Lemma find_snapshot_set t id c id' gen :
  find_snapshot id' gen (with_collections t (<[id := c]> (collections t))) =
  if decide (id' = id) then co_snapshots c !! gen else find_snapshot id' gen t.
Proof.
  unfold find_snapshot. cbn. destruct (decide (id' = id)) as [->|Hne]; [by rewrite lookup_insert_eq|]. by rewrite lookup_insert_ne.
Qed.

(** The snapshot of [id] is [o], and those of the others are as [F] says. *)
Definition stage_at (s0 : St) (gen : Z) (F : nat * string → option snapshot) (id : nat * string) (o : option snapshot) (s : St) : Prop :=
  staging s0 gen s ∧ is_Some (collections (db s) !! id) ∧ find_snapshot id gen (db s) = o ∧
  ∀ id', id' ≠ id → find_snapshot id' gen (db s) = F id'.

Lemma stage_at_tick s0 gen F id o s : stage_at s0 gen F id o s → stage_at s0 gen F id o (tick s).
Proof. intros [Hs H]. split; [by apply staging_tick|done]. Qed.

(** Writing the snapshot of [id]. *)
Lemma stage_at_write s0 gen F id o s c sn :
  is_Some (collection_syncs (db s0) !! id.1) → stage_at s0 gen F id o s → collections (db s) !! id = Some c → snapshot_ok sn →
  co_published c ≠ Some gen →
  stage_at s0 gen F id (Some sn)
    (set_db (tick s) (with_collections (db s) (<[id := with_snapshots c (<[gen := sn]> (co_snapshots c))]> (collections (db s))))).
Proof.
  intros Hlib (Hs & _ & _ & HF) Hc Hsn Hpub. destruct (ok_rows _ (sg_ok _ _ _ Hs) id c Hc) as [[H1 H2 H3] _]. rewrite (sg_seq _ _ _ Hs) in *.
  split; [|split; [|split]].
  - apply staging_set; [done|done| |].
    + pose proof (sg_rows _ _ _ Hs id) as Hrow. rewrite Hc in Hrow. apply staging_row_snap; [done|]. intros g Hg. by rewrite lookup_insert_ne.
    + split; cbn; [done| |].
      * intros g sn'. destruct (decide (gen = g)) as [<-|Hg]; [rewrite lookup_insert_eq; by intros [= <-]|].
        rewrite lookup_insert_ne by done. apply H2.
      * intros g Hg. destruct (H3 g Hg) as (sn' & Hsn' & H). exists sn'. rewrite lookup_insert_ne by congruence. done.
  - cbn. by rewrite lookup_insert_eq.
  - cbn [db set_db]. rewrite find_snapshot_set, decide_True by done. cbn. by rewrite lookup_insert_eq.
  - intros id' Hne. cbn [db set_db]. rewrite find_snapshot_set, decide_False by done. by apply HF.
Qed.

(** ** What a pass over the collections of a library may do *)

(** [W] is what a newly published catalog satisfies; a change of what is
    published is pending until the caches were invalidated. *)
Record after_sync (library : nat) (W : tables → Prop) (s s' : St) : Prop := {
  as_items : same_items s s';
  as_ok : coll_ok (db s');
  as_other : ∀ l rk, l ≠ library → published (db s') l rk = published (db s) l rk;
  as_view : (∀ rk, published (db s') library rk = published (db s) library rk) ∨
            (W (db s') ∧ (pending (db s') library = true ∨ (flushes s < flushes s')%nat));
  as_pending : ∀ l, pending (db s) l = true → pending (db s') l = true ∨ (flushes s < flushes s')%nat;
  as_flushes : (flushes s <= flushes s')%nat;
}.
(** A property of what is published. *)
Definition of_published (W : tables → Prop) : Prop := ∀ t t', (∀ l rk, published t' l rk = published t l rk) → W t → W t'.

Lemma after_sync_step library W s0 s s' :
  of_published W → after_sync library W s0 s → same_items s s' → coll_ok (db s') →
  (∀ l rk, published (db s') l rk = published (db s) l rk) → (flushes s <= flushes s')%nat →
  (∀ l, pending (db s) l = true → pending (db s') l = true) ∨ (flushes s0 < flushes s')%nat → after_sync library W s0 s'.
Proof.
  intros HW [] Hi Hok Hp Hf Hpend. split; [by etrans|done| | | |lia].
  - intros l rk Hl. rewrite Hp. auto.
  - destruct as_view0 as [Hv|[Hv Hv']]; [left; intros rk; by rewrite Hp|right]. split; [by eapply HW|].
    destruct Hpend as [Hpend|]; [|by right]. destruct Hv'; [left; auto|right; lia].
  - intros l Hl. destruct Hpend as [Hpend|]; [|by right]. destruct (as_pending0 l Hl); [left; auto|right; lia].
Qed.

Lemma after_sync_tick library W s0 s : of_published W → after_sync library W s0 s → after_sync library W s0 (tick s).
Proof. intros HW Hs. eapply after_sync_step; [done|exact Hs|by split|apply Hs|done|done|by left]. Qed.

Lemma coll_ok_on_sync library f t : coll_ok t → coll_ok (with_syncs t (alter f library (collection_syncs t))).
Proof.
  intros [H1 H2]. split; [done|]. intros id c Hc. destruct (H2 id c Hc) as [Hr Hs]. split; [done|]. cbn.
  destruct (decide (library = id.1)) as [->|Hne]; [rewrite lookup_alter_eq; by apply fmap_is_Some|by rewrite lookup_alter_ne].
Qed.

Lemma pending_on_sync library f t l :
  (∀ r, cs_pending r = true → cs_pending (f r) = true) → pending t l = true →
  pending (with_syncs t (alter f library (collection_syncs t))) l = true.
Proof.
  intros Hf. unfold pending. cbn. destruct (decide (library = l)) as [->|Hne]; [rewrite lookup_alter_eq|by rewrite lookup_alter_ne].
  destruct (collection_syncs t !! l); cbn; [apply Hf|done].
Qed.

(** Flushing the pending invalidation. *)
Lemma flush_holds library W s0 s :
  of_published W → after_sync library W s0 s → W (db s) →
  holds (flushCollectionInvalidation library) s
    (λ s' _, after_sync library W s0 s' ∧ W (db s') ∧ (hooked = true → pending (db s') library = false)) (after_sync library W s0).
Proof.
  intros HW Hs Hw. unfold flushCollectionInvalidation.
  apply holds_bind with (R1 := λ s' b, after_sync library W s0 s' ∧ db s' = db s ∧ pending (db s) library = b).
  { apply holds_query_row; [|by apply after_sync_tick]. intros b Hb. split; [by apply after_sync_tick|]. split; [done|].
    unfold pending. by destruct (collection_syncs (db s) !! library); cbn in Hb; [injection Hb as <-|]. }
  intros s1 b (Hs1 & Hdb & Hb). destruct (b && hooked) eqn:Eb.
  2:{ apply holds_ret. split; [done|]. rewrite Hdb. split; [done|]. intros Hh. rewrite Hb. by destruct b, hooked. }
  apply holds_bind with (R1 := λ s' _, after_sync library W s0 s' ∧ db s' = db s ∧ (flushes s0 < flushes s')%nat).
  { assert (Hst : ∀ s', db s' = db s1 → flushes s' = S (flushes s1) → after_sync library W s0 s' ∧ (flushes s0 < flushes s')%nat).
    { intros s' Hd Hf. pose proof (as_flushes _ _ _ _ Hs1). assert (flushes s0 < flushes s')%nat by lia. split; [|done].
      eapply after_sync_step; [done|exact Hs1|split; by rewrite Hd|rewrite Hd; apply Hs1|intros; by rewrite Hd|lia|by right]. }
    unfold holds, invalidate. set (s' := mkSt _ _ _ _). destruct (Hst s' eq_refl eq_refl) as [H1 H2].
    destruct (invalidate_at (steps s1)); [done|by apply after_sync_tick|done]. }
  intros s2 _ (Hs2 & Hdb2 & Hf2). apply holds_stmt; [|by apply after_sync_tick]. intros t [= <-].
  assert (Hst : after_sync library W s0 (set_db (tick s2) (with_syncs (db s2) (alter (set_pending false) library (collection_syncs (db s2)))))).
  { eapply after_sync_step; [done|exact Hs2|by split|apply coll_ok_on_sync, Hs2|done|done|by right]. }
  split; [|done]. split; [done|]. split; [eapply HW; [|exact Hw]; cbn; by rewrite Hdb2|].
  intros _. unfold pending. cbn. rewrite lookup_alter_eq. by destruct (collection_syncs (db s2) !! library).
Qed.

Section run.
Variables (s0 : St) (gen : Z).
Hypothesis (Hok0 : coll_ok (db s0)) (Hgen : gen = generation_seq (db s0) + 1).

Lemma published_before c g : (∃ id, collections (db s0) !! id = Some c) → co_published c = Some g → g ≠ gen.
Proof. intros [id Hc] Hg. destruct (ok_rows _ Hok0 id c Hc) as [[_ H2 H3] _]. destruct (H3 g Hg) as (sn & Hsn & _). apply H2 in Hsn as [? _]. lia. Qed.

Lemma staging_unpublished s id c : staging s0 gen s → collections (db s) !! id = Some c → co_published c ≠ Some gen.
Proof.
  intros Hs Hc. pose proof (sg_rows _ _ _ Hs id) as Hrow. rewrite Hc in Hrow. destruct (collections (db s0) !! id) as [c0|] eqn:E; cbn in Hrow.
  - destruct Hrow as [-> _]. cbn. intros Hg. by eapply published_before; [eexists|exact Hg|].
  - destruct Hrow as [-> _]. done.
Qed.

(** Staging does not show. *)
Lemma staging_published s library ratingKey : staging s0 gen s → published (db s) library ratingKey = published (db s0) library ratingKey.
Proof.
  intros Hs. pose proof (sg_rows _ _ _ Hs (library, ratingKey)) as Hrow. unfold published, published_snapshot.
  destruct (collections (db s0) !! (library, ratingKey)) as [c0|] eqn:E0, (collections (db s) !! (library, ratingKey)) as [c|] eqn:E;
    cbn in Hrow |- *; [|done| |done].
  - destruct Hrow as [-> Hs0]. cbn. destruct (co_published c0) as [g|] eqn:Eg; cbn; [|done].
    rewrite Hs0; [done|]. eapply published_before; [by eexists|done].
  - destruct Hrow as [-> _]. done.
Qed.

Lemma update_snapshot_stage F id sn s f t :
  is_Some (collection_syncs (db s0) !! id.1) → stage_at s0 gen F id (Some sn) s → snapshot_ok (f sn) →
  update_snapshot id gen f (db s) = Some t → stage_at s0 gen F id (Some (f sn)) (set_db (tick s) t).
Proof.
  intros Hlib Hst Hsn [= <-]. pose proof Hst as (Hs & [c Hc] & Hfind & HF).
  unfold find_snapshot in Hfind. rewrite Hc in Hfind. cbn in Hfind.
  assert (alter (λ c, with_snapshots c (alter f gen (co_snapshots c))) id (collections (db s)) =
    <[id := with_snapshots c (<[gen := f sn]> (co_snapshots c))]> (collections (db s))) as ->.
  { apply map_eq. intros id'. destruct (decide (id = id')) as [<-|Hne].
    - rewrite lookup_alter_eq, lookup_insert_eq, Hc. cbn. do 2 f_equal. apply map_eq. intros g.
      destruct (decide (gen = g)) as [<-|Hg]; [by rewrite lookup_alter_eq, lookup_insert_eq, Hfind|by rewrite lookup_alter_ne, lookup_insert_ne].
    - by rewrite lookup_alter_ne, lookup_insert_ne. }
  eapply stage_at_write; [done|exact Hst|done|done|]. by eapply staging_unpublished.
Qed.

Definition finished (started completed : Z) (md : collectionMetadata) (l : list collectionMember) : snapshot :=
  mkSnapshot started (Some completed) (count l) (Some (content_hash md l)) md (member_rows l).
Definition unfinished (started : Z) (md : collectionMetadata) (l : list collectionMember) : snapshot :=
  mkSnapshot started None 0 None md (member_rows l).
Definition children (ratingKey : string) (l : list collectionMember) : Prop := Collected (children_path ratingKey) decode_children [] (-1) l.
(** A catalog entry was staged whole. *)
Definition staged_entry (library : nat) (c : collectionJSON) (o : option snapshot) : Prop :=
  ∃ md l started completed, collectionDisplayMetadata c = Some md ∧ children (cj_ratingKey c) l ∧ o = Some (finished started completed md l).

Lemma stageCollection_holds server library c s F :
  is_Some (collection_syncs (db s0) !! library) → staging s0 gen s →
  find_snapshot (library, cj_ratingKey c) gen (db s) = None → (∀ id', id' ≠ (library, cj_ratingKey c) → find_snapshot id' gen (db s) = F id') →
  holds (stageCollection server library c gen) s
    (λ s' _, ∃ o, stage_at s0 gen F (library, cj_ratingKey c) o s' ∧ staged_entry library c o) (staging s0 gen).
Proof.
  intros Hlib Hs Hnone HF. unfold stageCollection. destruct (collectionDisplayMetadata c) as [md|] eqn:Emd; [|by apply holds_fail].
  cbv zeta. set (id := (library, cj_ratingKey c)) in *.
  apply holds_bind with (R1 := λ s' _, stage_at s0 gen F id None s').
  { apply holds_stmt; [|by apply staging_tick]. intros t. unfold insert_collection. destruct (collections (db s) !! id) as [c0|] eqn:Ec.
    - intros [= <-]. assert (Hst : stage_at s0 gen F id None (tick s)) by (apply stage_at_tick; split; [done|]; split; [by rewrite Ec|done]).
      destruct s. split; [exact Hst|by apply Hst].
    - intros [= <-]. match goal with |- stage_at _ _ _ _ _ ?s' ∧ _ => assert (Hst : staging s0 gen s') end.
      { apply staging_set; [done|done| |].
        - pose proof (sg_rows _ _ _ Hs id) as Hrow. rewrite Ec in Hrow. by destruct (collections (db s0) !! id).
        - pose proof (ok_seq _ Hok0). split; cbn; [lia|done|done]. }
      split; [|done]. split; [done|]. cbn [db set_db]. split; [cbn; by rewrite lookup_insert_eq|].
      split; [by rewrite find_snapshot_set, decide_True|]. intros id' Hne. rewrite find_snapshot_set, decide_False by done. by apply HF. }
  intros s1 _ Hs1. apply holds_bind with (R1 := λ s' _, stage_at s0 gen F id None s').
  { apply holds_query_row; [intros a _; by apply stage_at_tick|]. apply staging_tick, Hs1. }
  intros s2 _ Hs2. apply holds_bind with (R1 := λ s' _, ∃ started, stage_at s0 gen F id (Some (unfinished started md [])) s').
  { apply holds_stmt_at; [|by apply staging_tick, Hs2]. intros t. unfold insert_snapshot.
    destruct (collections (db s2) !! id) as [c2|] eqn:Ec2; cbn [mbind option_bind]; [|done].
    destruct (co_snapshots c2 !! gen); [done|]. intros [= <-].
    assert (Hst : stage_at s0 gen F id (Some (unfinished (now_at (steps s2)) md []))
      (set_db (tick s2) (with_collections (db s2) (<[id := with_snapshots c2 (<[gen := unfinished (now_at (steps s2)) md []]> (co_snapshots c2))]> (collections (db s2)))))).
    { eapply stage_at_write; [done|exact Hs2|done|by intros []|]. eapply staging_unpublished; [apply Hs2|done]. }
    split; [by eexists|apply Hst]. }
  intros s3 _ [started Hs3].
  eapply holds_bind.
  { apply (scan_holds page_bound (children_path (cj_ratingKey c)) decode_children me_ratingKey _
      (λ acc s', stage_at s0 gen F id (Some (unfinished started md acc)) s') (staging s0 gen) [] (-1) s3); [|by intros acc s' []| |done].
    - intros acc s'. apply stage_at_tick.
    - intros acc m s' Hs' Hne Hnew. apply holds_stmt; [|by apply staging_tick, Hs']. intros t. unfold insert_member.
      pose proof Hs' as (_ & _ & -> & _). cbn [mbind option_bind]. case_match; [done|]. intros Ht.
      assert (Hst : stage_at s0 gen F id (Some (unfinished started md (acc ++ [m]))) (set_db (tick s') t)).
      { unfold unfinished. rewrite member_rows_snoc.
        apply (update_snapshot_stage F id (unfinished started md acc) s'
          (λ sn, mkSnapshot (sn_started sn) (sn_completed sn) (sn_count sn) (sn_hash sn) (sn_metadata sn) (<[count acc := member_of m]> (sn_members sn)))); [done|done| |done].
        by intros []. }
      split; [done|apply Hst]. }
  cbn beta. intros s4 members [Hs4 Hl]. apply holds_stmt_at; [|by apply staging_tick, Hs4]. intros t Ht. unfold complete_snapshot in Ht.
  assert (Hst : stage_at s0 gen F id (Some (finished started (now_at (steps s4)) md members)) (set_db (tick s4) t)).
  { pose proof (λ H, update_snapshot_stage F id (unfinished started md members) s4 _ t Hlib Hs4 H Ht) as Hup. apply Hup.
    intros _. by exists members. }
  split; [|apply Hst]. eexists. split; [exact Hst|]. by exists md, members, started, (now_at (steps s4)).
Qed.

(** *** The catalog *)

Definition catalog_inv (library : nat) (acc : list collectionJSON) (s : St) : Prop :=
  staging s0 gen s ∧
  (∀ id, id.1 ≠ library ∨ id.2 ∉ cj_ratingKey <$> acc → find_snapshot id gen (db s) = None) ∧
  ∀ c, c ∈ acc → staged_entry library c (find_snapshot (library, cj_ratingKey c) gen (db s)).

Lemma fresh_snapshot s id : collections (db s) = collections (db s0) → find_snapshot id gen (db s) = None.
Proof.
  intros Hc. unfold find_snapshot. rewrite Hc. destruct (collections (db s0) !! id) as [c|] eqn:E; cbn; [|done].
  destruct (co_snapshots c !! gen) eqn:Es; [|done]. destruct (ok_rows _ Hok0 id c E) as [[_ H2 _] _]. apply H2 in Es as [? _]. lia.
Qed.

Lemma catalog_scan_holds server library section s :
  is_Some (collection_syncs (db s0) !! library) → staging s0 gen s → collections (db s) = collections (db s0) →
  holds (scan page_bound (catalog_path section) decode_catalog cj_ratingKey (λ _ c, stageCollection server library c gen) [] (-1)) s
    (λ s' acc, catalog_inv library acc s' ∧ Collected (catalog_path section) decode_catalog [] (-1) acc) (staging s0 gen).
Proof.
  intros Hlib Hs Hc. apply scan_holds; [|by intros acc s' []| |].
  - intros acc s' [Hs' H]. split; [by apply staging_tick|done].
  - intros acc c s' (Hs' & Hnone & Hall) Hne Hnew. eapply holds_mono.
    { apply (stageCollection_holds server library c s' (λ id, find_snapshot id gen (db s'))); [done|done| |done]. apply Hnone. by right. }
    cbn beta. intros s2 _ (o & (Hs2 & _ & Ho & HF) & He). split; [done|]. split.
    + intros id Hid. rewrite HF; [apply Hnone|].
      * rewrite fmap_app, elem_of_app in Hid. tauto.
      * intros ->. destruct Hid as [Hid|Hid]; [done|]. apply Hid. rewrite fmap_app, elem_of_app. right. by apply list_elem_of_singleton.
    + intros c' [Hin|Hin]%elem_of_app.
      * rewrite HF; [by apply Hall|]. intros [= Heq]. apply Hnew. rewrite <- Heq. by apply list_elem_of_fmap_2.
      * apply list_elem_of_singleton in Hin as ->. by rewrite Ho.
  - split; [done|]. split; [intros id _; by apply fresh_snapshot|]. intros c Hin. by apply elem_of_nil in Hin.
Qed.

(** *** One row is published *)

Definition row_view (c : collection_row) : option (collection_cols * gmap Z member_row) :=
  sn ← published_snapshot c; Some (co_cols c, sn_members sn).

Hypothesis hash_injective : ∀ md l md' l', content_hash md l = content_hash md' l' → md = md' ∧ l = l'.

(** An equal hash is an equal published snapshot. *)
Lemma same_hash c md l :
  row_ok gen c → old_hash c = Some (content_hash md l) →
  ∃ g sn, co_published c = Some g ∧ co_snapshots c !! g = Some sn ∧ co_cols c = cols_of md ∧ sn_members sn = member_rows l ∧
    sn_metadata sn = md ∧ sn_completed sn ≠ None.
Proof.
  intros [_ H2 H3]. unfold old_hash, published_snapshot. destruct (co_published c) as [g|] eqn:Eg; cbn; [|done].
  destruct (H3 g eq_refl) as (sn & Hsn & Hdone & Hcols). rewrite Hsn. cbn. destruct (H2 g sn Hsn) as [_ Hok].
  destruct (Hok Hdone) as (l' & -> & Hm). intros Heq. apply (inj Some) in Heq as Heq.
  destruct (hash_injective _ _ _ _ Heq) as [<- <-]. by exists g, sn.
Qed.

Lemma publish_row_view catalog c started completed md l :
  0 <= catalog <= gen → row_ok gen c → co_snapshots c !! gen = Some (finished started completed md l) →
  let c' := prune_row (publish_row gen catalog c) in
  row_ok gen c' ∧ row_view c' = Some (cols_of md, member_rows l) ∧ (row_changed gen c = false → row_view c = row_view c').
Proof.
  intros Hcat Hok Hsn c'. subst c'. unfold publish_row, row_changed, row_view. rewrite Hsn. cbn [sn_completed finished sn_hash sn_metadata].
  pose proof (ro_snapshots _ _ Hok) as H2.
  case_bool_decide as Hh; cbn [negb].
  - destruct (same_hash c md l Hok (eq_sym Hh)) as (g & sn & Hg & Hs & Hcols & Hm & Hmd & Hdone).
    unfold prune_row, published_snapshot. cbn. rewrite Hg. cbn.
    assert (filter (λ e, Some e.1 = Some g) (co_snapshots c) !! g = Some sn) as Hf by (by apply map_lookup_filter_Some_2).
    rewrite Hf, Hs. cbn. rewrite Hm, Hcols. split; [|done]. split; cbn; [done| |].
    + intros g' sn' [Hg' _]%map_lookup_filter_Some. by apply H2.
    + intros g' [= <-]. exists sn. rewrite Hf. by subst md.
  - unfold prune_row, published_snapshot. cbn.
    assert (filter (λ e, Some e.1 = Some gen) (co_snapshots c) !! gen = Some (finished started completed md l)) as Hf by (by apply map_lookup_filter_Some_2).
    rewrite Hf. cbn. split; [|done]. split; cbn; [done| |].
    + intros g' sn' [Hg' _]%map_lookup_filter_Some. by apply H2.
    + intros g' [= <-]. eexists. rewrite Hf. split; [done|]. done.
Qed.

(** *** The transaction *)

(** The tables after the statements of the transaction. *)
Definition publish_tables (library : nat) (now : Z) (t : tables) : option tables :=
  t1 ← publish_rows library gen t; t2 ← delete_unlisted library gen t1;
  t3 ← mark_published library gen (changed_in library gen t) now t2; on_library library prune_row t3.

Lemma publish_tables_rows library now t t' :
  publish_tables library now t = Some t' →
  (∀ id, collections t' !! id =
     c ← collections t !! id;
     if bool_decide (id.1 = library)
     then let c' := publish_row gen gen c in if bool_decide (co_catalog c' = gen) then Some (prune_row c') else None
     else Some c) ∧
  collection_syncs t' = alter (λ r, mkCollectionSync gen (Some now) None (cs_pending r || changed_in library gen t)) library (collection_syncs t) ∧
  generation_seq t' = generation_seq t ∧
  (items t', libraries t', cursors t', next_library t') = (items t, libraries t, cursors t, next_library t).
Proof.
  intros [= <-]. cbn. split; [|done]. intros id. rewrite map_lookup_imap, map_lookup_filter, map_lookup_imap.
  destruct (collections t !! id) as [c|]; cbn; [|done]. case_bool_decide as Hl; cbn.
  - case_bool_decide as Hc; [rewrite option_guard_True by tauto|rewrite option_guard_False by tauto]; cbn; done.
  - rewrite option_guard_True by tauto. done.
Qed.

(** What a published catalog shows. *)
Definition publishes (library : nat) (acc : list collectionJSON) (t : tables) : Prop :=
  ∀ rk, (rk ∉ cj_ratingKey <$> acc → published t library rk = None) ∧
    ∀ c, c ∈ acc → cj_ratingKey c = rk →
      ∃ md l, collectionDisplayMetadata c = Some md ∧ children rk l ∧ published t library rk = Some (cols_of md, member_rows l).

Lemma published_view t library rk : published t library rk = collections t !! (library, rk) ≫= row_view.
Proof. done. Qed.

Lemma unlisted_catalog s id c : staging s0 gen s → collections (db s) !! id = Some c → co_catalog c ≠ gen.
Proof.
  intros Hs Hc. pose proof (sg_rows _ _ _ Hs id) as Hrow. rewrite Hc in Hrow. pose proof (ok_seq _ Hok0).
  destruct (collections (db s0) !! id) as [c0|] eqn:E; cbn in Hrow.
  - destruct Hrow as [-> _]. cbn. destruct (ok_rows _ Hok0 id c0 E) as [[H1 _ _] _]. lia.
  - destruct Hrow as (_ & -> & _). lia.
Qed.

(** The row of a catalog entry, and of anything else, after publication. *)
Lemma publish_listed library acc s now t' c :
  catalog_inv library acc s → publish_tables library now (db s) = Some t' → c ∈ acc →
  ∃ row row' md l, collections (db s) !! (library, cj_ratingKey c) = Some row ∧ collections t' !! (library, cj_ratingKey c) = Some row' ∧
    collectionDisplayMetadata c = Some md ∧ children (cj_ratingKey c) l ∧ row_ok gen row' ∧
    row_view row' = Some (cols_of md, member_rows l) ∧ (row_changed gen row = false → row_view row = row_view row').
Proof.
  intros (Hs & _ & Hall) Ht Hin. destruct (publish_tables_rows _ _ _ _ Ht) as (Hrows & _).
  destruct (Hall c Hin) as (md & l & st & ct & Hmd & Hl & Hfind). unfold find_snapshot in Hfind.
  destruct (collections (db s) !! (library, cj_ratingKey c)) as [row|] eqn:Erow; cbn in Hfind; [|done].
  destruct (ok_rows _ (sg_ok _ _ _ Hs) _ _ Erow) as [Hok _]. rewrite (sg_seq _ _ _ Hs) in Hok. pose proof (ok_seq _ Hok0).
  destruct (publish_row_view gen row st ct md l) as (H1 & H2 & H3); [lia|done|done|].
  exists row, (prune_row (publish_row gen gen row)), md, l. split; [done|]. split; [|by auto 7].
  rewrite Hrows, Erow. cbn. rewrite bool_decide_true by done. unfold publish_row. rewrite Hfind. cbn. by rewrite bool_decide_true.
Qed.

Lemma publish_unlisted library acc s now t' rk :
  catalog_inv library acc s → publish_tables library now (db s) = Some t' → rk ∉ cj_ratingKey <$> acc →
  collections t' !! (library, rk) = None ∧
  ∀ c, collections (db s) !! (library, rk) = Some c → row_changed gen c = true.
Proof.
  intros (Hs & Hnone & _) Ht Hrk. destruct (publish_tables_rows _ _ _ _ Ht) as (Hrows & _).
  specialize (Hnone (library, rk) (or_intror Hrk)). unfold find_snapshot in Hnone. rewrite Hrows.
  destruct (collections (db s) !! (library, rk)) as [c|] eqn:Ec; cbn in *; [|done].
  rewrite bool_decide_true by done. unfold publish_row, row_changed. rewrite Hnone. split; [|by intros ? [= <-]; rewrite Hnone].
  rewrite bool_decide_false; [done|]. by eapply unlisted_catalog.
Qed.

Lemma publish_other library s now t' id :
  publish_tables library now (db s) = Some t' → id.1 ≠ library → collections t' !! id = collections (db s) !! id.
Proof.
  intros Ht Hid. destruct (publish_tables_rows _ _ _ _ Ht) as (Hrows & _). rewrite Hrows, bool_decide_false by done.
  by destruct (collections (db s) !! id).
Qed.

Lemma publish_tables_spec library acc s now t' :
  is_Some (collection_syncs (db s0) !! library) → catalog_inv library acc s → publish_tables library now (db s) = Some t' →
  coll_ok t' ∧ publishes library acc t' ∧
  (∀ l rk, l ≠ library → published t' l rk = published (db s) l rk) ∧
  ((∀ rk, published t' library rk = published (db s) library rk) ∨ pending t' library = true) ∧
  (∀ l, pending (db s) l = true → pending t' l = true).
Proof.
  intros Hlib Hinv Ht. pose proof Hinv as (Hs & _). destruct (publish_tables_rows _ _ _ _ Ht) as (_ & Hsync & Hseq & _).
  assert (Hmem : ∀ rk, rk ∈ cj_ratingKey <$> acc → ∃ c, c ∈ acc ∧ cj_ratingKey c = rk).
  { intros rk (c & -> & Hc)%list_elem_of_fmap. by exists c. }
  split; [|split; [|split; [|split]]].
  - split; [rewrite Hseq; apply Hs|]. intros [l rk] c Hc. rewrite Hseq, (sg_seq _ _ _ Hs). destruct (decide (l = library)) as [->|Hl].
    + destruct (decide (rk ∈ cj_ratingKey <$> acc)) as [Hin|Hin].
      * destruct (Hmem rk Hin) as (cj & Hcj & <-). destruct (publish_listed _ _ _ _ _ _ Hinv Ht Hcj) as (row & row' & md & l & _ & Hr & _ & _ & Hok & _).
        rewrite Hr in Hc. injection Hc as <-. split; [done|]. rewrite Hsync. cbn. rewrite lookup_alter_eq, (sg_syncs _ _ _ Hs). by apply fmap_is_Some.
      * destruct (publish_unlisted _ _ _ _ _ _ Hinv Ht Hin) as [Hn _]. congruence.
    + rewrite (publish_other _ _ _ _ _ Ht) in Hc by done. destruct (ok_rows _ (sg_ok _ _ _ Hs) _ _ Hc) as [Hok Hsy].
      rewrite (sg_seq _ _ _ Hs) in Hok. split; [done|]. rewrite Hsync. cbn in *. by rewrite lookup_alter_ne.
  - intros rk. split.
    + intros Hrk. destruct (publish_unlisted _ _ _ _ _ _ Hinv Ht Hrk) as [Hn _]. by rewrite published_view, Hn.
    + intros c Hc <-. destruct (publish_listed _ _ _ _ _ _ Hinv Ht Hc) as (row & row' & md & l & _ & Hr & Hmd & Hl & _ & Hv & _).
      exists md, l. split; [done|]. split; [done|]. by rewrite published_view, Hr.
  - intros l rk Hl. rewrite !published_view, (publish_other _ _ _ _ _ Ht); done.
  - destruct (changed_in library gen (db s)) eqn:Ech.
    { right. unfold pending. rewrite Hsync, lookup_alter_eq, (sg_syncs _ _ _ Hs). destruct Hlib as [r ->]. cbn. by rewrite orb_true_r. }
    assert (Hsame : ∀ rk c, collections (db s) !! (library, rk) = Some c → row_changed gen c = false).
    { intros rk c Hc. apply not_true_iff_false. intros Htr. apply not_true_iff_false in Ech. apply Ech. unfold changed_in.
      apply existsb_exists. exists ((library, rk), c). split; [by apply list_elem_of_In, elem_of_map_to_list|].
      cbn. by rewrite bool_decide_true. }
    left. intros rk. rewrite !published_view. destruct (decide (rk ∈ cj_ratingKey <$> acc)) as [Hin|Hin].
    + destruct (Hmem rk Hin) as (cj & Hcj & <-). destruct (publish_listed _ _ _ _ _ _ Hinv Ht Hcj) as (row & row' & md & l & Hrow & Hr & _ & _ & _ & _ & Hv).
      rewrite Hrow, Hr. cbn. symmetry. apply Hv. by eapply Hsame.
    + destruct (publish_unlisted _ _ _ _ _ _ Hinv Ht Hin) as [-> Hch].
      destruct (collections (db s) !! (library, rk)) as [c|] eqn:Ec; [|done]. specialize (Hch c eq_refl). by rewrite (Hsame _ _ Ec) in Hch.
  - intros l. unfold pending. rewrite Hsync. destruct (decide (library = l)) as [<-|Hl]; [rewrite lookup_alter_eq|by rewrite lookup_alter_ne].
    destruct (collection_syncs (db s) !! library); cbn; [|done]. by intros ->.
Qed.

Lemma staging_db s s' : staging s0 gen s → db s' = db s → flushes s' = flushes s → staging s0 gen s'.
Proof. intros [[] ? ? ? ? ?] Hd Hf. split; rewrite ?Hd, ?Hf; [split; by rewrite Hd|done..]. Qed.

Lemma staging_after library W s : staging s0 gen s → after_sync library W s0 s.
Proof.
  intros Hs. split; [apply Hs|apply Hs|intros; by apply staging_published|left; intros; by apply staging_published| |by rewrite (sg_flushes _ _ _ Hs)].
  intros l Hl. left. unfold pending in *. by rewrite (sg_syncs _ _ _ Hs).
Qed.

Lemma publishes_of_published library acc : of_published (publishes library acc).
Proof. intros t t' Hp HW rk. rewrite Hp. apply HW. Qed.

Lemma publish_tx_holds library acc s :
  is_Some (collection_syncs (db s0) !! library) → catalog_inv library acc s →
  holds (publish_tx library gen) s
    (λ s' _, after_sync library (publishes library acc) s0 s' ∧ publishes library acc (db s')) (after_sync library (publishes library acc) s0).
Proof.
  intros Hlib Hinv. pose proof Hinv as (Hs & _). apply holds_transaction.
  { intros s' Hd Hf. apply staging_after. by eapply staging_db. }
  eapply holds_bind with (R1 := λ s' b, flushes s' = flushes s ∧ db s' = db s ∧ b = changed_in library gen (db s)).
  { by apply holds_query. }
  intros s1 b (Hf1 & Hd1 & ->). eapply holds_bind with (R1 := λ s' _, flushes s' = flushes s ∧ Some (db s') = publish_rows library gen (db s)).
  { apply holds_stmt; [|done]. intros t Ht. split; [split; [done|]|done]. cbn [db set_db]. by rewrite <- Hd1, Ht. }
  intros s2 _ (Hf2 & Hd2). eapply holds_bind with (R1 := λ s' _, flushes s' = flushes s ∧ Some (db s') = delete_unlisted library gen (db s2)).
  { apply holds_stmt; [|done]. intros t Ht. by rewrite Ht. }
  intros s3 _ (Hf3 & Hd3). eapply holds_bind with (R1 := λ s' _, flushes s' = flushes s ∧
    ∃ now, Some (db s') = mark_published library gen (changed_in library gen (db s)) now (db s3)).
  { apply holds_stmt_at; [|done]. intros t Ht. split; [|done]. split; [done|]. by exists (now_at (steps s3)). }
  intros s4 _ (Hf4 & now & Hd4). apply holds_stmt; [|done]. intros t Ht.
  assert (Hpub : publish_tables library now (db s) = Some t).
  { unfold publish_tables. rewrite <- Hd2. cbn [mbind option_bind]. rewrite <- Hd3. cbn [mbind option_bind]. by rewrite <- Hd4. }
  destruct (publish_tables_spec _ _ _ _ _ Hlib Hinv Hpub) as (H1 & H2 & H3 & H4 & H5).
  destruct (publish_tables_rows _ _ _ _ Hpub) as (_ & _ & _ & [= Hi1 Hi2 Hi3 Hi4]).
  assert (Hafter : after_sync library (publishes library acc) s0 (tick (set_db (tick s4) t))).
  { pose proof (staging_after library (publishes library acc) s Hs) as []. split; cbn; rewrite ?Hf4; try done.
    - etrans; [exact as_items0|]. split; cbn; congruence.
    - intros l rk Hl. rewrite H3 by done. auto.
    - destruct H4 as [H4|H4]; [left; intros rk; rewrite H4; by apply staging_published|right; by split; [|left]].
    - intros l Hl. left. apply H5. destruct (as_pending0 l Hl) as [|Hlt]; [done|]. rewrite (sg_flushes _ _ _ Hs) in Hlt. lia. }
  by split; [split|].
Qed.

(** *** Publishing one collection *)

Definition publish_one_tables (id : nat * string) (changed : bool) (t : tables) : tables :=
  with_syncs (with_collections t (alter (λ c, prune_row (publish_row gen (co_catalog c) c)) id (collections t)))
    (alter (λ r, set_pending (cs_pending r || changed) r) id.1 (collection_syncs t)).

(** Only collection [id] shows something new. *)
Definition publishes_one (id : nat * string) (cols : collection_cols) (t : tables) : Prop :=
  (∃ l, children id.2 l ∧ published t id.1 id.2 = Some (cols, member_rows l)) ∧
  ∀ rk, rk ≠ id.2 → published t id.1 rk = published (db s0) id.1 rk.
Lemma publishes_one_of_published id cols : of_published (publishes_one id cols).
Proof. intros t t' Hp [(l & Hl & Hv) Ho]. split; [exists l; by rewrite Hp|intros rk Hrk; rewrite Hp; auto]. Qed.

Lemma publish_one_spec id s c started completed md l :
  staging s0 gen s → collections (db s) !! id = Some c → children id.2 l →
  co_snapshots c !! gen = Some (finished started completed md l) →
  let t' := publish_one_tables id (row_changed gen c) (db s) in
  coll_ok t' ∧ publishes_one id (cols_of md) t' ∧
  (∀ l rk, (l, rk) ≠ id → published t' l rk = published (db s) l rk) ∧
  (published t' id.1 id.2 = published (db s) id.1 id.2 ∨ pending t' id.1 = true) ∧
  (∀ l, pending (db s) l = true → pending t' l = true).
Proof.
  intros Hs Hc Hl Hsn t'. destruct (ok_rows _ (sg_ok _ _ _ Hs) id c Hc) as [Hok [sy Hsy]]. rewrite (sg_seq _ _ _ Hs) in Hok.
  destruct (publish_row_view (co_catalog c) c started completed md l) as (H1 & H2 & H3); [apply Hok|done|done|].
  assert (Hid : collections t' !! id = Some (prune_row (publish_row gen (co_catalog c) c))).
  { subst t'. cbn. by rewrite lookup_alter_eq, Hc. }
  assert (Hne : ∀ id', id' ≠ id → collections t' !! id' = collections (db s) !! id').
  { intros id' Hne. subst t'. cbn. by rewrite lookup_alter_ne. }
  assert (Hother : ∀ l rk, (l, rk) ≠ id → published t' l rk = published (db s) l rk).
  { intros l' rk Hn. by rewrite !published_view, Hne. }
  assert (Hview : published t' id.1 id.2 = row_view (prune_row (publish_row gen (co_catalog c) c))).
  { rewrite published_view, <- surjective_pairing, Hid. done. }
  split; [|split; [|split; [done|split]]].
  - split; [apply Hs|]. intros id' c' Hc'. assert (is_Some (collection_syncs (db s) !! id'.1) → is_Some (collection_syncs t' !! id'.1)) as Hsy'.
    { subst t'. cbn. destruct (decide (id.1 = id'.1)) as [->|]; [rewrite lookup_alter_eq; by rewrite fmap_is_Some|by rewrite lookup_alter_ne]. }
    cbn [generation_seq]. subst t'. cbn [generation_seq publish_one_tables with_syncs with_collections]. rewrite (sg_seq _ _ _ Hs).
    destruct (decide (id' = id)) as [->|Hn].
    + rewrite Hid in Hc'. injection Hc' as <-. split; [done|]. apply Hsy'. by rewrite Hsy.
    + rewrite Hne in Hc' by done. destruct (ok_rows _ (sg_ok _ _ _ Hs) id' c' Hc') as [Hok' Hs']. rewrite (sg_seq _ _ _ Hs) in Hok'. auto.
  - split; [exists l; split; [done|]; by rewrite Hview|]. intros rk Hrk. rewrite Hother by (destruct id; cbn in *; congruence).
    by apply staging_published.
  - destruct (row_changed gen c) eqn:Ech.
    + right. subst t'. unfold pending. cbn. rewrite lookup_alter_eq, Hsy. cbn. by rewrite orb_true_r.
    + left. rewrite Hview, <- (H3 eq_refl), published_view, <- surjective_pairing, Hc. done.
  - intros l' Hl'. subst t'. apply (pending_on_sync _ _ (with_collections (db s) _)); [|done]. intros r Hr. cbn. by rewrite Hr.
Qed.

Lemma publish_one_tx_holds id s c started completed md l :
  staging s0 gen s → collections (db s) !! id = Some c → children id.2 l → co_snapshots c !! gen = Some (finished started completed md l) →
  holds (publish_one_tx id gen) s
    (λ s' _, after_sync id.1 (publishes_one id (cols_of md)) s0 s' ∧ publishes_one id (cols_of md) (db s'))
    (after_sync id.1 (publishes_one id (cols_of md)) s0).
Proof.
  intros Hs Hc Hl Hsn. apply holds_transaction.
  { intros s' Hd Hf. apply staging_after. by eapply staging_db. }
  eapply holds_bind with (R1 := λ s' b, flushes s' = flushes s ∧ db s' = db s ∧ b = row_changed gen c).
  { apply holds_query_row; [|done]. intros b. cbn [db tick]. rewrite Hc. cbn [mbind option_bind]. rewrite Hsn. cbn [mbind option_bind finished sn_completed].
    intros [= <-]. unfold row_changed. by rewrite Hsn. }
  intros s1 b (Hf1 & Hd1 & ->).
  eapply holds_bind with (R1 := λ s' _, flushes s' = flushes s ∧
    db s' = with_collections (db s) (alter (λ c, publish_row gen (co_catalog c) c) id (collections (db s)))).
  { apply holds_stmt; [|done]. intros t [= <-]. cbn. by rewrite Hd1. }
  intros s2 _ (Hf2 & Hd2). eapply holds_bind with (R1 := λ s' _, flushes s' = flushes s ∧
    db s' = with_syncs (db s2) (alter (λ r, set_pending (cs_pending r || row_changed gen c) r) id.1 (collection_syncs (db s2)))).
  { apply holds_stmt; [|done]. intros t [= <-]. done. }
  intros s3 _ (Hf3 & Hd3). apply holds_stmt; [|done]. intros t [= <-].
  match goal with |- context [set_db (tick s3) ?t'] => assert (t' = publish_one_tables id (row_changed gen c) (db s)) as -> end.
  { rewrite Hd3, Hd2. unfold publish_one_tables, with_syncs, with_collections. cbn. f_equal.
    apply map_eq. intros id'. destruct (decide (id = id')) as [<-|Hne]; [rewrite !lookup_alter_eq|by rewrite !lookup_alter_ne].
    by destruct (collections (db s) !! id). }
  destruct (publish_one_spec _ _ _ _ _ _ _ Hs Hc Hl Hsn) as (H1 & H2 & H3 & H4 & H5).
  assert (Hafter : after_sync id.1 (publishes_one id (cols_of md)) s0 (tick (set_db (tick s3) (publish_one_tables id (row_changed gen c) (db s))))).
  { pose proof (staging_after id.1 (publishes_one id (cols_of md)) s Hs) as []. split; cbn [flushes tick set_db]; rewrite ?Hf3; try done.
    - etrans; [exact as_items0|]. by split.
    - intros l' rk Hl'. cbn [db tick set_db]. rewrite H3 by (destruct id; cbn in *; congruence). auto.
    - cbn [db tick set_db]. destruct H4 as [H4|H4]; [left; intros rk|right; by split; [|left]].
      destruct (decide (rk = id.2)) as [->|Hn]; [rewrite H4; by apply staging_published|].
      rewrite H3 by (destruct id; cbn in *; congruence). by apply staging_published.
    - intros l' Hl'. left. cbn [db tick set_db]. apply H5. destruct (as_pending0 l' Hl') as [|Hlt]; [done|].
      rewrite (sg_flushes _ _ _ Hs) in Hlt. lia. }
  by split; [split|].
Qed.

End run.
(** ** The passes *)

Lemma after_sync_refl library W s s' : coll_ok (db s) → db s' = db s → flushes s' = flushes s → after_sync library W s s'.
Proof.
  intros Hok Hd Hf. split; rewrite ?Hd, ?Hf; try done; [split; by rewrite Hd|by left|by left].
Qed.

(** A step before the pass that does not show. *)
Lemma after_sync_pre library W s s1 s2 :
  same_items s s1 → (∀ l rk, published (db s1) l rk = published (db s) l rk) → (∀ l, pending (db s) l = true → pending (db s1) l = true) →
  flushes s1 = flushes s → after_sync library W s1 s2 → after_sync library W s s2.
Proof.
  intros Hi Hp Hpe Hf []. rewrite Hf in *. split; [by etrans|done| | | |done].
  - intros l rk Hl. rewrite <- Hp. auto.
  - destruct as_view0 as [Hv|Hv]; [left; intros rk; by rewrite Hv|right; done].
  - auto.
Qed.

Lemma after_sync_mono library (W W' : tables → Prop) s s' :
  (∀ t, W t → W' t) → after_sync library W s s' → after_sync library W' s s'.
Proof. intros HW []. split; try done. destruct as_view0 as [|[? ?]]; [by left|right; auto]. Qed.

Lemma nextval_holds library W s :
  coll_ok (db s) →
  holds nextval s (λ s' gen, gen = generation_seq (db s) + 1 ∧ staging s gen s' ∧ collections (db s') = collections (db s)) (after_sync library W s).
Proof.
  intros Hok. set (gen := generation_seq (db s) + 1).
  assert (Hst : staging s gen (set_db (tick s) (with_seq (db s) gen))).
  { split; cbn; try done.
    - intros id. by destruct (collections (db s) !! id) as [[]|].
    - destruct Hok as [H1 H2]. split; cbn; [subst gen; lia|]. intros id c Hc. destruct (H2 id c Hc) as [Hr Hs]. split; [|done].
      eapply row_ok_mono; [|exact Hr]. subst gen. lia. }
  unfold holds, nextval. fold gen. destruct (fate_at (steps s)); [done|by apply after_sync_refl|].
  split; cbn; try done; [apply Hst|by left|by left].
Qed.

Lemma prune_old_spec now t t' :
  coll_ok t → prune_old now t = Some t' → coll_ok t' ∧ ∀ l rk, published t' l rk = published t l rk.
Proof.
  intros [Hseq Hrows] [= <-].
  assert (Hpub : ∀ g c sn, co_published c = Some g → co_snapshots c !! g = Some sn →
    filter (λ e, ¬ (sn_started e.2 < now - week ∧ Some e.1 ≠ co_published c)) (co_snapshots c) !! g = Some sn).
  { intros g c sn Hg Hsn. apply map_lookup_filter_Some_2; [done|]. cbn. rewrite Hg. tauto. }
  split.
  - split; [done|]. intros id c. cbn. rewrite lookup_fmap. intros (c0 & Hc & ->)%fmap_Some. destruct (Hrows id c0 Hc) as [[H1 H2 H3] Hsy].
    split; [|done]. split; cbn; [done| |].
    + intros g sn [Hg _]%map_lookup_filter_Some. by apply H2.
    + intros g Hg. destruct (H3 g Hg) as (sn & Hsn & H). exists sn. by rewrite (Hpub g c0 sn).
  - intros l rk. unfold published. cbn. rewrite lookup_fmap. destruct (collections t !! (l, rk)) as [c|] eqn:Ec; cbn; [|done].
    unfold published_snapshot. cbn. destruct (co_published c) as [g|] eqn:Eg; cbn; [|done].
    destruct (Hrows _ c Ec) as [[_ _ H3] _]. destruct (H3 g Eg) as (sn & Hsn & _).
    pose proof (Hpub g c sn Eg Hsn) as Hf. rewrite Eg in Hf. by rewrite Hf, Hsn.
Qed.

Section passes.
Hypothesis hash_injective : ∀ md l md' l', content_hash md l = content_hash md' l' → md = md' ∧ l = l'.

(** The published catalog is one the origin listed, page by page. *)
Definition whole_catalog (s : sectionInfo) (t : tables) : Prop :=
  ∃ acc, Collected (catalog_path (SectionID s)) decode_catalog [] (-1) acc ∧ publishes (LibraryID s) acc t.
Lemma whole_of_published sec : of_published (whole_catalog sec).
Proof. intros t t' Hp (acc & Hc & HW). exists acc. split; [done|]. by eapply publishes_of_published. Qed.

Lemma sync_catalog_holds server sec s :
  coll_ok (db s) → is_Some (collection_syncs (db s) !! LibraryID sec) →
  holds (sync_catalog server sec) s
    (λ s' _, after_sync (LibraryID sec) (whole_catalog sec) s s' ∧ whole_catalog sec (db s') ∧
       (hooked = true → pending (db s') (LibraryID sec) = false))
    (after_sync (LibraryID sec) (whole_catalog sec) s).
Proof.
  intros Hok Hlib. unfold sync_catalog. eapply holds_bind; [by apply nextval_holds|]. cbn beta. intros s1 gen (Hgen & Hs1 & Hc1).
  eapply holds_bind with (R1 := λ s' acc, catalog_inv s gen (LibraryID sec) acc s' ∧ Collected (catalog_path (SectionID sec)) decode_catalog [] (-1) acc).
  { pose proof (catalog_scan_holds s gen Hok Hgen server (LibraryID sec) (SectionID sec) s1 Hlib Hs1 Hc1) as H.
    unfold holds in *. destruct (scan _ _ _ _ _ _ _ s1) as [s' [a|e|]]; [done|by apply (staging_after s gen)..]. }
  intros s2 acc [Hinv Hacc]. set (W := publishes (LibraryID sec) acc). set (V := whole_catalog sec).
  assert (HWV : ∀ t, W t → V t) by (intros t Ht; by exists acc).
  eapply holds_bind with (R1 := λ s' _, after_sync (LibraryID sec) V s s' ∧ V (db s') ∧ (hooked = true → pending (db s') (LibraryID sec) = false)).
  { unfold publishCollections. eapply holds_bind with (R1 := λ s' _, after_sync (LibraryID sec) V s s' ∧ V (db s')).
    - pose proof (publish_tx_holds s gen Hok Hgen hash_injective (LibraryID sec) acc s2 Hlib Hinv) as H.
      unfold holds in *. destruct (publish_tx _ _ s2) as [s' [a|e|]]; [destruct H as [H1 H2]; split; [|by apply HWV]| |]; by eapply after_sync_mono.
    - intros s3 _ [Hs3 Hv3]. apply flush_holds; [apply whole_of_published|done|done]. }
  intros s4 _ (Hs4 & Hv4 & Hp4). apply holds_stmt_at; [|apply after_sync_tick; [apply whole_of_published|done]]. intros t Ht.
  destruct (prune_old_spec _ _ _ (as_ok _ _ _ _ Hs4) Ht) as [Hokt Hpt].
  assert (Hsy : collection_syncs t = collection_syncs (db s4) ∧ same_items s4 (set_db (tick s4) t)) by (by injection Ht as <-).
  destruct Hsy as [Hsy Hsi]. assert (Hpe : ∀ l, pending t l = pending (db s4) l) by (intros l; unfold pending; by rewrite Hsy).
  assert (Hst : after_sync (LibraryID sec) V s (set_db (tick s4) t)).
  { eapply after_sync_step; [apply whole_of_published|exact Hs4|done|done|done|done|left; intros l; cbn; by rewrite Hpe]. }
  split; [|done]. split; [done|]. split; [by eapply (whole_of_published sec (db s4))|]. cbn. by rewrite Hpe.
Qed.

Lemma syncLibraryCollections_holds server sec s :
  coll_ok (db s) →
  holds (syncLibraryCollections server sec) s
    (λ s' _, after_sync (LibraryID sec) (whole_catalog sec) s s' ∧ whole_catalog sec (db s') ∧
       (hooked = true → pending (db s') (LibraryID sec) = false))
    (after_sync (LibraryID sec) (whole_catalog sec) s).
Proof.
  intros Hok. unfold syncLibraryCollections. pose proof (whole_of_published sec) as HW.
  eapply holds_bind with (R1 := λ s' _, coll_ok (db s') ∧ is_Some (collection_syncs (db s') !! LibraryID sec) ∧ same_items s s' ∧
    (∀ l rk, published (db s') l rk = published (db s) l rk) ∧ (∀ l, pending (db s') l = pending (db s) l) ∧ flushes s' = flushes s).
  { assert (Hins : ∀ t, insert_sync (LibraryID sec) (db s) = Some t → coll_ok t ∧ is_Some (collection_syncs t !! LibraryID sec) ∧
      collections t = collections (db s) ∧ same_items s (set_db (tick s) t) ∧ ∀ l, pending t l = pending (db s) l).
    { intros t. unfold insert_sync. destruct (collection_syncs (db s) !! LibraryID sec) as [r|] eqn:Er; intros [= <-].
      { split; [done|]. split; [by rewrite Er|]. split; [done|]. by split; [split|]. }
      cbn.
      split; [|split; [by rewrite lookup_insert_eq|split; [done|split; [by split|]]]].
      - destruct Hok as [H1 H2]. split; [done|]. intros id c Hc. destruct (H2 id c Hc) as [Hr Hs]. split; [done|]. cbn.
        rewrite lookup_insert_ne; [done|]. intros Heq. rewrite <- Heq, Er in Hs. by destruct Hs.
      - intros l. unfold pending. cbn. destruct (decide (LibraryID sec = l)) as [<-|Hl]; [by rewrite lookup_insert_eq, Er|by rewrite lookup_insert_ne]. }
    apply holds_stmt; [|by apply after_sync_refl]. intros t Ht. destruct (Hins t Ht) as (H1 & H2 & H3 & H4 & H5).
    assert (Hpub : ∀ l rk, published t l rk = published (db s) l rk) by (intros l rk; unfold published; by rewrite H3).
    split; [by auto 7|]. eapply after_sync_pre with (s1 := set_db (tick s) t); [done|done|intros l; cbn; by rewrite H5|done|by apply after_sync_refl]. }
  intros s1 _ (H1 & H2 & H3 & H4 & H5 & H6).
  assert (Hpre : ∀ s', after_sync (LibraryID sec) (whole_catalog sec) s1 s' → after_sync (LibraryID sec) (whole_catalog sec) s s').
  { intros s'. apply after_sync_pre; [done|done|intros l; by rewrite H5|done]. }
  eapply holds_mono.
  - eapply holds_catch with (E' := after_sync (LibraryID sec) (whole_catalog sec) s1); [by apply sync_catalog_holds| |done].
    intros e s' Hs'. apply Hpre. apply (holds_run _ s'). apply holds_bind with (R1 := λ s2 _, s2 = s'); [done|]. intros s2 [|] ->; [done|].
    apply holds_ignore. apply holds_stmt; [|split; by apply after_sync_tick]. intros t [= <-].
    match goal with |- (?P ∧ _) ∧ _ => assert P; [|done] end.
    eapply after_sync_step; [done|exact Hs'|by split|apply coll_ok_on_sync, Hs'|done|done|]. left. intros l. by apply pending_on_sync.
  - cbn beta. intros s' _ (Ha & Hb & Hc). auto.
Qed.

(** *** One collection *)

Lemma or_empty_nullIfEmpty x : or_empty (nullIfEmpty x) = x.
Proof. unfold nullIfEmpty. by destruct (String.eqb_spec x "") as [->|]. Qed.

Lemma display_of_cols rk md : collectionDisplayMetadata (collection_of rk (cols_of md)) = Some md.
Proof.
  unfold collectionDisplayMetadata, collection_of, cols_of. destruct md as [k ti ts su th ar sm]. cbn. rewrite !or_empty_nullIfEmpty.
  by destruct sm.
Qed.

Lemma find_published_spec server rk t id c :
  find_published server rk t = Some (id, c) → collections t !! id = Some c ∧ id.2 = rk ∧ is_Some (co_published c).
Proof.
  unfold find_published. intros H. apply head_Some_elem_of in H. apply list_elem_of_filter in H as [(H1 & _ & H2) H3].
  by apply elem_of_map_to_list in H3.
Qed.

Lemma refresh_one_holds server rk s :
  coll_ok (db s) →
  holds (found <-- query_row (find_published server rk); gen <-- nextval;
         stageCollection server found.1.1 (collection_of rk (co_cols found.2)) gen >>> publishOneCollection found.1 gen) s
    (λ s' _, ∃ lib cols m, published (db s) lib rk = Some (cols, m) ∧ after_sync lib (publishes_one s (lib, rk) cols) s s' ∧
       publishes_one s (lib, rk) cols (db s'))
    (λ s', ∃ lib cols, after_sync lib (publishes_one s (lib, rk) cols) s s').
Proof.
  intros Hok. pose proof (λ id cols, publishes_one_of_published s id cols) as HW.
  apply holds_bind with (R1 := λ s' found, s' = tick s ∧ collections (db s) !! found.1 = Some found.2 ∧ found.1.2 = rk ∧ is_Some (co_published found.2)).
  { apply holds_query_row; [|exists O, (no_cols ""); by apply after_sync_refl]. intros [id c] Hf. split; [done|]. by apply find_published_spec in Hf. }
  intros s1 [[lib rk'] c] (-> & Hc & Hrk & [g Hg]). cbn [fst snd] in *. subst rk'.
  destruct (ok_rows _ Hok _ _ Hc) as [[_ _ H3] Hlib]. destruct (H3 g Hg) as (sn & Hsn & Hdone & Hcols). cbn in Hlib.
  set (md := sn_metadata sn) in *. set (W := publishes_one s (lib, rk) (cols_of md)).
  assert (Hpub : published (db s) lib rk = Some (cols_of md, sn_members sn)).
  { unfold published, published_snapshot. rewrite Hc. cbn. rewrite Hg. cbn. rewrite Hsn. cbn. by rewrite Hcols. }
  assert (HE : ∀ s', after_sync lib W s s' → ∃ lib cols, after_sync lib (publishes_one s (lib, rk) cols) s s') by (intros s' H; by exists lib, (cols_of md)).
  eapply holds_bind with (R1 := λ s' gen, gen = generation_seq (db s) + 1 ∧ staging s gen s' ∧ collections (db s') = collections (db s)).
  { pose proof (nextval_holds lib W (tick s) Hok) as H. unfold holds in *. destruct (nextval (tick s)) as [s' [a|e|]].
    - destruct H as (H1 & [[] ? ? ? ? ?] & H4). split; [done|]. split; [|done]. by split; [split|..].
    - apply HE. by eapply after_sync_pre; [| | | |exact H].
    - apply HE. by eapply after_sync_pre; [| | | |exact H]. }
  intros s2 gen (Hgen & Hs2 & Hc2).
  eapply holds_bind with (R1 := λ s' _, staging s gen s' ∧ ∃ c' st ct l, collections (db s') !! (lib, rk) = Some c' ∧ children rk l ∧
    co_snapshots c' !! gen = Some (finished st ct md l)).
  { pose proof (stageCollection_holds s gen Hok Hgen server lib (collection_of rk (co_cols c)) s2 (λ id, find_snapshot id gen (db s2)) Hlib Hs2) as H.
    assert (Hfresh : find_snapshot (lib, rk) gen (db s2) = None) by (by apply (fresh_snapshot s gen Hok Hgen)).
    specialize (H Hfresh (λ _ _, eq_refl)). unfold holds in *. destruct (stageCollection _ _ _ _ s2) as [s' [[]|e|]]; [|apply HE; by apply (staging_after s gen)..].
    destruct H as (o & (Hst & [c' Hc'] & Ho & _) & md' & l & st & ct & Hmd & Hl & ->). rewrite Hcols, display_of_cols in Hmd. injection Hmd as <-.
    split; [done|]. exists c', st, ct, l. cbn in Hl. split; [done|]. split; [done|]. unfold find_snapshot in Ho. cbn in Hc', Ho. by rewrite Hc' in Ho. }
  intros s3 _ (Hs3 & c' & st & ct & l & Hc' & Hl & Hsn').
  unfold publishOneCollection. eapply holds_bind with (R1 := λ s' _, after_sync lib W s s' ∧ W (db s')).
  { pose proof (publish_one_tx_holds s gen Hok Hgen hash_injective (lib, rk) s3 c' st ct md l Hs3 Hc' Hl Hsn') as H.
    unfold holds in *. destruct (publish_one_tx _ _ s3) as [s' [a|e|]]; [done|by apply HE..]. }
  intros s4 _ [Hs4 Hw4]. pose proof (flush_holds lib W s s4 (HW _ _) Hs4 Hw4) as H. unfold holds in *.
  destruct (flushCollectionInvalidation _ s4) as [s' [a|e|]]; [|by apply HE..].
  destruct H as (H1 & H2 & _). by exists lib, (cols_of md), (sn_members sn).
Qed.

(** Refreshing one collection publishes the members the origin lists
    now, whole and in order, and changes nothing else that readers see: not
    its display data, no sibling, no other library, no item.  An error leaves
    it as it was or published whole, a change stays pending until the caches
    were invalidated, and only one pass runs at a time. *)
Theorem one_collection_is_refreshed_alone rk s :
  coll_ok (db s) →
  (inFlight (mem s) = true → rk ≠ "" → SyncCollectionOnce rk s = (s, Err "sync: another sync is already running")) ∧
  holds (SyncCollectionOnce rk) s
    (λ s' _, ∃ lib cols m, published (db s) lib rk = Some (cols, m) ∧ after_sync lib (publishes_one s (lib, rk) cols) s s' ∧
       publishes_one s (lib, rk) cols (db s'))
    (λ s', ∃ lib cols, after_sync lib (publishes_one s (lib, rk) cols) s s').
Proof.
  intros Hok. unfold SyncCollectionOnce. destruct (String.eqb_spec rk "") as [|Hne].
  { split; [done|]. apply holds_fail. exists O, (no_cols ""). by apply after_sync_refl. }
  split; [intros Hf _; unfold single_flight; by rewrite Hf|].
  unfold holds, single_flight. destruct (inFlight (mem s)); [exists O, (no_cols ""); by apply after_sync_refl|].
  set (s1 := set_mem s _). match goal with |- context [let '(_, _) := ?b s1 in _] => set (body := b) end.
  assert (Hbody : holds body s1 (λ s' _, ∃ lib cols m, published (db s1) lib rk = Some (cols, m) ∧ after_sync lib (publishes_one s1 (lib, rk) cols) s1 s' ∧
       publishes_one s1 (lib, rk) cols (db s')) (λ s', ∃ lib cols, after_sync lib (publishes_one s1 (lib, rk) cols) s1 s')).
  { assert (Herr : ∀ s', db s' = db s1 → flushes s' = flushes s1 → ∃ lib cols, after_sync lib (publishes_one s1 (lib, rk) cols) s1 s')
      by (intros; exists O, (no_cols ""); by apply after_sync_refl).
    apply holds_bind with (R1 := λ s' _, db s' = db s1 ∧ flushes s' = flushes s1).
    { unfold holds, ownerToken. destruct (OwnerToken_at (steps s1)); [done|by apply Herr]. }
    intros s2 _ [Hd2 Hf2]. apply holds_bind with (R1 := λ s' _, db s' = db s1 ∧ flushes s' = flushes s1).
    { unfold holds, enabledServer. destruct (fate_at (steps s2)), (enabled_at (steps s2)); try done; by apply Herr. }
    intros s3 server [Hd3 Hf3]. pose proof (refresh_one_holds server rk s3) as H. rewrite Hd3 in H. specialize (H Hok).
    assert (HR : ∀ lib cols s', after_sync lib (publishes_one s3 (lib, rk) cols) s3 s' → after_sync lib (publishes_one s1 (lib, rk) cols) s1 s').
    { intros lib cols s' Ha. eapply after_sync_mono; [|eapply after_sync_pre with (s1 := s3); [split; by rewrite Hd3|by rewrite Hd3|by rewrite Hd3|done|exact Ha]].
      unfold publishes_one. by rewrite Hd3. }
    unfold holds in *. match type of H with context [match ?x with _ => _ end] => destruct x as [s' [[]|e|]] end.
    - destruct H as (lib & cols & m & H1 & H2 & H3). exists lib, cols, m. split; [done|]. split; [by apply HR|]. unfold publishes_one in *. by rewrite Hd3 in H3.
    - destruct H as (lib & cols & H). exists lib, cols. by apply HR.
    - destruct H as (lib & cols & H). exists lib, cols. by apply HR. }
  unfold holds in Hbody. destruct (body s1) as [s' [[]|e|]].
  - destruct Hbody as (lib & cols & m & H1 & [[] ? ? ? ? ?] & H3). exists lib, cols, m. split; [done|]. split; [|done]. by split; [split|..].
  - destruct Hbody as (lib & cols & [[] ? ? ? ? ?]). exists lib, cols. by split; [split|..].
  - destruct Hbody as (lib & cols & [[] ? ? ? ? ?]). exists lib, cols. by split; [split|..].
Qed.

(** *** An origin with a fixed listing *)

(** Every page the origin answers is a page of [l], whether it reports a
    total or not; requests may fail. *)
Definition honest {A} (path : string) (decode : string → option (container A)) (l : list A) : Prop :=
  ∀ n k raw, GetJSON_at n (collectionURL path (Z.of_nat k) collectionPageSize) = Ok raw →
    ∃ p, decode raw = Some p ∧ pg_metadata p = take (Z.to_nat collectionPageSize) (drop k l) ∧ (pg_total p = None ∨ pg_total p = Some (count l)).

Lemma pageSize_pos : 0 < collectionPageSize.
Proof. unfold collectionPageSize. destruct (PageSize <=? 0) eqn:E; [done|]. destruct (1000 <? PageSize); lia. Qed.

(** A page that completes a listing reaches its end. *)
Lemma complete_page {A} (p : container A) l k e e' done :
  pg_metadata p = take (Z.to_nat collectionPageSize) (drop k l) → pg_total p = None ∨ pg_total p = Some (count l) →
  e = -1 ∨ e = count l → (k <= length l)%nat →
  collectionPageComplete (Z.of_nat k) collectionPageSize (count (pg_metadata p)) (pg_size p) (pg_offset p) (pg_total p) e = Ok (done, e') →
  (e' = -1 ∨ e' = count l) ∧ (done = true → (length l <= k + length (pg_metadata p))%nat).
Proof.
  intros Hp Ht He Hk. unfold collectionPageComplete. cbv zeta. case_match eqn:Hfirst; [done|]. clear Hfirst. pose proof pageSize_pos as Hpos.
  assert (Hlen : length (pg_metadata p) = Nat.min (Z.to_nat collectionPageSize) (length l - k)) by (by rewrite Hp, length_take, length_drop).
  unfold count in *. destruct Ht as [-> | ->].
  - destruct He as [-> | ->]; [|by rewrite (proj2 (Z.leb_le 0 _)) by lia].
    change (0 <=? -1) with false. cbv iota beta. destruct (_ && _ && _); [done|]. intros [= <- <-].
    split; [by left|]. intros Hd%Z.ltb_lt. lia.
  - destruct (_ || _ || _); [done|]. destruct (_ && _ && _); [done|]. rewrite (proj2 (Z.leb_le 0 _)) by lia.
    destruct (_ + _ =? _) eqn:Ed.
    + intros [= <- <-]. split; [by right|]. apply Z.eqb_eq in Ed. lia.
    + case_match; [done|]. intros [= <- <-]. by split; [right|].
Qed.

Lemma take_self {A} j (l x : list A) : x = take j l → x = take (length x) l.
Proof. intros ->. rewrite length_take. destruct (decide (j <= length l)%nat); [f_equal; lia|by rewrite !take_ge by lia]. Qed.

Lemma Collected_honest {A} path (decode : string → option (container A)) l acc e out :
  honest path decode l → Collected path decode acc e out → e = -1 ∨ e = count l → acc = take (length acc) l → out = l.
Proof.
  intros Hh Hc. induction Hc as [acc e n raw p e' Hg Hd Hp|acc e n raw p e' out Hg Hd Hp _ IH]; intros He Hacc;
    destruct (Hh _ _ _ Hg) as (p' & Hd' & Hm & Ht); rewrite Hd in Hd'; injection Hd' as <-;
    assert (Hk : (length acc <= length l)%nat) by (rewrite Hacc, length_take; lia);
    destruct (complete_page p l (length acc) e e' _ Hm Ht He Hk Hp) as [He' Hdone];
    assert (Hnext : acc ++ pg_metadata p = take (length (acc ++ pg_metadata p)) l)
      by (apply (take_self (length acc + Z.to_nat collectionPageSize)); rewrite Hm, Hacc at 1; apply take_take_drop).
  - rewrite Hnext. apply take_ge. rewrite length_app. by apply Hdone.
  - by apply IH.
Qed.


End passes.
End worker.

(** ** A concrete origin *)

Module Toy.

Definition coll (rk smart : string) : collectionJSON := mkCollectionJSON rk ("/library/collections/" +:+ rk) ("Collection " +:+ rk) "" "" "" "" smart.
Definition cat : list collectionJSON := [coll "7" "1"; coll "8" ""].
Definition kids (rk : string) : list collectionMember :=
  if rk =s "7" then [mkMember "100" "movie" "A" "" ""; mkMember "101" "movie" "B" "" ""] else [].
Definition whole {A} (l : list A) : container A := mkContainer (Some (count l)) (Some (count l)) (Some 0) l.
Definition url (path : string) : string := collectionURL "http://pms/" path 0 100.

Definition metadata_tuple (m : collectionMetadata) :=
  (cm_key m, cm_title m, cm_titleSort m, cm_summary m, cm_thumb m, cm_art m, cm_smart m).
Definition member_tuple (m : collectionMember) := (me_ratingKey m, me_type m, me_title m, me_thumb m, me_art m).
Fixpoint bits (p : positive) : string := match p with xH => "" | xO p => String "0" (bits p) | xI p => String "1" (bits p) end.
#[local] Instance bits_inj : Inj (=) (=) bits.
Proof. intros p. induction p as [p IH|p IH|]; intros [q|q|]; cbn; intros H; try done; injection H as H; f_equal; auto. Qed.
#[export] Instance codec : CollectionCodec := {|
  decode_catalog := λ raw, if raw =s "catalog" then Some (whole cat) else None;
  decode_children := λ raw, if raw =s "seven" then Some (whole (kids "7")) else if raw =s "eight" then Some (whole (kids "8")) else None;
  content_hash := λ md l, bits (encode (metadata_tuple md, member_tuple <$> l));
|}.
#[export] Instance env : Env := {|
  fate_at := λ _, Works; marks_at := λ _, []; now_at := λ _, 0; ended_at := λ _, false;
  GetJSON_at := λ _ u, if u =s url (catalog_path "1") then Ok "catalog" else if u =s url (children_path "7") then Ok "seven"
                       else if u =s url (children_path "8") then Ok "eight" else Err "404";
  OwnerToken_at := λ _, Some "owner"; enabled_at := λ _, Some "server"; invalidate_at := λ _, Works;
|}.

#[local] Instance member_tuple_inj : Inj (=) (=) member_tuple.
Proof. intros [] []. unfold member_tuple. cbn. congruence. Qed.

Lemma hash_injective md l md' l' : content_hash md l = content_hash md' l' → md = md' ∧ l = l'.
Proof.
  cbn. intros Heq%(inj bits). apply (inj encode) in Heq. injection Heq as H1 H2 H3 H4 H5 H6 H7 Hl. split.
  - destruct md, md'. cbn in *. congruence.
  - by apply (inj (fmap member_tuple)) in Hl.
Qed.

(** An address determines the page, and the path among those of its length. *)
Lemma collectionURL_start base path path' k k' size :
  String.length path = String.length path' → collectionURL base path k size = collectionURL base path' k' size → path = path' ∧ k = k'.
Proof.
  unfold collectionURL. intros Hlen H. apply (inj (String.append _)) in H. apply sapp_inj_len in H as [Hp H]; [|done]. split; [done|].
  apply (inj (String.append _)) in H. apply sapp_inj_len_r in H as [H _]; [|done]. by apply (inj pretty) in H.
Qed.

Lemma catalog_honest : honest "http://pms/" 0 (catalog_path "1") decode_catalog cat.
Proof.
  intros n k raw. cbn [GetJSON_at env]. change (collectionPageSize 0) with 100.
  destruct (String.eqb_spec (collectionURL "http://pms/" (catalog_path "1") (Z.of_nat k) 100) (url (catalog_path "1"))) as [Hk|Hk].
  - apply collectionURL_start in Hk as [_ Hk]; [|done]. assert (k = O) as -> by lia. intros [= <-]. by exists (whole cat); split; [|split; [|right]].
  - done.
Qed.

Lemma children_honest rk : rk = "7" ∨ rk = "8" → honest "http://pms/" 0 (children_path rk) decode_children (kids rk).
Proof.
  intros Hrk n k raw. cbn [GetJSON_at env]. change (collectionPageSize 0) with 100.
  assert (Hc : (collectionURL "http://pms/" (children_path rk) (Z.of_nat k) 100 =s url (catalog_path "1")) = false) by (by destruct Hrk as [-> | ->]).
  rewrite Hc. assert (Hu : ∀ rk', rk' = "7" ∨ rk' = "8" → collectionURL "http://pms/" (children_path rk) (Z.of_nat k) 100 = url (children_path rk') →
    children_path rk = children_path rk' ∧ k = O).
  { intros rk' Hrk' H. apply collectionURL_start in H as [Hp Hk]; [split; [done|lia]|]. by destruct Hrk as [-> | ->], Hrk' as [-> | ->]. }
  destruct (String.eqb_spec (collectionURL "http://pms/" (children_path rk) (Z.of_nat k) 100) (url (children_path "7"))) as [H7|_].
  { apply Hu in H7 as [Hp ->]; [|by left]. destruct Hrk as [-> | ->]; [|done]. intros [= <-]. by exists (whole (kids "7")); split; [|split; [|right]]. }
  destruct (String.eqb_spec (collectionURL "http://pms/" (children_path rk) (Z.of_nat k) 100) (url (children_path "8"))) as [H8|_]; [|done].
  apply Hu in H8 as [Hp ->]; [|by right]. destruct Hrk as [-> | ->]; [done|]. intros [= <-]. by exists (whole (kids "8")); split; [|split; [|right]].
Qed.

Definition library : sectionInfo := mkSectionInfo 3 "1" "Films" "movie" false.
(** Collection 8 was published with other members, and 9 is gone since. *)
Definition old_md (rk : string) : collectionMetadata := mkMetadata "" ("Old " +:+ rk) "" "" "" "" false.
Definition old_row (rk : string) : collection_row :=
  mkCollection "server" (cols_of (old_md rk)) 4 (Some 4)
    {[ 4 := mkSnapshot 0 (Some 0) 1 (Some (content_hash (old_md rk) [mkMember "99" "movie" "" "" ""])) (old_md rk)
              (member_rows [mkMember "99" "movie" "" "" ""]) ]}.
Definition start : St :=
  mkSt (mkTables ∅ ∅ ∅ (<[(3%nat, "8") := old_row "8"]> {[ (3%nat, "9") := old_row "9" ]}) {[ 3%nat := mkCollectionSync 4 (Some 0) None false ]} 4 4)
    (mkMemory false ∅ ∅) 0 0.

Lemma start_coll_ok : coll_ok (db start).
Proof.
  split; [done|]. intros id c. change (collections (db start)) with (<[(3%nat, "8") := old_row "8"]> ({[ (3%nat, "9") := old_row "9" ]} : gmap _ _)).
  assert (Hrow : ∀ rk, row_ok (generation_seq (db start)) (old_row rk)).
  { intros rk. split; [done| |].
    - intros g sn H. cbn [old_row co_snapshots] in H. apply lookup_singleton_Some in H as [<- <-]. split; [done|]. intros _. by exists [mkMember "99" "movie" "" "" ""].
    - intros g [= <-]. eexists. split; [apply lookup_singleton_eq|done]. }
  intros [[<- <-]|[_ [<- <-]%lookup_singleton_Some]]%lookup_insert_Some; split; (apply Hrow || by eexists).
Qed.

End Toy.
#[local] Existing Instance Toy.codec.


Lemma one_collection_is_refreshed_alone_witness :
  ∃ s', SyncCollectionOnce (env := Toy.env) "http://pms/" 0 true "8" Toy.start = (s', Ok tt) ∧
    (∃ l, children (env := Toy.env) "http://pms/" 0 "8" l ∧ published (db s') 3 "8" = Some (cols_of (Toy.old_md "8"), member_rows l)) ∧
    published (db s') 3 "9" = published (db Toy.start) 3 "9".
Proof.
  pose proof (one_collection_is_refreshed_alone (env := Toy.env) "http://pms/" 0 true Toy.hash_injective "8" Toy.start Toy.start_coll_ok) as [_ H].
  unfold holds in H. destruct (SyncCollectionOnce (env := Toy.env) "http://pms/" 0 true "8" Toy.start) as [s' r] eqn:E.
  assert (Hr : r = Ok tt) by (change (r = Ok tt) with ((s', r).2 = Ok tt); rewrite <- E; clear; vm_compute; reflexivity).
  clear E. subst r. exists s'. split; [reflexivity|]. destruct H as (lib & cols & m & Hp & _ & [(l & Hl & Hv) Ho]).
  unfold published in Hp. destruct (decide (lib = 3%nat)) as [->|Hne].
  - assert (cols = cols_of (Toy.old_md "8")) as -> by (vm_compute in Hp |- *; congruence). split; [by exists l|]. by apply (Ho "9").
  - exfalso. apply Hne. unfold Toy.start in Hp. cbn [db collections] in Hp.
    destruct (<[(3%nat, "8") := Toy.old_row "8"]> ({[ (3%nat, "9") := Toy.old_row "9" ]} : gmap _ _) !! (lib, "8")) as [c|] eqn:Ec; [|done].
    apply lookup_insert_Some in Ec as [[[= <-] _]|[_ Ec]]; [done|]. apply lookup_singleton_Some in Ec as [[= <- _] _].
Defined.

End SyncCollections.
