(* ===== verification/SyncPass.v ===== *)
(** * Library synchronisation

    internal/sync/library.go, cursors.go, sync.go and events.go: the passes
    that keep the index of SyncIndex and the collections of SyncCollections
    in step with the origin, their cursors, and the marks that the event
    stream leaves.  The decoding of the origin's JSON is a parameter; the
    counters of the metrics registry are left out. *)

From S2P Require Import Prelude GoStrings GoHttp GoMime GoUrl Routing SyncTables SyncIndex SyncCollections.

Module SyncPass.
Import SyncTables SyncIndex SyncCollections.

(** ** The origin client *)

Module OriginClient.
Import Routing GoUrl.

(** [NewOriginClient]: bound to the origin, or one that follows nothing. *)
Definition NewOriginClient (originBase : string) : option URL := api_base originBase.
Definition limit : Z := 8388608.
(** [OriginClient.GetJSON]: the addresses asked, and the body of a 200. *)
Definition GetJSON (client : option URL) (server : list URL → URL → answer) (url : string) : list URL * outcome string :=
  match Parse url with
  | None => ([], Err "url")
  | Some u =>
      let '(sent, r) :=
        match client with
        | Some base => client_do 5 base server [] u
        | None => let '(sent, a) := transparent_do server u in
                  (sent, match a with NoAnswer => None | Final s b => Some (s, b) | Redirect _ => Some (302, "") end)
        end in
      (sent, match r with
             | None => Err "sync: origin request"
             | Some (status, body) =>
                 if negb (status =? 200) then Err "sync: origin status"
                 else if limit <? Z.of_nat (String.length body) then Err "sync: page exceeds 8MiB transform ceiling" else Ok body
             end)
  end.

(** The owner's token stays with the origin, and a page is at most 8 MiB. *)
Lemma GetJSON_stays_home base server url u :
  Parse url = Some u → EqualFold (Scheme u) (Scheme base) = true → EqualFold (Host u) (Host base) = true →
  let '(sent, r) := GetJSON (Some base) server url in
  Forall (λ v, EqualFold (Scheme v) (Scheme base) = true ∧ EqualFold (Host v) (Host base) = true) sent ∧ (length sent <= 5)%nat ∧
  ∀ body, r = Ok body → Z.of_nat (String.length body) <= limit.
Proof.
  intros Hu Hs Hh. unfold GetJSON. rewrite Hu. pose proof (client_do_spec 5 base server [] u) as H. cbv zeta in H.
  destruct (client_do 5 base server [] u) as [sent r]. destruct H as [H1 H2]; [by apply Forall_singleton|cbn; lia|]. split; [done|]. split; [done|].
  intros body. destruct r as [[status b]|]; [|done]. destruct (negb (status =? 200)); [done|].
  destruct (Z.ltb_spec limit (Z.of_nat (String.length b))); [done|]. by intros [= <-].
Qed.
End OriginClient.

(** ** Sections *)

Record sectionDir := mkSectionDir {
  sd_key : string; sd_type : string; sd_title : string; sd_agent : string; sd_scanner : string; sd_uuid : string; sd_updatedAt : option Z
}.
Class PassCodec := {
  decode_sections : string → option (list sectionDir);
  decode_items : string → option (list itemJSON * option Z); (* the entries and totalSize *)
}.

Section worker.
Context {env : Env} {ccodec : CollectionCodec} {codec : PassCodec}.
(** [w.Origin], [w.PageSize] and whether [w.InvalidateCollections] is set *)
Variables (Origin : string) (PageSize : Z) (hooked : bool).

Definition with_libraries (t : tables) (l : gmap (string * string) library_row) (next : nat) : tables :=
  mkTables l (items t) (cursors t) (collections t) (collection_syncs t) next (generation_seq t).
Definition library_of (id : nat) (d : sectionDir) : library_row :=
  mkLibrary id (nullIfEmpty (sd_uuid d)) (sd_title d) (sd_type d) (nullIfEmpty (sd_agent d)) (nullIfEmpty (sd_scanner d)) (sd_updatedAt d).
Definition library_id (t : tables) (key : string * string) : nat := match libraries t !! key with Some r => l_id r | None => next_library t end.
(** [INSERT ... ON CONFLICT DO UPDATE ... RETURNING id] *)
Definition upsert_library (server : string) (d : sectionDir) (t : tables) : tables :=
  let key := (server, sd_key d) in
  with_libraries t (<[key := library_of (library_id t key) d]> (libraries t))
    (match libraries t !! key with Some _ => next_library t | None => S (next_library t) end).
Definition upsert_library_stmt (server : string) (d : sectionDir) : M nat := λ s,
  let '(s', r) := stmt (λ t, Some (upsert_library server d t)) s in
  (s', match r with Ok _ => Ok (library_id (db s) (server, sd_key d)) | Err e => Err e | Panic => Panic end).

(** The libraries of the server that are not in [keys]. *)
Definition gone (server : string) (keys : list string) (t : tables) : list nat :=
  (l_id ∘ snd) <$> map_to_list (filter (λ e, e.1.1 = server ∧ e.1.2 ∉ keys) (libraries t)).
Definition stays (lost : list nat) (library : option nat) : bool := match library with Some id => bool_decide (id ∉ lost) | None => true end.
(** [DELETE FROM libraries], and what refers to them. *)
Definition delete_libraries (server : string) (keys : list string) (t : tables) : option tables :=
  let lost := gone server keys t in
  Some (mkTables
    (filter (λ e, ¬ (e.1.1 = server ∧ e.1.2 ∉ keys)) (libraries t))
    (filter (λ e, ir_library e.2 ∉ lost) (items t))
    (filter (λ e, stays lost e.1.2 = true) (cursors t))
    (filter (λ e, e.1.1 ∉ lost) (collections t))
    (filter (λ e, e.1 ∉ lost) (collection_syncs t))
    (next_library t) (generation_seq t)).

Definition count_items (server section : string) (t : tables) : Z :=
  match libraries t !! (server, section) with
  | Some l => Z.of_nat (size (filter (λ e, ir_library e.2 = l_id l) (items t)))
  | None => 0
  end.

Fixpoint sections_loop (server : string) (dirs : list sectionDir) (seen : list string) (out : list sectionInfo) : M (list string * list sectionInfo) :=
  match dirs with
  | [] => ret (seen, out)
  | d :: r =>
      if sd_key d =s "" then sections_loop server r seen out
      else
        id <-- upsert_library_stmt server d;
        n <-- tryM (query (count_items server (sd_key d)));
        sections_loop server r (sd_key d :: seen)
          (out ++ [mkSectionInfo id (sd_key d) (sd_title d) (sd_type d) (match n with Ok n => n =? 0 | _ => true end)])
  end.

Definition syncSections (server : string) (full : bool) : M (list sectionInfo) :=
  raw <-- GetJSON (Origin +:+ "/library/sections");
  match decode_sections raw with
  | None => fail "sync: sections parse"
  | Some dirs =>
      r <-- sections_loop server dirs [] [];
      (if full && negb (bool_decide (r.1 = [])) then stmt (delete_libraries server r.1) else ret tt) >>>
      ret r.2
  end.

(** ** Cursors *)

Definition with_cursors (t : tables) (c : gmap (string * string * option nat) cursor_row) : tables :=
  mkTables (libraries t) (items t) c (collections t) (collection_syncs t) (next_library t) (generation_seq t).
Definition set_cursor_row (key : string * string * option nat) (f : option cursor_row → cursor_row) (t : tables) : option tables :=
  Some (with_cursors t (<[key := f (cursors t !! key)]> (cursors t))).

Definition loadCursor (server : string) (library : nat) : M (Z * Z) :=
  r <-- tryM (query (λ t, c ← cursors t !! (server, "section", Some library); c_position c));
  ret (match r with Ok (Some (start, gen)) => if start <? 0 then (0, 0) else (start, gen) | _ => (0, 0) end).
Definition saveCursor (server : string) (library : nat) (start gen : Z) : M unit :=
  stmt_at (λ now, set_cursor_row (server, "section", Some library)
    (λ old, match old with
            | Some c => mkCursor (Some (start, gen)) "running" "" (Some now) (c_completed c)
            | None => mkCursor (Some (start, gen)) "running" "" None None
            end)).
Definition completion (status : string) (now : Z) (otherwise : option Z) : option Z := if status =s "complete" then Some now else otherwise.
Definition setCursor (server kind : string) (library : option nat) (status lastErr : string) : M unit :=
  match library with
  | None =>
      stmt (λ t, Some (with_cursors t (delete (server, kind, None) (cursors t)))) >>>
      stmt_at (λ now, set_cursor_row (server, kind, None) (λ _, mkCursor None status lastErr (Some now) (completion status now None)))
  | Some _ =>
      stmt_at (λ now, set_cursor_row (server, kind, library)
        (λ old, match old with
                | Some c => mkCursor (c_position c) status lastErr (Some now) (completion status now (c_completed c))
                | None => mkCursor None status lastErr (Some now) (completion status now None)
                end))
  end.

(** ** One section *)

Definition page_size : Z := if PageSize <=? 0 then 100 else PageSize.
Definition section_url (section : string) (start : Z) : string :=
  Origin +:+ "/library/sections/" +:+ section +:+ "/all?X-Plex-Container-Start=" +:+ Itoa start +:+ "&X-Plex-Container-Size=" +:+ Itoa page_size.
Definition genOrNil (full : bool) (gen : Z) : option Z := if full then Some gen else None.
(** [len(items) < page || (total >= 0 && start >= total)] *)
Definition last_page (n : Z) (total : option Z) (next : Z) : bool :=
  (n <? page_size) || match total with Some t => (0 <=? t) && (t <=? next) | None => false end.
Definition sweep (library : nat) (gen : Z) (t : tables) : option tables :=
  Some (with_items t (filter (λ e, ¬ (ir_library e.2 = library ∧ ir_gen e.2 ≠ Some gen)) (items t))).

(** The paging loop; [Panic] stands for a loop that has not ended when the
    fuel is used up. *)
Fixpoint section_loop (fuel : nat) (server : string) (s : sectionInfo) (gen : option Z) (trackGen start : Z) : M unit :=
  match fuel with
  | O => λ st, (st, Panic)
  | S fuel =>
      ended <-- ctx_err;
      if (ended : bool) then fail "context canceled" else
      raw <-- GetJSON (section_url (SectionID s) start);
      match decode_items raw with
      | None => fail "sync: items parse"
      | Some (its, total) =>
          each 0 its (λ _ it, upsertItem server (LibraryID s) it gen) >>>
          let next := start + count its in
          ignore (saveCursor server (LibraryID s) next trackGen) >>>
          if last_page (count its) total next then ret tt else section_loop fuel server s gen trackGen next
      end
  end.
Definition syncSection (fuel : nat) (server : string) (s : sectionInfo) (full : bool) (gen : Z) : M unit :=
  c <-- loadCursor server (LibraryID s);
  section_loop fuel server s (genOrNil full gen) (if full then gen else c.2) (if full && (c.2 =? gen) then c.1 else 0) >>>
  if full then stmt (sweep (LibraryID s) gen) else ret tt.

(** ** A pass *)

Definition mem_do (f : memory → memory) : M unit := λ s, (set_mem s (f (mem s)), Ok tt).
Definition clearDirty (section : string) (m : memory) : memory := mkMemory (inFlight m) (dirty m ∖ {[section]}) (collectionsDirty m).
Definition clearCollectionsDirty (section : string) (m : memory) : memory := mkMemory (inFlight m) (dirty m) (collectionsDirty m ∖ {[section]}).
Definition get_mem {A} (f : memory → A) : M A := λ s, (s, Ok (f (mem s))).

Definition collectionsNeverSynced (library : nat) : M bool :=
  r <-- tryM (query (λ t, match collection_syncs t !! library with Some r => bool_decide (is_Some (cs_completed r)) | None => false end));
  ret (match r with Ok done => negb done | _ => true end).

Definition text {A} (r : outcome A) : string := match r with Err e => e | _ => "" end.
(** One iteration of the loop over the sections. *)
Definition refresh_section (fuel : nat) (server : string) (full : bool) (gen : Z) (s : sectionInfo) : M unit :=
  is_dirty <-- get_mem (λ m, bool_decide (SectionID s ∈ dirty m));
  if full || (is_dirty : bool) || NeverSynced s then
    r <-- tryM (syncSection fuel server s full gen);
    match r with
    | Ok _ => ignore (setCursor server "section" (Some (LibraryID s)) "complete" "") >>> mem_do (clearDirty (SectionID s))
    | _ => ignore (setCursor server "section" (Some (LibraryID s)) "error" (text r))
    end
  else ret tt.
Definition has_collections (s : sectionInfo) : bool := (MediaType s =s "movie") || (MediaType s =s "show").
(** The collections of one section; whether it failed. What follows a success
    is in another order in the two callers. *)
Definition refresh_collections (server : string) (s : sectionInfo) (finish : M unit) : M bool :=
  ignore (setCursor server "collections" (Some (LibraryID s)) "running" "") >>>
  r <-- tryM (syncLibraryCollections Origin PageSize hooked server s);
  match r with
  | Ok _ => finish >>> ret false
  | _ =>
      mem_do (λ m, add_mark m (MarkCollections (SectionID s))) >>>
      ignore (setCursor server "collections" (Some (LibraryID s)) "error" (text r)) >>> ret true
  end.
Definition collections_step (server : string) (full : bool) (s : sectionInfo) : M unit :=
  if has_collections s then
    is_dirty <-- get_mem (λ m, bool_decide (SectionID s ∈ collectionsDirty m));
    never <-- (if full || (is_dirty : bool) then ret true else collectionsNeverSynced (LibraryID s));
    if (never : bool) then
      refresh_collections server s
        (ignore (setCursor server "collections" (Some (LibraryID s)) "complete" "") >>> mem_do (clearCollectionsDirty (SectionID s))) >>> ret tt
    else ret tt
  else ret tt.
(** A loop that stops when the context ends. *)
Fixpoint until_done {A} (l : list A) (f : A → M unit) : M unit :=
  match l with
  | [] => ret tt
  | x :: r => ended <-- ctx_err; if (ended : bool) then fail "context canceled" else f x >>> until_done r f
  end.

Definition unix_nano : M Z := λ s, (s, Ok (now_at (steps s))).
Definition pass (fuel : nat) (full : bool) : M unit :=
  ownerToken >>> server <-- enabledServer;
  setCursor server "libraries" None "running" "" >>>
  sections <-- catchM (syncSections server full) (λ e, ignore (setCursor server "libraries" None "error" e));
  ignore (setCursor server "libraries" None "complete" "") >>>
  gen <-- (if full then unix_nano else ret 0);
  until_done sections (refresh_section fuel server full gen) >>>
  until_done sections (collections_step server full).
Definition SyncOnce (fuel : nat) (full : bool) : M unit := single_flight (pass fuel full).

Fixpoint collections_loop (server : string) (l : list sectionInfo) (errs : nat) : M nat :=
  match l with
  | [] => ret errs
  | s :: r =>
      ended <-- ctx_err;
      if (ended : bool) then fail "context canceled"
      else if has_collections s then
        failed <-- refresh_collections server s
          (mem_do (clearCollectionsDirty (SectionID s)) >>> ignore (setCursor server "collections" (Some (LibraryID s)) "complete" ""));
        collections_loop server r (if (failed : bool) then S errs else errs)
      else collections_loop server r errs
  end.
Definition SyncCollectionsOnce : M unit :=
  single_flight (
    ownerToken >>> server <-- enabledServer;
    sections <-- syncSections server false;
    errs <-- collections_loop server sections 0;
    if (errs =? 0)%nat then ret tt else fail "sync: collection refresh incomplete").

(** ** The pages of a section *)

Inductive Listed (section : string) : Z → list itemJSON → Prop :=
| listed_last n start raw its total :
    GetJSON_at n (section_url section start) = Ok raw → decode_items raw = Some (its, total) →
    last_page (count its) total (start + count its) = true → Listed section start its
| listed_more n start raw its total rest :
    GetJSON_at n (section_url section start) = Ok raw → decode_items raw = Some (its, total) →
    last_page (count its) total (start + count its) = false → Listed section (start + count its) rest → Listed section start (its ++ rest).

(** The last entry with a rating key. *)
Definition latest (rk : string) (l : list itemJSON) : option itemJSON := last (filter (λ it, RatingKey it = rk) l).
Lemma latest_snoc rk l it : latest rk (l ++ [it]) = if decide (RatingKey it = rk) then Some it else latest rk l.
Proof.
  unfold latest. rewrite filter_app. cbn. destruct (decide (RatingKey it = rk)).
  - by rewrite last_snoc.
  - by rewrite app_nil_r.
Qed.
Lemma latest_elem rk l : latest rk l = None ↔ ∀ it, it ∈ l → RatingKey it ≠ rk.
Proof.
  unfold latest. rewrite last_None. split.
  - intros H it Hin Hrk. assert (it ∈ filter (λ it, RatingKey it = rk) l) as Hf by (by apply list_elem_of_filter). rewrite H in Hf. by apply elem_of_nil in Hf.
  - intros H. destruct (filter (λ it, RatingKey it = rk) l) as [|it r] eqn:E; [done|]. exfalso.
    assert (it ∈ filter (λ it, RatingKey it = rk) l) as Hf by (rewrite E; apply elem_of_cons; by left). apply list_elem_of_filter in Hf as [? ?]. by eapply H.
Qed.

(** What the items become when the entries of [acc] are written over them. *)
Definition overlay (server : string) (library : nat) (gen : option Z) (old : gmap (string * string) item_row) (acc : list itemJSON)
    (k : string * string) : option item_row :=
  if decide (k.1 = server) then
    match latest k.2 acc with Some it => Some (row_of library it (stamp gen (old !! k))) | None => old !! k end
  else old !! k.

(** Tables other than items and the cursors of library [L] stay, and no item
    is lost. *)
Record kept (L : nat) (s s' : St) : Prop := {
  kp_libraries : libraries (db s') = libraries (db s); kp_next : next_library (db s') = next_library (db s);
  kp_collections : collections (db s') = collections (db s); kp_syncs : collection_syncs (db s') = collection_syncs (db s);
  kp_seq : generation_seq (db s') = generation_seq (db s); kp_flushes : flushes s' = flushes s;
  kp_items : ∀ k, is_Some (items (db s) !! k) → is_Some (items (db s') !! k);
  kp_ok : index_ok (db s) → index_ok (db s');
  kp_cursors : ∀ srv L', L' ≠ L → cursors (db s') !! (srv, "section", Some L') = cursors (db s) !! (srv, "section", Some L');
}.
#[global] Instance kept_preorder L : PreOrder (kept L).
Proof. split; [by intros s|]. intros a b c [] []. split; try congruence; auto. intros srv L' Hl. rewrite kp_cursors1 by done. auto. Qed.

Lemma kept_db L s s' : db s' = db s → flushes s' = flushes s → kept L s s'.
Proof. intros Hd Hf. split; rewrite ?Hd; done. Qed.

Section sweep.
Variables (s0 : St) (server : string) (library : nat) (gen : option Z).
Hypothesis (Hok0 : index_ok (db s0)).

Definition written (acc : list itemJSON) (s : St) : Prop :=
  kept library s0 s ∧ ∀ k, items (db s) !! k = overlay server library gen (items (db s0)) acc k.

Lemma written_db acc s s' : written acc s → items (db s') = items (db s) → kept library s s' → written acc s'.
Proof. intros [Hk Hi] He Hk'. split; [by etrans|]. intros k. by rewrite He. Qed.

Lemma upsert_written acc it s :
  written acc s → holds (upsertItem server library it gen) s (λ s' _, written (acc ++ [it]) s') (kept library s0).
Proof.
  intros [Hk Hi]. pose proof (upsertItem_holds server library it gen s (kp_ok _ _ _ Hk Hok0)) as H.
  assert (Hframe : ∀ s', frame (server, RatingKey it) s s' → kept library s s').
  { intros s' []. split; try done; [|by rewrite fr_cursors0]. intros k Hs. destruct (decide (k = (server, RatingKey it))) as [->|Hne]; [auto|by rewrite fr_others0]. }
  unfold holds in *. destruct (upsertItem server library it gen s) as [s' [[]|e|]]; [|by etrans; [|apply Hframe]..].
  destruct H as (Hne & Hf & Hrow). split; [by etrans; [|apply Hframe]|]. intros k. unfold overlay.
  destruct (decide (k = (server, RatingKey it))) as [->|Hk'].
  - rewrite Hrow. cbn. rewrite decide_True by done. rewrite latest_snoc, decide_True by done. do 2 f_equal.
    rewrite Hi. unfold overlay. cbn. rewrite decide_True by done. destruct (latest _ _); [|done]. by destruct gen.
  - rewrite (fr_others _ _ _ Hf) by done. rewrite Hi. unfold overlay. destruct (decide (k.1 = server)) as [<-|]; [|done].
    rewrite latest_snoc, decide_False; [done|]. intros Heq. apply Hk'. rewrite Heq. by destruct k.
Qed.

Lemma page_written acc its s :
  written acc s → holds (each 0 its (λ _ it, upsertItem server library it gen)) s (λ s' _, written (acc ++ its) s') (kept library s0).
Proof.
  intros Hw. eapply holds_mono.
  - apply (holds_each its _ (λ n s', written (acc ++ take n its) s') (kept library s0) 0%nat s); [cbn; by rewrite app_nil_r|].
    intros n it s' Hit Hs'. cbn [Nat.add]. rewrite (take_S_r _ _ _ Hit), app_assoc. by apply upsert_written.
  - cbn beta. intros s' _. cbn [Nat.add]. by rewrite firstn_all.
Qed.

End sweep.

(** A statement on the cursors of a library, or of none. *)
Lemma cursor_holds L key f s (P : St → Prop) :
  key.2 = None ∨ key.2 = Some L → (∀ s', kept L s s' → items (db s') = items (db s) → P s') →
  holds (stmt_at (λ now, set_cursor_row key (f now))) s (λ s' _, P s') P.
Proof.
  intros Hkey HP. apply holds_stmt_at; [|by apply HP; [apply kept_db|]]. intros t [= <-].
  match goal with |- P ?s' ∧ _ => assert (P s'); [|done] end. apply HP; [|done]. split; try done.
  intros srv L' Hl. cbn. rewrite lookup_insert_ne; [done|]. destruct key as [x y]. cbn in *. intros [= -> ->]. naive_solver.
Qed.

Lemma setCursor_holds L server kind library status e s (P : St → Prop) :
  library = None ∨ library = Some L → (∀ s', kept L s s' → items (db s') = items (db s) → P s') →
  holds (setCursor server kind library status e) s (λ s' _, P s') P.
Proof.
  intros Hlib HP. unfold setCursor. destruct library as [l|]; [by apply cursor_holds with (L := L)|].
  apply holds_bind with (R1 := λ s' _, kept L s s' ∧ items (db s') = items (db s)).
  - apply holds_stmt; [|by apply HP; [apply kept_db|]]. intros t [= <-].
    match goal with |- (?K ∧ _) ∧ _ => assert K; [|by auto] end. split; try done. intros srv L' Hl. cbn. by rewrite lookup_delete_ne.
  - intros s1 _ [Hk1 Hi1]. apply cursor_holds with (L := L); [by left|]. intros s' Hk Hi. apply HP; [by etrans|congruence].
Qed.

Lemma setCursor_none_holds server kind status e s (P : St → Prop) :
  (∀ s', (∀ L, kept L s s') → items (db s') = items (db s) → P s') → holds (setCursor server kind None status e) s (λ s' _, P s') P.
Proof.
  intros HP. unfold setCursor. assert (Htick : P (tick s)) by (apply HP; [intros L; by apply kept_db|done]).
  apply holds_bind with (R1 := λ s' _, (∀ L, kept L s s') ∧ items (db s') = items (db s)).
  - apply holds_stmt; [|done]. intros t [= <-].
    match goal with |- (?K ∧ _) ∧ _ => assert K; [|by auto] end. intros L. split; try done. intros srv L' Hl. cbn. by rewrite lookup_delete_ne.
  - intros s1 _ [Hk1 Hi1]. apply holds_stmt_at; [|apply HP; [intros L; etrans; [apply Hk1|by apply kept_db]|done]]. intros t [= <-].
    match goal with |- P ?s' ∧ _ => assert (P s'); [|done] end. apply HP; [|done]. intros L. etrans; [apply Hk1|]. split; try done.
    intros srv L' Hl. cbn. by rewrite lookup_insert_ne.
Qed.

Lemma section_loop_holds s0 fuel server sec gen track start acc s :
  index_ok (db s0) → written s0 server (LibraryID sec) gen acc s →
  holds (section_loop fuel server sec gen track start) s
    (λ s' _, ∃ l, Listed (SectionID sec) start l ∧ written s0 server (LibraryID sec) gen (acc ++ l) s') (kept (LibraryID sec) s0).
Proof.
  intros Hok. revert start acc s. induction fuel as [|fuel IH]; intros start acc s Hw; cbn [section_loop]; [apply Hw|].
  apply holds_bind with (R1 := λ s' _, s' = s); [done|]. intros s1 [|] ->; [apply holds_fail, Hw|].
  apply holds_bind with (R1 := λ s' raw, written s0 server (LibraryID sec) gen acc s' ∧ ∃ n, GetJSON_at n (section_url (SectionID sec) start) = Ok raw).
  { assert (Ht : written s0 server (LibraryID sec) gen acc (tick s)) by (eapply written_db; [exact Hw|done|by apply kept_db]).
    apply holds_GetJSON; [intros raw Hraw; split; [done|by eexists]|apply Ht]. }
  intros s1 raw [Hs1 [n Hn]]. destruct (decode_items raw) as [[its total]|] eqn:Ed; [|apply holds_fail, Hs1].
  eapply holds_bind; [by apply page_written|]. cbn beta. intros s2 _ Hs2. cbv zeta.
  apply holds_bind with (R1 := λ s' _, written s0 server (LibraryID sec) gen (acc ++ its) s').
  { apply holds_ignore. apply cursor_holds with (L := LibraryID sec); [by right|]. intros s' Hk Hi. assert (Hs' : written s0 server (LibraryID sec) gen (acc ++ its) s') by (by eapply written_db).
    split; [done|apply Hs']. }
  intros s3 _ Hs3. destruct (last_page (count its) total (start + count its)) eqn:El.
  - apply holds_ret. exists its. split; [by eapply listed_last|done].
  - eapply holds_mono; [by apply IH|]. cbn beta. intros s4 _ (l & Hl & Hw4). exists (its ++ l). split; [by eapply listed_more|]. by rewrite app_assoc.
Qed.

(** The items after a full sweep of a library. *)
Definition mirrored (server : string) (library : nat) (gen : Z) (old : gmap (string * string) item_row) (l : list itemJSON)
    (k : string * string) : option item_row :=
  match (if decide (k.1 = server) then latest k.2 l else None) with
  | Some it => Some (row_of library it (Some gen))
  | None => r ← old !! k; if decide (ir_library r = library) then None else Some r
  end.
(** No cursor, and no row, of the library has the generation yet. *)
Definition fresh_cursor (server : string) (library : nat) (gen : Z) (t : tables) : Prop :=
  gen ≠ 0 ∧ ∀ c start g, cursors t !! (server, "section", Some library) = Some c → c_position c = Some (start, g) → g ≠ gen.
Definition fresh (server : string) (library : nat) (gen : Z) (t : tables) : Prop :=
  fresh_cursor server library gen t ∧ ∀ k r, items t !! k = Some r → ir_library r = library → ir_gen r ≠ Some gen.

(** A cursor that cannot be read counts as a new one. *)
Lemma loadCursor_spec server library s :
  ∃ c, loadCursor server library s = (tick s, Ok c) ∧
    (c = (0, 0) ∨ ∃ row, cursors (db s) !! (server, "section", Some library) = Some row ∧ c_position row = Some c).
Proof.
  unfold loadCursor, bindM, tryM, query, ret. destruct (fate_at (steps s)); [|eexists; split; [done|by left]..].
  destruct (cursors (db s) !! (server, "section", Some library)) as [row|] eqn:Er; cbn; [|eexists; split; [done|by left]].
  destruct (c_position row) as [[st g]|] eqn:Ep; [|eexists; split; [done|by left]].
  destruct (st <? 0); eexists; (split; [done|]); [by left|right; by exists row].
Qed.
Lemma loadCursor_fresh server library gen t c :
  fresh_cursor server library gen t → c = (0, 0) ∨ (∃ row, cursors t !! (server, "section", Some library) = Some row ∧ c_position row = Some c) → c.2 ≠ gen.
Proof. intros (H0 & Hc) [->|(row & Hr & Hp)]; [done|]. destruct c as [st g]. by eapply Hc. Qed.

Lemma sweep_items t t' server library gen old l :
  (∀ k, items t !! k = overlay server library (Some gen) old l k) → (∀ k r, old !! k = Some r → ir_library r = library → ir_gen r ≠ Some gen) →
  sweep library gen t = Some t' → ∀ k, items t' !! k = mirrored server library gen old l k.
Proof.
  intros Ht Hold [= <-] k. cbn. rewrite map_lookup_filter, Ht. unfold overlay, mirrored.
  assert (Hkeep : ∀ o : option item_row, o = old !! k →
    (o ≫= λ x, guard (¬ (ir_library (k, x).2 = library ∧ ir_gen (k, x).2 ≠ Some gen)) ≫= λ _, Some x) =
    (r ← o; if decide (ir_library r = library) then None else Some r)).
  { intros [r|] Ho; cbn; [|done]. destruct (decide (ir_library r = library)) as [Hl|Hl].
    - rewrite option_guard_False; [done|]. intros Hn. apply Hn. split; [done|]. by eapply Hold.
    - by rewrite option_guard_True by tauto. }
  destruct (decide (k.1 = server)); [destruct (latest k.2 l) as [it|]|]; [|by apply Hkeep..].
  cbn. by rewrite option_guard_True by tauto.
Qed.

(** Nothing but items and cursors of the library changed. *)
Record outside (L : nat) (s s' : St) : Prop := {
  ou_libraries : libraries (db s') = libraries (db s); ou_next : next_library (db s') = next_library (db s);
  ou_collections : collections (db s') = collections (db s); ou_syncs : collection_syncs (db s') = collection_syncs (db s);
  ou_seq : generation_seq (db s') = generation_seq (db s); ou_flushes : flushes s' = flushes s;
  ou_cursors : ∀ srv L', L' ≠ L → cursors (db s') !! (srv, "section", Some L') = cursors (db s) !! (srv, "section", Some L');
}.
Lemma kept_outside L s s' : kept L s s' → outside L s s'.
Proof. by intros []. Qed.

(** The section was read to the end, and what it listed was written; after a
    full pass what has another generation is gone. *)
Definition read_whole (server : string) (sec : sectionInfo) (full : bool) (gen : Z) (s s' : St) : Prop :=
  outside (LibraryID sec) s s' ∧ ∃ l t, Listed (SectionID sec) 0 l ∧ index_ok (db s') ∧
    (∀ k, items t !! k = overlay server (LibraryID sec) (genOrNil full gen) (items (db s)) l k) ∧
    (if full then items <$> sweep (LibraryID sec) gen t = Some (items (db s')) else items (db s') = items t).

Lemma syncSection_holds fuel server sec full gen s :
  index_ok (db s) → (full = true → fresh_cursor server (LibraryID sec) gen (db s)) →
  holds (syncSection fuel server sec full gen) s
    (λ s' _, read_whole server sec full gen s s') (λ s', kept (LibraryID sec) s s' ∨ read_whole server sec full gen s s').
Proof.
  intros Hok Hfresh. unfold syncSection.
  apply holds_bind with (R1 := λ s' c, kept (LibraryID sec) s s' ∧ items (db s') = items (db s) ∧ (full = true → c.2 ≠ gen)).
  { destruct (loadCursor_spec server (LibraryID sec) s) as (c & Ec & Hc). unfold holds. rewrite Ec. split; [by apply kept_db|]. split; [done|].
    intros ->. by eapply loadCursor_fresh; [apply Hfresh|]. }
  intros s1 c (Hk1 & Hi1 & Hc1).
  assert (Hw : written s server (LibraryID sec) (genOrNil full gen) [] s1).
  { split; [done|]. intros k. rewrite Hi1. unfold overlay. by destruct (decide _). }
  assert (Hstart : (if full && (c.2 =? gen) then c.1 else 0) = 0).
  { destruct full; [|done]. cbn. destruct (Z.eqb_spec c.2 gen); [|done]. by destruct (Hc1 eq_refl). }
  rewrite Hstart. eapply holds_bind.
  { pose proof (section_loop_holds s fuel server sec _ (if full then gen else c.2) 0 [] s1 Hok Hw) as H. unfold holds in *.
    destruct (section_loop _ _ _ _ _ _ s1) as [s' [a|e|]]; [exact H|by left..]. }
  cbn beta. intros s2 _ (l & Hl & Hk2 & Hi2). cbn [app] in Hi2. destruct full.
  - apply holds_stmt; [|left; etrans; [exact Hk2|by apply kept_db]].
    intros t Ht. assert (Hs : read_whole server sec true gen s (set_db (tick s2) t)); [|by auto].
    split; [by destruct Hk2; injection Ht as <-; split|]. exists l, (db s2). split; [done|]. split; [|split; [done|by rewrite Ht]].
    intros k r Hr. apply (kp_ok _ _ _ Hk2 Hok k r). injection Ht as <-. cbn in Hr. by apply map_lookup_filter_Some in Hr as [? _].
  - apply holds_ret. split; [by apply kept_outside|]. exists l, (db s2). split; [done|]. split; [by apply (kp_ok _ _ _ Hk2)|done].
Qed.

(** The items of a library after a full sweep are those listed. *)
Definition synced (server : string) (sec : sectionInfo) (gen : Z) (s s' : St) : Prop :=
  outside (LibraryID sec) s s' ∧ ∃ l, Listed (SectionID sec) 0 l ∧ index_ok (db s') ∧
    ∀ k, items (db s') !! k = mirrored server (LibraryID sec) gen (items (db s)) l k.

Lemma read_whole_synced server sec gen s s' :
  fresh server (LibraryID sec) gen (db s) → read_whole server sec true gen s s' → synced server sec gen s s'.
Proof.
  intros [_ Hold] (Ho & l & t & Hl & Hok & Hi & Hsw). split; [done|]. exists l. split; [done|]. split; [done|].
  destruct (sweep (LibraryID sec) gen t) as [t'|] eqn:Es; cbn in Hsw; [|done]. injection Hsw as <-. by eapply sweep_items.
Qed.

(** What a whole reading removes was not listed. *)
Lemma read_whole_lost server sec full gen s s' k :
  read_whole server sec full gen s s' → is_Some (items (db s) !! k) → items (db s') !! k = None →
  full = true ∧ ∃ l, Listed (SectionID sec) 0 l ∧ (k.1 = server → latest k.2 l = None).
Proof.
  intros (_ & l & t & Hl & _ & Hi & Hsw) [r Hr] Hn. specialize (Hi k).
  assert (Hkeep : is_Some (items t !! k)).
  { rewrite Hi. unfold overlay. destruct (decide _); [|by rewrite Hr]. destruct (latest k.2 l); [done|by rewrite Hr]. }
  destruct full; [|rewrite Hsw in Hn; rewrite Hn in Hkeep; by destruct Hkeep]. split; [done|]. exists l. split; [done|]. intros Hk.
  destruct (latest k.2 l) as [it|] eqn:El; [|done]. exfalso. unfold overlay in Hi. rewrite decide_True, El in Hi by done.
  cbn in Hsw. injection Hsw as Hsw. rewrite <- Hsw in Hn. apply map_lookup_filter_None in Hn as [Hn|Hn]; [by rewrite Hn in Hi|].
  apply (Hn _ Hi). cbn. tauto.
Qed.

(** ** An origin with a fixed listing *)

Definition honest_section (section : string) (l : list itemJSON) : Prop :=
  ∀ n k raw, GetJSON_at n (section_url section (Z.of_nat k)) = Ok raw →
    ∃ total, decode_items raw = Some (take (Z.to_nat page_size) (drop k l), total) ∧ (total = None ∨ total = Some (count l)).

Lemma page_size_pos : 0 < page_size.
Proof. unfold page_size. destruct (Z.leb_spec PageSize 0); lia. Qed.

Lemma last_page_spec (l : list itemJSON) k total :
  (k <= length l)%nat → total = None ∨ total = Some (count l) →
  let its := take (Z.to_nat page_size) (drop k l) in
  if last_page (count its) total (Z.of_nat k + count its) then its = drop k l
  else drop k l = its ++ drop (k + Z.to_nat page_size) l ∧ count its = page_size ∧ (k + Z.to_nat page_size <= length l)%nat.
Proof.
  intros Hk Ht its. pose proof page_size_pos as Hpos. unfold last_page.
  assert (Hlen : length its = Nat.min (Z.to_nat page_size) (length l - k)) by (subst its; by rewrite length_take, length_drop).
  assert (Hfull : its = drop k l ∨ (length its < length l - k)%nat).
  { destruct (decide (length l - k <= Z.to_nat page_size)%nat); [left; subst its; apply take_ge; rewrite length_drop; lia|right; lia]. }
  unfold count in *. destruct (Z.ltb_spec (Z.of_nat (length its)) page_size) as [Hs|Hs]; cbn [orb].
  { destruct Hfull as [|Hf]; [done|]. lia. }
  assert (Hrest : drop k l = its ++ drop (k + Z.to_nat page_size) l ∧ Z.of_nat (length its) = page_size ∧ (k + Z.to_nat page_size <= length l)%nat).
  { split; [|lia]. subst its. rewrite <- drop_drop. by rewrite take_drop. }
  destruct Ht as [-> | ->]; [done|]. destruct (_ && _) eqn:E; [|done]. apply andb_true_iff in E as [_ E]. apply Z.leb_le in E.
  destruct Hfull as [|Hf]; [done|lia].
Qed.

Lemma Listed_honest section l k out :
  honest_section section l → (k <= length l)%nat → Listed section (Z.of_nat k) out → out = drop k l.
Proof.
  intros Hh Hk HL. remember (Z.of_nat k) as start eqn:Es. revert k Hk Es.
  induction HL as [n start raw its total Hg Hd Hlast|n start raw its total rest Hg Hd Hlast _ IH]; intros k Hk ->;
    destruct (Hh n k raw Hg) as (total' & Hd' & Ht); rewrite Hd in Hd'; injection Hd' as -> ->;
    pose proof (last_page_spec l k total' Hk Ht) as Hp; cbv zeta in Hp; rewrite Hlast in Hp; [done|].
  destruct Hp as (Hp1 & Hp2 & Hp3). etrans; [|exact (eq_sym Hp1)]. f_equal. apply IH; [done|].
  rewrite Hp2. pose proof page_size_pos. lia.
Qed.

(** Computations that cannot run out of fuel. *)
Definition calm {A} (c : M A) : Prop := ∀ s, (c s).2 ≠ Panic.
Lemma calm_bind {A B} (c : M A) (f : A → M B) : calm c → (∀ a, calm (f a)) → calm (bindM c f).
Proof. intros Hc Hf s. unfold bindM. specialize (Hc s). destruct (c s) as [s' [a|e|]]; [apply Hf|done|done]. Qed.
Lemma calm_stmt_at f : calm (stmt_at f).
Proof. intros s. unfold stmt_at. by destruct (fate_at (steps s)), (f (now_at (steps s)) (db s)). Qed.
Lemma calm_stmt f : calm (stmt f).
Proof. apply calm_stmt_at. Qed.
Lemma calm_query {A} (f : tables → A) : calm (query f).
Proof. intros s. unfold query. by destruct (fate_at (steps s)). Qed.
Lemma calm_each {A} (l : list A) f k : (∀ i x, calm (f i x)) → calm (each k l f).
Proof. intros Hf. revert k. induction l as [|x l IH]; intros k; [done|]. apply calm_bind; [apply Hf|done]. Qed.
Lemma calm_try {A} (c : M A) : calm c → calm (tryM c).
Proof. intros Hc s. unfold tryM. specialize (Hc s). by destruct (c s) as [s' [a|e|]]. Qed.
Lemma calm_ignore {A} (c : M A) : calm c → calm (ignore c).
Proof. intros Hc. apply calm_bind; [by apply calm_try|done]. Qed.

Lemma calm_upsertItem server library it gen : calm (upsertItem server library it gen).
Proof.
  unfold upsertItem. destruct (_ =s _); [done|]. repeat (apply calm_bind; [|intros _]); try apply calm_stmt; apply calm_each; intros idx m; try apply calm_stmt.
  unfold upsert_one_variant. repeat (apply calm_bind; [|intros _]); try apply calm_stmt. apply calm_each. intros pidx p.
  unfold upsert_one_part. destruct (idString _); [|done]. repeat (apply calm_bind; [|intros _]); try apply calm_stmt.
  apply calm_each. intros i st. apply calm_stmt.
Qed.

Section honest.
Variables (section : string) (listing : list itemJSON).
Hypothesis (Hh : honest_section section listing) (Hcalm : ∀ n url, GetJSON_at n url ≠ Panic).

(** Every round reads a whole page or is the last. *)
Lemma section_loop_ends fuel server sec gen track k s :
  SectionID sec = section → (k <= length listing)%nat → (length listing - k < fuel)%nat →
  (section_loop fuel server sec gen track (Z.of_nat k) s).2 ≠ Panic.
Proof.
  intros Hsec. revert k s. induction fuel as [|fuel IH]; intros k s Hk Hf; [lia|]. cbn [section_loop]. unfold bindM at 1, ctx_err.
  destruct (ended_at (steps s)); [done|]. unfold bindM at 1, GetJSON. rewrite Hsec.
  destruct (GetJSON_at (steps s) (section_url section (Z.of_nat k))) as [raw|e|] eqn:Eg; [|done|by apply Hcalm in Eg].
  destruct (Hh _ _ _ Eg) as (total & -> & Ht). set (its := take (Z.to_nat page_size) (drop k listing)).
  pose proof (last_page_spec listing k total Hk Ht) as Hlast. cbv zeta in Hlast. fold its in Hlast.
  unfold bindM at 1.
  destruct (each 0 its _ (tick s)) as [s1 [[]|e|]] eqn:Ee; [|done|].
  2:{ assert (Hc : calm (each 0 its (λ _ it, upsertItem server (LibraryID sec) it gen))) by (apply calm_each; intros; apply calm_upsertItem).
      specialize (Hc (tick s)). by rewrite Ee in Hc. }
  cbv zeta. unfold bindM at 1. destruct (ignore _ s1) as [s2 [[]|e|]] eqn:Ei; [|done|].
  2:{ assert (Hc : calm (ignore (saveCursor server (LibraryID sec) (Z.of_nat k + count its) track))) by (apply calm_ignore, calm_stmt_at).
      specialize (Hc s1). by rewrite Ei in Hc. }
  destruct (last_page _ _ _) eqn:El; [done|]. destruct Hlast as (_ & Hc & Hk'). rewrite Hc. pose proof page_size_pos.
  replace (Z.of_nat k + page_size) with (Z.of_nat (k + Z.to_nat page_size)) by lia. apply IH; lia.
Qed.

End honest.

(** C8: a full sweep of a section, whatever the origin answers and whichever
    statements fail or are lost, ends in one of two ways.  Either the section
    was read from its first page to its last, and the items of its library are
    exactly what the pages listed, each stored whole (the last entry for a
    rating key wins) and stamped with the sweep's generation, while the items
    of other libraries that were not listed stay as they were; or no item is
    lost.  It returns without error only in the first case.  When the origin
    has a fixed listing, each page of which it answers truthfully or not at
    all, the sweep ends after at most one request per item and one more, and a
    sweep without error leaves exactly that listing. *)
Theorem full_sweep_mirrors_the_section fuel server sec gen s :
  index_ok (db s) → fresh server (LibraryID sec) gen (db s) →
  holds (syncSection fuel server sec true gen) s
    (λ s' _, synced server sec gen s s') (λ s', kept (LibraryID sec) s s' ∨ synced server sec gen s s') ∧
  ∀ listing, honest_section (SectionID sec) listing → (∀ n url, GetJSON_at n url ≠ Panic) → (length listing < fuel)%nat →
    let '(s', r) := syncSection fuel server sec true gen s in
    r ≠ Panic ∧ (r = Ok tt → ∀ k, items (db s') !! k = mirrored server (LibraryID sec) gen (items (db s)) listing k).
Proof.
  intros Hok Hfresh.
  assert (Hrun : holds (syncSection fuel server sec true gen) s
    (λ s' _, synced server sec gen s s') (λ s', kept (LibraryID sec) s s' ∨ synced server sec gen s s')).
  { pose proof (syncSection_holds fuel server sec true gen s Hok (λ _, proj1 Hfresh)) as H. unfold holds in *.
    destruct (syncSection fuel server sec true gen s) as [s' [u|e|]]; [by apply read_whole_synced|..];
      (destruct H; [by left|right; by apply read_whole_synced]). }
  split; [done|]. intros listing Hh Hcalm Hfuel. unfold holds in Hrun. destruct (syncSection fuel server sec true gen s) as [s' r] eqn:E. split.
  - intros ->. destruct (loadCursor_spec server (LibraryID sec) s) as (c & Ec & Hc). unfold syncSection, bindM in E. rewrite Ec in E.
    destruct (Z.eqb_spec c.2 gen) as [Hg|_]; [by eapply loadCursor_fresh; [apply Hfresh|..]|]. cbn [andb] in E.
    destruct (section_loop fuel server sec (genOrNil true gen) gen 0 (tick s)) as [s1 [u|e|]] eqn:El.
    + pose proof (calm_stmt (sweep (LibraryID sec) gen) s1) as Hs. by rewrite E in Hs.
    + done.
    + pose proof (section_loop_ends (SectionID sec) listing Hh Hcalm fuel server sec (genOrNil true gen) gen 0 (tick s) eq_refl) as Hends.
      change (Z.of_nat 0) with 0 in Hends. rewrite El in Hends. apply Hends; [lia|lia|done].
  - intros ->. destruct Hrun as (_ & l & Hl & _ & Hi). intros k. rewrite Hi. by rewrite (Listed_honest (SectionID sec) listing 0 l Hh (Nat.le_0_l _) Hl).
Qed.

(** ** The list of sections *)

(** Libraries have their own identifiers. *)
Record lib_ok (t : tables) : Prop := {
  lo_below : ∀ k r, libraries t !! k = Some r → (l_id r < next_library t)%nat;
  lo_inj : ∀ k k' r r', libraries t !! k = Some r → libraries t !! k' = Some r' → l_id r = l_id r' → k = k';
}.

Lemma lib_ok_upsert server d t : lib_ok t → lib_ok (upsert_library server d t).
Proof.
  intros [H1 H2]. set (key := (server, sd_key d)). unfold upsert_library. fold key. cbv zeta.
  assert (Hid : ∀ k r, k ≠ key → libraries t !! k = Some r → l_id r ≠ library_id t key).
  { intros k r Hne Hr. unfold library_id. destruct (libraries t !! key) as [r0|] eqn:E0; [intros He; by apply Hne, (H2 k key r r0)|].
    apply H1 in Hr. lia. }
  assert (Hlt : (library_id t key < match libraries t !! key with Some _ => next_library t | None => S (next_library t) end)%nat).
  { unfold library_id. destruct (libraries t !! key) as [r0|] eqn:E0; [by apply H1 in E0|lia]. }
  split; cbn.
  - intros k r. destruct (decide (key = k)) as [<-|Hk]; [rewrite lookup_insert_eq; by intros [= <-]|].
    rewrite lookup_insert_ne by done. intros Hr%H1. by destruct (libraries t !! key); lia.
  - intros k k' r r'. destruct (decide (key = k)) as [<-|Hk], (decide (key = k')) as [<-|Hk']; rewrite ?lookup_insert_eq, ?lookup_insert_ne by done; try done.
    + intros [= <-] Hr' He. by destruct (Hid k' r').
    + intros Hr [= <-] He. by destruct (Hid k r).
    + apply H2.
Qed.

(** Only the libraries were touched, those of the keys in [seen]. *)
Record listing (server : string) (s0 : St) (seen : list string) (out : list sectionInfo) (s : St) : Prop := {
  li_items : items (db s) = items (db s0); li_cursors : cursors (db s) = cursors (db s0);
  li_collections : collections (db s) = collections (db s0); li_syncs : collection_syncs (db s) = collection_syncs (db s0);
  li_seq : generation_seq (db s) = generation_seq (db s0);
  li_ok : lib_ok (db s);
  li_others : ∀ section, section ∉ seen → libraries (db s) !! (server, section) = libraries (db s0) !! (server, section);
  li_keys : SectionID <$> out = reverse seen;
  li_rows : ∀ sec, sec ∈ out → ∃ r, libraries (db s) !! (server, SectionID sec) = Some r ∧ l_id r = LibraryID sec;
}.

Lemma listing_tick server s0 seen out s : listing server s0 seen out s → listing server s0 seen out (tick s).
Proof. by intros []. Qed.

Lemma sections_loop_holds server s0 dirs seen out s :
  listing server s0 seen out s →
  holds (sections_loop server dirs seen out) s
    (λ s' r, listing server s0 r.1 r.2 s' ∧ r.1 = reverse (filter (λ k, k ≠ "") (sd_key <$> dirs)) ++ seen) (λ s', ∃ seen out, listing server s0 seen out s').
Proof.
  revert seen out s. induction dirs as [|d dirs IH]; intros seen out s Hs; cbn [sections_loop]; [by apply holds_ret|].
  destruct (String.eqb_spec (sd_key d) "") as [He|Hne].
  { eapply holds_mono; [by apply IH|]. intros s' r [H1 H2]. split; [done|]. rewrite H2.
    cbn [fmap list_fmap]. by rewrite filter_cons_False by tauto. }
  set (info n := mkSectionInfo (library_id (db s) (server, sd_key d)) (sd_key d) (sd_title d) (sd_type d) n).
  assert (Hup : ∀ n, listing server s0 (sd_key d :: seen) (out ++ [info n]) (set_db (tick s) (upsert_library server d (db s)))).
  { intros n. destruct Hs. split; cbn; try done.
    - by apply lib_ok_upsert.
    - intros section [Hn1 Hn2]%not_elem_of_cons. rewrite lookup_insert_ne by congruence. auto.
    - rewrite fmap_app, li_keys0. symmetry. apply (reverse_cons seen (sd_key d)).
    - intros sec [Hin|Hin]%elem_of_app.
      + destruct (li_rows0 sec Hin) as (r & Hr & Hid). destruct (decide (SectionID sec = sd_key d)) as [He|He].
        * rewrite He, lookup_insert_eq. eexists. split; [done|]. cbn. unfold library_id. rewrite <- He, Hr. done.
        * rewrite lookup_insert_ne by congruence. by exists r.
      + apply list_elem_of_singleton in Hin as ->. cbn. rewrite lookup_insert_eq. by eexists. }
  apply holds_bind with (R1 := λ s' id, id = library_id (db s) (server, sd_key d) ∧ ∀ n, listing server s0 (sd_key d :: seen) (out ++ [info n]) s').
  { unfold holds, upsert_library_stmt, stmt, stmt_at. destruct (fate_at (steps s)); cbn; [done|exists seen, out; by apply listing_tick|].
    by exists (sd_key d :: seen), (out ++ [info true]). }
  intros s1 id [-> Hs1]. apply holds_bind with (R1 := λ s' _, ∀ n, listing server s0 (sd_key d :: seen) (out ++ [info n]) s').
  { apply holds_try. apply holds_query; [intros n; by apply listing_tick|]. split; [intros e n; by apply listing_tick|].
    exists (sd_key d :: seen), (out ++ [info true]). by apply listing_tick. }
  intros s2 n Hs2. eapply holds_mono; [apply IH, Hs2|]. intros s' r [H1 H2]. split; [done|]. rewrite H2.
  cbn [fmap list_fmap]. rewrite filter_cons_True by done. by rewrite reverse_cons, <- app_assoc.
Qed.

(** The library of row [r] was left out of a listing that had sections. *)
Definition dropped (server : string) (t : tables) (r : item_row) : Prop :=
  ∃ n raw dirs section row,
    GetJSON_at n (Origin +:+ "/library/sections") = Ok raw ∧ decode_sections raw = Some dirs ∧ (∃ d, d ∈ dirs ∧ sd_key d ≠ "") ∧
    libraries t !! (server, section) = Some row ∧ l_id row = ir_library r ∧ section ∉ filter (λ k, k ≠ "") (sd_key <$> dirs).
(** A section was listed from its first page to its last without [k]. *)
Definition unlisted (server : string) (k : string * string) : Prop :=
  ∃ section l, Listed section 0 l ∧ (k.1 = server → latest k.2 l = None).
(** The index after some part of a pass. *)
Record safe_pass (server : string) (full : bool) (s0 s : St) : Prop := {
  sp_index : index_ok (db s); sp_coll : coll_ok (db s); sp_lib : lib_ok (db s);
  sp_lost : ∀ k r, items (db s0) !! k = Some r →
    is_Some (items (db s) !! k) ∨ (full = true ∧ (dropped server (db s0) r ∨ unlisted server k));
}.

Lemma coll_ok_same t t' :
  collections t' = collections t → collection_syncs t' = collection_syncs t → generation_seq t' = generation_seq t → coll_ok t → coll_ok t'.
Proof. intros H1 H2 H3 [Hs Hr]. split; rewrite H3; [done|]. intros id c. rewrite H1, H2. apply Hr. Qed.
Lemma lib_ok_same t t' : libraries t' = libraries t → next_library t' = next_library t → lib_ok t → lib_ok t'.
Proof. intros H1 H2 [Ha Hb]. split; rewrite H1; [rewrite H2|]; done. Qed.

Lemma safe_kept server full L s0 s s' : safe_pass server full s0 s → kept L s s' → safe_pass server full s0 s'.
Proof.
  intros [] []. split; [auto|by eapply coll_ok_same|by eapply lib_ok_same|]. intros k r Hr. destruct (sp_lost0 k r Hr); auto.
Qed.
Lemma safe_read server full sec gen s0 s s' : safe_pass server full s0 s → read_whole server sec full gen s s' → safe_pass server full s0 s'.
Proof.
  intros [] Hw. pose proof Hw as ([] & l & t & _ & Hok & _). split; [done|by eapply coll_ok_same|by eapply lib_ok_same|]. intros k r Hr.
  destruct (sp_lost0 k r Hr) as [Hs|]; [|by right]. destruct (items (db s') !! k) eqn:E; [by left|]. right.
  destruct (read_whole_lost _ _ _ _ _ _ _ Hw Hs E) as (Hf & l' & Hl' & Hk). split; [done|]. right. by exists (SectionID sec), l'.
Qed.
Lemma safe_same server full s0 s s' : safe_pass server full s0 s → same_items s s' → coll_ok (db s') → safe_pass server full s0 s'.
Proof.
  intros [] [] Hc. split; [|done|by eapply lib_ok_same|by rewrite si_items0]. intros k r. rewrite si_items0. apply sp_index0.
Qed.

Lemma gone_spec server keys t id :
  id ∈ gone server keys t ↔ ∃ section r, libraries t !! (server, section) = Some r ∧ section ∉ keys ∧ l_id r = id.
Proof.
  unfold gone. rewrite list_elem_of_fmap. split.
  - intros ([[srv section] r] & -> & Hin). apply elem_of_map_to_list, map_lookup_filter_Some in Hin as [Hr [Hsrv Hk]]. cbn in *. subst srv.
    by exists section, r.
  - intros (section & r & Hr & Hk & <-). exists ((server, section), r). split; [done|]. apply elem_of_map_to_list. by apply map_lookup_filter_Some_2.
Qed.

(** Removing libraries takes what refers to them along. *)
Lemma delete_libraries_ok server keys t t' :
  delete_libraries server keys t = Some t' → index_ok t → coll_ok t → lib_ok t → index_ok t' ∧ coll_ok t' ∧ lib_ok t'.
Proof.
  intros [= <-] Hi [Hs Hr] [Ha Hb]. split; [|split].
  - intros k r [Hk _]%map_lookup_filter_Some. by eapply Hi.
  - split; [done|]. intros id c [Hc Hl]%map_lookup_filter_Some. cbn. destruct (Hr id c Hc) as [Ho [y Hy]]. split; [done|].
    exists y. by apply map_lookup_filter_Some_2.
  - split.
    + intros k r [Hk _]%map_lookup_filter_Some. by eapply Ha.
    + intros k k' r r' [Hk _]%map_lookup_filter_Some [Hk' _]%map_lookup_filter_Some. by eapply Hb.
Qed.

(** Section keys are unique in a listing of the origin. *)
Hypothesis section_keys_unique : ∀ n raw dirs,
  GetJSON_at n (Origin +:+ "/library/sections") = Ok raw → decode_sections raw = Some dirs → NoDup (filter (λ k, k ≠ "") (sd_key <$> dirs)).

Lemma listing_safe server full s0 seen out s :
  index_ok (db s0) → coll_ok (db s0) → listing server s0 seen out s → safe_pass server full s0 s.
Proof.
  intros Hi Hc []. split; [|by eapply coll_ok_same|done|rewrite li_items0; by left]. intros k r. rewrite li_items0. apply Hi.
Qed.

Lemma libraries_distinct server s0 seen out s : listing server s0 seen out s → NoDup seen → NoDup (LibraryID <$> out).
Proof.
  intros [] Hnd. assert (Hk : NoDup (SectionID <$> out)) by (by rewrite li_keys0, reverse_Permutation). clear li_keys0.
  induction out as [|x out IH]; [constructor|]. cbn in Hk |- *. apply NoDup_cons in Hk as [Hx Hk]. apply NoDup_cons. split.
  - intros (y & Heq & Hy)%list_elem_of_fmap. apply Hx, list_elem_of_fmap. exists y. split; [|done].
    destruct (li_rows0 x) as (r & Hr & Hid); [apply elem_of_cons; by left|]. destruct (li_rows0 y) as (r' & Hr' & Hid'); [apply elem_of_cons; by right|].
    assert ((server, SectionID x) = (server, SectionID y)) as [= ?]; [|done]. eapply (lo_inj _ li_ok0); [done|done|congruence].
  - apply IH; [|done]. intros sec Hin. apply li_rows0. apply elem_of_cons. by right.
Qed.

Lemma syncSections_holds server full s :
  index_ok (db s) → coll_ok (db s) → lib_ok (db s) →
  holds (syncSections server full) s
    (λ s' out, safe_pass server full s s' ∧ NoDup (LibraryID <$> out) ∧
       ∀ key c, cursors (db s') !! key = Some c → cursors (db s) !! key = Some c)
    (safe_pass server full s).
Proof.
  intros Hi Hc Hl. assert (H0 : listing server s [] [] (tick s)).
  { split; try done. intros sec Hin. by apply elem_of_nil in Hin. }
  apply holds_bind with (R1 := λ s' raw, s' = tick s ∧ ∃ n, GetJSON_at n (Origin +:+ "/library/sections") = Ok raw).
  { apply holds_GetJSON; [intros raw Hr; split; [done|by eexists]|by eapply listing_safe]. }
  intros s1 raw [-> [n Hn]]. destruct (decode_sections raw) as [dirs|] eqn:Ed; [|apply holds_fail; by eapply listing_safe].
  apply holds_bind with (R1 := λ s' r, listing server s r.1 r.2 s' ∧ r.1 = reverse (filter (λ k, k ≠ "") (sd_key <$> dirs))).
  { pose proof (sections_loop_holds server s dirs [] [] (tick s) H0) as H. unfold holds in *. destruct (sections_loop _ _ _ _ (tick s)) as [s' [r|e|]].
    - by rewrite app_nil_r in H.
    - destruct H as (seen & out & H). by eapply listing_safe.
    - destruct H as (seen & out & H). by eapply listing_safe. }
  intros s2 [seen out] [Hs2 Hseen]. cbn [fst snd] in *.
  assert (Hnd : NoDup (LibraryID <$> out)).
  { eapply libraries_distinct; [done|]. rewrite Hseen, reverse_Permutation. by eapply section_keys_unique. }
  eapply holds_bind with (R1 := λ s' _, safe_pass server full s s' ∧ ∀ key c, cursors (db s') !! key = Some c → cursors (db s) !! key = Some c).
  2:{ intros s' _ [H1 H2]. by apply holds_ret. }
  pose proof (listing_safe server full s seen out s2 Hi Hc Hs2) as Hsafe.
  destruct (full && negb (bool_decide (seen = []))) eqn:Eb; [|apply holds_ret; split; [done|by rewrite (li_cursors _ _ _ _ _ Hs2)]].
  apply andb_true_iff in Eb as [-> Eb]. apply negb_true_iff, bool_decide_eq_false in Eb.
  apply holds_stmt; [|eapply (safe_kept _ _ O); [done|by apply kept_db]]. intros t Ht.
  assert (Hst : safe_pass server true s (set_db (tick s2) t)).
  { destruct Hsafe. destruct (delete_libraries_ok _ _ _ _ Ht sp_index0 sp_coll0 sp_lib0) as (Ha & Hb & Hd). split; [done..|].
    intros k r Hr. destruct (decide (ir_library r ∈ gone server seen (db s2))) as [Hg|Hg].
    - right. split; [done|]. left. apply gone_spec in Hg as (section & row & Hrow & Hs & Hid). rewrite (li_others _ _ _ _ _ Hs2) in Hrow by done.
      exists n, raw, dirs, section, row. split; [done|]. split; [done|]. rewrite Hseen, elem_of_reverse in Hs. split; [|done].
      destruct seen as [|x seen]; [done|]. assert (x ∈ x :: seen) as Hx by (apply elem_of_cons; by left). rewrite Hseen, elem_of_reverse in Hx.
        apply list_elem_of_filter in Hx as [Hne Hx]. apply list_elem_of_fmap in Hx as (d & -> & Hd'). by exists d.
    - left. exists r. injection Ht as <-. cbn. apply map_lookup_filter_Some_2; [|done]. by rewrite (li_items _ _ _ _ _ Hs2). }
  split; [|done]. split; [done|]. intros key c. injection Ht as <-. cbn. intros [Hk _]%map_lookup_filter_Some. by rewrite <- (li_cursors _ _ _ _ _ Hs2).
Qed.

(** ** The pass *)

Lemma until_done_holds {A} (l : list A) f (I : list A → St → Prop) (E : St → Prop) s :
  (∀ l s, I l s → E s) → (∀ x r s, I (x :: r) s → holds (f x) s (λ s' _, I r s') E) → I l s → holds (until_done l f) s (λ s' _, I [] s') E.
Proof.
  intros HE Hf. revert s. induction l as [|x l IH]; intros s HI; cbn [until_done]; [by apply holds_ret|].
  apply holds_bind with (R1 := λ s' _, s' = s); [done|]. intros s1 [|] ->; [apply holds_fail; by eapply HE|].
  eapply holds_bind; [by apply Hf|]. cbn beta. intros s2 _ H2. by apply IH.
Qed.

Lemma safe_set_mem server full s0 s m : safe_pass server full s0 s → safe_pass server full s0 (set_mem s m).
Proof. by intros []. Qed.

(** The sections still to read have fresh cursors. *)
Definition to_read (server : string) (full : bool) (gen : Z) (s0 : St) (rest : list sectionInfo) (s : St) : Prop :=
  safe_pass server full s0 s ∧ NoDup (LibraryID <$> rest) ∧
  (full = true → ∀ sec, sec ∈ rest → fresh_cursor server (LibraryID sec) gen (db s)).

Lemma to_read_next server full gen s0 sec rest s s' :
  to_read server full gen s0 (sec :: rest) s → safe_pass server full s0 s' →
  (∀ srv L', L' ≠ LibraryID sec → cursors (db s') !! (srv, "section", Some L') = cursors (db s) !! (srv, "section", Some L')) →
  to_read server full gen s0 rest s'.
Proof.
  intros (_ & Hnd & Hf) Hs Hcur. cbn in Hnd. apply NoDup_cons in Hnd as [Hx Hnd]. split; [done|]. split; [done|].
  intros Hfull sec' Hin. destruct (Hf Hfull sec') as [H0 Hc]; [apply elem_of_cons; by right|]. split; [done|]. intros c st g. rewrite Hcur; [apply Hc|].
  intros He. apply Hx. rewrite <- He. by apply list_elem_of_fmap_2.
Qed.

Lemma refresh_section_holds fuel server full gen s0 sec rest s :
  to_read server full gen s0 (sec :: rest) s →
  holds (refresh_section fuel server full gen sec) s (λ s' _, to_read server full gen s0 rest s') (safe_pass server full s0).
Proof.
  intros Hs. pose proof Hs as (Hsafe & _ & Hfresh). unfold refresh_section.
  apply holds_bind with (R1 := λ s' _, s' = s); [done|]. intros s1 is_dirty ->.
  destruct (full || is_dirty || NeverSynced sec); [|apply holds_ret; by eapply to_read_next].
  assert (Hnext : ∀ s', outside (LibraryID sec) s s' → safe_pass server full s0 s' → to_read server full gen s0 rest s').
  { intros s' [] Hsf. by eapply to_read_next. }
  assert (Hrun : ∀ s', kept (LibraryID sec) s s' ∨ read_whole server sec full gen s s' → outside (LibraryID sec) s s' ∧ safe_pass server full s0 s').
  { intros s' [Hk|Hw]; [split; [by apply kept_outside|by eapply safe_kept]|split; [apply Hw|by eapply safe_read]]. }
  assert (Hcur : ∀ s1 s', outside (LibraryID sec) s s1 → kept (LibraryID sec) s1 s' → outside (LibraryID sec) s s').
  { intros s1 s' [] []. split; try congruence. intros srv L' Hl. rewrite kp_cursors0 by done. auto. }
  apply holds_bind with (R1 := λ s' _, outside (LibraryID sec) s s' ∧ safe_pass server full s0 s').
  { apply holds_try. pose proof (syncSection_holds fuel server sec full gen s (sp_index _ _ _ _ Hsafe)) as H. unfold holds in *.
    specialize (H (λ Hf, Hfresh Hf sec (proj2 (elem_of_cons _ _ _) (or_introl eq_refl)))).
    destruct (syncSection fuel server sec full gen s) as [s' [a|e|]]; [apply Hrun; by right|..].
    - split; [intros _; by apply Hrun|by apply Hrun].
    - split; [intros _; by apply Hrun|by apply Hrun]. }
  intros s1 r [Ho1 Hs1].
  assert (Hset : ∀ status e, holds (ignore (setCursor server "section" (Some (LibraryID sec)) status e)) s1
    (λ s' _, to_read server full gen s0 rest s') (safe_pass server full s0)).
  { intros status e. apply holds_ignore. apply setCursor_holds with (L := LibraryID sec); [by right|]. intros s' Hk _.
    assert (safe_pass server full s0 s') by (by eapply safe_kept). split; [apply Hnext; [by eapply Hcur|done]|done]. }
  destruct r as [u|e|]; [|apply Hset..].
  eapply holds_bind; [apply Hset|]. cbn beta. intros s2 _ (Ha & Hb & Hc). unfold holds, mem_do. split; [by apply safe_set_mem|done].
Qed.

Section collections_too.
Hypothesis hash_injective : ∀ md l md' l', content_hash md l = content_hash md' l' → md = md' ∧ l = l'.

Lemma set_collections_cursor_holds server full s0 sec status e s :
  safe_pass server full s0 s → holds (ignore (setCursor server "collections" (Some (LibraryID sec)) status e)) s
    (λ s' _, safe_pass server full s0 s') (safe_pass server full s0).
Proof.
  intros Hs. apply holds_ignore. apply setCursor_holds with (L := LibraryID sec); [by right|]. intros s' Hk _.
  assert (safe_pass server full s0 s') by (by eapply safe_kept). done.
Qed.

Lemma refresh_collections_holds server full s0 sec finish s :
  (∀ s1, safe_pass server full s0 s1 → holds finish s1 (λ s' _, safe_pass server full s0 s') (safe_pass server full s0)) →
  safe_pass server full s0 s → holds (refresh_collections server sec finish) s (λ s' _, safe_pass server full s0 s') (safe_pass server full s0).
Proof.
  intros Hfinish Hs. unfold refresh_collections.
  eapply holds_bind; [by apply set_collections_cursor_holds|]. cbn beta. intros s1 _ Hs1.
  apply holds_bind with (R1 := λ s' _, safe_pass server full s0 s').
  { apply holds_try. pose proof (syncLibraryCollections_holds Origin PageSize hooked hash_injective server sec s1 (sp_coll _ _ _ _ Hs1)) as H.
    unfold holds in *. destruct (syncLibraryCollections _ _ _ _ _ s1) as [s' [a|e|]].
    - destruct H as [[] _]. by eapply safe_same.
    - destruct H. split; [intros _|]; by eapply safe_same.
    - destruct H. split; [intros _|]; by eapply safe_same. }
  intros s2 r Hs2. destruct r as [u|e|].
  - eapply holds_bind; [by apply Hfinish|]. cbn beta. intros s3 _ Hs3. by apply holds_ret.
  - apply holds_bind with (R1 := λ s' _, safe_pass server full s0 s'); [by apply safe_set_mem|]. intros s3 _ Hs3.
    eapply holds_bind; [by apply set_collections_cursor_holds|]. cbn beta. intros s4 _ Hs4. by apply holds_ret.
  - apply holds_bind with (R1 := λ s' _, safe_pass server full s0 s'); [by apply safe_set_mem|]. intros s3 _ Hs3.
    eapply holds_bind; [by apply set_collections_cursor_holds|]. cbn beta. intros s4 _ Hs4. by apply holds_ret.
Qed.

Lemma collections_step_holds server full s0 sec s :
  safe_pass server full s0 s → holds (collections_step server full sec) s (λ s' _, safe_pass server full s0 s') (safe_pass server full s0).
Proof.
  intros Hs. unfold collections_step. destruct (has_collections sec); [|by apply holds_ret].
  apply holds_bind with (R1 := λ s' _, s' = s); [done|]. intros s1 is_dirty ->.
  assert (Htick : safe_pass server full s0 (tick s)) by (eapply (safe_kept _ _ O); [done|by apply kept_db]).
  apply holds_bind with (R1 := λ s' _, safe_pass server full s0 s').
  { destruct (full || is_dirty); [by apply holds_ret|]. unfold collectionsNeverSynced.
    apply holds_bind with (R1 := λ s' _, safe_pass server full s0 s'); [|intros s1 r Hs1; by apply holds_ret].
    apply holds_try. by apply holds_query. }
  intros s1 never Hs1. destruct never; [|by apply holds_ret].
  eapply holds_bind; [apply refresh_collections_holds; [|done]|].
  { intros s2 Hs2. eapply holds_bind; [by apply set_collections_cursor_holds|]. cbn beta. intros s3 _ Hs3.
    unfold holds, mem_do. by apply safe_set_mem. }
  cbn beta. intros s2 _ Hs2. by apply holds_ret.
Qed.

Lemma safe_base server full s0 s1 s :
  items (db s1) = items (db s0) → libraries (db s1) = libraries (db s0) → safe_pass server full s1 s → safe_pass server full s0 s.
Proof.
  intros Hi Hl []. split; [done..|]. intros k r. rewrite <- Hi. intros Hr. destruct (sp_lost0 k r Hr) as [|[Hf [Hd|Hu]]]; [by left|right|by right; auto].
  split; [done|]. left. unfold dropped in *. by rewrite <- Hl.
Qed.

(** The clock is past every stored generation. *)
Definition clock_ahead (t : tables) : Prop :=
  ∀ n, now_at n ≠ 0 ∧ ∀ srv L c st g, cursors t !! (srv, "section", Some L) = Some c → c_position c = Some (st, g) → g ≠ now_at n.

Lemma pass_holds fuel full s :
  index_ok (db s) → coll_ok (db s) → lib_ok (db s) → (full = true → clock_ahead (db s)) →
  holds (pass fuel full) s (λ s' _, ∃ server, safe_pass server full s s') (λ s', ∃ server, safe_pass server full s s').
Proof.
  intros Hi Hc Hl Hclock. assert (Hrefl : ∀ server s', db s' = db s → flushes s' = flushes s → safe_pass server full s s').
  { intros server s' Hd Hf. eapply (safe_kept _ _ O); [|by apply kept_db]. split; [done..|by left]. }
  unfold pass. apply holds_bind with (R1 := λ s' _, db s' = db s ∧ flushes s' = flushes s).
  { unfold holds, ownerToken. destruct (OwnerToken_at (steps s)); [done|exists ""; by apply Hrefl]. }
  intros s1 _ [Hd1 Hf1]. apply holds_bind with (R1 := λ s' _, db s' = db s ∧ flushes s' = flushes s).
  { unfold holds, enabledServer. destruct (fate_at (steps s1)), (enabled_at (steps s1)); try done; exists ""; by apply Hrefl. }
  intros s2 server [Hd2 Hf2]. set (P s' := safe_pass server full s s').
  assert (HP : ∀ s', P s' → ∃ server, safe_pass server full s s') by (intros s' H; by exists server).
  cut (holds (setCursor server "libraries" None "running" "" >>>
     sections <-- catchM (syncSections server full) (λ e, ignore (setCursor server "libraries" None "error" e));
     ignore (setCursor server "libraries" None "complete" "") >>>
     gen <-- (if full then unix_nano else ret 0);
     until_done sections (refresh_section fuel server full gen) >>> until_done sections (collections_step server full)) s2 (λ s' _, P s') P).
  { unfold holds. destruct (bindM _ _ s2) as [s' [a|e|]]; apply HP. }
  apply holds_bind with (R1 := λ s' _, (∀ L, kept L s s') ∧ items (db s') = items (db s)).
  { assert (Hk : holds (setCursor server "libraries" None "running" "") s2
      (λ s' _, (∀ L, kept L s s') ∧ items (db s') = items (db s)) (λ s', (∀ L, kept L s s') ∧ items (db s') = items (db s))).
    { apply setCursor_none_holds. intros s' Hk Hit. split; [intros L; etrans; [by apply kept_db|apply Hk]|by rewrite Hit, Hd2]. }
    unfold holds in *. destruct (setCursor _ _ _ _ _ s2) as [s' [a|e|]]; [done|..]; destruct Hk as [Hk _]; (eapply (safe_kept _ _ O s s); [by apply Hrefl|apply Hk]). }
  intros s3 _ [Hk3 Hi3]. assert (Hs3 : P s3) by (eapply (safe_kept _ _ O s s s3); [by apply Hrefl|apply Hk3]).
  assert (Hbase : ∀ s', safe_pass server full s3 s' → P s').
  { intros s'. apply safe_base; [done|apply (kp_libraries _ _ _ (Hk3 O))]. }
  apply holds_bind with (R1 := λ s' out, P s' ∧ NoDup (LibraryID <$> out) ∧
    ∀ key c, cursors (db s') !! key = Some c → cursors (db s3) !! key = Some c).
  { eapply holds_catch with (E' := P).
    - destruct Hs3. pose proof (syncSections_holds server full s3 sp_index0 sp_coll0 sp_lib0) as H. unfold holds in *.
      destruct (syncSections server full s3) as [s' [a|e|]]; [destruct H as (H1 & H2 & H3); auto|by apply Hbase..].
    - intros e s' Hs'. apply (holds_run _ s' P). apply holds_ignore. apply setCursor_none_holds. intros s'' Hk _.
      assert (P s'') by (eapply (safe_kept _ _ O); [done|apply Hk]). done.
    - done. }
  intros s4 sections (Hs4 & Hnd & Hcur).
  apply holds_bind with (R1 := λ s' _, P s' ∧ ∀ L, kept L s4 s').
  { apply holds_ignore. apply setCursor_none_holds. intros s' Hk _. assert (P s') by (eapply (safe_kept _ _ O); [done|apply Hk]). done. }
  intros s5 _ [Hs5 Hk5].
  apply holds_bind with (R1 := λ s' gen, s' = s5 ∧ (full = true → ∃ n, gen = now_at n)).
  { destruct full; [split; [done|]; intros _; by eexists|by apply holds_ret]. }
  intros s6 gen [-> Hgen]. eapply holds_bind.
  { apply (until_done_holds sections _ (to_read server full gen s) P s5); [by intros l s' []|intros; by apply refresh_section_holds|].
    split; [done|]. split; [done|]. intros Hf sec _. destruct (Hgen Hf) as [n ->]. destruct (Hclock Hf n) as [H0 Hg]. split; [done|].
    intros c st g Hcu. rewrite (kp_cursors _ _ _ (Hk5 (S (LibraryID sec)))) in Hcu by lia. apply Hcur in Hcu.
    rewrite (kp_cursors _ _ _ (Hk3 (S (LibraryID sec)))) in Hcu by lia. by eapply Hg. }
  cbn beta. intros s7 _ (Hs7 & _).
  apply (until_done_holds sections _ (λ _ s', P s') P s7); [done|intros; by apply collections_step_holds|done].
Qed.


End collections_too.

End worker.

(** ** The event stream *)

Record eventActivity := mkActivity { ea_subtype : string; ea_progress : option Z; ea_key : option string }.
Record eventEnvelope := mkEnvelope { ev_type : string; ev_activity : option eventActivity }.

(** The leftmost match of [/library/sections/(\d+)]. *)
Fixpoint digits_prefix (s : string) : string := match s with String c r => if is_digit c then String c (digits_prefix r) else "" | "" => "" end.
Fixpoint sectionKey (s : string) : option string :=
  let d := match CutPrefix s "/library/sections/" with Some r => digits_prefix r | None => "" end in
  if d =s "" then match s with String _ r => sectionKey r | "" => None end else Some d.

Definition handleEventData (decode : string → option eventEnvelope) (payload : string) : list mark :=
  match decode payload with
  | None => []
  | Some env =>
      match ev_activity env with
      | Some a =>
          if negb (ev_type env =s "activity") then []
          else
            let subtype := ToLower (ea_subtype a) in
            let itemRefresh := Contains subtype "library.refresh.items" in
            let collectionRefresh := Contains subtype "library.refresh.collections" in
            let finished := match ea_progress a with Some p => 100 <=? p | None => false end in
            if negb (itemRefresh || collectionRefresh) || negb finished then []
            else match sectionKey (default "" (ea_key a)) with
                 | Some id => (if itemRefresh then [MarkItems id] else []) ++ (if collectionRefresh then [MarkCollections id] else [])
                 | None => []
                 end
      | None => []
      end
  end.
(** The lines of one connection. *)
Definition stream_line (decode : string → option eventEnvelope) (line : string) : list mark :=
  match CutPrefix line "data:" with Some payload => handleEventData decode (TrimSpace payload) | None => [] end.
Definition stream_marks (decode : string → option eventEnvelope) (lines : list string) : list mark := lines ≫= stream_line decode.

(** The wait before the [n]th reconnection, in seconds. *)
Fixpoint backoff (n : nat) : Z := match n with O => 5 | S n => let b := backoff n in if b <? 300 then b * 2 else b end.

(** Waiting never exceeds 320 seconds and never gets shorter, whatever the
    length of the connections. *)
Lemma backoff_bounds n : 5 <= backoff n <= 320 ∧ backoff n <= backoff (S n).
Proof.
  assert (H : ∀ n, backoff n = 5 * 2 ^ Z.of_nat (Nat.min n 6)).
  { clear n. intros n. induction n as [|n IH]; [done|]. cbn [backoff]. rewrite IH.
    destruct (decide (n < 6)%nat).
    - do 6 (destruct n as [|n]; [done|]). lia.
    - by rewrite !Nat.min_r by lia. }
  rewrite !H. assert (∀ k, (k <= 6)%nat → 5 <= 5 * 2 ^ Z.of_nat k <= 320) as Hk by (intros k Hk; do 7 (destruct k as [|k]; [lia|]); lia).
  split; [apply Hk; lia|]. apply Z.mul_le_mono_nonneg_l; [lia|]. apply Z.pow_le_mono_r; lia.
Qed.

(** Only a finished refresh of items or collections marks, and only the
    section it names. *)
Lemma handleEventData_marks decode payload m :
  m ∈ handleEventData decode payload →
  ∃ env a key id, decode payload = Some env ∧ ev_type env = "activity" ∧ ev_activity env = Some a ∧ ea_key a = Some key ∧ sectionKey key = Some id ∧
    (m = MarkItems id ∨ m = MarkCollections id) ∧ ∃ p, ea_progress a = Some p ∧ 100 <= p.
Proof.
  unfold handleEventData. destruct (decode payload) as [env|]; [|by intros ?%elem_of_nil]. destruct (ev_activity env) as [a|] eqn:Ea; [|by intros ?%elem_of_nil].
  destruct (String.eqb_spec (ev_type env) "activity") as [Ht|]; cbn [negb]; [|by intros ?%elem_of_nil]. cbv zeta.
  destruct (negb (_ || _)); cbn [orb]; [by intros ?%elem_of_nil|]. destruct (ea_progress a) as [p|] eqn:Ep; cbn [negb]; [|by intros ?%elem_of_nil].
  destruct (Z.leb_spec 100 p); cbn [negb]; [|by intros ?%elem_of_nil].
  destruct (sectionKey (default "" (ea_key a))) as [id|] eqn:Ek; [|by intros ?%elem_of_nil].
  destruct (ea_key a) as [key|] eqn:Ekey; cbn in Ek; [|done].
  intros [Hm|Hm]%elem_of_app; exists env, a, key, id; (do 5 (split; [done|])); (split; [|by exists p]).
  - destruct (Contains _ _) in Hm; [|by apply elem_of_nil in Hm]. apply list_elem_of_singleton in Hm. by left.
  - destruct (Contains _ _) in Hm; [|by apply elem_of_nil in Hm]. apply list_elem_of_singleton in Hm. by right.
Qed.
Example section_key_ex : sectionKey "/library/sections/22/refresh" = Some "22". Proof. reflexivity. Qed.

(** ** A concrete origin *)

#[local] Existing Instance SyncCollections.Toy.codec.

Module Toy.

Definition item (rk : string) : itemJSON :=
  mkItem rk ("/library/metadata/" +:+ rk) "movie" ("Film " +:+ rk) "" "" None "" "" None "" "" None None ["tmdb://" +:+ rk] [].
Definition listing : list itemJSON := [item "1"; item "2"; item "3"].
Definition base : string := "http://pms".
Definition section : sectionInfo := mkSectionInfo 0 "1" "Films" "artist" false.
#[export] Instance codec : PassCodec := {|
  decode_sections := λ raw, if raw =s "sections" then Some [mkSectionDir "1" "artist" "Films" "" "" "" None] else None;
  decode_items := λ raw, if raw =s "first" then Some (take 2 listing, Some 3) else if raw =s "second" then Some (drop 2 listing, None) else None;
|}.
Definition answer (u : string) : outcome string :=
  if u =s section_url base 2 "1" 0 then Ok "first" else if u =s section_url base 2 "1" 2 then Ok "second"
  else if u =s "http://pms/library/sections" then Ok "sections" else Err "404".
#[export] Instance env : Env := {|
  fate_at := λ _, Works; marks_at := λ _, []; now_at := λ _, 100; ended_at := λ _, false; GetJSON_at := λ _, answer;
  OwnerToken_at := λ _, Some "owner"; enabled_at := λ _, Some "server"; invalidate_at := λ _, Works;
|}.

Lemma section_url_start k k' : section_url base 2 "1" k = section_url base 2 "1" k' → k = k'.
Proof.
  unfold section_url. intros H. do 4 apply (inj (String.append _)) in H. apply sapp_inj_len_r in H as [H _]; [|done]. by apply (inj pretty) in H.
Qed.

Lemma listing_honest : honest_section base 2 "1" listing.
Proof.
  intros n k raw. cbn [GetJSON_at env]. unfold answer.
  destruct (String.eqb_spec (section_url base 2 "1" (Z.of_nat k)) (section_url base 2 "1" 0)) as [Hk|_].
  { apply section_url_start in Hk. assert (k = 0)%nat as -> by lia. intros [= <-]. eexists. by split; [|right]. }
  destruct (String.eqb_spec (section_url base 2 "1" (Z.of_nat k)) (section_url base 2 "1" 2)) as [Hk|_].
  { apply section_url_start in Hk. assert (k = 2)%nat as -> by lia. intros [= <-]. eexists. by split; [|left]. }
  assert ((section_url base 2 "1" (Z.of_nat k) =s "http://pms/library/sections") = false) as -> by done. done.
Qed.
Lemma answers_calm n url : GetJSON_at n url ≠ Panic.
Proof. cbn [GetJSON_at env]. unfold answer. by repeat destruct (_ =s _). Qed.

(** Item 9 is gone at the origin; item 50 belongs to another library. *)
Definition old_row (library : nat) (rk : string) : item_row := row_of library (item rk) (Some 7).
Definition old : gmap (string * string) item_row := <[("server", "9") := old_row 0 "9"]> {[ ("server", "50") := old_row 1 "50" ]}.
Definition start : St :=
  mkSt (mkTables {[ ("server", "1") := mkLibrary 0 None "Films" "artist" None None None ]} old
          {[ ("server", "section", Some 0%nat) := mkCursor (Some (3, 7)) "complete" "" None (Some 7) ]} ∅ ∅ 2 0)
    (mkMemory false ∅ ∅) 0 0.

Lemma start_rows k r : items (db start) !! k = Some r → k.1 = "server" ∧ ∃ library rk, r = old_row library rk.
Proof. change (items (db start)) with old. unfold old. intros [[<- <-]|[_ [<- <-]%lookup_singleton_Some]]%lookup_insert_Some; split; try done; by eexists _, _. Qed.
Lemma start_index : index_ok (db start).
Proof.
  intros k r (_ & library & rk & ->)%start_rows g c Hg. unfold old_row, row_of in Hg. cbn [ir_guids item Guid] in Hg.
  cbn in Hg. by apply lookup_insert_Some in Hg as [[<- <-]|[_ Hg]].
Qed.
Lemma start_cursor c st g srv L : cursors (db start) !! (srv, "section", Some L) = Some c → c_position c = Some (st, g) → g ≠ 100.
Proof. cbn [start db cursors]. intros [_ <-]%lookup_singleton_Some [= <- <-]. done. Qed.
Lemma start_fresh : fresh "server" 0 100 (db start).
Proof.
  split; [split; [done|]; intros c st g; apply start_cursor|]. by intros k r (_ & library & rk & ->)%start_rows _.
Qed.
Lemma start_coll : coll_ok (db start).
Proof. split; [done|]. intros id c H. cbn [start db collections] in H. by apply lookup_empty_Some in H. Qed.
Lemma start_lib : lib_ok (db start).
Proof.
  split.
  - intros k r H. cbn [start db libraries] in H. apply lookup_singleton_Some in H as [_ <-]. cbn. lia.
  - intros k k' r r' H H' _. cbn [start db libraries] in H, H'. apply lookup_singleton_Some in H as [<- _]. by apply lookup_singleton_Some in H' as [<- _].
Qed.
Lemma keys_unique n raw dirs :
  GetJSON_at n (base +:+ "/library/sections") = Ok raw → decode_sections raw = Some dirs → NoDup (filter (λ k, k ≠ "") (sd_key <$> dirs)).
Proof. intros [= <-] [= <-]. apply NoDup_singleton. Qed.

End Toy.
#[local] Existing Instance Toy.codec.

Lemma full_sweep_mirrors_the_section_witness :
  ∃ s', syncSection (env := Toy.env) Toy.base 2 4 "server" Toy.section true 100 Toy.start = (s', Ok tt) ∧
    (∀ k, items (db s') !! k = mirrored "server" 0 100 Toy.old Toy.listing k) ∧
    items (db s') !! ("server", "9") = None ∧ items (db s') !! ("server", "50") = Some (Toy.old_row 1 "50") ∧
    items (db s') !! ("server", "2") = Some (row_of 0 (Toy.item "2") (Some 100)).
Proof.
  destruct (full_sweep_mirrors_the_section (env := Toy.env) Toy.base 2 4 "server" Toy.section 100 Toy.start Toy.start_index Toy.start_fresh) as [_ H].
  specialize (H Toy.listing Toy.listing_honest Toy.answers_calm ltac:(cbn; lia)).
  destruct (syncSection (env := Toy.env) Toy.base 2 4 "server" Toy.section true 100 Toy.start) as [s' r] eqn:E.
  assert (Hr : r = Ok tt) by (change (r = Ok tt) with ((s', r).2 = Ok tt); rewrite <- E; clear; vm_compute; reflexivity).
  clear E. destruct H as [_ H]. specialize (H Hr). subst r. exists s'. split; [reflexivity|]. split; [exact H|].
  split; [by rewrite H|]. split; [by rewrite H|by rewrite H].
Defined.


(** ** What the comments promise and the code does not do *)

(** A page shorter than requested ends a sweep even when the origin reports
    a total that was not reached, and the items never read are deleted. *)
Module ShortPage.
#[local] Instance codec : PassCodec := {|
  decode_sections := λ _, None;
  decode_items := λ raw, if raw =s "first" then Some ([Toy.item "1"], Some 3) else None;
|}.
Definition items0 : gmap (string * string) item_row := <[("server", "1") := Toy.old_row 0 "1"]> {[ ("server", "2") := Toy.old_row 0 "2" ]}.
Definition start : St := set_db Toy.start (with_items (db Toy.start) items0).
Lemma short_page_deletes :
  let r := syncSection (env := Toy.env) Toy.base 2 4 "server" Toy.section true 100 start in
  r.2 = Ok tt ∧ is_Some (items (db start) !! ("server", "2")) ∧ items (db r.1) !! ("server", "2") = None.
Proof. split; [vm_compute; reflexivity|]. split; [by eexists|vm_compute; reflexivity]. Qed.
End ShortPage.

(** A change reported while the section is being read is forgotten: the mark
    is cleared when the reading ends, and the next light pass does not read
    the section again. *)
Module LostMark.
#[local] Instance codec : PassCodec := {|
  decode_sections := λ raw, if raw =s "sections" then Some [mkSectionDir "1" "artist" "Films" "" "" "" None] else None;
  decode_items := λ raw, if raw =s "before" then Some ([Toy.item "1"], Some 1) else if raw =s "after" then Some ([Toy.item "1"; Toy.item "4"], Some 2) else None;
|}.
(** Item 4 is added to section 1 after its page was read, at step 12. *)
#[local] Instance env : Env := {|
  fate_at := λ _, Works; marks_at := λ n, if (n =? 12)%nat then [MarkItems "1"] else []; now_at := λ _, 100; ended_at := λ _, false;
  GetJSON_at := λ n u, if u =s "http://pms/library/sections" then Ok "sections" else if (n <? 12)%nat then Ok "before" else Ok "after";
  OwnerToken_at := λ _, Some "owner"; enabled_at := λ _, Some "server"; invalidate_at := λ _, Works;
|}.
Definition start : St := mkSt (db Toy.start) (mkMemory false {[ "1" ]} ∅) 0 0.
Definition first : St * outcome unit := SyncOnce Toy.base 100 true 9 false start.
Definition second : St * outcome unit := SyncOnce Toy.base 100 true 9 false first.1.
Lemma mark_is_lost :
  first.2 = Ok tt ∧ second.2 = Ok tt ∧ (steps start < 12 < steps first.1)%nat ∧
  dirty (mem first.1) = ∅ ∧ items (db first.1) !! ("server", "4") = None ∧ items (db second.1) !! ("server", "4") = None.
Proof.
  split; [vm_compute; reflexivity|]. split; [vm_compute; reflexivity|]. split; [vm_compute; lia|].
  split; [vm_compute; reflexivity|]. split; vm_compute; reflexivity.
Qed.
End LostMark.

End SyncPass.
