(* ===== verification/Search.v ===== *)
(** * Local search candidates

    internal/search/search.go over the tables of SyncTables.  Postgres' text
    matching and ranking are parameters: which rows match a query, and the
    order of the rows that do. *)

From S2P Require Import Prelude GoStrings GoHttp SyncTables.

Module Search.
Import SyncTables.

Definition hour : Z := 3600 * 1000000000.
Definition FreshnessWindow : Z := 12 * hour.

Record Candidate := mkCandidate { c_ratingKey : string; c_title : string; c_itemType : string; c_year : option Z; c_thumb : string }.

Definition truncateQuery (q : string) : string := let q := TrimSpace q in if (120 <? String.length q)%nat then stake 120 q else q.

Section search.
(** [search_vector @@ plainto_tsquery ... OR title % ...], and [ORDER BY] *)
Variables (matches : string → item_row → bool) (ranked : string → list (string * item_row) → list (string * item_row)).

(** A completed cursor within the window. *)
Definition section_fresh (now : Z) (t : tables) (server : string) (library : nat) : bool :=
  match cursors t !! (server, "section", Some library) with
  | Some c => (c_status c =s "complete") && match c_completed c with Some at_ => now - FreshnessWindow <? at_ | None => false end
  | None => false
  end.
Definition libraries_of (server : string) (t : tables) : list nat :=
  (l_id ∘ snd) <$> filter (λ e, e.1.1 = server) (map_to_list (libraries t)).
Definition hits (server query : string) (t : tables) : list (string * item_row) :=
  ranked query ((λ e, (e.1.2, e.2)) <$> filter (λ e, e.1.1 = server ∧ matches query e.2 = true) (map_to_list (items t))).
(** Scanning a row: a title that is NULL cannot be read. *)
Definition scan (e : string * item_row) : option Candidate :=
  title ← ic_title (ir_cols e.2);
  Some (mkCandidate e.1 title (ic_type (ir_cols e.2)) (ic_year (ir_cols e.2)) (default "" (ic_thumb (ir_cols e.2)))).

(** The database answers both statements or one fails. *)
Definition Candidates (works1 works2 : bool) (now : Z) (db : option tables) (server query : string) (limit : Z) : outcome (list Candidate * bool) :=
  let query := truncateQuery query in
  match db with
  | None => Ok ([], false)
  | Some t =>
      if query =s "" then Ok ([], false)
      else
        let limit := if (limit <=? 0) || (50 <? limit) then 25 else limit in
        if negb works1 then Err "database"
        else
          let libs := libraries_of server t in
          if bool_decide (libs = []) || negb (forallb (section_fresh now t server) libs) then Ok ([], false)
          else if negb works2 then Err "database"
          else match mapM scan (take (Z.to_nat limit) (hits server query t)) with Some l => Ok (l, true) | None => Err "scan" end
  end.

Hypothesis ranked_same : ∀ q l x, x ∈ ranked q l ↔ x ∈ l.

(** Local search vouches for its candidates only when the server has
    libraries and every one of them was completed within twelve hours; the
    candidates are at most fifty, each a stored item of that server that
    matches the (at most 120 byte) query, with its title and type; and without
    a database, with a blank query or a stale library there are none. *)
Theorem candidates_only_when_fresh works1 works2 now db server query limit l ok :
  Candidates works1 works2 now db server query limit = Ok (l, ok) →
  (ok = false → l = []) ∧
  (ok = true → ∃ t, db = Some t ∧ truncateQuery query ≠ "" ∧ (String.length (truncateQuery query) <= 120)%nat ∧ (length l <= 50)%nat ∧
     libraries_of server t ≠ [] ∧
     (∀ section r, libraries t !! (server, section) = Some r →
        ∃ c at_, cursors t !! (server, "section", Some (l_id r)) = Some c ∧ c_status c = "complete" ∧ c_completed c = Some at_ ∧ now - FreshnessWindow < at_) ∧
     ∀ c, c ∈ l → ∃ r, items t !! (server, c_ratingKey c) = Some r ∧ matches (truncateQuery query) r = true ∧
       ic_title (ir_cols r) = Some (c_title c) ∧ ic_type (ir_cols r) = c_itemType c).
Proof.
  unfold Candidates. cbv zeta. destruct db as [t|]; [|by intros [= <- <-]].
  destruct (String.eqb_spec (truncateQuery query) "") as [|Hq]; [by intros [= <- <-]|]. destruct works1; cbn [negb]; [|done].
  destruct (bool_decide (libraries_of server t = []) || _) eqn:Ef; [by intros [= <- <-]|].
  apply orb_false_elim in Ef as [Hlib Hfresh]. apply bool_decide_eq_false in Hlib. apply negb_false_iff in Hfresh.
  destruct works2; cbn [negb]; [|done]. set (lim := if (limit <=? 0) || (50 <? limit) then 25 else limit).
  assert (Hlim : (Z.to_nat lim <= 50)%nat).
  { subst lim. destruct (Z.leb_spec limit 0); cbn [orb]; [lia|]. destruct (Z.ltb_spec 50 limit); lia. }
  destruct (mapM scan _) as [l'|] eqn:Em; [|done]. intros [= <- <-]. split; [done|]. intros _. exists t.
  split; [done|]. split; [done|]. split.
  { unfold truncateQuery. destruct (Nat.ltb_spec 120 (String.length (TrimSpace query))); [|lia]. rewrite length_stake by lia. lia. }
  apply mapM_Some_1 in Em. split; [rewrite <- (Forall2_length _ _ _ Em), length_take; lia|]. split; [done|]. split.
  - intros section r Hr. rewrite forallb_forall in Hfresh. specialize (Hfresh (l_id r)).
    assert (Hin : In (l_id r) (libraries_of server t)).
    { apply list_elem_of_In. unfold libraries_of. apply list_elem_of_fmap. exists ((server, section), r). split; [done|].
      apply list_elem_of_filter. split; [done|]. by apply elem_of_map_to_list. }
    specialize (Hfresh Hin). unfold section_fresh in Hfresh. destruct (cursors t !! _) as [c|] eqn:Ec; [|done].
    apply andb_prop in Hfresh as [Hs Hc]. destruct (c_completed c) as [a|] eqn:Ea; [|done]. exists c, a.
    apply String.eqb_eq in Hs. apply Z.ltb_lt in Hc. done.
  - intros c Hc. apply list_elem_of_lookup in Hc as [i Hi]. destruct (Forall2_lookup_r _ _ _ _ _ Em Hi) as ([rk r] & Hx & Hscan).
    apply list_elem_of_lookup_2 in Hx. assert (Hh : (rk, r) ∈ hits server (truncateQuery query) t).
    { rewrite <- (take_drop (Z.to_nat lim) (hits server (truncateQuery query) t)). apply elem_of_app. by left. }
    unfold hits in Hh. apply ranked_same, list_elem_of_fmap in Hh as ([[srv rk'] r'] & [= -> ->] & Hf).
    apply list_elem_of_filter in Hf as [[Hsrv Hm] Hf]. cbn in Hsrv, Hm. subst srv. apply elem_of_map_to_list in Hf.
    unfold scan in Hscan. cbn in Hscan. destruct (ic_title (ir_cols r')) as [title|] eqn:Et; cbn in Hscan; [|done]. injection Hscan as <-.
    by exists r'.
Qed.
End search.

(** ** A concrete index *)

Definition film (rk : string) : item_row :=
  mkItemRow 0 (mkItemCols None "movie" (Some ("Film " +:+ rk)) None None None None None None None None None None) None ∅ ∅.
Definition one_library : tables :=
  mkTables {[ ("server", "1") := mkLibrary 0 None "Films" "movie" None None None ]} {[ ("server", "7") := film "7" ]}
    {[ ("server", "section", Some 0%nat) := mkCursor None "complete" "" None (Some (5 * hour)) ]} ∅ ∅ 1 0.
Lemma candidates_only_when_fresh_witness :
  Candidates (λ _ _, true) (λ _ l, l) true true (6 * hour) (Some one_library) "server" " film " 0 = Ok ([mkCandidate "7" "Film 7" "movie" None ""], true) ∧
  ∃ r, items one_library !! ("server", "7") = Some r ∧ ic_title (ir_cols r) = Some "Film 7".
Proof.
  assert (H : Candidates (λ _ _, true) (λ _ l, l) true true (6 * hour) (Some one_library) "server" " film " 0 =
    Ok ([mkCandidate "7" "Film 7" "movie" None ""], true)) by (vm_compute; reflexivity).
  split; [exact H|]. destruct (candidates_only_when_fresh (λ _ _, true) (λ _ l, l) (λ _ _ _, iff_refl _) true true (6 * hour)
    (Some one_library) "server" " film " 0 [mkCandidate "7" "Film 7" "movie" None ""] true H) as [_ Ht]. clear H.
  destruct (Ht eq_refl) as (t & Et & _ & _ & _ & _ & _ & Hc). apply (inj Some) in Et as <-.
  destruct (Hc (mkCandidate "7" "Film 7" "movie" None "")) as (r & Hr & _ & Hti & _); [apply elem_of_cons; by left|]. by exists r.
Defined.

(** A row without a title ends the whole search with an error. *)
Lemma untitled_row_fails :
  let row := mkItemRow 0 (mkItemCols None "movie" None None (Some "Original") None None None None None None None None) None ∅ ∅ in
  Candidates (λ _ _, true) (λ _ l, l) true true (6 * hour) (Some (with_items one_library {[ ("server", "8") := row ]})) "server" "original" 0 = Err "scan".
Proof. vm_compute. reflexivity. Qed.

End Search.
