(* ===== verification/Database.v ===== *)
(** * Migrations and readiness

    internal/database/database.go: the forward migrations that run in one
    transaction under an advisory lock, and internal/health/health.go: the
    probes that report what they did.  What a statement of a migration does
    to the schema is a parameter; every statement may fail, and a commit may
    be done and reported as failed. *)

From S2P Require Import Prelude GoStrings GoHttp.

Module Database.

(** ** The statements of a migration *)

Definition newline : ascii := "010".
Definition line_of (line : string) : string := line +:+ String newline "".
Definition skipped (line : string) : bool :=
  let trimmed := TrimSpace line in (trimmed =s "") || HasPrefix trimmed "--".
Definition closes (line : string) : bool := HasSuffix (TrimSpace line) ";".
Definition flush (cur : string) (out : list string) : list string :=
  let s := TrimSpace cur in if s =s "" then out else out ++ [s].
Fixpoint split_lines (lines : list string) (cur : string) (out : list string) : list string :=
  match lines with
  | [] => flush cur out
  | line :: r =>
      if skipped line then split_lines r cur out
      else let cur := cur +:+ line_of line in
           if closes line then split_lines r "" (flush cur out) else split_lines r cur out
  end.
Definition splitStatements (ddl : string) : list string := split_lines (Split ddl newline) "" [].

(** ** Migrate *)

Inductive fate := Works | Fails | Lost.
Record file := mkFile { f_name : string; f_dir : bool; f_body : string }.

Section migrate.
Context {Schema : Type}.
(** What Postgres makes of a statement; [None] is an error. *)
Variable (exec_ddl : string → Schema → option Schema).

(** The schema, and [schema_migrations] when it exists. *)
Record db := mkDb { schema : Schema; versions : option (gset string) }.
Record pool := mkPool { durable : db; completed : bool }.

(** One attempt: what happens to its [n]th request. *)
Section attempt.
Variable (fate_at : nat → fate).
(** A request inside the transaction: any failure ends it. *)
Definition ok_at (n : nat) : bool := match fate_at n with Works => true | _ => false end.

Fixpoint run_statements (l : list string) (n : nat) (t : db) : option (nat * db) :=
  match l with
  | [] => Some (n, t)
  | s :: r =>
      if ok_at n then c ← exec_ddl s (schema t); run_statements r (S n) (mkDb c (versions t)) else None
  end.
Definition applied (t : db) (name : string) : bool := match versions t with Some v => bool_decide (name ∈ v) | None => false end.
Definition record_version (name : string) (t : db) : db := mkDb (schema t) ((λ v, {[name]} ∪ v) <$> versions t).
Fixpoint run_migrations (l : list (string * string)) (n : nat) (t : db) : option (nat * db) :=
  match l with
  | [] => Some (n, t)
  | (name, body) :: r =>
      if ok_at n then
        if applied t name then run_migrations r (S n) t
        else '(m, t') ← run_statements (splitStatements body) (S n) t;
             if ok_at m then run_migrations r (S m) (record_version name t') else None
      else None
  end.

(** The embedded files that are migrations, in the order of their names. *)
Definition migrations (files : list file) : list (string * string) :=
  let sql := filter (λ f, negb (f_dir f) && HasSuffix (f_name f) ".sql" = true) files in
  merge_sort (λ a b, String.le a.1 b.1) ((λ f, (f_name f, f_body f)) <$> sql).
(** [CREATE TABLE IF NOT EXISTS schema_migrations] *)
Definition with_table (t : db) : db := mkDb (schema t) (Some (default ∅ (versions t))).

Definition Migrate (files : list file) (p : pool) : pool * outcome unit :=
  match migrations files with
  | [] => (p, Err "database: no migrations embedded")
  | l =>
      if ok_at 0 && ok_at 1 && ok_at 2 then (* begin, the lock, the table *)
        match run_migrations l 3 (with_table (durable p)) with
        | None => (p, Err "database: migration")
        | Some (n, t) =>
            match fate_at n with
            | Works => (mkPool t true, Ok tt)
            | Lost => (mkPool t (completed p), Err "database: commit")
            | Fails => (p, Err "database: commit")
            end
        end
      else (p, Err "database: begin")
  end.
End attempt.

(** ** What an attempt leaves *)

(** The tables after every statement of every migration that was missing. *)
Fixpoint exec_all (l : list string) (c : Schema) : option Schema :=
  match l with [] => Some c | s :: r => c' ← exec_ddl s c; exec_all r c' end.
Fixpoint migrate_all (l : list (string * string)) (t : db) : option db :=
  match l with
  | [] => Some t
  | (name, body) :: r =>
      if applied t name then migrate_all r t
      else c ← exec_all (splitStatements body) (schema t); migrate_all r (record_version name (mkDb c (versions t)))
  end.
Definition target (files : list file) (t : db) : option db := migrate_all (migrations files) (with_table t).

Lemma run_statements_spec fate_at l n t m t' :
  run_statements fate_at l n t = Some (m, t') → ∃ c, exec_all l (schema t) = Some c ∧ t' = mkDb c (versions t).
Proof.
  revert n t. induction l as [|s l IH]; intros n t; cbn.
  - intros [= <- <-]. exists (schema t). by destruct t.
  - destruct (ok_at fate_at n); [|done]. destruct (exec_ddl s (schema t)) as [c|]; cbn; [|done]. intros H. by apply IH in H.
Qed.
Lemma run_migrations_spec fate_at l n t m t' : run_migrations fate_at l n t = Some (m, t') → migrate_all l t = Some t'.
Proof.
  revert n t. induction l as [|[name body] l IH]; intros n t; cbn [run_migrations migrate_all]; [by intros [= _ <-]|].
  destruct (ok_at fate_at n); [|done]. destruct (applied t name); [apply IH|].
  destruct (run_statements _ _ _ _) as [[k t1]|] eqn:Er; cbn [mbind option_bind]; [|done].
  destruct (run_statements_spec _ _ _ _ _ _ Er) as (c & -> & ->). cbn [mbind option_bind]. destruct (ok_at fate_at k); [apply IH|done].
Qed.

(** Everything is recorded, and recorded migrations are not run again. *)
Definition all_applied (l : list (string * string)) (t : db) : Prop := ∀ name body, (name, body) ∈ l → applied t name = true.
Lemma migrate_all_skips l t : all_applied l t → migrate_all l t = Some t.
Proof.
  induction l as [|[name body] l IH]; intros H; [done|]. cbn. rewrite (H name body) by (apply elem_of_cons; by left).
  apply IH. intros n b Hin. apply (H n b). apply elem_of_cons. by right.
Qed.
Lemma migrate_all_records l t t' :
  is_Some (versions t) → migrate_all l t = Some t' → is_Some (versions t') ∧ (∀ n, applied t n = true → applied t' n = true) ∧ all_applied l t'.
Proof.
  revert t. induction l as [|[name body] l IH]; intros t Hv; cbn [migrate_all].
  { intros [= <-]. split; [done|]. split; [done|]. intros n b Hin. by apply elem_of_nil in Hin. }
  assert (Hcons : ∀ t1, (applied t1 name = true) → (∀ n, applied t n = true → applied t1 n = true) → is_Some (versions t1) →
    migrate_all l t1 = Some t' → is_Some (versions t') ∧ (∀ n, applied t n = true → applied t' n = true) ∧ all_applied ((name, body) :: l) t').
  { intros t1 Hn Hmono Hv1 H1. destruct (IH t1 Hv1 H1) as (Ha & Hb & Hc). split; [done|]. split; [auto|].
    intros n b [[= -> ->]|Hin]%elem_of_cons; [auto|by eapply Hc]. }
  destruct (applied t name) eqn:En; [by apply Hcons|].
  destruct (exec_all _ _) as [c|]; cbn [mbind option_bind]; [|done]. destruct Hv as [v Hv]. apply Hcons.
  - unfold applied, record_version. cbn. rewrite Hv. cbn. apply bool_decide_eq_true. set_solver.
  - intros n. unfold applied, record_version. cbn. rewrite Hv. cbn. rewrite !bool_decide_eq_true. set_solver.
  - unfold record_version. cbn. rewrite Hv. by eexists.
Qed.

(** Attempts of any number of processes, one after the other: the lock lets
    a single transaction run at a time. *)
Inductive attempts (files : list file) : pool → pool → Prop :=
| attempts_none p : attempts files p p
| attempts_one p p' fate_at : attempts files (Migrate fate_at files p).1 p' → attempts files p p'
| attempts_other p p' b : attempts files (mkPool (durable p) b) p' → attempts files p p'.

Lemma Migrate_spec fate_at files p :
  (durable (Migrate fate_at files p).1 = durable p ∨ target files (durable p) = Some (durable (Migrate fate_at files p).1)) ∧
  ((Migrate fate_at files p).2 = Ok tt → target files (durable p) = Some (durable (Migrate fate_at files p).1) ∧ completed (Migrate fate_at files p).1 = true) ∧
  ((Migrate fate_at files p).2 ≠ Ok tt → completed (Migrate fate_at files p).1 = completed p).
Proof.
  unfold Migrate, target. destruct (migrations files) as [|x l]; [cbn; naive_solver|]. generalize (x :: l). intros l'.
  destruct (_ && _ && _); [|cbn; naive_solver]. destruct (run_migrations fate_at l' 3 (with_table (durable p))) as [[n t]|] eqn:Er; [|cbn; naive_solver].
  apply run_migrations_spec in Er. destruct (fate_at n); cbn; naive_solver.
Qed.

Lemma target_twice files t t' : target files t = Some t' → target files t' = Some t' ∧ all_applied (migrations files) t'.
Proof.
  intros Ht. destruct (migrate_all_records (migrations files) (with_table t) t') as ([v Hv] & _ & Hall); [by eexists|done|]. split; [|done].
  unfold target. assert (with_table t' = t') as -> by (unfold with_table; rewrite Hv; destruct t'; cbn in *; by subst). by apply migrate_all_skips.
Qed.

(** When every request works, an attempt does what is missing. *)
Lemma run_statements_works fate_at l n t :
  (∀ i, fate_at i = Works) → ∀ c, exec_all l (schema t) = Some c → ∃ m, run_statements fate_at l n t = Some (m, mkDb c (versions t)).
Proof.
  intros Hw. revert n t. induction l as [|s l IH]; intros n t c; cbn.
  - intros [= <-]. exists n. by destruct t.
  - unfold ok_at. rewrite Hw. destruct (exec_ddl s (schema t)) as [c'|]; cbn; [|done]. apply (IH (S n) (mkDb c' (versions t))).
Qed.
Lemma run_migrations_works fate_at l n t t' :
  (∀ i, fate_at i = Works) → migrate_all l t = Some t' → ∃ m, run_migrations fate_at l n t = Some (m, t').
Proof.
  intros Hw. revert n t. induction l as [|[name body] l IH]; intros n t; cbn [run_migrations migrate_all]; [intros [= <-]; by exists n|].
  unfold ok_at at 1. rewrite Hw. destruct (applied t name); [apply IH|].
  destruct (exec_all _ _) as [c|] eqn:Ec; cbn [mbind option_bind]; [|done].
  destruct (run_statements_works fate_at _ (S n) t Hw c Ec) as [m ->]. cbn [mbind option_bind]. unfold ok_at. rewrite Hw. apply IH.
Qed.
Lemma Migrate_works fate_at files p t :
  (∀ i, fate_at i = Works) → migrations files ≠ [] → target files (durable p) = Some t → Migrate fate_at files p = (mkPool t true, Ok tt).
Proof.
  intros Hw Hne Ht. unfold Migrate, target in *. destruct (migrations files) as [|x l]; [done|]. unfold ok_at. rewrite !Hw. cbn [andb].
  destruct (run_migrations_works fate_at _ 3 _ _ Hw Ht) as [m ->]. by rewrite Hw.
Qed.


End migrate.
Arguments mkDb {Schema}. Arguments mkPool {Schema}. Arguments durable {Schema}. Arguments completed {Schema}.

(** A schema that lists the statements it ran. *)
Definition log_ddl (s : string) (c : list string) : option (list string) := Some (c ++ [s]).
Definition two_files : list file :=
  [mkFile "0002_b.sql" false (line_of "ALTER TABLE a ADD x int;"); mkFile "embed.go" false ""; mkFile "old" true "";
   mkFile "0001_a.sql" false (line_of "-- first" +:+ line_of "CREATE TABLE a (" +:+ line_of "  y int);" +:+ line_of "CREATE TABLE b ();")].
Definition empty_pool : pool (Schema := list string) := mkPool (mkDb [] None) false.

(** The first attempt commits, but its answer is lost. *)
Definition lost_run : pool * outcome unit := Migrate log_ddl (λ n, if (n =? 10)%nat then Lost else Works) two_files empty_pool.
Definition next_run : pool * outcome unit := Migrate log_ddl (λ _, Works) two_files lost_run.1.


(** ** Readiness *)

Module Health.
(** Probes that are not set report unknown. *)
Record Checks := mkChecks { MigrationsComplete : option bool; PostgresOK : option bool; ValkeyOK : option bool; PMSStatus : option string }.
Inductive answer := mkAnswer (status : Z) (body : list (string * string)).
Definition live : answer := mkAnswer 200 [("status", "live")].
Definition ready (c : Checks) : answer :=
  let up := match MigrationsComplete c with Some b => b | None => true end && match PostgresOK c with Some b => b | None => true end in
  let pms := default "unknown" (PMSStatus c) in
  let valkey := match ValkeyOK c with Some b => if b then "ok" else "degraded" | None => "unknown" end in
  mkAnswer (if up then 200 else 503) [("status", if up then "ready" else "not-ready"); ("pms", pms); ("valkey", valkey)].
(** [AdminMux] and [MediaMux] *)
Definition AdminMux (c : Checks) (path : string) : option answer :=
  if path =s "/health/live" then Some live else if path =s "/health/ready" then Some (ready c) else None.
Definition MediaMux (path : string) : option answer := if path =s "/health/live" then Some live else None.

(** The cache and the origin never gate readiness. *)
Lemma ready_gates m p v v' o o' :
  match ready (mkChecks (Some m) (Some p) v o), ready (mkChecks (Some m) (Some p) v' o') with mkAnswer s _, mkAnswer s' _ => s = s' ∧ (s = 200 ↔ m = true ∧ p = true) end.
Proof. cbn. destruct m, p; cbn; naive_solver. Qed.
End Health.

End Database.
