(* ===== verification/Metrics.v ===== *)
(** * Metrics

    internal/metrics/metrics.go and registry.go: the counters behind the
    exported names, and the samples they are rendered as.  Sums of durations
    are floating-point and left out; counters are counted without overflow. *)

From S2P Require Import Prelude GoStrings GoHttp GoNet.

Module Metrics.

Definition HTTPRequestsTotal := "replx_edge_http_requests_total".
Definition HTTPRequestDurationSeconds := "replx_edge_http_request_duration_seconds".
Definition CacheHitsTotal := "replx_edge_cache_hits_total".
Definition CacheMissesTotal := "replx_edge_cache_misses_total".
Definition CacheWarmedTotal := "replx_edge_cache_warmed_total".
Definition CacheWarmErrorsTotal := "replx_edge_cache_warm_errors_total".
Definition CacheEntries := "replx_edge_cache_entries".
Definition CacheBytes := "replx_edge_cache_bytes".
Definition OriginRequestsTotal := "replx_edge_origin_requests_total".
Definition OriginRequestDurationSeconds := "replx_edge_origin_request_duration_seconds".
Definition OriginErrorsTotal := "replx_edge_origin_errors_total".
Definition ActivePlaybackSessions := "replx_edge_active_playback_sessions".
Definition PlaybackDecisionsTotal := "replx_edge_playback_decisions_total".
Definition PolicyRejectionsTotal := "replx_edge_policy_rejections_total".
Definition MediaOriginRedirectsTotal := "replx_edge_media_origin_redirects_total".
Definition MediaGatewayRoutesTotal := "replx_edge_media_gateway_routes_total".
Definition MediaRouteFailuresTotal := "replx_edge_media_route_failures_total".
Definition SyncItemsTotal := "replx_edge_sync_items_total".
Definition SyncErrorsTotal := "replx_edge_sync_errors_total".
Definition EventstreamConnected := "replx_edge_eventstream_connected".
Definition DiagnosticsActive := "replx_edge_diagnostics_active".

(** The counters that have no label. *)
Inductive counter :=
| originTotal | originErr | originDurCnt | mediaRedirect | mediaGateway | cacheHits | cacheMisses | cacheWarmed | cacheWarmErr
| syncItems | syncErrors | playbackDecisions | policyRejections.
Inductive gauge := eventstream | diagnosticsActive | activeSessions.
#[export] Instance counter_eq_dec : EqDecision counter.
Proof. solve_decision. Defined.
#[export] Instance gauge_eq_dec : EqDecision gauge.
Proof. solve_decision. Defined.

Record Registry := mkRegistry {
  reqTotal : gmap string Z; reqDurCount : gmap string Z; mediaFailure : gmap string Z; counters : counter → Z; gauges : gauge → Z
}.
Definition zero : Registry := mkRegistry ∅ ∅ ∅ (λ _, 0) (λ _, 0).

(** [m[k]++] *)
Definition bump (k : string) (m : gmap string Z) : gmap string Z := <[k := default 0 (m !! k) + 1]> m.
Definition key_of (route : string) (status : Z) : string := route +:+ "|" +:+ Itoa status.
Definition or_default (s d : string) : string := if s =s "" then d else s.
Definition inc (c : counter) (r : Registry) : Registry :=
  mkRegistry (reqTotal r) (reqDurCount r) (mediaFailure r) (λ c', if decide (c' = c) then counters r c' + 1 else counters r c') (gauges r).

Inductive op :=
| ObserveHTTP (route : string) (status : Z) | ObserveOrigin (failed : bool) | IncMediaFailure (decision : string)
| Inc (c : counter) | Set_ (g : gauge) (v : Z).
(** [IncMediaRedirect], [IncCacheHit] and the like are [Inc]. *)
Definition step (r : Registry) (o : op) : Registry :=
  match o with
  | ObserveHTTP route status =>
      let route := or_default route "control" in
      mkRegistry (bump (key_of route status) (reqTotal r)) (bump route (reqDurCount r)) (mediaFailure r) (counters r) (gauges r)
  | ObserveOrigin failed => let r := inc originDurCnt (inc originTotal r) in if failed then inc originErr r else r
  | IncMediaFailure decision =>
      mkRegistry (reqTotal r) (reqDurCount r) (bump (or_default decision "unavailable") (mediaFailure r)) (counters r) (gauges r)
  | Inc c => inc c r
  | Set_ g v => mkRegistry (reqTotal r) (reqDurCount r) (mediaFailure r) (counters r) (λ g', if decide (g' = g) then v else gauges r g')
  end.
Definition run (ops : list op) : Registry := foldl step zero ops.

(** ** Rendering *)

Record sample := mkSample { s_name : string; s_labels : list (string * string); s_value : Z }.

(** From the last separator. *)
Definition splitRouteStatus (k : string) : string * string * bool :=
  match LastIndexByte k "|" with
  | Some i => (stake i k, sdrop (S i) k, true)
  | None => (k, "", false)
  end.
Definition sorted_keys (m : gmap string Z) : list string := merge_sort String.le (elements (dom m)).
Definition value (m : gmap string Z) (k : string) : Z := default 0 (m !! k).

Definition WritePrometheus (r : Registry) : list sample :=
  ((λ k, let '(route, status, _) := splitRouteStatus k in mkSample HTTPRequestsTotal [("route", route); ("status", status)] (value (reqTotal r) k))
     <$> sorted_keys (reqTotal r)) ++
  ((λ route, mkSample (HTTPRequestDurationSeconds +:+ "_count") [("route", route)] (value (reqDurCount r) route)) <$> sorted_keys (reqDurCount r)) ++
  [mkSample OriginRequestsTotal [] (counters r originTotal);
   mkSample (OriginRequestDurationSeconds +:+ "_count") [] (counters r originDurCnt);
   mkSample OriginErrorsTotal [] (counters r originErr);
   mkSample MediaOriginRedirectsTotal [] (counters r mediaRedirect)] ++
  ((λ k, mkSample MediaRouteFailuresTotal [("decision", k)] (value (mediaFailure r) k)) <$> sorted_keys (mediaFailure r)) ++
  [mkSample CacheHitsTotal [] (counters r cacheHits); mkSample CacheMissesTotal [] (counters r cacheMisses);
   mkSample CacheWarmedTotal [] (counters r cacheWarmed); mkSample CacheWarmErrorsTotal [] (counters r cacheWarmErr);
   mkSample SyncItemsTotal [] (counters r syncItems); mkSample SyncErrorsTotal [] (counters r syncErrors);
   mkSample PlaybackDecisionsTotal [] (counters r playbackDecisions); mkSample PolicyRejectionsTotal [] (counters r policyRejections);
   mkSample MediaGatewayRoutesTotal [] (counters r mediaGateway);
   mkSample EventstreamConnected [] (gauges r eventstream); mkSample DiagnosticsActive [] (gauges r diagnosticsActive);
   mkSample ActivePlaybackSessions [] (gauges r activeSessions); mkSample CacheEntries [] 0; mkSample CacheBytes [] 0].

(** ** The exported numbers are those of the observations *)

Definition tally (p : op → bool) (ops : list op) : Z := Z.of_nat (length (filter (λ o, p o = true) ops)).
Definition seen_http (route : string) (status : Z) (o : op) : bool :=
  match o with ObserveHTTP r s => (or_default r "control" =s route) && (s =? status) | _ => false end.
Definition seen_failure (decision : string) (o : op) : bool :=
  match o with IncMediaFailure d => or_default d "unavailable" =s decision | _ => false end.

Lemma LastIndexByte_last a d c : LastIndexByte d c = None → LastIndexByte (a +:+ String c d) c = Some (String.length a).
Proof.
  intros Hd. induction a as [|x a IH]; cbn; [by rewrite Hd, Ascii.eqb_refl|]. by rewrite IH.
Qed.
Lemma LastIndexByte_free d c : all_chars (λ x, negb (Ascii.eqb x c)) d = true → LastIndexByte d c = None.
Proof.
  induction d as [|x d IH]; [done|]. cbn. intros [Hx Hd]%andb_prop. rewrite IH by done. by destruct (Ascii.eqb x c).
Qed.
Lemma splitRouteStatus_key route status : splitRouteStatus (key_of route status) = (route, Itoa status, true).
Proof.
  unfold splitRouteStatus, key_of. change ("|" +:+ Itoa status) with (String "|" (Itoa status)).
  rewrite LastIndexByte_last.
  - rewrite stake_app. replace (S (String.length route)) with (String.length (route +:+ "|")) by (rewrite length_sapp; cbn; lia).
    change (String "|" (Itoa status)) with ("|" +:+ Itoa status). by rewrite <- sapp_assoc, sdrop_app.
  - apply LastIndexByte_free. apply Itoa_chars; [|done]. intros n Hn. unfold pretty_N_char. by repeat case_match.
Qed.
Lemma key_of_inj route status route' status' : key_of route status = key_of route' status' → route = route' ∧ status = status'.
Proof.
  intros H. apply (f_equal splitRouteStatus) in H. rewrite !splitRouteStatus_key in H. injection H as -> H. split; [done|]. by apply (inj pretty) in H.
Qed.

Lemma tally_snoc p ops o : tally p (ops ++ [o]) = tally p ops + if p o then 1 else 0.
Proof.
  unfold tally. rewrite filter_app, length_app. destruct (p o) eqn:E.
  - rewrite filter_cons_True by done. cbn. lia.
  - rewrite filter_cons_False by (by rewrite E). cbn. lia.
Qed.
Lemma tally_nonneg p ops : 0 <= tally p ops.
Proof. unfold tally. lia. Qed.

(** A labelled counter counts the observations with its key. *)
Lemma counted (get : Registry → gmap string Z) (p : string → op → bool) ops k :
  get zero = ∅ →
  (∀ r o, get (step r o) = get r ∧ (∀ k, p k o = false) ∨ ∃ k', get (step r o) = bump k' (get r) ∧ ∀ k, p k o = bool_decide (k = k')) →
  get (run ops) !! k = if decide (0 < tally (p k) ops) then Some (tally (p k) ops) else None.
Proof.
  intros H0 Hstep. unfold run. induction ops as [|o ops IH] using rev_ind; [cbn; by rewrite H0|]. rewrite foldl_snoc, tally_snoc.
  pose proof (tally_nonneg (p k) ops) as Hn.
  destruct (Hstep (foldl step zero ops) o) as [[-> Hp]|(k' & -> & Hp)]; rewrite Hp.
  - by rewrite Z.add_0_r, IH.
  - unfold bump. case_bool_decide as Hk.
    + subst k'. rewrite lookup_insert_eq, IH, (decide_True (P := 0 < tally (p k) ops + 1)) by lia. destruct (decide (0 < tally (p k) ops)); cbn; f_equal; lia.
    + rewrite lookup_insert_ne by done. by rewrite Z.add_0_r, IH.
Qed.

Lemma sorted_keys_elem m k : k ∈ sorted_keys m ↔ is_Some (m !! k).
Proof. unfold sorted_keys. by rewrite merge_sort_Permutation, elem_of_elements, elem_of_dom. Qed.

(** What is exported is what was observed.  After any sequence of
    observations the request total of a route and a status is exported exactly
    when there was one, with the number of responses with that route class and
    status (whatever characters the route has), and so are the fail-closed
    media responses of a decision. *)
Theorem exported_counts ops route status decision v :
  (mkSample HTTPRequestsTotal [("route", route); ("status", Itoa status)] v ∈ WritePrometheus (run ops) ↔
     v = tally (seen_http route status) ops ∧ 0 < v) ∧
  (mkSample MediaRouteFailuresTotal [("decision", decision)] v ∈ WritePrometheus (run ops) ↔ v = tally (seen_failure decision) ops ∧ 0 < v).
Proof.
  assert (Hreq : ∀ k, reqTotal (run ops) !! k =
    if decide (0 < tally (λ o, match o with ObserveHTTP r st => key_of (or_default r "control") st =s k | _ => false end) ops)
    then Some (tally (λ o, match o with ObserveHTTP r st => key_of (or_default r "control") st =s k | _ => false end) ops) else None).
  { intros k. apply (counted reqTotal (λ k o, match o with ObserveHTTP r st => key_of (or_default r "control") st =s k | _ => false end)); [done|].
    intros r [rt st|f|d|c|g w]; [right|left..]; try done; [|by destruct f].
    exists (key_of (or_default rt "control") st). split; [done|]. intros k'. destruct (String.eqb_spec (key_of (or_default rt "control") st) k'); case_bool_decide; congruence. }
  assert (Hfail : ∀ k, mediaFailure (run ops) !! k = if decide (0 < tally (seen_failure k) ops) then Some (tally (seen_failure k) ops) else None).
  { intros k. apply (counted mediaFailure seen_failure); [done|]. intros r [rt st|f|d|c|g w]; [left|left|right|left..]; try done; [by destruct f|].
    exists (or_default d "unavailable"). split; [done|]. intros k'. cbn. destruct (String.eqb_spec (or_default d "unavailable") k'); case_bool_decide; congruence. }
  assert (Hsame : tally (λ o, match o with ObserveHTTP r st => key_of (or_default r "control") st =s key_of route status | _ => false end) ops =
    tally (seen_http route status) ops).
  { unfold tally. f_equal. f_equal. apply list_filter_iff. intros [rt st|f|d|c|g w]; try done. unfold seen_http.
    destruct (String.eqb_spec (key_of (or_default rt "control") st) (key_of route status)) as [He|He].
    - apply key_of_inj in He as [-> ->]. by rewrite String.eqb_refl, Z.eqb_refl.
    - destruct (String.eqb_spec (or_default rt "control") route) as [Hr|_]; [|done]. destruct (Z.eqb_spec st status) as [Hst|_]; [|done].
      by destruct He; rewrite Hr, Hst. }
  assert (Hform : ∀ k, is_Some (reqTotal (run ops) !! k) → ∃ rt st, k = key_of rt st).
  { intros k. rewrite Hreq. destruct (decide _) as [Hp|_]; [|by intros []]. intros _. unfold tally in Hp.
    destruct (filter _ ops) as [|o l] eqn:Ef; [cbn in Hp; lia|]. assert (Ho : o ∈ o :: l) by (apply elem_of_cons; by left). rewrite <- Ef in Ho.
    apply list_elem_of_filter in Ho as [Ho _]. destruct o as [rt st| | | |]; try done. apply String.eqb_eq in Ho as <-. by eexists _, _. }
  unfold WritePrometheus. rewrite !elem_of_app, !list_elem_of_fmap. setoid_rewrite sorted_keys_elem.
  match goal with |- context [_ ∈ ?a ∨ (_ ∨ _ ∈ ?b)] => assert (Hplain : ∀ x, x ∈ a ∨ x ∈ b → s_labels x = []) end.
  { intros x [Hx|Hx]; revert x Hx; apply Forall_forall; repeat (constructor; [done|]); constructor. }
  split; split.
  - intros [(k & He & Hk)|[(rt & He & _)|[Hl|[(d & He & _)|Hl]]]]; [|done|discriminate (Hplain _ (or_introl Hl))|done|discriminate (Hplain _ (or_intror Hl))].
    destruct (Hform k Hk) as (rt & st & ->). rewrite splitRouteStatus_key in He. injection He as -> Hst ->. apply (inj pretty) in Hst as ->.
    unfold value. rewrite Hreq, Hsame in *. destruct (decide _); [done|by destruct Hk].
  - intros [-> Hv]. left. exists (key_of route status). rewrite splitRouteStatus_key. unfold value. rewrite Hreq, Hsame, decide_True by done. done.
  - intros [(k & He & _)|[(rt & He & _)|[Hl|[(d & He & Hd)|Hl]]]]; [by destruct (splitRouteStatus k) as [[? ?] ?]|done|discriminate (Hplain _ (or_introl Hl))| |discriminate (Hplain _ (or_intror Hl))].
    injection He as -> ->. unfold value. rewrite Hfail in *. destruct (decide _); [done|by destruct Hd].
  - intros [-> Hv]. right; right; right; left. exists decision. unfold value. rewrite Hfail, decide_True by done. done.
Qed.

End Metrics.
