(* ===== verification/Artwork.v ===== *)
(** * The shared artwork store (internal/artwork/shared.go, operations.go)

    Content-addressed images on the file system, an index of them in the
    database, and reservations that hold capacity before a body is read.

    A transaction works on a copy of the tables and is made durable by its
    commit; files are changed at once and are not rolled back.  Every
    statement and file operation may be carried out, fail, be carried out
    while the error is all that is seen, or be the point where the process
    stops; the store row's lock keeps transactions apart.  A variant row
    carries one column that the database does not have, the body it was
    published with; only statements about the store read it. *)

From S2P Require Import Prelude GoStrings GoMime GoCrypto MapSums.

Module Artwork.

(** ** Constants and options *)

Definition Low : Z := 0.
Definition Normal : Z := 1.
Definition High : Z := 2.
Definition Protected : Z := 3.

Definition MaxBodyBytes : Z := 8 * 2 ^ 20.
Definition variantOverhead : Z := 1024.
Definition blobOverhead : Z := 4096.
Definition reservationBytes : Z := MaxBodyBytes + variantOverhead + blobOverhead.
Definition reservationTTL : Z := 2 * Minute.
Definition TTL : Z := 7 * 24 * Hour.

Record SharedOptions := mkOptions {
  MaxBytes : Z; MinFreeBytes : Z; LowWatermarkBytes : Z; ProtectedBytes : Z; MaxReservations : Z;
}.

(** The limits [NewShared] accepts, with its defaults for zero values; the
    namespace, the database handle and the directory are not modelled. *)
Definition NewShared (o : SharedOptions) : option SharedOptions :=
  if (MaxBytes o <=? 0) || (MinFreeBytes o <? 0) then None
  else
    let low := if LowWatermarkBytes o =? 0 then Z.quot (int64 (MaxBytes o * 9)) 10 else LowWatermarkBytes o in
    let prot := if ProtectedBytes o =? 0 then Z.quot (MaxBytes o) 20 else ProtectedBytes o in
    let resv := if MaxReservations o =? 0 then 32 else MaxReservations o in
    if (low <? 0) || (MaxBytes o <? low) || (prot <? 0) || (MaxBytes o <? prot) || (resv <? 1) || (128 <? resv)
    then None
    else Some (mkOptions (MaxBytes o) (MinFreeBytes o) low prot resv).

Definition digestKey (key : string) : bool := (slen key =? 64) && all_chars is_hex key.

(** ** State *)

Record variant := mkVariant {
  v_digest : string; v_type : string; v_priority : Z; v_expires : Z; v_accessed : Z;
  v_body : string;
}.
Record reservation := mkReservation {
  r_bytes : Z; r_priority : Z; r_expires : Z; r_candidate : option string;
}.
(** The rows of one store: sizes of blobs by digest, variants by key,
    reservations by id. *)
Record tables := mkTables {
  blobs : gmap string Z;
  variants : gmap string variant;
  reservations : gmap string reservation;
  untracked : Z;
}.
(** Below the store's directory: blob bodies by digest, temporary files by
    reservation id, other files (their sizes); and the sizes of the files
    elsewhere in the cache directory. *)
Record files := mkFiles {
  bodies : gmap string string; tmps : gmap string string; junk : gmap string Z; outside : list Z;
}.

(** What the environment decides at one step: what becomes of it, how much
    time passed, and a number (free bytes, or how much of a torn write
    reached the disk). *)
Inductive fate := Done | Lost | Unseen | Down.
Record tick := mkTick { t_fate : fate; t_advance : N; t_number : N }.

Record St := mkSt {
  db : tables;
  tx : tables;
  fs : files;
  clock : Z;
  started : Z;
  ready : bool;
  expiredPending : bool;
  wake : bool;
  env : list tick;
}.

(** ** Fallible steps *)

Inductive err := ErrCapacity | ErrReservation | ErrInitializing | Other | Stopped | OutOfFuel.
Inductive res (A : Type) := Good (a : A) | Fail (e : err).
Arguments Good {A} a.
Arguments Fail {A} e.

Definition M (A : Type) : Type := St → St * res A.

Definition ret {A} (a : A) : M A := λ s, (s, Good a).
Definition fail {A} (e : err) : M A := λ s, (s, Fail e).
Definition bindM {A B} (c : M A) (f : A → M B) : M B :=
  λ s, match c s with (s', Good a) => f a s' | (s', Fail e) => (s', Fail e) end.

(** Go on after an error, unless the process stopped. *)
Definition attempt {A} (c : M A) : M (res A) :=
  λ s, match c s with
       | (s', Good a) => (s', Good (Good a))
       | (s', Fail Stopped) => (s', Fail Stopped)
       | (s', Fail e) => (s', Good (Fail e))
       end.

(** A deferred step runs after success and after errors; its own error is
    dropped. *)
Definition deferred {A} (c : M A) (d : M unit) : M A :=
  λ s, match c s with
       | (s', Fail Stopped) => (s', Fail Stopped)
       | (s', r) => match d s' with
                    | (s'', Fail Stopped) => (s'', Fail Stopped)
                    | (s'', _) => (s'', r)
                    end
       end.

Notation "'let!' x ':=' c 'in' k" := (bindM c (λ x, k))
  (at level 200, x pattern, c at level 200, k at level 200, right associativity) : go_scope.
Notation "c >>> k" := (bindM c (λ _, k)) (at level 62, right associativity) : go_scope.

Definition set_tx (s : St) (t : tables) : St :=
  mkSt (db s) t (fs s) (clock s) (started s) (ready s) (expiredPending s) (wake s) (env s).
Definition set_fs (s : St) (f : files) : St :=
  mkSt (db s) (tx s) f (clock s) (started s) (ready s) (expiredPending s) (wake s) (env s).
Definition set_flags (s : St) (r p w : bool) : St :=
  mkSt (db s) (tx s) (fs s) (clock s) (started s) r p w (env s).

(** The next decision of the environment; without one, all goes well. *)
Definition next (s : St) : St * tick :=
  match env s with
  | [] => (s, mkTick Done 0 0)
  | t :: e => (mkSt (db s) (tx s) (fs s) (clock s + Z.of_N (t_advance t)) (started s) (ready s)
                 (expiredPending s) (wake s) e, t)
  end.

(** A step that only reads. *)
Definition query {A} (f : St → A) : M A :=
  λ s, let '(s, t) := next s in
       match t_fate t with
       | Done => (s, Good (f s))
       | Down => (s, Fail Stopped)
       | _ => (s, Fail Other)
       end.

(** A step that changes the state. *)
Definition change (f : tick → St → St) : M unit :=
  λ s, let '(s, t) := next s in
       match t_fate t with
       | Done => (f t s, Good tt)
       | Lost => (s, Fail Other)
       | Unseen => (f t s, Fail Other)
       | Down => (s, Fail Stopped)
       end.

Definition exec (f : Z → tables → tables) : M unit := change (λ _ s, set_tx s (f (started s) (tx s))).
Definition commit : M unit :=
  change (λ _ s, mkSt (tx s) (tx s) (fs s) (clock s) (started s) (ready s) (expiredPending s) (wake s) (env s)).
Definition modify (f : St → St) : M unit := λ s, (f s, Good tt).

(** [lock] begins a transaction; it ends by its commit or by the deferred
    rollback. *)
Definition lock : M unit :=
  change (λ _ s, mkSt (db s) (db s) (fs s) (clock s) (clock s) (ready s) (expiredPending s) (wake s) (env s)).
Definition rollback : M unit := modify (λ s, set_tx s (db s)).
Definition transaction {A} (c : M A) : M A := lock >>> deferred c rollback.

(** Files: [os.Remove] of a file that is not there is not an error here. *)
Definition with_bodies (f : files) (b : gmap string string) : files := mkFiles b (tmps f) (junk f) (outside f).
Definition with_tmps (f : files) (t : gmap string string) : files := mkFiles (bodies f) t (junk f) (outside f).
Definition removeBody (digest : string) : M unit :=
  change (λ _ s, set_fs s (with_bodies (fs s) (delete digest (bodies (fs s))))).
Definition removeTmp (id : string) : M unit :=
  change (λ _ s, set_fs s (with_tmps (fs s) (delete id (tmps (fs s))))).

(** [writeReservedTemp]: the file must not exist; a failed or interrupted
    write leaves a part of the body behind. *)
Definition writeReservedTemp (id body : string) : M unit :=
  λ s, let '(s, t) := next s in
       if bool_decide (is_Some (tmps (fs s) !! id)) then (s, Fail (match t_fate t with Down => Stopped | _ => Other end))
       else
         let put b := set_fs s (with_tmps (fs s) (<[id := b]> (tmps (fs s)))) in
         match t_fate t with
         | Done => (put body, Good tt)
         | Lost => (s, Fail Other)
         | Unseen => (put (stake (N.to_nat (t_number t)) body), Fail Other)
         | Down => (put (stake (N.to_nat (t_number t)) body), Fail Stopped)
         end.

(** [os.Rename] of a temporary file to its blob path. *)
Definition renameTmp (id digest : string) : M unit :=
  change (λ _ s, match tmps (fs s) !! id with
                 | Some b => set_fs s (mkFiles (<[digest := b]> (bodies (fs s))) (delete id (tmps (fs s)))
                                        (junk (fs s)) (outside (fs s)))
                 | None => s
                 end).

(** [readBlob]: [None] when the file is missing, too long or unreadable. *)
Definition readBlob (digest : string) : M (option string) :=
  λ s, let '(s, t) := next s in
       match t_fate t with
       | Done => (s, Good match bodies (fs s) !! digest with
                          | Some b => if slen b <=? MaxBodyBytes then Some b else None
                          | None => None
                          end)
       | Down => (s, Fail Stopped)
       | _ => (s, Good None)
       end.

(** [SharedOptions.FreeBytes], any [uint64]. *)
Definition freeBytes : M Z :=
  λ s, let '(s, t) := next s in
       match t_fate t with
       | Done => (s, Good (uint64 (Z.of_N (t_number t))))
       | Down => (s, Fail Stopped)
       | _ => (s, Fail Other)
       end.


(** ** The statements *)

Definition live (now : Z) (v : variant) : bool := now <? v_expires v.
Definition refers (digest : string) (v : variant) : bool := v_digest v =s digest.
Definition any {V} (f : V → bool) (m : gmap string V) : bool := existsb (λ kv, f kv.2) (map_to_list m).

(** [ON DELETE CASCADE]: a blob row takes its variants with it. *)
Definition deleteBlob (digest : string) (t : tables) : tables :=
  mkTables (delete digest (blobs t)) (filter (λ kv, refers digest kv.2 = false) (variants t))
    (reservations t) (untracked t).
Definition deleteVariants (P : string → variant → bool) (t : tables) : tables :=
  mkTables (blobs t) (filter (λ kv, P kv.1 kv.2 = false) (variants t)) (reservations t) (untracked t).
Definition deleteReservation (id : string) (t : tables) : tables :=
  mkTables (blobs t) (variants t) (delete id (reservations t)) (untracked t).
Definition putReservation (id : string) (r : reservation) (t : tables) : tables :=
  mkTables (blobs t) (variants t) (<[id := r]> (reservations t)) (untracked t).
Definition putBlob (digest : string) (size : Z) (t : tables) : tables :=
  mkTables (<[digest := size]> (blobs t)) (variants t) (reservations t) (untracked t).
Definition putVariant (key : string) (v : variant) (t : tables) : tables :=
  mkTables (blobs t) (<[key := v]> (variants t)) (reservations t) (untracked t).
Definition setUntracked (n : Z) (t : tables) : tables :=
  mkTables (blobs t) (variants t) (reservations t) n.

(** The update of a key that exists keeps the higher priority. *)
Definition upsertVariant (now : Z) (key digest ct body : string) (priority : Z) (t : tables) : tables :=
  let p := match variants t !! key with Some v => Z.max (v_priority v) priority | None => priority end in
  putVariant key (mkVariant digest ct p (now + TTL) now body) t.

Definition stage_candidate (id digest : string) (t : tables) : tables :=
  match reservations t !! id with
  | Some r => putReservation id (mkReservation (r_bytes r) (r_priority r) (r_expires r) (Some digest)) t
  | None => t
  end.

Section store.
Context (opts : SharedOptions).
(** The order in which the database returns rows when the statement does
    not say: any rearrangement. *)
Context (arrange : list string → list string).

Definition keys {V} (m : gmap string V) : list string := arrange (map_to_list m).*1.

(** ** Accounting *)

Record Stats := mkStats {
  Blobs : Z; PayloadBytes : Z; Variants : Z; Reservations : Z; ReservedBytes : Z; UntrackedBytes : Z;
  ProtectedUsed : Z; MetadataBytes : Z; TotalBytes : Z; FreeBytes : Z; AdmissionPaused : bool;
}.

Definition payload (t : tables) : Z := msum (λ _ n, n) (blobs t).
Definition reserved (t : tables) : Z := msum (λ _ r, r_bytes r) (reservations t).
Definition metadata (t : tables) : Z :=
  Z.of_nat (size (blobs t)) * blobOverhead + Z.of_nat (size (variants t)) * variantOverhead.
Definition protected_blobs (now : Z) (t : tables) : Z :=
  msum (λ d n, if any (λ v, refers d v && (v_priority v =? 3) && live now v) (variants t)
               then n + blobOverhead else 0) (blobs t).
Definition protected_reserved (t : tables) : Z :=
  msum (λ _ r, if r_priority r =? 3 then r_bytes r else 0) (reservations t).
Definition protected_variants (now : Z) (t : tables) : Z :=
  msum (λ _ v, if (v_priority v =? 3) && live now v then 1 else 0) (variants t).

Definition stats : M Stats :=
  let! t := query (λ s, tx s) in
  let! pb := query (λ s, protected_blobs (started s) (tx s)) in
  let! pr := query (λ s, protected_reserved (tx s)) in
  let! pv := query (λ s, protected_variants (started s) (tx s)) in
  let! free := freeBytes in
  let total := int64 (int64 (int64 (payload t + metadata t) + reserved t) + untracked t) in
  let count := Z.of_nat (size (reservations t)) in
  ret (mkStats (Z.of_nat (size (blobs t))) (payload t) (Z.of_nat (size (variants t))) count (reserved t)
         (untracked t) (pb + pr + pv * variantOverhead) (metadata t) total free
         ((MaxBytes opts <? int64 (total + reservationBytes))
          || (free <? uint64 (int64 (MinFreeBytes opts + reserved t + reservationBytes)))
          || (MaxReservations opts <=? count))).

(** ** Removal *)

Definition removeBlob (digest : string) : M unit :=
  if negb (digestKey digest) then fail Other
  else removeBody digest >>> exec (λ _, deleteBlob digest).

Definition unreferenced (t : tables) : list string :=
  filter (λ d, any (refers d) (variants t) = false) (keys (blobs t)).

Fixpoint removeAll (digests : list string) : M unit :=
  match digests with [] => ret tt | d :: l => removeBlob d >>> removeAll l end.

Fixpoint removeUnreferenced_loop (fuel : nat) : M unit :=
  match fuel with
  | O => fail OutOfFuel
  | S f =>
      let! digests := query (λ s, take 128 (unreferenced (tx s))) in
      removeAll digests >>>
      (if (length digests <? 128)%nat then ret tt else removeUnreferenced_loop f)
  end.
(** Each round but the last removes 128 rows, so the number of rows is fuel
    enough. *)
Definition removeUnreferenced : M unit := λ s, removeUnreferenced_loop (S (size (blobs (tx s)))) s.

Definition releaseReservation (id : string) : M unit :=
  removeTmp id >>>
  let! row := query (λ s, reservations (tx s) !! id) in
  match row with
  | None => ret tt
  | Some r =>
      match r_candidate r with
      | None => ret tt
      | Some d =>
          if negb (digestKey d) then fail ErrReservation
          else
            let! committed := query (λ s, bool_decide (is_Some (blobs (tx s) !! d))) in
            if committed : bool then ret tt else removeBody d
      end >>>
      exec (λ _, deleteReservation id)
  end.

Fixpoint releaseAll (ids : list string) : M unit :=
  match ids with
  | [] => ret tt
  | id :: l => if negb (slen id =? 32) then fail ErrReservation else releaseReservation id >>> releaseAll l
  end.

Definition cleanExpired : M unit :=
  let! ids := query (λ s, keys (filter (λ kr, r_expires kr.2 <= started s) (reservations (tx s)))) in
  releaseAll ids.

Definition expired_keys (now : Z) (t : tables) : list string :=
  keys (filter (λ kv, live now kv.2 = false) (variants t)).

Definition pruneExpiredBatch : M bool :=
  exec (λ now t, let batch := take 128 (expired_keys now t) in
                 deleteVariants (λ k _, bool_decide (k ∈ batch)) t) >>>
  query (λ s, any (λ v, negb (live (started s) v)) (variants (tx s))).

(** ** Eviction *)

(** The live references of a blob: highest priority (0 for none) and latest
    access. *)
Definition live_refs (now : Z) (t : tables) (d : string) : list variant :=
  filter (λ v, refers d v && live now v = true) (map_to_list (variants t)).*2.
Definition tier (now : Z) (t : tables) (d : string) : Z :=
  foldr (λ v m, Z.max (v_priority v) m) 0 (live_refs now t d).
Definition last_access (now : Z) (t : tables) (d : string) : option Z :=
  foldr (λ v m, Some (match m with Some a => Z.max (v_accessed v) a | None => v_accessed v end)) None
    (live_refs now t d).

(** [ORDER BY priority ASC, max(last_accessed_at) ASC NULLS FIRST, byte_size DESC]. *)
Record evictionCandidate := mkCandidate { c_digest : string; c_size : Z; c_priority : Z; c_access : option Z }.
Definition access_lt (a b : option Z) : bool :=
  match a, b with None, Some _ => true | Some x, Some y => x <? y | _, None => false end.
Definition before (a b : evictionCandidate) : Prop :=
  ((c_priority a <? c_priority b) || (c_priority a =? c_priority b) &&
   (access_lt (c_access a) (c_access b) ||
    negb (access_lt (c_access b) (c_access a)) && (c_size b <=? c_size a))) = true.
#[global] Instance before_dec : RelDecision before.
Proof. intros a b. apply bool_eq_dec. Defined.

Definition candidates (now : Z) (priority : Z) (t : tables) : list evictionCandidate :=
  take 128 (merge_sort before
    (filter (λ c, c_priority c <= priority)
       ((λ d, mkCandidate d (default 0 (blobs t !! d)) (tier now t d) (last_access now t d)) <$> keys (blobs t)))).

Fixpoint evict_loop (room : Stats → bool) (l : list evictionCandidate) : M unit :=
  match l with
  | [] => fail ErrCapacity
  | c :: l =>
      let! r := attempt (removeBlob (c_digest c)) in
      match r with
      | Fail _ => evict_loop room l
      | Good _ =>
          let! st := stats in
          if room st then ret tt else evict_loop room l
      end
  end.

(** The test [room] of [makeRoom]. *)
Definition room (pressure : bool) (target need protectedNeed : Z) (st : Stats) : bool :=
  (int64 (TotalBytes st + need) <=? MaxBytes opts) && (negb pressure || (TotalBytes st <=? target)) &&
  (uint64 (int64 (MinFreeBytes opts + ReservedBytes st + need)) <=? FreeBytes st) &&
  ((protectedNeed =? 0) || (int64 (ProtectedUsed st + protectedNeed) <=? ProtectedBytes opts)).

Definition makeRoom (priority need protectedNeed : Z) : M unit :=
  let! st := stats in
  let pressure := MaxBytes opts <? int64 (TotalBytes st + need) in
  let target :=
    if pressure
    then if MaxBytes opts <? int64 (LowWatermarkBytes opts + need)
         then MaxBytes opts - need else LowWatermarkBytes opts
    else MaxBytes opts in
  if room pressure target need protectedNeed st then ret tt
  else
    let! l := query (λ s, candidates (started s) priority (tx s)) in
    evict_loop (room pressure target need protectedNeed) l.


(** ** Recovery *)

(** One file of the walk: [keep] says whether it stays, [size] is its size
    and [remove] removes it; the bytes of a file that cannot be removed are
    untracked. *)
Definition walk_file (keep : M bool) (size : Z) (remove : M unit) (total : Z) : M Z :=
  let! kept := keep in
  if kept : bool then ret total
  else
    let! r := attempt remove in
    match r with Good _ => ret total | Fail _ => ret (int64 (total + size)) end.

Fixpoint walk (f : string → Z → M Z) (names : list string) (total : Z) : M Z :=
  match names with [] => ret total | n :: l => let! total := f n total in walk f l total end.

Definition removeJunk (name : string) : M unit :=
  change (λ _ s, set_fs s (mkFiles (bodies (fs s)) (tmps (fs s)) (delete name (junk (fs s))) (outside (fs s)))).

(** Temporary files of live reservations and candidate blobs are [active]; a
    blob stays when its row has its size. *)
Definition is_candidate (t : tables) (d : string) : bool :=
  any (λ r, match r_candidate r with Some c => c =s d | None => false end) (reservations t).

Definition walk_tmp (active : tables) (f : files) (id : string) (total : Z) : M Z :=
  query (λ _, tt) >>>
  walk_file (ret (bool_decide (is_Some (reservations active !! id)))) (slen (default "" (tmps f !! id)))
    (removeTmp id) total.
Definition walk_body (active : tables) (f : files) (d : string) (total : Z) : M Z :=
  let size := slen (default "" (bodies f !! d)) in
  query (λ _, tt) >>>
  walk_file
    (if is_candidate active d then ret true
     else if digestKey d then query (λ s, bool_decide (blobs (tx s) !! d = Some size)) else ret false)
    size (removeBody d) total.
Definition walk_junk (f : files) (name : string) (total : Z) : M Z :=
  query (λ _, tt) >>>
  walk_file (ret false) (default 0 (junk f !! name)) (removeJunk name) total.

Definition walk_all : M Z :=
  let! active := query (λ s, tx s) in
  let! f := query (λ s, fs s) in
  let! n := walk (walk_tmp active f) (keys (tmps f)) 0 in
  let! n := walk (walk_body active f) (keys (bodies f)) n in
  let! n := walk (walk_junk f) (keys (junk f)) n in
  ret (foldl (λ n size, int64 (n + size)) n (outside f)).

(** Rows whose file is missing go, in batches by digest. *)
Fixpoint dropMissing (digests : list string) : M unit :=
  match digests with
  | [] => ret tt
  | d :: l =>
      let! there := query (λ s, bool_decide (is_Some (bodies (fs s) !! d))) in
      (if there : bool then ret tt else exec (λ _, deleteBlob d)) >>> dropMissing l
  end.
Definition batch_after (cursor : string) (t : tables) : list string :=
  take 512 (merge_sort String.le (filter (λ d, ¬ String.le d cursor) (keys (blobs t)))).
Fixpoint reconcile_loop (fuel : nat) (cursor : string) : M unit :=
  match fuel with
  | O => fail OutOfFuel
  | S f =>
      let! digests := query (λ s, batch_after cursor (tx s)) in
      dropMissing digests >>>
      (if (length digests <? 512)%nat then ret tt else reconcile_loop f (List.last digests cursor))
  end.
Definition reconcile : M unit := λ s, reconcile_loop (S (size (blobs (tx s)))) "" s.

Definition set_ready (b : bool) : M unit := modify (λ s, set_flags s b (expiredPending s) (wake s)).
Definition set_pending (b : bool) : M unit := modify (λ s, set_flags s (ready s) b (wake s)).

Definition recover : M unit :=
  set_ready false >>>
  transaction (
    cleanExpired >>>
    exec (λ now, deleteVariants (λ _ v, negb (live now v))) >>>
    removeUnreferenced >>>
    let! n := walk_all in
    reconcile >>>
    exec (λ _, setUntracked n) >>>
    commit >>>
    set_ready true).

Definition ensure : M unit := λ s, if ready s then (s, Good tt) else recover s.

(** ** Admission, publication, lookup *)

(** [Reservation] of the shared store; the legacy one wraps a [Set]. *)
Record Reservation := mkHandle { h_id : string; h_key : string; h_priority : Z; h_closed : bool }.

(** [Reserve]; [id] is the random name. *)
Definition insertReservation (id : string) (priority : Z) (pendingExpired : bool) : M unit :=
  query (λ _, tt) >>>
  let! taken := query (λ s, bool_decide (is_Some (reservations (tx s) !! id))) in
  if taken : bool then fail Other
  else
    exec (λ now, putReservation id (mkReservation reservationBytes priority (now + reservationTTL) None)) >>>
    commit >>>
    (if pendingExpired then modify (λ s, set_flags s (ready s) (expiredPending s) true) else ret tt).

Definition admission (id : string) (priority : Z) : M unit :=
  cleanExpired >>>
  let! pendingExpired := pruneExpiredBatch in
  set_pending pendingExpired >>>
  let! st := stats in
  if MaxReservations opts <=? Reservations st then fail ErrCapacity
  else
    let! r := attempt (makeRoom priority reservationBytes (if priority =? Protected then reservationBytes else 0)) in
    match r with
    | Fail ErrCapacity => commit >>> fail ErrCapacity
    | Fail e => fail e
    | Good _ => insertReservation id priority pendingExpired
    end.

Definition Reserve (key : string) (priority : Z) (id : string) : M Reservation :=
  if (key =s "") || (priority <? Low) || (Protected <? priority) then fail ErrReservation
  else if negb (digestKey key) then fail ErrReservation
  else ensure >>> transaction (admission id priority) >>> ret (mkHandle id key priority false).

(** The reservation of a handle, if it has not expired. *)
Definition live_reservation (id : string) (s : St) : option reservation :=
  match reservations (tx s) !! id with
  | Some r => if started s <? r_expires r then Some r else None
  | None => None
  end.

(** The first transaction of [Commit] records the digest. *)
Definition stage (id digest : string) : M unit :=
  transaction (
    let! r := attempt (query (live_reservation id)) in
    match r with
    | Good (Some _) => exec (λ _, stage_candidate id digest) >>> commit
    | _ => fail ErrReservation
    end).

(** The rest of the second transaction, once the body is in its temporary
    file. *)
Definition publish_file (h : Reservation) (digest contentType body : string) : M unit :=
  let! previous := query (λ s, variants (tx s) !! h_key h) in
  query (λ _, tt) >>>
  let! existing := readBlob digest in
  (match existing with
   | Some b => if sha256hex b =s digest then ret tt else removeBody digest >>> renameTmp (h_id h) digest
   | None => removeBody digest >>> renameTmp (h_id h) digest
   end) >>>
  exec (λ _, putBlob digest (slen body)) >>>
  exec (λ now, upsertVariant now (h_key h) digest contentType body (h_priority h)) >>>
  exec (λ _, deleteReservation (h_id h)) >>>
  (match previous with
   | Some v =>
       if v_digest v =s digest then ret tt
       else
         let! referenced := query (λ s, any (refers (v_digest v)) (variants (tx s))) in
         if referenced : bool then ret tt else removeBlob (v_digest v)
   | None => ret tt
   end) >>>
  commit.

Definition publish (h : Reservation) (digest contentType body : string) : M unit :=
  transaction (
    let! r := attempt (query (live_reservation (h_id h))) in
    match r with
    | Good (Some row) =>
        if negb (bool_decide (r_candidate row = Some digest)) then fail ErrReservation
        else
          let! free := freeBytes in
          if free <? uint64 (int64 (MinFreeBytes opts + slen body)) then fail ErrCapacity
          else
            writeReservedTemp (h_id h) body >>>
            deferred (publish_file h digest contentType body) (removeTmp (h_id h))
    | _ => fail ErrReservation
    end).

Definition release (id : string) : M unit := transaction (releaseReservation id >>> commit).

(** [cancelLocked] of an open reservation: its errors are dropped. *)
Definition cancelLocked (h : Reservation) : M Reservation :=
  if h_closed h then ret h
  else attempt (release (h_id h)) >>> ret (mkHandle (h_id h) (h_key h) (h_priority h) true).
Definition Cancel (h : Reservation) : M Reservation := cancelLocked h.

Definition valid_image (contentType body : string) : bool :=
  match ParseMediaType contentType with
  | Some ct => HasPrefix (ToLower ct) "image/" && (slen contentType <=? 255) &&
               (0 <? slen body) && (slen body <=? MaxBodyBytes)
  | None => false
  end.

(** [Commit] returns its error and leaves the reservation closed. *)
Definition Commit (h : Reservation) (contentType body : string) : M (Reservation * res unit) :=
  if h_closed h then ret (h, Fail ErrReservation)
  else
    let! r := attempt (
      if negb (valid_image contentType body) then fail Other
      else let digest := sha256hex body in
           stage (h_id h) digest >>> publish h digest contentType body) in
    match r with
    | Good _ => ret (mkHandle (h_id h) (h_key h) (h_priority h) true, r)
    | Fail _ => let! h := cancelLocked h in ret (h, r)
    end.

(** [GetContext]: a miss is [None]; so is every error. *)
Definition lookup (key : string) : M (string * string) :=
  let! row := query (λ s, match variants (tx s) !! key with
                          | Some v => if live (started s) v
                                      then match blobs (tx s) !! v_digest v with
                                           | Some n => Some (v, n)
                                           | None => None
                                           end
                                      else None
                          | None => None
                          end) in
  match row with
  | None => fail Other
  | Some (v, size) =>
      if negb (digestKey (v_digest v)) || (size <=? 0) || (MaxBodyBytes <? size) then fail Other
      else
        let! body := readBlob (v_digest v) in
        match body with
        | None => fail Other
        | Some b =>
            if negb (slen b =? size) then fail Other
            else if negb (sha256hex b =s v_digest v) then fail Other
            else
              let! since := (λ s, (s, Good (clock s - v_accessed v))) in
              (if Minute <=? since
               then exec (λ now t, match variants t !! key with
                                   | Some v => putVariant key (mkVariant (v_digest v) (v_type v) (v_priority v)
                                                 (v_expires v) now (v_body v)) t
                                   | None => t
                                   end)
               else ret tt) >>>
              commit >>> ret (v_type v, b)
        end
  end.

Definition GetContext (key : string) : M (option (string * string)) :=
  let! r := attempt (if negb (digestKey key) then fail Other else ensure >>> transaction (lookup key)) in
  ret (match r with Good x => Some x | Fail _ => None end).

(** ** Maintenance *)

Definition Stats_ : M Stats :=
  λ s, if ready s then transaction (let! st := stats in commit >>> ret st) s else (s, Fail ErrInitializing).

(** [sweep]: the counts of removed blobs and bytes. *)
Definition sweep : M (Z * Z) :=
  let! r := attempt (
    ensure >>>
    transaction (
      cleanExpired >>>
      let! pending := pruneExpiredBatch in
      removeUnreferenced >>>
      let! before := stats in
      (if (MaxBytes opts <? TotalBytes before)
          || (FreeBytes before <? uint64 (int64 (MinFreeBytes opts + ReservedBytes before)))
       then attempt (makeRoom Protected 0 0) >>> ret tt else ret tt) >>>
      let! after := stats in
      let! c := attempt commit in
      match c with
      | Fail e => set_pending true >>> fail e
      | Good _ => set_pending pending >>>
                  ret (Blobs before - Blobs after, PayloadBytes before - PayloadBytes after)
      end)) in
  ret (match r with Good x => x | Fail _ => (0, 0) end).

(** [ORDER BY max(last_accessed_at) ASC NULLS FIRST, digest LIMIT 128]. *)
Definition older (a b : string * option Z) : Prop :=
  (access_lt a.2 b.2 || negb (access_lt b.2 a.2) && negb (String.ltb b.1 a.1)) = true.
#[global] Instance older_dec : RelDecision older.
Proof. intros a b. apply bool_eq_dec. Defined.

Definition low_digests (now : Z) (t : tables) : list string :=
  take 128 (merge_sort older
    ((λ d, (d, last_access now t d)) <$> filter (λ d, tier now t d = 0) (keys (blobs t)))).*1.

Definition EvictLowPriority : M (Z * Z) :=
  ensure >>>
  transaction (
    let! before := stats in
    let! digests := query (λ s, low_digests (started s) (tx s)) in
    removeAll digests >>>
    let! after := stats in
    commit >>>
    ret (Z.of_nat (length digests), int64 (TotalBytes before - TotalBytes after))).

End store.

End Artwork.
