(* ===== verification/ArtworkLogic.v ===== *)
(** * Reasoning about the artwork store

    A small program logic for the steps of the artwork store: triples with
    an error postcondition, the invariant [J] that ties tables and files
    together, and the proof that every operation keeps it at every point
    where it can fail or stop.  [Section shrink] shows what maintenance can
    only remove. *)

From S2P Require Import Prelude GoStrings GoMime GoCrypto MapSums Artwork.

Module ArtworkLogic.

Import Artwork.

(** ** What holds of the tables and the files *)

Definition used (t : tables) : Z := payload t + metadata t + reserved t.

(** [J opts x t f]: the rows of [t] stay within the budget but for [x]
    bytes, and every blob file has an owner: its row, or the reservation
    that announced its digest. *)
Record J (opts : SharedOptions) (x : Z) (t : tables) (f : files) : Prop := mkJ {
  J_used : used t <= MaxBytes opts + x;
  J_count : Z.of_nat (size (reservations t)) <= MaxReservations opts;
  J_bytes : ∀ id r, reservations t !! id = Some r → r_bytes r = reservationBytes;
  J_blobs : ∀ d n, blobs t !! d = Some n → 0 < n <= MaxBodyBytes;
  J_refs : ∀ k v, variants t !! k = Some v →
    is_Some (blobs t !! v_digest v) ∧ sha256hex (v_body v) = v_digest v;
  J_owned : ∀ d b, bodies f !! d = Some b →
    is_Some (blobs t !! d) ∨ ∃ id r, reservations t !! id = Some r ∧ r_candidate r = Some d;
}.

Lemma payload_nonneg t : (∀ d n, blobs t !! d = Some n → 0 < n <= MaxBodyBytes) → 0 <= payload t.
Proof. intros H. apply msum_nonneg. intros d n E. specialize (H _ _ E). lia. Qed.

Lemma reserved_const t : (∀ id r, reservations t !! id = Some r → r_bytes r = reservationBytes) →
  reserved t = reservationBytes * Z.of_nat (size (reservations t)).
Proof.
  intros H. rewrite <- (msum_const reservationBytes (reservations t)). unfold reserved.
  apply Z.le_antisymm; apply msum_mono; try done; intros k r E; specialize (H _ _ E);
    unfold reservationBytes, MaxBodyBytes, variantOverhead, blobOverhead in *; lia.
Qed.

Lemma metadata_mono t t' :
  (size (blobs t') <= size (blobs t))%nat → (size (variants t') <= size (variants t))%nat → metadata t' <= metadata t.
Proof. unfold metadata, blobOverhead, variantOverhead. lia. Qed.

Lemma size_delete_le {V} (m : gmap string V) k : (size (delete k m) <= size m)%nat.
Proof. apply map_subseteq_size, delete_subseteq. Qed.

(** Removing rows. *)
Lemma J_deleteBlob opts x t f d : bodies f !! d = None → J opts x t f → J opts x (deleteBlob d t) f.
Proof.
  intros Hd HJ. split; cbn [deleteBlob blobs variants reservations untracked].
  - pose proof (J_used _ _ _ _ HJ).
    assert (payload (deleteBlob d t) <= payload t).
    { apply msum_delete_le. intros k v E. pose proof (J_blobs _ _ _ _ HJ _ _ E). lia. }
    assert (metadata (deleteBlob d t) <= metadata t).
    { apply metadata_mono; [apply size_delete_le|apply map_size_filter]. }
    unfold used in *. change (reserved (deleteBlob d t)) with (reserved t). lia.
  - apply HJ.
  - apply HJ.
  - intros d' n E. apply lookup_delete_Some in E as [_ E]. by eapply J_blobs.
  - intros k v E. apply map_lookup_filter_Some in E as [E Hr]. cbn in Hr.
    destruct (J_refs _ _ _ _ HJ _ _ E) as [Hb Hs]. split; [|done].
    rewrite lookup_delete_ne; [done|]. intros Ed. unfold refers in Hr. rewrite <- Ed, String.eqb_refl in Hr. done.
  - intros d' b E. destruct (J_owned _ _ _ _ HJ _ _ E) as [Ho|Ho]; [|by right]. left.
    rewrite lookup_delete_ne; [done|]. congruence.
Qed.

Lemma J_deleteVariants opts x t f P : J opts x t f → J opts x (deleteVariants P t) f.
Proof.
  intros HJ. split; cbn [deleteVariants blobs variants reservations untracked]; try apply HJ.
  - pose proof (J_used _ _ _ _ HJ). unfold used in *.
    assert (metadata (deleteVariants P t) <= metadata t) by (apply metadata_mono; [done|apply map_size_filter]).
    change (payload (deleteVariants P t)) with (payload t). change (reserved (deleteVariants P t)) with (reserved t). lia.
  - intros k v E. apply map_lookup_filter_Some in E as [E _]. by eapply J_refs.
Qed.

Lemma J_deleteReservation opts x t f id :
  (∀ r d, reservations t !! id = Some r → r_candidate r = Some d → bodies f !! d = None ∨ is_Some (blobs t !! d)) →
  J opts x t f →
  J opts (x - match reservations t !! id with Some _ => reservationBytes | None => 0 end) (deleteReservation id t) f.
Proof.
  intros Hc HJ. split; cbn [deleteReservation blobs variants reservations untracked]; try apply HJ.
  - pose proof (J_used _ _ _ _ HJ). unfold used in *.
    change (payload (deleteReservation id t)) with (payload t). change (metadata (deleteReservation id t)) with (metadata t).
    unfold reserved in *. cbn [deleteReservation reservations]. destruct (reservations t !! id) as [r|] eqn:E.
    + rewrite (msum_delete _ _ _ _ E) in H. pose proof (J_bytes _ _ _ _ HJ _ _ E). lia.
    + rewrite delete_id by done. lia.
  - pose proof (J_count _ _ _ _ HJ). pose proof (size_delete_le (reservations t) id). lia.
  - intros id' r E. apply lookup_delete_Some in E as [_ E]. by eapply J_bytes.
  - intros d b E. destruct (J_owned _ _ _ _ HJ _ _ E) as [Ho|(id' & r & Hr & Hd)]; [by left|].
    destruct (decide (id = id')) as [<-|Hne].
    + destruct (Hc _ _ Hr Hd) as [Hb|Hb]; [congruence|by left].
    + right. exists id', r. by rewrite lookup_delete_ne.
Qed.

Lemma J_weaken opts x y t f : x <= y → J opts x t f → J opts y t f.
Proof. intros Hxy HJ. split; try apply HJ. pose proof (J_used _ _ _ _ HJ). lia. Qed.

(** Removing files. *)
Lemma J_files opts x t f f' : bodies f' ⊆ bodies f → J opts x t f → J opts x t f'.
Proof. intros Hs HJ. split; try apply HJ. intros d b E. eapply (J_owned _ _ _ _ HJ). by eapply lookup_weaken. Qed.

(** Adding rows. *)
Lemma J_putReservation opts x t f id r :
  reservations t !! id = None → r_bytes r = reservationBytes →
  Z.of_nat (size (reservations t)) < MaxReservations opts →
  J opts x t f → J opts (x + reservationBytes) (putReservation id r t) f.
Proof.
  intros Hid Hb Hc HJ. split; cbn [putReservation blobs variants reservations untracked]; try apply HJ.
  - pose proof (J_used _ _ _ _ HJ). unfold used in *.
    change (payload (putReservation id r t)) with (payload t). change (metadata (putReservation id r t)) with (metadata t).
    unfold reserved in *. cbn [putReservation reservations]. rewrite msum_insert_new by done. lia.
  - rewrite map_size_insert_None by done. lia.
  - intros id' r' E. apply lookup_insert_Some in E as [[<- <-]|[_ E]]; [done|]. by eapply J_bytes.
  - intros d b E. destruct (J_owned _ _ _ _ HJ _ _ E) as [Ho|(id' & r' & Hr & Hd)]; [by left|].
    right. exists id', r'. rewrite lookup_insert_ne; [done|]. congruence.
Qed.

Lemma J_stage opts x t f id d :
  (∀ r c, reservations t !! id = Some r → r_candidate r = Some c → c = d) →
  J opts x t f → J opts x (stage_candidate id d t) f.
Proof.
  intros Hc HJ. unfold stage_candidate. destruct (reservations t !! id) as [r|] eqn:E; [|done].
  split; cbn [putReservation blobs variants reservations untracked]; try apply HJ.
  - pose proof (J_used _ _ _ _ HJ). unfold used in *.
    unfold payload, metadata, reserved in *. cbn [putReservation blobs variants reservations].
    rewrite msum_insert, E. cbn [r_bytes]. lia.
  - rewrite map_size_insert_Some by done. apply HJ.
  - intros id' r' E'. apply lookup_insert_Some in E' as [[<- <-]|[_ E']]; [|by eapply J_bytes]. cbn. by eapply J_bytes.
  - intros d' b E'. destruct (J_owned _ _ _ _ HJ _ _ E') as [Ho|(id' & r' & Hr & Hd)]; [by left|].
    right. destruct (decide (id = id')) as [<-|Hne].
    + rewrite E in Hr. injection Hr as <-. rewrite (Hc _ _ eq_refl Hd). eexists id, _. rewrite lookup_insert_eq. by split.
    + exists id', r'. by rewrite lookup_insert_ne.
Qed.

Lemma J_putBlob opts x t f d n :
  0 < n <= MaxBodyBytes → J opts x t f → J opts (x + n + blobOverhead) (putBlob d n t) f.
Proof.
  intros Hn HJ. split; cbn [putBlob blobs variants reservations untracked]; try apply HJ.
  - pose proof (J_used _ _ _ _ HJ). unfold used, payload, metadata, reserved in *. cbn [putBlob blobs variants reservations].
    rewrite msum_insert, map_size_insert. destruct (blobs t !! d) as [n'|] eqn:E; cbn [id].
    + pose proof (J_blobs _ _ _ _ HJ _ _ E). unfold blobOverhead in *. lia.
    + unfold blobOverhead in *. lia.
  - intros d' n' E. apply lookup_insert_Some in E as [[<- <-]|[_ E]]; [done|]. by eapply J_blobs.
  - intros k v E. destruct (J_refs _ _ _ _ HJ _ _ E) as [Hb Hs]. split; [|done].
    destruct (decide (d = v_digest v)) as [->|]; [rewrite lookup_insert_eq; eauto|by rewrite lookup_insert_ne].
  - intros d' b E. destruct (J_owned _ _ _ _ HJ _ _ E) as [Ho|Ho]; [left|by right].
    destruct (decide (d = d')) as [->|]; [rewrite lookup_insert_eq; eauto|by rewrite lookup_insert_ne].
Qed.

Lemma J_putVariant opts x t f k v :
  is_Some (blobs t !! v_digest v) → sha256hex (v_body v) = v_digest v →
  J opts x t f → J opts (x + match variants t !! k with Some _ => 0 | None => variantOverhead end) (putVariant k v t) f.
Proof.
  intros Hb Hs HJ. split; cbn [putVariant blobs variants reservations untracked]; try apply HJ.
  - pose proof (J_used _ _ _ _ HJ). unfold used, payload, metadata, reserved in *. cbn [putVariant blobs variants reservations].
    rewrite map_size_insert. destruct (variants t !! k); cbn [id]; lia.
  - intros k' v' E. apply lookup_insert_Some in E as [[<- <-]|[_ E]]; [done|]. by eapply J_refs.
Qed.


(** ** Reasoning about steps *)

(** [same s s']: nothing but time and the environment moved. *)
Definition same (s s' : St) : Prop :=
  db s' = db s ∧ tx s' = tx s ∧ fs s' = fs s ∧ started s' = started s ∧ ready s' = ready s.

(** Predicates that do not look at time or the environment. *)
Class Stable (P : St → Prop) : Prop := stable : ∀ s s', same s s' → P s → P s'.

(** [triple P c Q E]: from a state with [P], [c] ends in one with [Q] of its
    result, or with [E] after an error. *)
Definition triple {A} (P : St → Prop) (c : M A) (Q : A → St → Prop) (E : St → Prop) : Prop :=
  ∀ s, P s → match c s with (s', Good a) => Q a s' | (s', Fail _) => E s' end.

Lemma next_same s : same s (next s).1.
Proof. unfold next, same. by destruct (env s). Qed.

Lemma triple_conseq {A} (P P' : St → Prop) (c : M A) (Q Q' : A → St → Prop) (E E' : St → Prop) :
  (∀ s, P' s → P s) → (∀ a s, Q a s → Q' a s) → (∀ s, E s → E' s) → triple P c Q E → triple P' c Q' E'.
Proof. intros HP HQ HE H s Hs. specialize (H s (HP s Hs)). destruct (c s) as [s' [a|e]]; auto. Qed.

Lemma triple_ret {A} (P : St → Prop) (a : A) (E : St → Prop) : triple P (ret a) (λ x s, x = a ∧ P s) E.
Proof. intros s Hs. by split. Qed.

Lemma triple_fail {A} (P : St → Prop) e (Q : A → St → Prop) : triple P (fail e) Q P.
Proof. intros s Hs. done. Qed.

Lemma triple_bind {A B} (P : St → Prop) (c : M A) (f : A → M B) (Q : A → St → Prop) R (E : St → Prop) :
  triple P c Q E → (∀ a, triple (Q a) (f a) R E) → triple P (bindM c f) R E.
Proof.
  intros Hc Hf s Hs. unfold bindM. specialize (Hc s Hs). destruct (c s) as [s' [a|e]]; [|done]. by apply Hf.
Qed.

Lemma triple_attempt {A} (P : St → Prop) (c : M A) (Q : A → St → Prop) (E : St → Prop) :
  triple P c Q E →
  triple P (attempt c) (λ r s, match r with Good a => Q a s | Fail _ => E s end) E.
Proof. intros Hc s Hs. unfold attempt. specialize (Hc s Hs). by destruct (c s) as [s' [a|[]]]. Qed.

Lemma triple_deferred {A} (P : St → Prop) (c : M A) (d : M unit) (Q Q' : A → St → Prop) (E E' : St → Prop) :
  triple P c Q E → (∀ a, triple (Q a) d (λ _, Q' a) (Q' a)) → triple E d (λ _, E') E' →
  (∀ s, E s → E' s) → (∀ a s, Q' a s → E' s) → triple P (deferred c d) Q' E'.
Proof.
  intros Hc Hq He HE HQ s Hs. unfold deferred. specialize (Hc s Hs).
  assert (Hfin : ∀ s' (r : res A) (X : St → Prop), triple X d (λ _, X) X → X s' → X (d s').1) .
  { intros s' r X HX Hs'. specialize (HX s' Hs'). by destruct (d s') as [s'' [[]|e]]. }
  destruct (c s) as [s' [a|e]].
  - specialize (Hq a s' Hc). destruct (d s') as [s'' [[]|[]]]; cbn in *; auto; by eapply HQ.
  - specialize (He s' Hc). destruct e; auto; destruct (d s') as [s'' [[]|[]]]; auto.
Qed.

Lemma triple_query {A} (P : St → Prop) `{!Stable P} (f : St → A) : triple P (query f) (λ a s, P s ∧ a = f s) P.
Proof.
  intros s Hs. unfold query. pose proof (next_same s) as Hn. destruct (next s) as [s' t].
  apply (stable _ _ Hn) in Hs. by destruct (t_fate t).
Qed.

Lemma triple_change (P : St → Prop) `{!Stable P} (f : tick → St → St) (Q : St → Prop) :
  (∀ t s, P s → Q (f t s)) → triple P (change f) (λ _, Q) (λ s, P s ∨ Q s).
Proof.
  intros Hf s Hs. unfold change. pose proof (next_same s) as Hn. destruct (next s) as [s' t].
  apply (stable _ _ Hn) in Hs. destruct (t_fate t); auto.
Qed.

Lemma triple_freeBytes (P : St → Prop) `{!Stable P} : triple P freeBytes (λ _, P) P.
Proof.
  intros s Hs. unfold freeBytes. pose proof (next_same s) as Hn. destruct (next s) as [s' t].
  apply (stable _ _ Hn) in Hs. by destruct (t_fate t).
Qed.

Lemma triple_readBlob (P : St → Prop) `{!Stable P} d :
  triple P (readBlob d) (λ b s, P s ∧ ∀ x, b = Some x → bodies (fs s) !! d = Some x ∧ slen x <= MaxBodyBytes) P.
Proof.
  intros s Hs. unfold readBlob. pose proof (next_same s) as Hn. destruct (next s) as [s' t].
  apply (stable _ _ Hn) in Hs. destruct (t_fate t); try done. split; [done|]. intros x.
  destruct (bodies (fs s') !! d) as [b|]; [|done]. destruct (Z.leb_spec (slen b) MaxBodyBytes); [|done].
  intros [= <-]. done.
Qed.

Section invariant.
Context (opts : SharedOptions) (arrange : list string → list string).

(** Inside a transaction: the durable tables and the working copy are both
    in order with respect to the files. *)
Definition D (s : St) : Prop := J opts 0 (db s) (fs s).
Definition W (s : St) : Prop := D s ∧ J opts 0 (tx s) (fs s).

#[export] Instance W_stable : Stable W.
Proof. intros s s' (Ed & Et & Ef & _) [HD HJ]. unfold W, D. by rewrite Ed, Et, Ef. Qed.
#[export] Instance D_stable : Stable D.
Proof. intros s s' (Ed & Et & Ef & _) HD. unfold D in *. by rewrite Ed, Ef. Qed.

Notation keeps c := (triple W c (λ _, W) W).

Lemma keeps_bind {A B} (c : M A) (f : A → M B) : keeps c → (∀ a, keeps (f a)) → keeps (bindM c f).
Proof. apply triple_bind. Qed.
Lemma keeps_query {A} (f : St → A) : keeps (query f).
Proof. eapply triple_conseq; [| | |apply (triple_query W)]; cbn; [done|by intros ?? [? _]|done]. Qed.
Lemma keeps_ret {A} (a : A) : keeps (ret a).
Proof. by intros s Hs. Qed.
Lemma keeps_fail {A} e : keeps (@fail A e).
Proof. by intros s Hs. Qed.
Lemma keeps_change f : (∀ t s, W s → W (f t s)) → keeps (change f).
Proof. intros Hf. eapply triple_conseq; [| | |by apply (triple_change W f W)]; cbn; [done..|]. by intros s []. Qed.
Lemma keeps_attempt {A} (c : M A) : keeps c → keeps (attempt c).
Proof. intros Hc. eapply triple_conseq; [| | |apply triple_attempt, Hc]; cbn; [done| |done]. by intros [] s. Qed.

Lemma W_exec s f : (J opts 0 (tx s) (fs s) → J opts 0 f (fs s)) → W s → W (set_tx s f).
Proof. intros Hf [HD HJ]. split; [done|]. by apply Hf. Qed.
Lemma W_files s f : bodies f ⊆ bodies (fs s) → W s → W (set_fs s f).
Proof. intros Hs [HD HJ]. split; (eapply J_files; [done|]); done. Qed.

Lemma keeps_exec f : (∀ now t fl, J opts 0 t fl → J opts 0 (f now t) fl) → keeps (exec f).
Proof. intros Hf. apply keeps_change. intros t s. apply W_exec. apply Hf. Qed.
Lemma keeps_removeTmp id : keeps (removeTmp id).
Proof. apply keeps_change. intros t s. by apply W_files. Qed.
Lemma keeps_removeBody d : keeps (removeBody d).
Proof. apply keeps_change. intros t s. apply W_files, delete_subseteq. Qed.
Lemma keeps_removeJunk d : keeps (removeJunk d).
Proof. apply keeps_change. intros t s. by apply W_files. Qed.

(** After a removal the file is gone. *)
Lemma removeBody_gone d :
  triple W (removeBody d) (λ _ s, W s ∧ bodies (fs s) !! d = None) W.
Proof.
  eapply triple_conseq; [| | |apply (triple_change W _ (λ s, W s ∧ bodies (fs s) !! d = None))]; cbn; [done..| |].
  - intros s [?|[? _]]; done.
  - intros t s Hs. split; [|apply lookup_delete_eq]. apply W_files; [|done]. apply delete_subseteq.
Qed.

#[export] Instance W_gone_stable d : Stable (λ s, W s ∧ bodies (fs s) !! d = None).
Proof. intros s s' Hs [HW Hd]. split; [by eapply W_stable|]. destruct Hs as (_ & _ & Ef & _). by rewrite Ef. Qed.

Lemma keeps_removeBlob d : keeps (removeBlob d).
Proof.
  unfold removeBlob. destruct (negb (digestKey d)); [apply keeps_fail|].
  eapply triple_bind; [apply removeBody_gone|]. intros [].
  eapply triple_conseq; [| | |apply (triple_change _ _ W)]; cbn; [done|done| |].
  - by intros s [[? _]|?].
  - intros t s [HW Hd]. apply W_exec; [|done]. by apply J_deleteBlob.
Qed.

Lemma keeps_removeAll l : keeps (removeAll l).
Proof. induction l as [|d l IH]; [apply keeps_ret|]. apply keeps_bind; [apply keeps_removeBlob|done]. Qed.


Lemma J_release x t f id :
  (∀ r d, reservations t !! id = Some r → r_candidate r = Some d → bodies f !! d = None ∨ is_Some (blobs t !! d)) →
  J opts x t f → J opts x (deleteReservation id t) f.
Proof.
  intros Hc HJ. eapply J_weaken; [|by apply J_deleteReservation].
  case_match; unfold reservationBytes, MaxBodyBytes, variantOverhead, blobOverhead; lia.
Qed.

(** The reservation is [r], and its candidate is settled. *)
Definition settled (id : string) (r : reservation) (s : St) : Prop :=
  W s ∧ reservations (tx s) !! id = Some r ∧
  ∀ d, r_candidate r = Some d → bodies (fs s) !! d = None ∨ is_Some (blobs (tx s) !! d).

#[export] Instance row_stable id row : Stable (λ s, W s ∧ reservations (tx s) !! id = row).
Proof. intros s s' Hs [HW Hr]. split; [by eapply W_stable|]. destruct Hs as (_ & Et & _). by rewrite Et. Qed.

#[export] Instance settled_stable id r : Stable (settled id r).
Proof.
  intros s s' Hs (HW & Hr & Hd). unfold settled. split; [by eapply W_stable|].
  destruct Hs as (_ & Et & Ef & _). by rewrite Et, Ef.
Qed.

Lemma keeps_releaseReservation id : keeps (releaseReservation id).
Proof.
  unfold releaseReservation. apply keeps_bind; [apply keeps_removeTmp|]. intros [].
  eapply triple_bind; [apply (triple_query W)|]. intros [r|]; [|by intros s [? _]].
  apply (triple_bind _ _ _ (λ _, settled id r)).
  - destruct (r_candidate r) as [d|] eqn:Ed; [|intros s [HW Hr]; split; [done|]; split; [done|]; congruence].
    destruct (negb (digestKey d)); [by intros s [? _]|].
    eapply triple_bind.
    { eapply triple_conseq; [| | |apply (triple_query (λ s, W s ∧ reservations (tx s) !! id = Some r))]; cbn.
      - by intros s [? ?].
      - intros a s H. exact H.
      - by intros s [? _]. }
    intros c. destruct c.
    + intros s [[HW Hr] Hc]. split; [done|]. split; [done|]. rewrite Ed. intros d' [= <-]. right.
      symmetry in Hc. by apply bool_decide_eq_true in Hc.
    + eapply triple_conseq; [| | |apply (triple_change (λ s, W s ∧ reservations (tx s) !! id = Some r) _ (settled id r))]; cbn.
      * by intros s [? _].
      * done.
      * by intros s [[? _]|[? _]].
      * intros t s [HW Hr]. split; [apply W_files; [apply delete_subseteq|done]|]. split; [done|].
        rewrite Ed. intros d' [= <-]. left. apply lookup_delete_eq.
  - intros []. eapply triple_conseq; [| | |apply (triple_change (settled id r) _ W)]; cbn; [done|done| |].
    + by intros s [[? _]|?].
    + intros t s (HW & Hr & Hd). apply W_exec; [|done]. apply J_release. intros r' d E. rewrite Hr in E.
      injection E as <-. apply Hd.
Qed.

Lemma keeps_releaseAll ids : keeps (releaseAll ids).
Proof.
  induction ids as [|id l IH]; [apply keeps_ret|]. cbn [releaseAll]. destruct (negb (slen id =? 32)); [apply keeps_fail|].
  apply keeps_bind; [apply keeps_releaseReservation|done].
Qed.

Lemma keeps_cleanExpired : keeps (cleanExpired arrange).
Proof. apply keeps_bind; [apply keeps_query|]. apply keeps_releaseAll. Qed.

Lemma keeps_pruneExpiredBatch : keeps (pruneExpiredBatch arrange).
Proof.
  apply keeps_bind; [|intros; apply keeps_query]. apply keeps_exec. intros. by apply J_deleteVariants.
Qed.

Lemma keeps_removeUnreferenced_loop n : keeps (removeUnreferenced_loop arrange n).
Proof.
  induction n as [|n IH]; [apply keeps_fail|]. apply keeps_bind; [apply keeps_query|]. intros l.
  apply keeps_bind; [apply keeps_removeAll|]. intros []. case_match; [apply keeps_ret|done].
Qed.
Lemma keeps_removeUnreferenced : keeps (removeUnreferenced arrange).
Proof. intros s Hs. by apply keeps_removeUnreferenced_loop. Qed.

Lemma keeps_freeBytes : keeps freeBytes.
Proof. apply triple_freeBytes. apply _. Qed.

Lemma keeps_stats : keeps (stats opts).
Proof.
  unfold stats. do 4 (apply keeps_bind; [apply keeps_query|]; intros ?).
  apply keeps_bind; [apply keeps_freeBytes|]. intros ?. apply keeps_ret.
Qed.

Lemma keeps_evict_loop room l : keeps (evict_loop opts room l).
Proof.
  induction l as [|c l IH]; [apply keeps_fail|]. cbn [evict_loop]. apply keeps_bind; [apply keeps_attempt, keeps_removeBlob|].
  intros [[]|e]; [|done]. apply keeps_bind; [apply keeps_stats|]. intros st. case_match; [apply keeps_ret|done].
Qed.

Lemma keeps_makeRoom p n pn : keeps (makeRoom opts arrange p n pn).
Proof.
  unfold makeRoom. apply keeps_bind; [apply keeps_stats|]. intros st. cbv zeta. case_match; [apply keeps_ret|].
  apply keeps_bind; [apply keeps_query|]. intros l. apply keeps_evict_loop.
Qed.

Lemma keeps_walk f l total : (∀ n total, keeps (f n total)) → keeps (walk f l total).
Proof.
  intros Hf. revert total. induction l as [|n l IH]; intros total; [apply keeps_ret|]. apply keeps_bind; [apply Hf|done].
Qed.
Lemma keeps_walk_file k size rm total : keeps k → keeps rm → keeps (walk_file k size rm total).
Proof.
  intros Hk Hr. apply keeps_bind; [done|]. intros []; [apply keeps_ret|]. apply keeps_bind; [by apply keeps_attempt|].
  intros []; apply keeps_ret.
Qed.
Lemma keeps_walk_all : keeps (walk_all arrange).
Proof.
  unfold walk_all. do 2 (apply keeps_bind; [apply keeps_query|]; intros ?).
  repeat (apply keeps_bind; [apply keeps_walk; intros; apply keeps_bind; [apply keeps_query|]; intros _; apply keeps_walk_file|];
    [..|intros ?]); auto using keeps_ret, keeps_removeTmp, keeps_removeBody, keeps_removeJunk.
  repeat case_match; auto using keeps_ret, keeps_query.
Qed.

Lemma keeps_dropMissing l : keeps (dropMissing l).
Proof.
  induction l as [|d l IH]; [apply keeps_ret|]. cbn [dropMissing].
  eapply triple_bind; [apply (triple_query W)|]. intros there.
  apply (triple_bind _ _ _ (λ _, W)); [|done]. destruct there; [by intros s [? _]|].
  eapply triple_conseq; [| | |apply (triple_change (λ s, W s ∧ bodies (fs s) !! d = None) _ W)]; cbn.
  - intros s [HW Hb]. split; [done|]. symmetry in Hb. apply bool_decide_eq_false in Hb. by apply eq_None_not_Some.
  - done.
  - by intros s [[? _]|?].
  - intros t s [HW Hd]. apply W_exec; [|done]. by apply J_deleteBlob.
Qed.
Lemma keeps_reconcile_loop n c : keeps (reconcile_loop arrange n c).
Proof.
  revert c. induction n as [|n IH]; intros c; [apply keeps_fail|]. apply keeps_bind; [apply keeps_query|]. intros l.
  apply keeps_bind; [apply keeps_dropMissing|]. intros []. case_match; [apply keeps_ret|done].
Qed.
Lemma keeps_reconcile : keeps (reconcile arrange).
Proof. intros s Hs. by apply keeps_reconcile_loop. Qed.

Lemma keeps_commit : keeps commit.
Proof. apply keeps_change. intros t s [HD HJ]. by split. Qed.
Lemma keeps_flags r p w : keeps (modify (λ s, set_flags s (r s) (p s) (w s))).
Proof. by intros s Hs. Qed.

(** A transaction keeps the durable state in order whatever happens. *)
Lemma transaction_safe {A} (c : M A) :
  triple W c (λ a s, D s) D → triple D (transaction c) (λ _, W) D.
Proof.
  intros Hc. unfold transaction. eapply triple_bind.
  - eapply triple_conseq; [| | |apply (triple_change D _ W)]; cbn; [done|intros a s H; exact H| |].
    + by intros s [?|[? _]].
    + intros t s HD. by split.
  - intros []. eapply triple_deferred; [exact Hc| | | |]; cbn; [| |done|].
    + intros a s HD. by split.
    + intros s HD. done.
    + by intros a s [? _].
Qed.


Lemma transaction_durable {A} (c : M A) :
  triple W c (λ _, D) D → triple D (transaction c) (λ _, D) D.
Proof.
  intros Hc. apply (triple_conseq D D _ (λ _, W) (λ _, D) D D); [done|by intros ? s [? _]|done|].
  by apply transaction_safe.
Qed.
Lemma transaction_keeps {A} (c : M A) : keeps c → triple D (transaction c) (λ _, D) D.
Proof.
  intros Hc. apply transaction_durable. by apply (triple_conseq W W _ (λ _, W) (λ _, D) W D); [done|intros ? s [? _]|intros s [? _]|].
Qed.

Lemma recover_safe : triple D (recover arrange) (λ _, D) D.
Proof.
  unfold recover. apply (triple_bind D _ _ (λ _, D)); [by intros s Hs|]. intros [].
  apply transaction_keeps.
  apply keeps_bind; [apply keeps_cleanExpired|]. intros [].
  apply keeps_bind; [apply keeps_exec; intros; by apply J_deleteVariants|]. intros [].
  apply keeps_bind; [apply keeps_removeUnreferenced|]. intros [].
  apply keeps_bind; [apply keeps_walk_all|]. intros n.
  apply keeps_bind; [apply keeps_reconcile|]. intros [].
  apply keeps_bind; [apply keeps_exec; intros ??? H; by split; apply H|]. intros [].
  apply keeps_bind; [apply keeps_commit|]. intros []. by intros s Hs.
Qed.

(** *** Other predicates carried along *)

Lemma triple_and {A} (P P' : St → Prop) (c : M A) (Q Q' : A → St → Prop) (E E' : St → Prop) :
  triple P c Q E → triple P' c Q' E' →
  triple (λ s, P s ∧ P' s) c (λ a s, Q a s ∧ Q' a s) (λ s, E s ∧ E' s).
Proof. intros H H' s [Hs Hs']. specialize (H s Hs). specialize (H' s Hs'). by destruct (c s) as [s' [a|e]]. Qed.

#[export] Instance and_stable P P' `{!Stable P, !Stable P'} : Stable (λ s, P s ∧ P' s).
Proof. intros s s' Hs []. split; by eapply stable. Qed.

(** [g] of the working copy has the value [v]. *)
Definition tx_is {V} (g : tables → V) (v : V) (s : St) : Prop := g (tx s) = v.
#[export] Instance tx_is_stable {V} (g : tables → V) v : Stable (tx_is g v).
Proof. intros s s' (_ & Et & _). unfold tx_is. by rewrite Et. Qed.

Section carry.
Context (R : St → Prop) {R_stable : Stable R}.
Notation inv c := (triple R c (λ _, R) R).

Lemma inv_bind {A B} (c : M A) (f : A → M B) : inv c → (∀ a, inv (f a)) → inv (bindM c f).
Proof. apply triple_bind. Qed.
Lemma inv_query {A} (f : St → A) : inv (query f).
Proof. eapply triple_conseq; [| | |apply (triple_query R)]; cbn; [done|by intros ?? [? _]|done]. Qed.
Lemma inv_ret {A} (a : A) : inv (ret a).
Proof. by intros s Hs. Qed.
Lemma inv_fail {A} e : inv (@fail A e).
Proof. by intros s Hs. Qed.
Lemma inv_change f : (∀ t s, R s → R (f t s)) → inv (change f).
Proof. intros Hf. eapply triple_conseq; [| | |by apply (triple_change R f R)]; cbn; [done..|]. by intros s []. Qed.
Lemma inv_attempt {A} (c : M A) : inv c → inv (attempt c).
Proof. intros Hc. eapply triple_conseq; [| | |apply triple_attempt, Hc]; cbn; [done| |done]. by intros [] s. Qed.
Lemma inv_freeBytes : inv freeBytes.
Proof. by apply triple_freeBytes. Qed.

Lemma inv_stats : inv (stats opts).
Proof.
  unfold stats. do 4 (apply inv_bind; [apply inv_query|]; intros ?).
  apply inv_bind; [apply inv_freeBytes|]. intros ?. apply inv_ret.
Qed.

(** A predicate that survives the removals of a list of blobs survives an
    eviction pass over them. *)
Lemma inv_evict_loop room l :
  (∀ c, c ∈ l → inv (removeBlob (c_digest c))) → inv (evict_loop opts room l).
Proof.
  induction l as [|c l IH]; intros Hl; [apply inv_fail|]. cbn [evict_loop].
  apply inv_bind; [apply inv_attempt, Hl; set_solver|].
  assert (Hr : inv (evict_loop opts room l)) by (apply IH; intros; apply Hl; set_solver).
  intros [[]|e]; [|done]. apply inv_bind; [apply inv_stats|]. intros st. case_match; [apply inv_ret|done].
Qed.
End carry.

Lemma tx_is_removeBlob {V} (g : tables → V) v d :
  (∀ t, g (deleteBlob d t) = g t) → triple (tx_is g v) (removeBlob d) (λ _, tx_is g v) (tx_is g v).
Proof.
  intros Hg. unfold removeBlob. case_match; [by apply inv_fail|].
  apply (inv_bind (tx_is g v)); [by apply (inv_change _)|]. intros []. apply (inv_change _). intros t s Hs. unfold tx_is in *.
  cbn. by rewrite Hg.
Qed.

Lemma tx_is_makeRoom {V} (g : tables → V) v p n pn :
  (∀ d t, g (deleteBlob d t) = g t) →
  triple (tx_is g v) (makeRoom opts arrange p n pn) (λ _, tx_is g v) (tx_is g v).
Proof.
  intros Hg. unfold makeRoom. apply (inv_bind _); [apply (inv_stats _)|]. intros st. cbv zeta.
  case_match; [by apply inv_ret|]. apply (inv_bind _); [apply (inv_query _)|]. intros l.
  apply (inv_evict_loop _). intros c _. by apply tx_is_removeBlob.
Qed.

Lemma tx_is_releaseAll {V} (g : tables → V) v ids :
  (∀ id t, g (deleteReservation id t) = g t) →
  triple (tx_is g v) (releaseAll ids) (λ _, tx_is g v) (tx_is g v).
Proof.
  intros Hg. induction ids as [|id l IH]; [by apply inv_ret|]. cbn [releaseAll]. case_match; [by apply inv_fail|].
  apply (inv_bind _); [|done]. unfold releaseReservation. apply (inv_bind _); [by apply (inv_change _)|]. intros [].
  apply (inv_bind _); [apply (inv_query _)|]. intros [r|]; [|by apply inv_ret].
  apply (inv_bind _).
  - destruct (r_candidate r); [|by apply inv_ret]. case_match; [by apply inv_fail|].
    apply (inv_bind _); [apply (inv_query _)|]. intros []; [by apply inv_ret|by apply (inv_change _)].
  - intros []. apply (inv_change _). intros t s0 Hs0. unfold tx_is in *. cbn. by rewrite Hg.
Qed.

(** *** Statistics and admission *)

Definition total_of (t : tables) : Z := int64 (int64 (int64 (payload t + metadata t) + reserved t) + untracked t).
Definition describes (st : Stats) (t : tables) : Prop :=
  TotalBytes st = total_of t ∧ Reservations st = Z.of_nat (size (reservations t)).

Lemma stats_describes (P : St → Prop) `{!Stable P} :
  triple P (stats opts) (λ st s, P s ∧ describes st (tx s)) P.
Proof.
  unfold stats. eapply triple_bind; [apply (triple_query P)|]. intros t. cbn.
  assert (HR : Stable (λ s, P s ∧ tx_is id t s)) by apply _.
  eapply triple_conseq with (P := λ s, P s ∧ tx_is id t s) (E := λ s, P s ∧ tx_is id t s).
  - by intros s [? ->].
  - intros st s H. exact H.
  - by intros s [? _].
  - do 3 (eapply triple_bind; [apply (inv_query _)|]; intros ?). eapply triple_bind; [by apply inv_freeBytes|].
    intros free s [HP Ht]. cbv zeta. cbn. split; [done|]. unfold tx_is, id in Ht. rewrite Ht. done.
Qed.

(** When room was made, the working copy has it. *)
Lemma makeRoom_fits p need pn :
  triple W (makeRoom opts arrange p need pn) (λ _ s, W s ∧ int64 (total_of (tx s) + need) <= MaxBytes opts) W.
Proof.
  unfold makeRoom. eapply triple_bind; [apply (stats_describes W)|]. intros st. cbv zeta.
  set (pr := MaxBytes opts <? _). set (tg := if pr then _ else _).
  assert (Hroom : ∀ st s, describes st (tx s) → room opts pr tg need pn st = true →
            int64 (total_of (tx s) + need) <= MaxBytes opts).
  { intros st0 s [Ht _] E. unfold room in E. zbool. by rewrite <- Ht. }
  destruct (room opts pr tg need pn st) eqn:Er; [intros s [HW Hd]; split; [done|]; by eapply Hroom|].
  eapply triple_bind; [eapply triple_conseq; [| | |apply (triple_query W)]; cbn; [by intros s [? _]|intros a s H; exact (proj1 H)|done]|].
  intros l. induction l as [|c l IH]; [by intros s HW|]. cbn [evict_loop].
  eapply triple_bind; [apply keeps_attempt, keeps_removeBlob|]. intros [[]|e]; [|apply IH].
  eapply triple_bind; [apply (stats_describes W)|]. intros st'. destruct (room opts pr tg need pn st') eqn:Er'.
  - intros s [HW Hd]. split; [done|]. by eapply Hroom.
  - eapply triple_conseq; [| | |apply IH]; cbn; [by intros s [? _]|done|done].
Qed.


(** Limits below two exbibytes: no sum of the accounting overflows. *)
Definition opts_ok : Prop := 0 < MaxBytes opts <= 2 ^ 61.
Definition tracked (t : tables) : Prop := 0 <= untracked t <= 2 ^ 62.

Lemma J_tighten x y t f : used t <= MaxBytes opts + y → J opts x t f → J opts y t f.
Proof. intros Hu HJ. split; [done|apply HJ..]. Qed.

Lemma used_parts x t f : J opts x t f → 0 <= payload t ∧ 0 <= metadata t ∧ 0 <= reserved t.
Proof.
  intros HJ. split; [apply payload_nonneg, HJ|]. split; [unfold metadata, blobOverhead, variantOverhead; lia|].
  rewrite reserved_const by apply HJ. unfold reservationBytes, MaxBodyBytes, variantOverhead, blobOverhead. lia.
Qed.

Lemma total_of_exact t f : opts_ok → tracked t → J opts 0 t f → total_of t = used t + untracked t.
Proof.
  intros Ho Ht HJ. destruct (used_parts _ _ _ HJ) as (? & ? & ?). pose proof (J_used _ _ _ _ HJ). unfold total_of, used, opts_ok, tracked in *.
  rewrite (int64_id (payload t + metadata t)) by (unfold is_int64; lia).
  rewrite (int64_id (payload t + metadata t + reserved t)) by (unfold is_int64; lia).
  apply int64_id. unfold is_int64. lia.
Qed.

Lemma fits_used t f :
  opts_ok → tracked t → J opts 0 t f → int64 (total_of t + reservationBytes) <= MaxBytes opts →
  used t <= MaxBytes opts + - reservationBytes.
Proof.
  intros Ho Ht HJ H. rewrite (total_of_exact t f) in H by done. pose proof (J_used _ _ _ _ HJ). destruct (used_parts _ _ _ HJ) as (? & ? & ?).
  unfold used, opts_ok, tracked, reservationBytes, MaxBodyBytes, variantOverhead, blobOverhead in *.
  rewrite int64_id in H by (unfold is_int64; lia). lia.
Qed.

(** What is left to do after an error is the rollback. *)
Lemma triple_W {A} (P : St → Prop) (c : M A) (Q : A → St → Prop) :
  (∀ s, P s → W s) → triple P c Q P → triple P c Q D.
Proof. intros HP. apply triple_conseq; [done|done|]. intros s Hs. apply HP, Hs. Qed.

(** Room for one more reservation in the working copy. *)
Definition roomy (u : Z) (rs : gmap string reservation) (s : St) : Prop :=
  ((W s ∧ int64 (total_of (tx s) + reservationBytes) <= MaxBytes opts) ∧ tx_is untracked u s) ∧ tx_is reservations rs s.

#[export] Instance roomy_stable u rs : Stable (roomy u rs).
Proof.
  intros s s' Hs (((HW & Hf) & Hu) & Hr). pose proof Hs as (_ & Et & _). unfold roomy, tx_is in *. rewrite Et.
  split; [split; [split|]|]; [by eapply stable|done|done|done].
Qed.

Lemma insertReservation_safe id p b u rs :
  opts_ok → 0 <= u <= 2 ^ 62 → Z.of_nat (size rs) < MaxReservations opts →
  triple (roomy u rs) (insertReservation id p b) (λ _, D) D.
Proof.
  intros Ho Hu Hc. unfold insertReservation. assert (HW : ∀ s, roomy u rs s → W s) by (by intros s [[[? _] _] _]).
  eapply triple_bind; [apply (triple_W (roomy u rs)); [done|]; apply (inv_query _)|]. intros [].
  eapply triple_bind; [apply (triple_W (roomy u rs)); [done|]; apply (triple_query _)|]. intros taken. cbn.
  destruct taken; [by intros s [Hs%HW _]; apply Hs|].
  apply (triple_bind _ _ _ (λ _, W)).
  - apply (triple_conseq (λ s, roomy u rs s ∧ tx_is (λ t, reservations t !! id) None s) _ _ (λ _, W) _
      (λ s, (roomy u rs s ∧ tx_is (λ t, reservations t !! id) None s) ∨ W s) D); [|done| |].
    + intros s [Hf Hn]. split; [done|]. symmetry in Hn. apply bool_decide_eq_false in Hn. by apply eq_None_not_Some.
    + intros s [[Hs%HW _]|Hs]; apply Hs.
    + apply triple_change; [apply _|]. intros t s [(((HW' & Hf) & Hu') & Hr) Hn]. unfold tx_is in *.
      apply W_exec; [|done]. intros HJ. apply (J_weaken _ (- reservationBytes + reservationBytes)); [lia|].
      apply J_putReservation; [done|done|by rewrite Hr|]. eapply J_tighten; [|done].
      eapply fits_used; [done|unfold tracked; by rewrite Hu'|done|done].
  - intros []. apply (triple_bind _ _ _ (λ _, W)); [apply triple_W; [done|]; apply keeps_commit|].
    intros []. destruct b; by intros s [? _].
Qed.

Lemma admit_safe id p u :
  opts_ok → 0 <= u <= 2 ^ 62 →
  triple (λ s, W s ∧ tx_is untracked u s) (admission opts arrange id p) (λ _, D) D.
Proof.
  intros Ho Hu. unfold admission. set (P := λ s, W s ∧ tx_is untracked u s). assert (HP : ∀ s, P s → W s) by (by intros s []).
  apply (triple_bind _ _ _ (λ _, P)).
  { apply triple_W; [done|]. apply triple_and; [apply keeps_cleanExpired|]. apply (inv_bind _); [apply (inv_query _)|].
    intros ids. by apply tx_is_releaseAll. }
  intros []. apply (triple_bind _ _ _ (λ _, P)).
  { apply triple_W; [done|]. apply triple_and; [apply keeps_pruneExpiredBatch|]. apply (inv_bind _); [by apply (inv_change _)|].
    intros []. apply (inv_query _). }
  intros pend. apply (triple_bind _ _ _ (λ _, P)); [by intros s Hs|]. intros [].
  eapply triple_bind; [apply (triple_W P); [done|]; apply (stats_describes P)|]. intros st. cbn.
  destruct (MaxReservations opts <=? Reservations st) eqn:Ec; [by intros s [[[? _] _] _]|]. zbool.
  apply (triple_conseq (λ s, ∃ rs, Z.of_nat (size rs) < MaxReservations opts ∧ P s ∧ tx_is reservations rs s)
           _ _ (λ _, D) (λ _, D) D D); [|done..|].
  { intros s [Hs [_ Hd]]. exists (reservations (tx s)). split; [lia|done]. }
  intros s (rs & Hcnt & Hs). revert s Hs.
  change (triple (λ s, P s ∧ tx_is reservations rs s)
    (let! r := attempt (makeRoom opts arrange p reservationBytes (if p =? Protected then reservationBytes else 0)) in
     match r with
     | Fail ErrCapacity => commit >>> fail ErrCapacity
     | Fail e => fail e
     | Good _ => insertReservation id p pend
     end) (λ _, D) D).
  apply (triple_bind _ _ _ (λ r s, match r with Good _ => roomy u rs s | Fail _ => W s end)).
  - eapply triple_conseq; [| | |apply triple_attempt, triple_and; [apply triple_and; [apply makeRoom_fits|]|];
      [by apply (tx_is_makeRoom untracked u)|by apply (tx_is_makeRoom reservations rs)]]; cbn; [by intros s [? ?]| |by intros s [[[? _] _] _]].
    intros [[]|e] s Hs; [exact Hs|apply Hs].
  - intros [[]|e]; [by apply insertReservation_safe|].
    assert (HW : triple W (@fail unit e) (λ _, D) D) by (by intros s [? _]).
    destruct e; try exact HW. apply (triple_bind _ _ _ (λ _, W)); [apply triple_W; [done|]; apply keeps_commit|].
    intros []. by intros s [? _].
Qed.


#[export] Instance db_stable (P : tables → Prop) : Stable (λ s, D s ∧ P (db s)).
Proof. intros s s' Hs [HD HP]. split; [by eapply stable|]. destruct Hs as (Ed & _). by rewrite Ed. Qed.

(** A transaction starts from a copy of the durable tables. *)
Lemma transaction_from {A} (P : tables → Prop) (c : M A) :
  triple (λ s, W s ∧ tx s = db s ∧ P (db s)) c (λ _, D) D →
  triple (λ s, D s ∧ P (db s)) (transaction c) (λ _, D) D.
Proof.
  intros Hc. unfold transaction.
  apply (triple_bind _ _ _ (λ _ s, W s ∧ tx s = db s ∧ P (db s))).
  - eapply triple_conseq; [| | |apply (triple_change (λ s, D s ∧ P (db s)) _ (λ s, W s ∧ tx s = db s ∧ P (db s)))]; cbn; [done|done| |].
    + by intros s [[? _]|[[? _] _]].
    + intros t s [HD HP]. by split.
  - intros []. apply (triple_deferred _ _ _ (λ _, D) (λ _, D) D D); [done| | |done|done]; intros; by intros s HD.
Qed.

(** *** Staging and publication *)

(** The durable reservation announces no other digest than [d]. *)
Definition unclaimed (id d : string) (t : tables) : Prop :=
  ∀ r c, reservations t !! id = Some r → r_candidate r = Some c → c = d.

Definition fresh_tx (P : tables → Prop) (s : St) : Prop := W s ∧ tx s = db s ∧ P (db s).
#[export] Instance fresh_tx_stable P : Stable (fresh_tx P).
Proof. intros s s' Hs (HW & Ht & HP). split; [by eapply stable|]. destruct Hs as (Ed & Et & _). by rewrite Ed, Et. Qed.

Lemma stage_safe id d : triple (λ s, D s ∧ unclaimed id d (db s)) (stage id d) (λ _, D) D.
Proof.
  apply transaction_from. change (triple (fresh_tx (unclaimed id d))
    (let! r := attempt (query (live_reservation id)) in
     match r with Good (Some _) => exec (λ _, stage_candidate id d) >>> commit | _ => fail ErrReservation end) (λ _, D) D).
  assert (HW : ∀ s, fresh_tx (unclaimed id d) s → W s) by (by intros s []).
  eapply triple_bind; [apply (triple_W (fresh_tx (unclaimed id d))); [done|]; apply (inv_attempt _), (inv_query _)|].
  intros [[r|]|e]; [|by intros s [[? _] _]..]. apply (triple_bind _ _ _ (λ _, W)).
  - apply (triple_conseq (fresh_tx (unclaimed id d)) _ _ (λ _, W) _ (λ s, fresh_tx (unclaimed id d) s ∨ W s) D); [done|done| |].
    + intros s [Hs%HW|Hs]; apply Hs.
    + apply triple_change; [apply _|]. intros t s (Hs & Ht & Hc). apply W_exec; [|done]. intros HJ. apply J_stage; [|done].
      by rewrite Ht.
  - intros []. apply (triple_conseq W _ _ (λ _, W) _ W D); [done|by intros ? s [? _]|by intros s [? _]|apply keeps_commit].
Qed.

(** The reservation announces [d]. *)
Definition announced (id d : string) (t : tables) : Prop :=
  ∃ r, reservations t !! id = Some r ∧ r_candidate r = Some d.
Notation ready_tx id d := (fresh_tx (announced id d)).

Lemma ready_files id d s f :
  (∀ d', d' ≠ d → bodies f !! d' = None ∨ bodies f !! d' = bodies (fs s) !! d') →
  ready_tx id d s → ready_tx id d (set_fs s f).
Proof.
  intros Hf (HW & Ht & r & Hr & Hc). split; [|split; [done|by exists r]].
  assert (HJ : ∀ t, reservations t !! id = Some r → J opts 0 t (fs s) → J opts 0 t f).
  { intros t Hrt HJ. split; try apply HJ. intros d' b E. destruct (decide (d' = d)) as [->|Hne].
    - right. by exists id, r.
    - destruct (Hf d' Hne) as [H|H]; [congruence|]. rewrite H in E. by eapply J_owned. }
  destruct HW as [HD HT]. split; apply HJ; cbn; [done|done| |done]. by rewrite Ht.
Qed.

Lemma ready_change id d (g : tick → St → files) :
  (∀ t s d', d' ≠ d → bodies (g t s) !! d' = None ∨ bodies (g t s) !! d' = bodies (fs s) !! d') →
  triple (ready_tx id d) (change (λ t s, set_fs s (g t s))) (λ _, ready_tx id d) (ready_tx id d).
Proof. intros Hg. apply (inv_change _). intros t s. by apply ready_files, Hg. Qed.

Lemma ready_removeBody id d : triple (ready_tx id d) (removeBody d) (λ _, ready_tx id d) (ready_tx id d).
Proof. apply ready_change. intros t s d' Hne. right. cbn. by rewrite lookup_delete_ne. Qed.

Lemma ready_renameTmp id d : triple (ready_tx id d) (renameTmp id d) (λ _, ready_tx id d) (ready_tx id d).
Proof.
  apply (inv_change _). intros t s Hs. destruct (tmps (fs s) !! id) as [b|]; [|done].
  apply ready_files; [|done]. intros d' Hne. right. cbn. by rewrite lookup_insert_ne.
Qed.

(** After the blob row, after the variant row: the reservation pays. *)
Definition paying (id d : string) (x : Z) (s : St) : Prop :=
  D s ∧ J opts x (tx s) (fs s) ∧ announced id d (tx s) ∧ is_Some (blobs (tx s) !! d).
#[export] Instance paying_stable id d x : Stable (paying id d x).
Proof.
  intros s s' (Ed & Et & Ef & _) (HD & HJ & Ha & Hb). unfold paying, D in *. by rewrite Ed, Et, Ef.
Qed.

Lemma rows_safe h d ct body n :
  sha256hex body = d → n = slen body → 0 < n <= MaxBodyBytes →
  triple (ready_tx (h_id h) d)
    (exec (λ _, putBlob d n) >>>
     exec (λ now, upsertVariant now (h_key h) d ct body (h_priority h)) >>>
     exec (λ _, deleteReservation (h_id h))) (λ _, W) D.
Proof.
  intros Hsha -> Hn. set (id := h_id h). set (x := 0 + slen body + blobOverhead).
  apply (triple_bind _ _ _ (λ _, paying id d x)).
  { apply (triple_conseq (ready_tx id d) _ _ (λ _, paying id d x) _ (λ s, ready_tx id d s ∨ paying id d x s) D); [done|done| |].
    - by intros s [[[? _] _]|[? _]].
    - apply triple_change; [apply _|]. intros t s ([HD HJ] & Ht & r & Hr & Hc). split; [done|].
      split; [by apply J_putBlob|]. split; [exists r; cbn; by rewrite Ht|]. cbn. rewrite lookup_insert_eq. eauto. }
  intros []. apply (triple_bind _ _ _ (λ _, paying id d (x + variantOverhead))).
  { apply (triple_conseq (paying id d x) _ _ (λ _, paying id d (x + variantOverhead)) _
      (λ s, paying id d x s ∨ paying id d (x + variantOverhead) s) D); [done|done| |].
    - by intros s [[? _]|[? _]].
    - apply triple_change; [apply _|]. intros t s (HD & HJ & Ha & Hb). split; [done|]. split; [|by split].
      eapply J_weaken; [|apply J_putVariant; [exact Hb|exact Hsha|exact HJ]].
      case_match; unfold variantOverhead; lia. }
  intros []. apply (triple_conseq (paying id d (x + variantOverhead)) _ _ (λ _, W) _
      (λ s, paying id d (x + variantOverhead) s ∨ W s) D); [done|done| |].
  - by intros s [[? _]|[? _]].
  - apply triple_change; [apply _|]. intros t s (HD & HJ & (r & Hr & Hc) & Hb). split; [done|].
    eapply J_weaken; [|apply J_deleteReservation; [|exact HJ]].
    + cbn. rewrite Hr. unfold x, reservationBytes, blobOverhead, variantOverhead. lia.
    + intros r' d' E Ed. rewrite Hr in E. injection E as <-. right. congruence.
Qed.

Lemma publish_file_safe h d ct body :
  sha256hex body = d → 0 < slen body <= MaxBodyBytes →
  triple (ready_tx (h_id h) d) (publish_file h d ct body) (λ _, D) D.
Proof.
  intros Hsha Hn. unfold publish_file. set (id := h_id h).
  assert (HW : ∀ s, ready_tx id d s → W s) by (by intros s []).
  eapply triple_bind; [apply (triple_W (ready_tx id d)); [done|]; apply (inv_query _)|]. intros prev.
  eapply triple_bind; [apply (triple_W (ready_tx id d)); [done|]; apply (inv_query _)|]. intros [].
  apply (triple_bind _ _ _ (λ _, ready_tx id d)).
  { apply (triple_conseq (ready_tx id d) _ _ (λ b s, ready_tx id d s ∧ ∀ x, b = Some x → bodies (fs s) !! d = Some x ∧ slen x <= MaxBodyBytes)
      _ (ready_tx id d) D); [done|by intros ? s [? _]|by intros s [[? _] _]|]. by apply (triple_readBlob _). }
  intros ex. apply (triple_bind _ _ _ (λ _, ready_tx id d)).
  { apply triple_W; [done|].
    assert (triple (ready_tx id d) (removeBody d >>> renameTmp id d) (λ _, ready_tx id d) (ready_tx id d)).
    { apply (inv_bind _); [apply ready_removeBody|]. intros []. apply ready_renameTmp. }
    destruct ex as [b|]; [|done]. case_match; [by apply inv_ret|done]. }
  intros [].
  assert (Hfin : triple W ((match prev with
     | Some v => if v_digest v =s d then ret tt
                 else let! referenced := query (λ s, any (refers (v_digest v)) (variants (tx s))) in
                      if referenced : bool then ret tt else removeBlob (v_digest v)
     | None => ret tt end) >>> commit) (λ _, D) D).
  { apply (triple_conseq W W _ (λ _, W) _ W D); [done|by intros ? s [? _]|by intros s [? _]|].
    apply keeps_bind; [|intros; apply keeps_commit]. destruct prev as [v|]; [|apply keeps_ret].
    case_match; [apply keeps_ret|]. apply keeps_bind; [apply keeps_query|].
    intros []; [apply keeps_ret|apply keeps_removeBlob]. }
  intros s Hs. pose proof (rows_safe h d ct body (slen body) Hsha eq_refl Hn s Hs) as Hr. unfold bindM in *.
  destruct (exec (λ _, putBlob d (slen body)) s) as [s1 [[]|e]]; [|done].
  destruct (exec _ s1) as [s2 [[]|e]]; [|done]. destruct (exec _ s2) as [s3 [[]|e]]; [|done].
  exact (Hfin s3 Hr).
Qed.


Lemma triple_writeReservedTemp (P : St → Prop) `{!Stable P} id b :
  (∀ s f, bodies f = bodies (fs s) → P s → P (set_fs s f)) →
  triple P (writeReservedTemp id b) (λ _, P) P.
Proof.
  intros HP s Hs. unfold writeReservedTemp. pose proof (next_same s) as Hn. destruct (next s) as [s' t].
  apply (stable _ _ Hn) in Hs. destruct (bool_decide _); [done|]. destruct (t_fate t); try done; by apply HP.
Qed.

Lemma publish_safe h d ct body :
  sha256hex body = d → 0 < slen body <= MaxBodyBytes →
  triple D (publish opts h d ct body) (λ _, D) D.
Proof.
  intros Hsha Hn. unfold publish. set (id := h_id h).
  apply (triple_conseq (λ s, D s ∧ True) D _ (λ _, D) _ D D); [done..|]. apply (transaction_from (λ _, True)).
  apply (triple_bind _ _ _ (λ r s, fresh_tx (λ _, True) s ∧
    ∀ row, r = Good (Some row) → reservations (tx s) !! id = Some row)).
  { eapply triple_conseq; [| | |apply triple_attempt, (triple_query (fresh_tx (λ _, True)))]; cbn; [done| |by intros s [[? _] _]].
    intros [row|e] s; [|by intros ?]. intros [Hs ->]. split; [done|]. intros row [= E]. unfold live_reservation in E.
    destruct (reservations (tx s) !! id) as [r|]; [|done]. destruct (started s <? r_expires r); [|done]. by injection E as <-. }
  intros r. destruct r as [[row|]|e]; [|by intros s [[[? _] _] _]..].
  destruct (bool_decide (r_candidate row = Some d)) eqn:Ec; cbn [negb]; [|by intros s [[[? _] _] _]]. zbool.
  apply (triple_conseq (ready_tx id d) _ _ (λ _, D) _ D D); [|done..|].
  { intros s [(HW & Ht & _) Hr]. split; [done|]. split; [done|]. exists row. rewrite <- Ht. by split; [apply Hr|]. }
  assert (HW : ∀ s, ready_tx id d s → W s) by (by intros s []).
  eapply triple_bind; [apply (triple_W (ready_tx id d)); [done|]; apply (inv_freeBytes _)|]. intros free.
  case_match; [by intros s [[? _] _]|].
  eapply triple_bind.
  { apply (triple_W (ready_tx id d)); [done|]. apply (triple_writeReservedTemp _). intros s f Hf.
    apply ready_files. intros d' _. right. by rewrite Hf. }
  assert (Hrm : triple D (removeTmp id) (λ _, D) D).
  { apply (inv_change D). intros t s HD. apply (J_files opts 0 (db s) (fs s)); [done|exact HD]. }
  intros []. apply (triple_deferred _ _ _ (λ _, D) (λ _, D) D D); [by apply publish_file_safe|by intros []|done..].
Qed.

Lemma release_safe id : triple D (release id) (λ _, D) D.
Proof. apply transaction_keeps, keeps_bind; [apply keeps_releaseReservation|]. intros. apply keeps_commit. Qed.

Lemma keeps_clock {A} (f : St → A) : keeps (λ s, (s, Good (f s))).
Proof. by intros s Hs. Qed.

Lemma lookup_keeps key : keeps (lookup key).
Proof.
  unfold lookup. apply keeps_bind; [apply keeps_query|]. intros [[v n]|]; [|apply keeps_fail].
  case_match; [apply keeps_fail|]. apply keeps_bind.
  { apply (triple_conseq W W _ (λ b s, W s ∧ ∀ x, b = Some x → bodies (fs s) !! v_digest v = Some x ∧ slen x <= MaxBodyBytes)
      _ W W); [done|by intros ? s [? _]|done|]. by apply (triple_readBlob _). }
  intros [b|]; [|apply keeps_fail]. do 2 (case_match; [apply keeps_fail|]).
  apply keeps_bind; [apply keeps_clock|]. intros since.
  apply keeps_bind; [|intros; apply keeps_bind; [apply keeps_commit|intros; apply keeps_ret]].
  case_match; [|apply keeps_ret]. apply keeps_exec. intros now t fl HJ.
  destruct (variants t !! key) as [v'|] eqn:Ev; [|done].
  destruct (J_refs _ _ _ _ HJ _ _ Ev). eapply J_weaken; [|apply J_putVariant; [| |exact HJ]; done]. rewrite Ev. lia.
Qed.

Lemma sweep_keeps : keeps (cleanExpired arrange >>>
  let! pending := pruneExpiredBatch arrange in
  removeUnreferenced arrange >>>
  let! before := stats opts in
  (if (MaxBytes opts <? TotalBytes before)
      || (FreeBytes before <? uint64 (int64 (MinFreeBytes opts + ReservedBytes before)))
   then attempt (makeRoom opts arrange Protected 0 0) >>> ret tt else ret tt) >>>
  let! after := stats opts in
  let! c := attempt commit in
  match c with
  | Fail e => set_pending true >>> fail e
  | Good _ => set_pending pending >>>
              ret (Blobs before - Blobs after, PayloadBytes before - PayloadBytes after)
  end).
Proof.
  apply keeps_bind; [apply keeps_cleanExpired|]. intros []. apply keeps_bind; [apply keeps_pruneExpiredBatch|]. intros pend.
  apply keeps_bind; [apply keeps_removeUnreferenced|]. intros []. apply keeps_bind; [apply keeps_stats|]. intros st.
  apply keeps_bind.
  { case_match; [|apply keeps_ret]. apply keeps_bind; [apply keeps_attempt, keeps_makeRoom|]. intros. apply keeps_ret. }
  intros []. apply keeps_bind; [apply keeps_stats|]. intros st'. apply keeps_bind; [apply keeps_attempt, keeps_commit|].
  intros [[]|e]; (apply keeps_bind; [by intros s Hs|]); intros; [apply keeps_ret|apply keeps_fail].
Qed.

Lemma ensure_safe : triple D (ensure arrange) (λ _, D) D.
Proof. intros s Hs. unfold ensure. destruct (ready s); [done|]. by apply recover_safe. Qed.

Lemma durable_bind {A B} (c : M A) (f : A → M B) :
  triple D c (λ _, D) D → (∀ a, triple D (f a) (λ _, D) D) → triple D (bindM c f) (λ _, D) D.
Proof. apply triple_bind. Qed.
Lemma durable_attempt {A} (c : M A) : triple D c (λ _, D) D → triple D (attempt c) (λ _, D) D.
Proof. apply (inv_attempt D). Qed.

Lemma Sweep_safe : triple D (sweep opts arrange) (λ _, D) D.
Proof.
  apply durable_bind; [|intros; by intros s Hs]. apply durable_attempt, durable_bind; [apply ensure_safe|]. intros [].
  apply transaction_keeps, sweep_keeps.
Qed.

Lemma GetContext_safe key : triple D (GetContext arrange key) (λ _, D) D.
Proof.
  apply durable_bind; [|intros; by intros s Hs]. apply durable_attempt. case_match; [by intros s Hs|].
  apply durable_bind; [apply ensure_safe|]. intros []. apply transaction_keeps, lookup_keeps.
Qed.

Lemma EvictLowPriority_safe : triple D (EvictLowPriority opts arrange) (λ _, D) D.
Proof.
  apply durable_bind; [apply ensure_safe|]. intros []. apply transaction_keeps.
  apply keeps_bind; [apply keeps_stats|]. intros st. apply keeps_bind; [apply keeps_query|]. intros l.
  apply keeps_bind; [apply keeps_removeAll|]. intros []. apply keeps_bind; [apply keeps_stats|]. intros st'.
  apply keeps_bind; [apply keeps_commit|]. intros. apply keeps_ret.
Qed.

Lemma Stats_safe : triple D (Stats_ opts) (λ _, D) D.
Proof.
  intros s Hs. unfold Stats_. destruct (ready s); [|done]. revert s Hs. apply transaction_keeps.
  apply keeps_bind; [apply keeps_stats|]. intros. apply keeps_bind; [apply keeps_commit|]. intros. apply keeps_ret.
Qed.

End invariant.


(** ** What maintenance can only shrink *)

Section shrink.
Context (opts : SharedOptions) (arrange : list string → list string).
Context {X : Type} (g : tables → gmap string X).
Context (g_blob : ∀ d t, g (deleteBlob d t) ⊆ g t) (g_variants : ∀ P t, g (deleteVariants P t) ⊆ g t).
Context (g_reservation : ∀ id t, g (deleteReservation id t) ⊆ g t) (g_untracked : ∀ n t, g (setUntracked n t) = g t).
Context (g_reserve : ∀ id r t, r_candidate r = None → g (putReservation id r t) ⊆ g t).
Context (g_touch : ∀ k v now t, variants t !! k = Some v →
  g (putVariant k (mkVariant (v_digest v) (v_type v) (v_priority v) (v_expires v) now (v_body v)) t) ⊆ g t).
Context (φ : string → X → Prop).

(** All that the durable tables and the working copy show satisfies [φ]. *)
Definition below (s : St) : Prop := map_Forall φ (g (tx s)) ∧ map_Forall φ (g (db s)).
#[export] Instance below_stable : Stable below.
Proof. intros s s' (Ed & Et & _). unfold below. by rewrite Ed, Et. Qed.

Lemma forall_sub (M M' : gmap string X) : M' ⊆ M → map_Forall φ M → map_Forall φ M'.
Proof. intros Hs HM k x E. apply HM. by eapply lookup_weaken. Qed.

Notation inv c := (triple below c (λ _, below) below).

Lemma below_write f : (∀ now t, map_Forall φ (g t) → map_Forall φ (g (f now t))) → inv (exec f).
Proof. intros Hf. apply (inv_change _). intros t s [Ht Hd]. split; [|done]. by apply Hf. Qed.
Lemma below_exec f : (∀ now t, g (f now t) ⊆ g t) → inv (exec f).
Proof. intros Hf. apply below_write. intros now t. by apply forall_sub. Qed.
Lemma below_files f : inv (change (λ t s, set_fs s (f t s))).
Proof. by apply (inv_change _). Qed.
Lemma below_commit : inv commit.
Proof. apply (inv_change _). intros t s [Ht Hd]. by split. Qed.
Lemma below_flags f : (∀ s, tx (f s) = tx s ∧ db (f s) = db s) → inv (modify f).
Proof. intros Hf s [Ht Hd]. cbn. unfold below. destruct (Hf s) as [-> ->]. done. Qed.
Lemma below_transaction {A} (c : M A) : inv c → inv (transaction c).
Proof.
  intros Hc. apply (inv_bind _); [apply (inv_change _); intros t s [Ht Hd]; by split|]. intros [].
  assert (Hrb : inv rollback) by (intros s [Ht Hd]; by split).
  by apply (triple_deferred _ _ _ (λ _, below) (λ _, below) below below).
Qed.

Lemma below_removeBlob d : inv (removeBlob d).
Proof.
  unfold removeBlob. case_match; [by apply inv_fail|]. apply (inv_bind _); [apply below_files|]. intros [].
  apply below_exec. auto.
Qed.
Lemma below_removeAll l : inv (removeAll l).
Proof. induction l as [|d l IH]; [by apply inv_ret|]. apply (inv_bind _); [apply below_removeBlob|done]. Qed.

Lemma below_releaseReservation id : inv (releaseReservation id).
Proof.
  unfold releaseReservation. apply (inv_bind _); [apply below_files|]. intros [].
  apply (inv_bind _); [apply (inv_query _)|]. intros [r|]; [|by apply inv_ret].
  apply (inv_bind _); [|intros; apply below_exec; auto].
  destruct (r_candidate r); [|by apply inv_ret]. case_match; [by apply inv_fail|].
  apply (inv_bind _); [apply (inv_query _)|]. intros []; [by apply inv_ret|apply below_files].
Qed.
Lemma below_releaseAll ids : inv (releaseAll ids).
Proof.
  induction ids as [|id l IH]; [by apply inv_ret|]. cbn [releaseAll]. case_match; [by apply inv_fail|].
  apply (inv_bind _); [apply below_releaseReservation|done].
Qed.
Lemma below_cleanExpired : inv (cleanExpired arrange).
Proof. apply (inv_bind _); [apply (inv_query _)|]. apply below_releaseAll. Qed.
Lemma below_prune : inv (pruneExpiredBatch arrange).
Proof. apply (inv_bind _); [apply below_exec; auto|]. intros. apply (inv_query _). Qed.

Lemma below_removeUnreferenced : inv (removeUnreferenced arrange).
Proof.
  assert (Hl : ∀ n, inv (removeUnreferenced_loop arrange n)).
  { induction n as [|n IH]; [by apply inv_fail|]. apply (inv_bind _); [apply (inv_query _)|]. intros l.
    apply (inv_bind _); [apply below_removeAll|]. intros []. case_match; [by apply inv_ret|done]. }
  intros s Hs. by apply Hl.
Qed.

Lemma below_makeRoom p n pn : inv (makeRoom opts arrange p n pn).
Proof.
  unfold makeRoom. apply (inv_bind _); [apply (inv_stats opts _)|]. intros st. cbv zeta. case_match; [by apply inv_ret|].
  apply (inv_bind _); [apply (inv_query _)|]. intros l. apply (inv_evict_loop opts _). intros c _. apply below_removeBlob.
Qed.

Lemma below_walk f l total : (∀ n total, inv (f n total)) → inv (walk f l total).
Proof.
  intros Hf. revert total. induction l as [|n l IH]; intros total; [by apply inv_ret|]. apply (inv_bind _); [apply Hf|done].
Qed.
Lemma below_walk_file k size rm total : inv k → inv rm → inv (walk_file k size rm total).
Proof.
  intros Hk Hr. apply (inv_bind _); [done|]. intros []; [by apply inv_ret|]. apply (inv_bind _); [by apply (inv_attempt _)|].
  intros []; by apply inv_ret.
Qed.
Lemma below_walk_all : inv (walk_all arrange).
Proof.
  assert (Hr : ∀ b : bool, inv (ret b)) by (intros; by apply inv_ret).
  assert (Hq : ∀ f : St → bool, inv (query f)) by (intros; apply (inv_query _)).
  unfold walk_all. do 2 (apply (inv_bind _); [apply (inv_query _)|]; intros ?).
  repeat (apply (inv_bind _); [apply below_walk; intros; apply (inv_bind _); [apply (inv_query _)|]; intros _;
    apply below_walk_file|]; [..|intros ?]); try apply below_files; auto; [|by apply inv_ret].
  repeat case_match; auto.
Qed.

Lemma below_reconcile : inv (reconcile arrange).
Proof.
  assert (Hd : ∀ l, inv (dropMissing l)).
  { induction l as [|d l IH]; [by apply inv_ret|]. apply (inv_bind _); [apply (inv_query _)|]. intros [];
      (apply (inv_bind _); [|done]); [by apply inv_ret|apply below_exec; auto]. }
  assert (Hl : ∀ n c, inv (reconcile_loop arrange n c)).
  { induction n as [|n IH]; intros c; [by apply inv_fail|]. apply (inv_bind _); [apply (inv_query _)|]. intros l.
    apply (inv_bind _); [apply Hd|]. intros []. case_match; [by apply inv_ret|done]. }
  intros s Hs. by apply Hl.
Qed.

Lemma below_recover : inv (recover arrange).
Proof.
  apply (inv_bind _); [by apply below_flags|]. intros []. apply below_transaction.
  apply (inv_bind _); [apply below_cleanExpired|]. intros []. apply (inv_bind _); [apply below_exec; auto|]. intros [].
  apply (inv_bind _); [apply below_removeUnreferenced|]. intros []. apply (inv_bind _); [apply below_walk_all|]. intros n.
  apply (inv_bind _); [apply below_reconcile|]. intros [].
  apply (inv_bind _); [apply below_exec; intros; by rewrite g_untracked|]. intros [].
  apply (inv_bind _); [apply below_commit|]. intros []. by apply below_flags.
Qed.
Lemma below_ensure : inv (ensure arrange).
Proof. intros s Hs. unfold ensure. destruct (ready s); [done|]. by apply below_recover. Qed.

Lemma below_release id : inv (release id).
Proof. apply below_transaction, (inv_bind _); [apply below_releaseReservation|]. intros. apply below_commit. Qed.

Lemma below_Sweep : inv (sweep opts arrange).
Proof.
  apply (inv_bind _); [|intros; by apply inv_ret]. apply (inv_attempt _), (inv_bind _); [apply below_ensure|]. intros [].
  apply below_transaction. apply (inv_bind _); [apply below_cleanExpired|]. intros [].
  apply (inv_bind _); [apply below_prune|]. intros pend. apply (inv_bind _); [apply below_removeUnreferenced|]. intros [].
  apply (inv_bind _); [apply (inv_stats opts _)|]. intros st. apply (inv_bind _).
  { case_match; [|by apply inv_ret]. apply (inv_bind _); [apply (inv_attempt _), below_makeRoom|]. intros. by apply inv_ret. }
  intros []. apply (inv_bind _); [apply (inv_stats opts _)|]. intros st'.
  apply (inv_bind _); [apply (inv_attempt _), below_commit|].
  intros [[]|e]; (apply (inv_bind _); [by apply below_flags|]); intros; [by apply inv_ret|by apply inv_fail].
Qed.

Lemma below_EvictLowPriority : inv (EvictLowPriority opts arrange).
Proof.
  apply (inv_bind _); [apply below_ensure|]. intros []. apply below_transaction.
  apply (inv_bind _); [apply (inv_stats opts _)|]. intros st. apply (inv_bind _); [apply (inv_query _)|]. intros l.
  apply (inv_bind _); [apply below_removeAll|]. intros []. apply (inv_bind _); [apply (inv_stats opts _)|]. intros st'.
  apply (inv_bind _); [apply below_commit|]. intros. by apply inv_ret.
Qed.

Lemma below_Stats : inv (Stats_ opts).
Proof.
  intros s Hs. unfold Stats_. destruct (ready s); [|done]. revert s Hs. apply below_transaction.
  apply (inv_bind _); [apply (inv_stats opts _)|]. intros. apply (inv_bind _); [apply below_commit|]. intros. by apply inv_ret.
Qed.

Lemma below_admit id p : inv (admission opts arrange id p).
Proof.
  apply (inv_bind _); [apply below_cleanExpired|]. intros []. apply (inv_bind _); [apply below_prune|]. intros pend.
  apply (inv_bind _); [by apply below_flags|]. intros []. apply (inv_bind _); [apply (inv_stats opts _)|]. intros st.
  case_match; [by apply inv_fail|]. apply (inv_bind _); [apply (inv_attempt _), below_makeRoom|].
  intros [[]|e].
  - apply (inv_bind _); [apply (inv_query _)|]. intros []. apply (inv_bind _); [apply (inv_query _)|].
    intros []; [by apply inv_fail|]. apply (inv_bind _); [apply below_exec; auto|]. intros [].
    apply (inv_bind _); [apply below_commit|]. intros []. case_match; [by apply below_flags|by apply inv_ret].
  - destruct e; try (by apply inv_fail). apply (inv_bind _); [apply below_commit|]. intros. by apply inv_fail.
Qed.

Lemma below_Reserve key p id : inv (Reserve opts arrange key p id).
Proof.
  unfold Reserve. do 2 (case_match; [by apply inv_fail|]). apply (inv_bind _); [apply below_ensure|]. intros [].
  apply (inv_bind _); [apply below_transaction, below_admit|]. intros. by apply inv_ret.
Qed.

Lemma below_readBlob d : inv (readBlob d).
Proof. eapply triple_conseq; [| | |apply (triple_readBlob below)]; cbn; [done|by intros ? s [? _]|done]. Qed.

Lemma below_GetContext key : inv (GetContext arrange key).
Proof.
  apply (inv_bind _); [|intros; by apply inv_ret]. apply (inv_attempt _). case_match; [by apply inv_fail|].
  apply (inv_bind _); [apply below_ensure|]. intros []. apply below_transaction. unfold lookup.
  apply (inv_bind _); [apply (inv_query _)|]. intros [[v n]|]; [|by apply inv_fail]. case_match; [by apply inv_fail|].
  apply (inv_bind _); [apply below_readBlob|]. intros [b|]; [|by apply inv_fail]. do 2 (case_match; [by apply inv_fail|]).
  apply (inv_bind below (λ s, (s, Good _))); [by intros s Hs|]. intros since.
  apply (inv_bind _); [|intros; apply (inv_bind _); [apply below_commit|intros; by apply inv_ret]].
  case_match; [|by apply inv_ret]. apply below_exec. intros now t. destruct (variants t !! key) eqn:E; [by apply g_touch|done].
Qed.

Lemma below_writeReservedTemp id b : inv (writeReservedTemp id b).
Proof. by apply (triple_writeReservedTemp _). Qed.

(** Publication, when it does not add to what [g] shows. *)
Lemma below_publish h d ct body :
  (∀ n t, g (putBlob d n t) ⊆ g t) →
  (∀ now t, map_Forall φ (g t) → map_Forall φ (g (upsertVariant now (h_key h) d ct body (h_priority h) t))) →
  inv (publish opts h d ct body).
Proof.
  intros Hb Hv. apply below_transaction. apply (inv_bind _); [apply (inv_attempt _), (inv_query _)|].
  intros [[row|]|e]; [|by apply inv_fail..]. case_match; [by apply inv_fail|].
  apply (inv_bind _); [apply (inv_freeBytes _)|]. intros free. case_match; [by apply inv_fail|].
  apply (inv_bind _); [apply below_writeReservedTemp|]. intros [].
  apply (triple_deferred _ _ _ (λ _, below) (λ _, below) below below); [|intros; apply below_files..|done|done].
  apply (inv_bind _); [apply (inv_query _)|]. intros prev. apply (inv_bind _); [apply (inv_query _)|]. intros [].
  apply (inv_bind _); [apply below_readBlob|]. intros ex. apply (inv_bind _).
  { assert (inv (removeBody d >>> renameTmp (h_id h) d)).
    { apply (inv_bind _); [apply below_files|]. intros []. apply (inv_change _). intros t s Hs. by case_match. }
    destruct ex; [|done]. case_match; [by apply inv_ret|done]. }
  intros []. apply (inv_bind _); [apply below_exec; auto|]. intros [].
  apply (inv_bind _); [by apply below_write|]. intros []. apply (inv_bind _); [apply below_exec; auto|]. intros [].
  apply (inv_bind _); [|intros; apply below_commit]. destruct prev as [v|]; [|by apply inv_ret].
  case_match; [by apply inv_ret|]. apply (inv_bind _); [apply (inv_query _)|].
  intros []; [by apply inv_ret|apply below_removeBlob].
Qed.

(** Staging, when it does not add to what [g] shows. *)
Lemma below_stage id d :
  (∀ t, map_Forall φ (g t) → map_Forall φ (g (stage_candidate id d t))) → inv (stage id d).
Proof.
  intros Hs. apply below_transaction. apply (inv_bind _); [apply (inv_attempt _), (inv_query _)|].
  intros [[row|]|e]; [|by apply inv_fail..]. apply (inv_bind _); [by apply below_write|]. intros. apply below_commit.
Qed.

End shrink.

End ArtworkLogic.
