(* ===== verification/ArtworkSystem.v ===== *)
(** * The artwork store in use

    Any number of requests reserve, publish and look up images while
    maintenance runs and the process may stop at any step; the transactions
    of different calls interleave, so a [Commit] is three separate steps
    (staging, publication, release).  The theorems hold of every reachable
    state. *)

From S2P Require Import Prelude GoStrings GoMime GoCrypto MapSums Artwork ArtworkLogic.

Module ArtworkSystem.

Import Artwork ArtworkLogic.

(** Where a caller is with its reservation. *)
Inductive phase :=
  | Open
  | Committing (contentType body : string)
  | Staged (contentType body : string)
  | Failing
  | Closed.

Record sys := mkSys { store : St; handles : gmap string (Reservation * phase) }.

(** What a step shows to the callers. *)
Inductive label :=
  | Quiet
  | Looked (key : string) (r : option (string * string))
  | Published (key contentType body : string) (ok : bool).

Definition good {A} (r : res A) : bool := match r with Good _ => true | Fail _ => false end.

(** No transaction is open between steps. *)
Definition settle (s : St) : St := set_tx s (db s).
(** What the environment will decide next is open. *)
Definition with_env (s : St) (e : list tick) : St :=
  mkSt (db s) (tx s) (fs s) (clock s) (started s) (ready s) (expiredPending s) (wake s) e.
(** A process that starts again. *)
Definition restarted (s : St) : St :=
  mkSt (db s) (db s) (fs s) (clock s) (started s) false false false (env s).

Definition early (p : phase) : bool := match p with Open | Committing _ _ => true | _ => false end.

Section system.
Context (opts : SharedOptions) (arrange : list string → list string).

(** A maintenance operation, its result dropped. *)
Inductive maintenance : (St → St) → Prop :=
  | m_sweep : maintenance (λ s, (sweep opts arrange s).1)
  | m_evict : maintenance (λ s, (EvictLowPriority opts arrange s).1)
  | m_stats : maintenance (λ s, (Stats_ opts s).1)
  | m_recover : maintenance (λ s, (recover arrange s).1).

(** Reservation ids are random: a new one is not in use.  Admission runs on
    a recovered store ([ensure] recovers it first, which is a step of its
    own) whose untracked bytes are fewer than 2^62. *)
Inductive step : sys → label → sys → Prop :=
  | step_env s hs e : step (mkSys s hs) Quiet (mkSys (with_env s e) hs)
  | step_reserve s hs key p id s' r :
      hs !! id = None → reservations (db s) !! id = None → ready s = true → tracked (db s) → Reserve opts arrange key p id s = (s', r) →
      step (mkSys s hs) Quiet
        (mkSys (settle s') match r with Good h => <[id := (h, Open)]> hs | Fail _ => hs end)
  | step_begin s hs id h ct body :
      hs !! id = Some (h, Open) →
      step (mkSys s hs) Quiet
        (mkSys s (<[id := (h, if valid_image ct body then Committing ct body else Failing)]> hs))
  | step_stage s hs id h ct body s' r :
      hs !! id = Some (h, Committing ct body) → stage id (sha256hex body) s = (s', r) →
      step (mkSys s hs) Quiet
        (mkSys (settle s') (<[id := (h, if good r then Staged ct body else Failing)]> hs))
  | step_publish s hs id h ct body s' r :
      hs !! id = Some (h, Staged ct body) → publish opts h (sha256hex body) ct body s = (s', r) →
      step (mkSys s hs) (Published (h_key h) ct body (good r))
        (mkSys (settle s') (<[id := (h, if good r then Closed else Failing)]> hs))
  | step_cancel s hs id h p s' r :
      hs !! id = Some (h, p) → p = Open ∨ p = Failing → release id s = (s', r) →
      step (mkSys s hs) Quiet (mkSys (settle s') (<[id := (h, Closed)]> hs))
  | step_get s hs key s' r :
      GetContext arrange key s = (s', r) →
      step (mkSys s hs) (Looked key match r with Good x => x | Fail _ => None end) (mkSys (settle s') hs)
  | step_maintenance s hs f :
      maintenance f → step (mkSys s hs) Quiet (mkSys (settle (f s)) hs)
  | step_crash s hs hs' : hs' ⊆ hs → step (mkSys s hs) Quiet (mkSys (restarted s) hs').

(** A new namespace: empty tables, no blobs, and whatever else is in the
    directory. *)
Definition empty_tables : tables := mkTables ∅ ∅ ∅ 0.
Definition fresh (s : St) : Prop := db s = empty_tables ∧ tx s = db s ∧ bodies (fs s) = ∅.

Inductive reached : sys → Prop :=
  | reached_fresh s : fresh s → reached (mkSys s ∅)
  | reached_step y l y' : reached y → step y l y' → reached y'.

(** ** What the tables show *)

(** The digests that reservations announce. *)
Definition claims (t : tables) : gmap string string := omap r_candidate (reservations t).
(** The images that the variants stand for. *)
Definition images (t : tables) : gmap string (string * string) :=
  (λ v, (v_type v, v_body v)) <$> variants t.

Lemma claims_blob d t : claims (deleteBlob d t) ⊆ claims t.
Proof. done. Qed.
Lemma claims_variants P t : claims (deleteVariants P t) ⊆ claims t.
Proof. done. Qed.
Lemma claims_reservation id t : claims (deleteReservation id t) ⊆ claims t.
Proof.
  apply map_subseteq_spec. unfold claims. cbn. intros k x E. rewrite lookup_omap in *.
  destruct (decide (id = k)) as [->|]; [by rewrite lookup_delete_eq in E|by rewrite lookup_delete_ne in E].
Qed.
Lemma claims_untracked n t : claims (setUntracked n t) = claims t.
Proof. done. Qed.
Lemma claims_reserve id r t : r_candidate r = None → claims (putReservation id r t) ⊆ claims t.
Proof.
  intros Hr. unfold claims. cbn. apply map_subseteq_spec. intros k x E. rewrite lookup_omap in *.
  destruct (decide (id = k)) as [->|]; [|by rewrite lookup_insert_ne in E].
  rewrite lookup_insert_eq in E. cbn in E. congruence.
Qed.
Lemma claims_touch k v now t : variants t !! k = Some v →
  claims (putVariant k (mkVariant (v_digest v) (v_type v) (v_priority v) (v_expires v) now (v_body v)) t) ⊆ claims t.
Proof. done. Qed.

Lemma images_filter P `{∀ x, Decision (P x)} (m : gmap string variant) :
  (λ v, (v_type v, v_body v)) <$> filter P m ⊆ (λ v, (v_type v, v_body v)) <$> m.
Proof. apply map_fmap_mono, map_filter_subseteq. Qed.
Lemma images_blob d t : images (deleteBlob d t) ⊆ images t.
Proof. apply images_filter. Qed.
Lemma images_variants P t : images (deleteVariants P t) ⊆ images t.
Proof. apply images_filter. Qed.
Lemma images_reservation id t : images (deleteReservation id t) ⊆ images t.
Proof. done. Qed.
Lemma images_untracked n t : images (setUntracked n t) = images t.
Proof. done. Qed.
Lemma images_reserve id r t : r_candidate r = None → images (putReservation id r t) ⊆ images t.
Proof. done. Qed.
Lemma images_touch k v now t : variants t !! k = Some v →
  images (putVariant k (mkVariant (v_digest v) (v_type v) (v_priority v) (v_expires v) now (v_body v)) t) ⊆ images t.
Proof.
  intros Hk. unfold images. cbn. rewrite fmap_insert. cbn. rewrite insert_id; [done|]. by rewrite lookup_fmap, Hk.
Qed.


(** ** The invariant of the system *)

(** An early handle has announced nothing. *)
Definition early_ok (hs : gmap string (Reservation * phase)) (id : string) (d : string) : Prop :=
  ∀ h p, hs !! id = Some (h, p) → early p = false.

Record SI (y : sys) : Prop := mkSI {
  SI_durable : D opts (store y);
  SI_settled : tx (store y) = db (store y);
  SI_claims : map_Forall (early_ok (handles y)) (claims (db (store y)));
  SI_bodies : ∀ id h p, handles y !! id = Some (h, p) → h_id h = id ∧
    match p with
    | Committing ct body | Staged ct body => 0 < slen body <= MaxBodyBytes
    | _ => True
    end;
}.

Lemma valid_image_size ct body : valid_image ct body = true → 0 < slen body <= MaxBodyBytes.
Proof. unfold valid_image. destruct (ParseMediaType ct); [|done]. intros E. zbool. lia. Qed.

Definition handle_ok (id : string) (x : Reservation * phase) : Prop :=
  h_id x.1 = id ∧
  match x.2 with Committing ct body | Staged ct body => 0 < slen body <= MaxBodyBytes | _ => True end.

(** One operation on the store, from what its triples say. *)
Lemma SI_op {A} (c : M A) s hs hs' s' (r : res A) (φ : string → string → Prop) :
  SI (mkSys s hs) → c s = (s', r) → D opts s' →
  map_Forall φ (claims (db s)) → triple (below claims φ) c (λ _, below claims φ) (below claims φ) →
  (∀ id d, φ id d → early_ok hs' id d) → map_Forall handle_ok hs' →
  SI (mkSys (settle s') hs').
Proof.
  intros [HD Hs Hc Hb] E HD' Hφ Hcl Hearly Hb'. cbn [store handles] in *.
  split; cbn [store handles settle]; [done|done| |by intros id h p Ep; apply (Hb' id (h, p))].
  specialize (Hcl s). rewrite E in Hcl.
  assert (Hbelow : below claims φ s) by (unfold below; by rewrite Hs).
  specialize (Hcl Hbelow). intros id d Ed. apply Hearly. destruct r; by apply Hcl.
Qed.

Lemma SI_handles y : SI y → map_Forall handle_ok (handles y).
Proof. intros HS id [h p] E. by apply (SI_bodies _ HS). Qed.

Lemma early_later hs id h p : early p = false → ∀ i d, early_ok hs i d → early_ok (<[id := (h, p)]> hs) i d.
Proof.
  intros Hp i d Hi h' p' E. apply lookup_insert_Some in E as [[<- [= <- <-]]|[_ E]]; [done|]. by eapply Hi.
Qed.

Lemma durable_result {A} (c : M A) (P : St → Prop) s s' (r : res A) :
  triple P c (λ _, D opts) (D opts) → P s → c s = (s', r) → D opts s'.
Proof. intros Hc HP E. specialize (Hc s HP). rewrite E in Hc. by destruct r. Qed.

Lemma Reserve_safe key p id s :
  opts_ok opts → tracked (db s) → ready s = true → D opts s → D opts (Reserve opts arrange key p id s).1.
Proof.
  intros Ho Ht Hr HD. unfold Reserve. case_match; [done|]. case_match; [done|]. unfold bindM, ensure. rewrite Hr.
  assert (Htx : triple (λ s0, D opts s0 ∧ untracked (db s0) = untracked (db s)) (transaction (admission opts arrange id p))
                 (λ _, D opts) (D opts)).
  { apply (transaction_from opts (λ t, untracked t = untracked (db s))).
    eapply triple_conseq; [| | |apply (admit_safe opts arrange id p (untracked (db s))); [done|apply Ht]]; cbn; [|done..].
    intros s0 (HW & Et & Eu). split; [done|]. unfold tx_is. by rewrite Et. }
  specialize (Htx s (conj HD eq_refl)). by destruct (transaction _ s) as [s' [[]|e]].
Qed.

Lemma Reserve_handle key p id s s' h : Reserve opts arrange key p id s = (s', Good h) → h = mkHandle id key p false.
Proof.
  unfold Reserve. case_match; [done|]. case_match; [done|]. unfold bindM.
  destruct (ensure arrange s) as [s1 [[]|e]]; [|done]. destruct (transaction _ s1) as [s2 [[]|e]]; [|done].
  by intros [= _ <-].
Qed.

Lemma maintenance_safe f s : maintenance f → D opts s → D opts (f s).
Proof.
  intros Hf HD. destruct Hf.
  - pose proof (Sweep_safe opts arrange s HD). by destruct (sweep opts arrange s) as [s' []].
  - pose proof (EvictLowPriority_safe opts arrange s HD). by destruct (EvictLowPriority opts arrange s) as [s' []].
  - pose proof (Stats_safe opts s HD). by destruct (Stats_ opts s) as [s' []].
  - pose proof (recover_safe opts arrange s HD). by destruct (recover arrange s) as [s' []].
Qed.

Section maintained.
Context {X : Type} (g : tables → gmap string X).
Context (g_blob : ∀ d t, g (deleteBlob d t) ⊆ g t) (g_variants : ∀ P t, g (deleteVariants P t) ⊆ g t).
Context (g_reservation : ∀ id t, g (deleteReservation id t) ⊆ g t) (g_untracked : ∀ n t, g (setUntracked n t) = g t).

Lemma maintenance_below f φ s : maintenance f → below g φ s → below g φ (f s).
Proof.
  intros Hf Hs. destruct Hf.
  - pose proof (below_Sweep opts arrange g g_blob g_variants g_reservation g_untracked φ s Hs).
    by destruct (sweep opts arrange s) as [s' []].
  - pose proof (below_EvictLowPriority opts arrange g g_blob g_variants g_reservation g_untracked φ s Hs).
    by destruct (EvictLowPriority opts arrange s) as [s' []].
  - pose proof (below_Stats opts g φ s Hs). by destruct (Stats_ opts s) as [s' []].
  - pose proof (below_recover arrange g g_blob g_variants g_reservation g_untracked φ s Hs).
    by destruct (recover arrange s) as [s' []].
Qed.
End maintained.


#[local] Hint Resolve claims_blob claims_variants claims_reservation claims_untracked claims_reserve claims_touch : core.

Lemma SI_step y l y' : opts_ok opts → SI y → step y l y' → SI y'.
Proof.
  intros Ho HS Hstep.
  destruct Hstep as [s hs e|s hs key p id s' r Hid Hrow Hr Ht E|s hs id h ct body Hh|s hs id h ct body s' r Hh E
                    |s hs id h ct body s' r Hh E|s hs id h p s' r Hh Hp E|s hs key s' r E|s hs f Hf|s hs hs' Hsub];
    pose proof (SI_durable _ HS) as HD; pose proof (SI_claims _ HS) as Hc; pose proof (SI_handles _ HS) as Hb;
    pose proof (SI_settled _ HS) as Htx; cbn [store handles] in *.
  - destruct HS. by split.
  - apply (SI_op _ _ hs _ _ _ (λ i d, early_ok hs i d ∧ i ≠ id) HS E).
    + pose proof (Reserve_safe key p id s Ho Ht Hr HD) as H. by rewrite E in H.
    + intros i d Ed. split; [by apply Hc|]. intros ->. unfold claims in Ed. by rewrite lookup_omap, Hrow in Ed.
    + apply below_Reserve; auto.
    + intros i d [Hi Hne]. destruct r as [h|e]; [|done]. intros h' p' Ep. rewrite lookup_insert_ne in Ep by done. by eapply Hi.
    + destruct r as [h|e]; [|done]. apply Reserve_handle in E as ->. by apply map_Forall_insert_2.
  - split; cbn [store handles]; [done|done| |].
    + intros i d Ed h' p' Ep. apply lookup_insert_Some in Ep as [[<- [= <- <-]]|[_ Ep]]; [|by eapply Hc].
      specialize (Hc _ _ Ed _ _ Hh). done.
    + intros i h' p' Ep. apply lookup_insert_Some in Ep as [[<- [= <- <-]]|[_ Ep]]; [|by apply (Hb i (h', p'))].
      split; [by apply (Hb id (h, Open))|]. destruct (valid_image ct body) eqn:Ev; [|done]. by eapply valid_image_size.
  - assert (Hlate : early (if good r then Staged ct body else Failing) = false) by (by destruct (good r)).
    destruct (Hb _ _ Hh) as [Hid Hsz].
    apply (SI_op _ _ hs _ _ _ (early_ok (<[id := (h, if good r then Staged ct body else Failing)]> hs)) HS E).
    + eapply durable_result; [apply stage_safe| |done]. split; [done|]. intros r0 c Er Ec.
      assert (Ed : claims (db s) !! id = Some c) by (unfold claims; by rewrite lookup_omap, Er).
      by specialize (Hc _ _ Ed _ _ Hh).
    + intros i d Ed. apply early_later; [done|]. by apply Hc.
    + apply below_stage. intros t Hm i d Ed. destruct (decide (i = id)) as [->|Hne].
      * intros h' p' Ep. rewrite lookup_insert_eq in Ep. by injection Ep as <- <-.
      * apply Hm. unfold claims, stage_candidate in *. rewrite lookup_omap in *.
        destruct (reservations t !! id); [|done]. cbn in Ed. by rewrite lookup_insert_ne in Ed.
    + done.
    + apply map_Forall_insert_2; [|done]. split; [done|]. by destruct (good r).
  - assert (Hlate : early (if good r then Closed else Failing) = false) by (by destruct (good r)).
    destruct (Hb _ _ Hh) as [Hid Hsz]. apply (SI_op _ _ hs _ _ _ (early_ok hs) HS E).
    + exact (durable_result _ _ _ _ _ (publish_safe opts h _ ct body eq_refl Hsz) HD E).
    + done.
    + apply below_publish; auto.
    + by apply early_later.
    + apply map_Forall_insert_2; [|done]. split; [done|]. by destruct (good r).
  - destruct (Hb _ _ Hh) as [Hid Hsz]. apply (SI_op _ _ hs _ _ _ (early_ok hs) HS E).
    + eapply durable_result; [apply release_safe|done|done].
    + done.
    + apply below_release; auto.
    + by apply early_later.
    + by apply map_Forall_insert_2.
  - apply (SI_op _ _ hs _ _ _ (early_ok hs) HS E); [|done| |done|done].
    + eapply durable_result; [apply GetContext_safe|done|done].
    + apply below_GetContext; auto.
  - split; cbn [store handles settle set_tx db tx]; [exact (maintenance_safe f s Hf HD)|done| |by intros i h p Ep; apply (Hb i (h, p))].
    assert (Hbe : below claims (early_ok hs) s) by (unfold below; by rewrite Htx).
    by apply (maintenance_below claims claims_blob claims_variants claims_reservation claims_untracked f _ s Hf) in Hbe as [_ ?].
  - split; cbn [store handles restarted db tx]; [done|done| |].
    + intros i d Ed h p Ep. apply (Hc _ _ Ed h). by eapply lookup_weaken.
    + intros i h p Ep. apply (Hb i (h, p)). by eapply lookup_weaken.
Qed.

Lemma SI_fresh s : 0 < MaxBytes opts → 0 <= MaxReservations opts → fresh s → SI (mkSys s ∅).
Proof.
  intros Hm Hr (Ed & Et & Ef). split; cbn [store handles]; [|done| |done].
  - unfold D. rewrite Ed. unfold empty_tables.
    split; cbn [blobs variants reservations untracked]; try (by intros ?? E; rewrite lookup_empty in E).
    + unfold used, payload, metadata, reserved. cbn [blobs variants reservations]. rewrite !msum_empty, !map_size_empty. lia.
    + rewrite map_size_empty. lia.
    + intros d b E. by rewrite Ef, lookup_empty in E.
  - intros i d E. unfold claims in E. by rewrite Ed, lookup_omap in E.
Qed.

Lemma reached_SI y : opts_ok opts → 0 <= MaxReservations opts → reached y → SI y.
Proof.
  intros Ho Hm Hr. induction Hr as [s Hf|y l y' Hr IH Hs]; [apply SI_fresh; [apply Ho|done|done]|by eapply SI_step].
Qed.

(** ** Theorems *)

(** C19: The budget: whatever reservations, publications, evictions, failures
    and crashes happened, the index never accounts for more than [MaxBytes]
    (images, their rows, and a whole transfer for every open reservation)
    and holds no more than [MaxReservations] reservations. *)
Theorem budget_is_kept y :
  opts_ok opts → 0 <= MaxReservations opts → reached y →
  payload (db (store y)) + metadata (db (store y)) + reserved (db (store y)) <= MaxBytes opts ∧
  Z.of_nat (size (reservations (db (store y)))) <= MaxReservations opts.
Proof.
  intros Ho Hm Hr. destruct (SI_durable _ (reached_SI y Ho Hm Hr)) as [Hu Hc _ _ _ _]. unfold used in Hu. lia.
Qed.

(** C20: No orphans: every blob file is either in the index or the announced
    candidate of a reservation that still pays for it, also after a crash
    between the rename and the commit, or after a failed clean-up. *)
Theorem every_blob_has_an_owner y d b :
  opts_ok opts → 0 <= MaxReservations opts → reached y → bodies (fs (store y)) !! d = Some b →
  is_Some (blobs (db (store y)) !! d) ∨
  ∃ id r, reservations (db (store y)) !! id = Some r ∧ r_candidate r = Some d ∧ r_bytes r = reservationBytes.
Proof.
  intros Ho Hm Hr Hb. pose proof (SI_durable _ (reached_SI y Ho Hm Hr)) as HD.
  destruct (J_owned _ _ _ _ HD _ _ Hb) as [?|(id & r & Hid & Hc)]; [by left|]. right. exists id, r.
  repeat (split; [done|]). by eapply J_bytes.
Qed.


(** ** The store as a cache that may forget *)

(** The abstract cache: entries may be lost at any step; a lookup misses or
    returns the published image (up to a SHA-256 collision); a publication
    that reports success is there; one that reports an error may be. *)
Inductive cache_step (m : gmap string (string * string)) : label → gmap string (string * string) → Prop :=
  | cache_quiet m' : m' ⊆ m → cache_step m Quiet m'
  | cache_looked m' key r :
      m' ⊆ m →
      (∀ ct b, r = Some (ct, b) → ∃ body, m !! key = Some (ct, body) ∧ sha256hex b = sha256hex body) →
      cache_step m (Looked key r) m'
  | cache_published m' key ct body :
      m' ⊆ <[key := (ct, body)]> m → m' !! key = Some (ct, body) → cache_step m (Published key ct body true) m'
  | cache_refused m' key ct body :
      m' ⊆ m ∨ m' ⊆ <[key := (ct, body)]> m → cache_step m (Published key ct body false) m'.

Definition shows (m : gmap string (string * string)) (k : string) (x : string * string) : Prop := m !! k = Some x.

Lemma shows_sub m m' : map_Forall (shows m) m' → m' ⊆ m.
Proof. intros H. apply map_subseteq_spec. intros k x E. by apply H. Qed.

(** What a lookup returns was published under the key. *)
Definition published (φ : string → string * string → Prop) (key : string) (x : string * string) : Prop :=
  ∃ body, φ key (x.1, body) ∧ sha256hex x.2 = sha256hex body.

Lemma lookup_published φ key :
  triple (λ s, W opts s ∧ below images φ s) (lookup key) (λ x _, published φ key x) (λ _, True).
Proof.
  unfold lookup.
  apply (triple_bind _ _ _ (λ row _, ∀ v n, row = Some (v, n) → φ key (v_type v, v_body v) ∧ sha256hex (v_body v) = v_digest v)).
  { intros s [[HD HJ] [Ht _]]. unfold query. pose proof (next_same s) as (_ & Etx & _). destruct (next s) as [s1 t].
    cbn in Etx. destruct (t_fate t); try done. intros v n E. destruct (variants (tx s1) !! key) as [v0|] eqn:Ev; [|done].
    destruct (live _ v0); [|done]. destruct (blobs (tx s1) !! v_digest v0) as [n0|]; [|done]. injection E as -> ->.
    rewrite Etx in Ev. split; [|by eapply J_refs].
    apply Ht. unfold images. by rewrite lookup_fmap, Ev. }
  intros [[v n]|]; [|by intros s _]. case_match; [by intros s _|].
  apply (triple_bind _ _ _ (λ _ _, φ key (v_type v, v_body v) ∧ sha256hex (v_body v) = v_digest v)).
  { intros s Hs. specialize (Hs v n eq_refl). destruct (readBlob (v_digest v) s) as [s1 [b|e]]; done. }
  intros [b|]; [|by intros s _]. case_match; [by intros s _|]. destruct (sha256hex b =s v_digest v) eqn:Eb; [|by intros s _]. zbool.
  intros s [Hφ Hs]. cbn [negb]. unfold bindM. cbn.
  destruct (Minute <=? clock s - v_accessed v).
  - destruct (exec _ s) as [s1 [[]|e]]; [|done]. destruct (commit s1) as [s2 [[]|e]]; [|done].
    exists (v_body v). cbn. split; [done|congruence].
  - cbn. destruct (commit s) as [s2 [[]|e]]; [|done]. exists (v_body v). cbn. split; [done|congruence].
Qed.

Lemma GetContext_published φ key s s' r :
  D opts s → below images φ s → GetContext arrange key s = (s', Good (Some r)) → published φ key r.
Proof.
  intros HD Hb. unfold GetContext, bindM, attempt. destruct (negb (digestKey key)); [done|].
  assert (He : D opts (ensure arrange s).1 ∧ below images φ (ensure arrange s).1).
  { pose proof (ensure_safe opts arrange s HD) as H1.
    pose proof (below_ensure arrange images images_blob images_variants images_reservation images_untracked φ s Hb) as H2.
    destruct (ensure arrange s) as [s1 [[]|e]]; by split. }
  destruct (ensure arrange s) as [s1 [[]|e]]; [|by destruct e]. cbn in He. destruct He as [HD1 Hb1].
  unfold transaction, bindM, lock, change. pose proof (next_same s1) as Hn. destruct (next s1) as [s2 t].
  apply (D_stable opts _ _ Hn) in HD1. apply (below_stable images φ _ _ Hn) in Hb1.
  destruct (t_fate t); try done. unfold deferred.
  match goal with |- context [lookup key ?x] => pose proof (lookup_published φ key x) as Hl; destruct (lookup key x) as [s3 [a|e]] end;
    [|by destruct e].
  cbn. intros [= _ <-]. apply Hl. split; [by split|]. destruct Hb1 as [_ Hb1]. by split.
Qed.

(** A publication that reports success is in the durable tables. *)
Definition variant_is (d ct body : string) (key : string) (t : tables) : Prop :=
  ∃ v, variants t !! key = Some v ∧ v_digest v = d ∧ v_type v = ct ∧ v_body v = body.

Lemma publish_file_done h d ct body :
  triple (λ _, True) (publish_file h d ct body) (λ _ s, variant_is d ct body (h_key h) (db s)) (λ _, True).
Proof.
  set (T := λ _ : St, True). set (V := λ s, variant_is d ct body (h_key h) (tx s)).
  assert (HT : ∀ A (c : M A), triple T c (λ _, T) T) by (intros A c s _; by destruct (c s) as [? []]).
  assert (HV : Stable V).
  { intros s s' (_ & Et & _). unfold V. by rewrite Et. }
  unfold publish_file. do 3 (eapply (triple_bind _ _ _ (λ _, T)); [apply HT|]; intros ?).
  eapply (triple_bind _ _ _ (λ _, T)); [apply HT|]. intros [].
  eapply (triple_bind _ _ _ (λ _, T)); [apply HT|]. intros [].
  assert (HE : ∀ A (c : M A), triple V c (λ _, V) V → triple V c (λ _, V) T).
  { intros A c. by apply triple_conseq. }
  apply (triple_bind _ _ _ (λ _, V)).
  { intros s _. unfold exec, change. destruct (next s) as [s1 t]. destruct (t_fate t); try done.
    unfold V, variant_is, upsertVariant. cbn [tx set_tx putVariant variants]. rewrite lookup_insert_eq. by eexists. }
  intros []. apply (triple_bind _ _ _ (λ _, V)); [apply HE, (inv_change V); by intros t s Hs|].
  intros []. apply (triple_bind _ _ _ (λ _, V)).
  - apply HE. destruct a as [p|]; [|by apply inv_ret]. destruct (v_digest p =s d) eqn:Ed; [by apply inv_ret|].
    apply (inv_bind V); [apply (inv_query V)|]. intros []; [by apply inv_ret|].
    unfold removeBlob. case_match; [by apply inv_fail|]. apply (inv_bind V); [by apply (inv_change V)|]. intros [].
    apply (inv_change V). intros t s (v & Hv & E1 & E2 & E3). exists v. split; [|done]. cbn.
    apply map_lookup_filter_Some_2; [done|]. cbn. unfold refers. rewrite E1. rewrite String.eqb_sym. exact Ed.
  - intros []. intros s HVs. unfold commit, change. pose proof (next_same s) as (_ & Et & _). destruct (next s) as [s1 t].
    cbn in Et. destruct (t_fate t); try done. cbn. unfold V in HVs. by rewrite <- Et in HVs.
Qed.


Lemma publish_done h d ct body s s' :
  publish opts h d ct body s = (s', Good tt) → images (db s') !! h_key h = Some (ct, body).
Proof.
  intros E. set (V := λ s, variant_is d ct body (h_key h) (db s)).
  assert (HVs : Stable V) by (intros s0 s1 (Ed & _); unfold V; by rewrite Ed).
  assert (H : triple (λ _, True) (publish opts h d ct body) (λ _, V) (λ _, True)).
  { unfold publish, transaction. apply (triple_bind _ _ _ (λ _ _, True)); [intros s0 _; by destruct (lock s0) as [? []]|]. intros [].
    apply (triple_deferred _ _ _ (λ _, V) (λ _, V) (λ _, True) (λ _, True)); [|by intros a s0 Hs|by intros s0 _|done|done].
    apply (triple_bind _ _ _ (λ _ _, True)); [intros s0 _; by destruct (attempt _ s0) as [? []]|].
    intros [[row|]|e]; [|by intros s0 _..]. case_match; [by intros s0 _|].
    apply (triple_bind _ _ _ (λ _ _, True)); [intros s0 _; by destruct (freeBytes s0) as [? []]|]. intros free.
    case_match; [by intros s0 _|].
    apply (triple_bind _ _ _ (λ _ _, True)); [intros s0 _; by destruct (writeReservedTemp _ _ s0) as [? []]|]. intros [].
    apply (triple_deferred _ _ _ (λ _, V) (λ _, V) (λ _, True) (λ _, True)); [apply publish_file_done| | |done|done].
    - intros []. by apply (inv_change V).
    - intros s0 _. by destruct (removeTmp _ s0) as [? []]. }
  specialize (H s Logic.I). rewrite E in H. destruct H as (v & Hv & _ & Et & Eb).
  unfold images. rewrite lookup_fmap, Hv. cbn. by rewrite Et, Eb.
Qed.

#[local] Hint Resolve images_blob images_variants images_reservation images_untracked images_reserve images_touch : core.

Lemma images_after {A} (c : M A) s s' (r : res A) φ :
  tx s = db s → triple (below images φ) c (λ _, below images φ) (below images φ) → c s = (s', r) →
  map_Forall φ (images (db s)) → map_Forall φ (images (db s')).
Proof.
  intros Ht Hc E Hφ. assert (Hb : below images φ s) by (unfold below; by rewrite Ht). specialize (Hc s Hb).
  rewrite E in Hc. destruct r; by destruct Hc.
Qed.

Lemma images_forall t : map_Forall (shows (images t)) (images t).
Proof. by intros k x E. Qed.

Lemma step_refines y l y' :
  SI y → step y l y' → cache_step (images (db (store y))) l (images (db (store y'))).
Proof.
  intros HS Hstep.
  destruct Hstep as [s hs e|s hs key p id s' r Hid Hrow Hr Ht E|s hs id h ct body Hh|s hs id h ct body s' r Hh E
                    |s hs id h ct body s' r Hh E|s hs id h p s' r Hh Hp E|s hs key s' r E|s hs f Hf|s hs hs' Hsub];
    pose proof (SI_settled _ HS) as Htx; cbn [store handles settle set_tx restarted with_env db] in *; try (by constructor).
  - constructor. apply shows_sub. eapply images_after; [done| |done|apply images_forall]. apply below_Reserve; auto.
  - constructor. apply shows_sub. eapply images_after; [done| |done|apply images_forall]. apply below_stage.
    intros t H k x Ek. apply H. unfold stage_candidate in Ek. by destruct (reservations t !! id).
  - set (new := (ct, body)). set (m := images (db s)).
    assert (Hor : map_Forall (λ k x, m !! k = Some x ∨ k = h_key h ∧ x = new) (images (db s'))).
    { eapply images_after; [done| |done|intros k x Ek; by left]. apply below_publish; auto.
      intros now t H k x Ek. unfold images, upsertVariant in *. cbn in Ek. rewrite fmap_insert in Ek.
      apply lookup_insert_Some in Ek as [[<- <-]|[_ Ek]]; [by right|by apply H]. }
    assert (Hnew : images (db s') ⊆ <[h_key h := new]> m ∨ images (db s') ⊆ m).
    { destruct (decide (images (db s') !! h_key h = Some new)) as [E1|E1]; [left|right];
        apply map_subseteq_spec; intros k x Ek; destruct (Hor _ _ Ek) as [Hx|[-> ->]]; [|by rewrite lookup_insert_eq|done|done].
      destruct (decide (h_key h = k)) as [<-|]; [rewrite lookup_insert_eq; congruence|by rewrite lookup_insert_ne]. }
    destruct r as [[]|e]; cbn [good]; [|constructor; tauto]. apply publish_done in E. constructor; [|done].
    destruct Hnew as [?|Hsub]; [done|]. apply map_subseteq_spec. intros k x Ek.
    destruct (decide (h_key h = k)) as [<-|]; [rewrite lookup_insert_eq; congruence|].
    rewrite lookup_insert_ne by done. by eapply lookup_weaken.
  - constructor. apply shows_sub. eapply images_after; [done| |done|apply images_forall]. apply below_release; auto.
  - constructor.
    + apply shows_sub. eapply images_after; [done| |done|apply images_forall]. apply below_GetContext; auto.
    + intros ct b Er. destruct r as [x|e]; [subst x|done].
      destruct (GetContext_published (shows (images (db s))) key s s' (ct, b) (SI_durable _ HS)) as (bd & Hb & Hs); [|done|by exists bd].
      unfold below. rewrite Htx. split; apply images_forall.
  - constructor. apply shows_sub.
    assert (Hb : below images (shows (images (db s))) s) by (unfold below; rewrite Htx; split; apply images_forall).
    by apply (maintenance_below images images_blob images_variants images_reservation images_untracked f _ s Hf) in Hb as [_ ?].
Qed.

(** C21: Refinement: every step of the store is a step of a cache that may forget.  A
    lookup misses, or returns the content type and the bytes (up to a
    SHA-256 collision) published under that key and not replaced since; a
    publication that reports success is visible; nothing else ever appears
    in the cache. *)
Theorem store_refines_cache y l y' :
  opts_ok opts → 0 <= MaxReservations opts → reached y → step y l y' →
  cache_step (images (db (store y))) l (images (db (store y'))).
Proof. intros Ho Hm Hr. by apply step_refines, reached_SI. Qed.

End system.


(** ** Eviction and tiers *)

Section tiers.
Context (opts : SharedOptions) (arrange : list string → list string).

Lemma candidates_tier now p t c : c ∈ candidates arrange now p t → tier now t (c_digest c) <= p.
Proof.
  unfold candidates. intros Hc. apply (subseteq_take 128) in Hc.
  rewrite (merge_sort_Permutation before) in Hc. apply list_elem_of_filter in Hc as [Hp Hc].
  apply list_elem_of_fmap in Hc as (d & -> & _). exact Hp.
Qed.

(** The rows and the file of one blob. *)
Definition kept (d : string) (n : Z) (vs : gmap string variant) (b : option string) (s : St) : Prop :=
  blobs (tx s) !! d = Some n ∧ filter (λ kv, refers d kv.2 = true) (variants (tx s)) = vs ∧ bodies (fs s) !! d = b.
#[local] Instance kept_stable d n vs b : Stable (kept d n vs b).
Proof. intros s s' (_ & Et & Ef & _). unfold kept. by rewrite Et, Ef. Qed.

Lemma removeBlob_keeps_other d n vs b d' :
  d' ≠ d → triple (kept d n vs b) (removeBlob d') (λ _, kept d n vs b) (kept d n vs b).
Proof.
  intros Hne. unfold removeBlob. case_match; [by apply inv_fail|]. apply (inv_bind _).
  - apply (inv_change _). intros t s (H1 & H2 & H3). split; [done|]. split; [done|]. cbn. by rewrite lookup_delete_ne.
  - intros []. apply (inv_change _). intros t s (H1 & H2 & H3). split; [cbn; by rewrite lookup_delete_ne|].
    split; [|done]. rewrite <- H2. cbn. rewrite map_filter_filter. apply map_filter_ext. intros k v _. cbn.
    split; [by intros [? _]|]. intros Hr. split; [done|]. unfold refers in *. apply String.eqb_eq in Hr. rewrite Hr.
    apply String.eqb_neq. congruence.
Qed.

(** A blob is still there: its row, the rows that refer to it, its file. *)
Definition keeps_blob (d : string) (n : Z) (s s' : St) : Prop :=
  blobs (tx s') !! d = Some n ∧
  filter (λ kv, refers d kv.2 = true) (variants (tx s')) = filter (λ kv, refers d kv.2 = true) (variants (tx s)) ∧
  bodies (fs s') !! d = bodies (fs s) !! d.

(** An incoming image never evicts a higher tier: whatever [makeRoom] does,
    a blob with a live reference above the incoming priority keeps its row,
    its references and its file. *)
Theorem eviction_respects_tiers p need pn s d n :
  blobs (tx s) !! d = Some n → p < tier (started s) (tx s) d →
  keeps_blob d n s (makeRoom opts arrange p need pn s).1.
Proof.
  intros Hd Hp. unfold keeps_blob. set (s' := (makeRoom opts arrange p need pn s).1). set (vs := filter (λ kv, refers d kv.2 = true) (variants (tx s))). set (b := bodies (fs s) !! d).
  set (P := λ s0, (kept d n vs b s0 ∧ tx s0 = tx s) ∧ started s0 = started s).
  assert (HP : Stable P).
  { intros s0 s1 Hs [[HK Ht] Hst]. pose proof Hs as (_ & Et & _ & Es & _).
    split; [split; [by eapply stable|congruence]|congruence]. }
  assert (Hall : triple P (makeRoom opts arrange p need pn) (λ _, kept d n vs b) (kept d n vs b)).
  { unfold makeRoom. apply (triple_bind _ _ _ (λ _, P)).
    { eapply triple_conseq; [| | |apply (inv_stats opts P)]; cbn; [done|done|by intros s0 [[? _] _]]. }
    intros st. cbv zeta. case_match; [by intros s0 [[? _] _]|].
    eapply triple_bind.
    { eapply triple_conseq; [| | |apply (triple_query P)]; cbn; [done|intros l s0 H'; exact H'|by intros s0 [[? _] _]]. }
    intros l s0 [[[HK Ht] Hst] El]. revert s0 HK Ht Hst El.
    enough (∀ l, (∀ c, c ∈ l → c_digest c ≠ d) →
      triple (kept d n vs b) (evict_loop opts (room opts (MaxBytes opts <? int64 (TotalBytes st + need))
        (if MaxBytes opts <? int64 (TotalBytes st + need)
         then if MaxBytes opts <? int64 (LowWatermarkBytes opts + need) then MaxBytes opts - need else LowWatermarkBytes opts
         else MaxBytes opts) need pn) l) (λ _, kept d n vs b) (kept d n vs b)) as Hl.
    { intros s0 HK Ht Hst El. apply Hl; [|done]. intros c Hc Ec. rewrite El, Ht, Hst in Hc.
      apply candidates_tier in Hc. rewrite Ec in Hc. lia. }
    intros l0 Hl0. apply (inv_evict_loop opts _). intros c Hc. by apply removeBlob_keeps_other, Hl0. }
  specialize (Hall s). unfold s'. destruct (makeRoom opts arrange p need pn s) as [s1 r].
  assert (Hk : kept d n vs b s1) by (destruct r; by apply Hall). exact Hk.
Qed.

End tiers.


(** ** The loops end *)

Section loops.
Context (arrange : list string → list string) (arrange_perm : ∀ l, arrange l ≡ₚ l).

Definition ends {A} (c : M A) : Prop := ∀ s, (c s).2 ≠ Fail OutOfFuel.

Lemma ends_bind {A B} (c : M A) (f : A → M B) : ends c → (∀ a, ends (f a)) → ends (bindM c f).
Proof.
  intros Hc Hf s. unfold bindM. specialize (Hc s). destruct (c s) as [s' [a|e]]; [apply Hf|]. cbn in *. congruence.
Qed.
Lemma ends_change f : ends (change f).
Proof. intros s. unfold change. destruct (next s) as [s' t]. by destruct (t_fate t). Qed.
Lemma ends_query {A} (f : St → A) : ends (query f).
Proof. intros s. unfold query. destruct (next s) as [s' t]. by destruct (t_fate t). Qed.
Lemma ends_ret {A} (a : A) : ends (ret a).
Proof. by intros s. Qed.
Lemma ends_attempt {A} (c : M A) : ends (attempt c).
Proof. intros s. unfold attempt. by destruct (c s) as [s' [a|[]]]. Qed.
Lemma ends_deferred {A} (c : M A) d : ends c → ends (deferred c d).
Proof.
  intros Hc s. unfold deferred. specialize (Hc s). destruct (c s) as [s' [a|[]]]; try done; by destruct (d s') as [s'' [|[]]].
Qed.
Lemma ends_transaction {A} (c : M A) : ends c → ends (transaction c).
Proof. intros Hc. apply ends_bind; [apply ends_change|]. intros. by apply ends_deferred. Qed.

Lemma ends_removeBlob d : ends (removeBlob d).
Proof. unfold removeBlob. case_match; [done|]. apply ends_bind; [apply ends_change|]. intros. apply ends_change. Qed.
Lemma ends_removeAll l : ends (removeAll l).
Proof. induction l as [|d l IH]; [apply ends_ret|]. apply ends_bind; [apply ends_removeBlob|done]. Qed.

(** What successful removals leave. *)
Lemma removeBlob_done d s s' :
  removeBlob d s = (s', Good tt) →
  blobs (tx s') = delete d (blobs (tx s)) ∧ variants (tx s') = filter (λ kv, refers d kv.2 = false) (variants (tx s)).
Proof.
  unfold removeBlob. case_match; [done|]. unfold bindM, removeBody, change. pose proof (next_same s) as (_ & Et & _).
  destruct (next s) as [s1 t]. cbn in Et. destruct (t_fate t); try done. unfold exec, change.
  pose proof (next_same (set_fs s1 (with_bodies (fs s1) (delete d (bodies (fs s1)))))) as (_ & Et' & _).
  destruct (next _) as [s2 t']. cbn in Et'. destruct (t_fate t'); try done. intros [= <-]. cbn. by rewrite Et', Et.
Qed.

Lemma removeAll_done l s s' :
  removeAll l s = (s', Good tt) →
  blobs (tx s') ⊆ blobs (tx s) ∧ (∀ d, d ∈ l → blobs (tx s') !! d = None) ∧
  ((∀ d, d ∈ l → any (refers d) (variants (tx s)) = false) → variants (tx s') = variants (tx s)).
Proof.
  revert s. induction l as [|d l IH]; intros s; [intros [= <-]; split; [done|]; split; [set_solver|done]|].
  cbn [removeAll]. unfold bindM. destruct (removeBlob d s) as [s1 [[]|e]] eqn:E1; [|done]. intros E2.
  apply removeBlob_done in E1 as [Eb Ev]. destruct (IH s1 E2) as (H1 & H2 & H3). rewrite Eb in H1.
  split; [etransitivity; [done|]; apply delete_subseteq|]. split.
  - intros d' Hd'. apply elem_of_cons in Hd' as [->|Hd']; [|by apply H2].
    destruct (blobs (tx s') !! d) as [n|] eqn:En; [|done]. eapply lookup_weaken in En; [|done].
    by rewrite lookup_delete_eq in En.
  - intros Hun. assert (Hv : variants (tx s1) = variants (tx s)).
    { rewrite Ev. apply map_filter_id. intros k v Hk. specialize (Hun d ltac:(set_solver)).
      unfold any in Hun. rewrite existsb_false_forall in Hun. apply (Hun (k, v)). by apply elem_of_map_to_list. }
    rewrite <- Hv. apply H3. intros d' Hd'. rewrite Hv. apply Hun. set_solver.
Qed.

Lemma keys_in {V} (m : gmap string V) d : d ∈ keys arrange m ↔ is_Some (m !! d).
Proof.
  unfold keys. rewrite arrange_perm, list_elem_of_fmap. split.
  - intros ([k v] & -> & Hk). apply elem_of_map_to_list in Hk. by exists v.
  - intros [v Hv]. exists (d, v). split; [done|]. by apply elem_of_map_to_list.
Qed.

Lemma size_lt (m m' : gmap string Z) d : m' ⊆ m → is_Some (m !! d) → m' !! d = None → (size m' < size m)%nat.
Proof.
  intros Hs Hd Hn. assert (Hs' : m' ⊆ delete d m).
  { apply map_subseteq_spec. intros k x E. rewrite lookup_delete_ne; [by eapply lookup_weaken|]. congruence. }
  apply map_subseteq_size in Hs'. rewrite map_size_delete_Some in Hs' by done.
  assert (size m ≠ 0%nat); [|lia]. rewrite map_size_non_empty_iff. intros ->. by destruct Hd.
Qed.

Lemma removeUnreferenced_loop_spec n s :
  (size (blobs (tx s)) < n)%nat →
  match removeUnreferenced_loop arrange n s with
  | (s', Good _) => unreferenced arrange (tx s') = []
  | (s', Fail e) => e ≠ OutOfFuel
  end.
Proof.
  revert s. induction n as [|n IH]; intros s Hn; [lia|]. cbn [removeUnreferenced_loop]. unfold bindM at 1, query.
  pose proof (next_same s) as (_ & Et & _). destruct (next s) as [s1 t]. cbn in Et. destruct (t_fate t); try done.
  set (l := take 128 (unreferenced arrange (tx s1))). unfold bindM.
  pose proof (ends_removeAll l s1) as He. destruct (removeAll l s1) as [s2 [[]|e]] eqn:E2; [|cbn in He; congruence].
  apply removeAll_done in E2 as (Hb & Hg & Hv).
  assert (Hin : ∀ d, d ∈ l → is_Some (blobs (tx s1) !! d) ∧ any (refers d) (variants (tx s1)) = false).
  { intros d Hd. apply (subseteq_take 128) in Hd. apply list_elem_of_filter in Hd as [Hr Hd]. split; [by apply keys_in|done]. }
  destruct (Nat.ltb_spec (length l) 128) as [Hlt|Hge].
  - cbn. assert (El : l = unreferenced arrange (tx s1)).
    { unfold l in *. apply take_ge. rewrite length_take in Hlt. lia. }
    apply elem_of_nil_inv. intros d Hd. apply list_elem_of_filter in Hd as [Hr Hd]. apply keys_in in Hd as [x Hx].
    rewrite Hv in Hr by (intros; by apply Hin).
    assert (Hd : d ∈ l).
    { rewrite El. apply list_elem_of_filter. split; [done|]. apply keys_in. exists x. by eapply lookup_weaken. }
    apply Hg in Hd. congruence.
  - apply IH. destruct l as [|d l']; [cbn in Hge; lia|].
    assert (size (blobs (tx s2)) < size (blobs (tx s1)))%nat; [|rewrite Et in *; lia].
    apply (size_lt _ _ d); [done|by apply Hin; set_solver|by apply Hg; set_solver].
Qed.

(** [removeUnreferenced] always ends: with an error of a step, or with no
    blob left that no variant refers to. *)
Theorem removeUnreferenced_ends s :
  match removeUnreferenced arrange s with
  | (s', Good _) => ∀ d, is_Some (blobs (tx s') !! d) → any (refers d) (variants (tx s')) = true
  | (s', Fail e) => e ≠ OutOfFuel
  end.
Proof.
  pose proof (removeUnreferenced_loop_spec (S (size (blobs (tx s)))) s ltac:(lia)) as H. unfold removeUnreferenced.
  destruct (removeUnreferenced_loop arrange _ s) as [s' [[]|e]]; [|done]. intros d Hd.
  destruct (any (refers d) (variants (tx s'))) eqn:E; [done|]. exfalso.
  assert (Hin : d ∈ unreferenced arrange (tx s')) by (apply list_elem_of_filter; split; [done|by apply keys_in]).
  rewrite H in Hin. set_solver.
Qed.


(** *** Recovery *)

Definition above (cursor : string) (t : tables) : gmap string Z := filter (λ kv, ¬ String.le kv.1 cursor) (blobs t).

Lemma dropMissing_done l s :
  match dropMissing l s with
  | (s', Good _) => blobs (tx s') ⊆ blobs (tx s)
  | (s', Fail e) => e ≠ OutOfFuel
  end.
Proof.
  revert s. induction l as [|d l IH]; intros s; [cbn; reflexivity|]. cbn [dropMissing]. unfold bindM, query.
  pose proof (next_same s) as (_ & Et & _). destruct (next s) as [s1 t]. cbn in Et. destruct (t_fate t); try done.
  destruct (bool_decide _); cbn.
  - specialize (IH s1). destruct (dropMissing l s1) as [s2 [[]|e]]; [|done]. by rewrite <- Et.
  - unfold exec, change. pose proof (next_same s1) as (_ & Et' & _). destruct (next s1) as [s2 t']. cbn in Et'.
    destruct (t_fate t'); try done. specialize (IH (set_tx s2 (deleteBlob d (tx s2)))).
    destruct (dropMissing l _) as [s3 [[]|e]]; [|done]. etransitivity; [exact IH|]. cbn. rewrite Et', Et. apply delete_subseteq.
Qed.

Lemma reconcile_loop_ends n c s : (size (above c (tx s)) < n)%nat → (reconcile_loop arrange n c s).2 ≠ Fail OutOfFuel.
Proof.
  revert c s. induction n as [|n IH]; intros c s Hn; [lia|]. cbn [reconcile_loop]. unfold bindM at 1, query.
  pose proof (next_same s) as (_ & Et & _). destruct (next s) as [s1 t]. cbn in Et. destruct (t_fate t); try done.
  set (l := batch_after arrange c (tx s1)). unfold bindM. pose proof (dropMissing_done l s1) as Hd.
  destruct (dropMissing l s1) as [s2 [[]|e]]; [|cbn; congruence].
  destruct (Nat.ltb_spec (length l) 512) as [|Hge]; [done|]. apply IH.
  assert (Hl : List.last l c ∈ l).
  { destruct l as [|x l'] eqn:El; [cbn in Hge; lia|]. apply list_elem_of_In. rewrite <- El. 
    destruct (exists_last (l := l) ltac:(by rewrite El)) as (l0 & y & E). rewrite E, List.last_last. apply in_or_app. right. by left. }
  assert (Hin : is_Some (blobs (tx s1) !! List.last l c) ∧ ¬ String.le (List.last l c) c).
  { unfold l in Hl at 2. unfold batch_after in Hl. apply (subseteq_take 512) in Hl. rewrite merge_sort_Permutation in Hl.
    apply list_elem_of_filter in Hl as [? ?%keys_in]. done. }
  destruct Hin as [[x Hx] Hgt].
  assert (size (above (List.last l c) (tx s2)) < size (above c (tx s1)))%nat; [|rewrite Et in *; lia].
  apply (size_lt _ _ (List.last l c)).
  - apply map_subseteq_spec. intros k v E. apply map_lookup_filter_Some in E as [E Hk].
    apply map_lookup_filter_Some. split; [by eapply lookup_weaken|]. cbn in *. intros Hle. apply Hk.
    destruct (total String.le k (List.last l c)) as [?|Hx']; [done|]. by exfalso; apply Hgt; etransitivity.
  - exists x. by apply map_lookup_filter_Some.
  - apply map_lookup_filter_None. right. intros v _ Hk. apply Hk. cbn. reflexivity.
Qed.

Lemma ends_releaseAll ids : ends (releaseAll ids).
Proof.
  induction ids as [|id l IH]; [apply ends_ret|]. cbn [releaseAll]. case_match; [done|]. apply ends_bind; [|done].
  unfold releaseReservation. apply ends_bind; [apply ends_change|]. intros []. apply ends_bind; [apply ends_query|].
  intros [r|]; [|done]. apply ends_bind; [|intros; apply ends_change]. destruct (r_candidate r); [|done].
  case_match; [done|]. apply ends_bind; [apply ends_query|]. intros []; [done|apply ends_change].
Qed.

Lemma ends_walk f l total : (∀ n total, ends (f n total)) → ends (walk f l total).
Proof. intros Hf. revert total. induction l as [|n l IH]; intros total; [done|]. apply ends_bind; [apply Hf|done]. Qed.
Lemma ends_walk_file k size rm total : ends k → ends (walk_file k size rm total).
Proof.
  intros Hk. apply ends_bind; [done|]. intros []; [done|]. apply ends_bind; [apply ends_attempt|]. by intros [].
Qed.

(** C24: Recovery always ends: none of its loops can go on for ever. *)
Theorem recover_ends : ends (recover arrange).
Proof.
  apply ends_bind; [done|]. intros []. apply ends_transaction.
  apply ends_bind; [apply ends_bind; [apply ends_query|apply ends_releaseAll]|]. intros [].
  apply ends_bind; [apply ends_change|]. intros []. apply ends_bind.
  { intros s. pose proof (removeUnreferenced_loop_spec (S (size (blobs (tx s)))) s ltac:(lia)) as H.
    unfold removeUnreferenced. destruct (removeUnreferenced_loop arrange _ s) as [s' [[]|e]]; cbn; congruence. }
  intros []. apply ends_bind.
  { unfold walk_all. do 2 (apply ends_bind; [apply ends_query|]; intros ?).
    repeat (apply ends_bind; [apply ends_walk; intros; apply ends_bind; [apply ends_query|]; intros _; apply ends_walk_file|];
      [..|intros ?]); try done. repeat case_match; try done; apply ends_query. }
  intros n. apply ends_bind.
  { intros s. unfold reconcile. apply reconcile_loop_ends. apply le_n_S. apply map_size_filter. }
  intros []. do 2 (apply ends_bind; [apply ends_change|]; intros []). done.
Qed.

End loops.


(** ** Concrete runs *)

Definition w_opts : SharedOptions := mkOptions (2 ^ 26) 0 (2 ^ 25) (2 ^ 24) 4.
Definition w_arrange (l : list string) : list string := l.
Definition w_key : string := sha256hex "key".
Definition w_id : string := stake 32 (sha256hex "id").
Definition w_id2 : string := stake 32 (sha256hex "other id").
Definition w_tick : tick := mkTick Done 1 (2 ^ 40).
Definition w_start : St :=
  mkSt empty_tables empty_tables (mkFiles ∅ ∅ ∅ []) (1000 * Hour) 0 true false false (replicate 300 w_tick).
Definition w_handle (id : string) : Reservation := mkHandle id w_key Normal false.

(** The state after a successful reservation, staging and publication of one
    image, with the handle kept. *)
Definition after_reserve (s : St) (id : string) : St := settle (Reserve w_opts w_arrange w_key Normal id s).1.
Definition after_stage (s : St) (id body : string) : St := settle (stage id (sha256hex body) s).1.
Definition after_publish (s : St) (id body : string) : St :=
  settle (publish w_opts (w_handle id) (sha256hex body) "image/png" body s).1.

Definition w_s1 : St := Eval vm_compute in after_reserve w_start w_id.
Definition w_s2 : St := Eval vm_compute in after_stage w_s1 w_id "img".
Definition w_s3 : St := Eval vm_compute in after_publish w_s2 w_id "img".

Definition w_reserved : sys := mkSys w_s1 {[ w_id := (w_handle w_id, Open) ]}.
Definition w_committing : sys := mkSys w_s1 {[ w_id := (w_handle w_id, Committing "image/png" "img") ]}.
Definition w_staged : sys := mkSys w_s2 {[ w_id := (w_handle w_id, Staged "image/png" "img") ]}.
Definition w_published : sys := mkSys w_s3 {[ w_id := (w_handle w_id, Closed) ]}.

Lemma w_opts_ok : opts_ok w_opts.
Proof. unfold opts_ok. cbn. lia. Qed.

Lemma w_step1 : step w_opts w_arrange (mkSys w_start ∅) Quiet w_reserved.
Proof.
  pose proof (step_reserve w_opts w_arrange w_start ∅ w_key Normal w_id) as H.
  specialize (H (Reserve w_opts w_arrange w_key Normal w_id w_start).1 (Reserve w_opts w_arrange w_key Normal w_id w_start).2).
  assert (E : (Reserve w_opts w_arrange w_key Normal w_id w_start).2 = Good (w_handle w_id)) by (vm_compute; reflexivity).
  rewrite E in H. assert (E1 : settle (Reserve w_opts w_arrange w_key Normal w_id w_start).1 = w_s1) by (vm_compute; reflexivity).
  rewrite E1 in H. apply H; [done|done|done|unfold tracked; cbn; lia|]. rewrite <- E. apply surjective_pairing.
Qed.
Lemma w_step2 : step w_opts w_arrange w_reserved Quiet w_committing.
Proof.
  assert (E : w_committing = mkSys w_s1 (<[w_id := (w_handle w_id, if valid_image "image/png" "img"
             then Committing "image/png" "img" else Failing)]> {[ w_id := (w_handle w_id, Open) ]})) by (vm_compute; reflexivity).
  rewrite E. apply step_begin. vm_compute. reflexivity.
Qed.
Lemma w_step3 : step w_opts w_arrange w_committing Quiet w_staged.
Proof.
  pose proof (step_stage w_opts w_arrange w_s1 (handles w_committing) w_id (w_handle w_id) "image/png" "img"
    (stage w_id (sha256hex "img") w_s1).1 (stage w_id (sha256hex "img") w_s1).2) as H.
  assert (E : mkSys (settle (stage w_id (sha256hex "img") w_s1).1)
    (<[w_id := (w_handle w_id, if good (stage w_id (sha256hex "img") w_s1).2 then Staged "image/png" "img" else Failing)]>
       (handles w_committing)) = w_staged) by (vm_compute; reflexivity).
  rewrite E in H. apply H; [vm_compute; reflexivity|apply surjective_pairing].
Qed.
Lemma w_step4 : step w_opts w_arrange w_staged (Published w_key "image/png" "img" true) w_published.
Proof.
  set (c := publish w_opts (w_handle w_id) (sha256hex "img") "image/png" "img" w_s2).
  pose proof (step_publish w_opts w_arrange w_s2 (handles w_staged) w_id (w_handle w_id) "image/png" "img" c.1 c.2) as H.
  assert (Eg : good c.2 = true) by (vm_compute; reflexivity).
  assert (E : mkSys (settle c.1) (<[w_id := (w_handle w_id, Closed)]> (handles w_staged)) = w_published) by (vm_compute; reflexivity).
  rewrite Eg, E in H. apply H; [vm_compute; reflexivity|apply surjective_pairing].
Qed.

Lemma w_reached_staged : reached w_opts w_arrange w_staged.
Proof.
  eapply reached_step; [eapply reached_step; [eapply reached_step; [apply reached_fresh|apply w_step1]|apply w_step2]|apply w_step3].
  done.
Qed.
Lemma w_published_reached : reached w_opts w_arrange w_published.
Proof. eapply reached_step; [apply w_reached_staged|apply w_step4]. Qed.

Lemma w_lookup :
  (GetContext w_arrange w_key w_s3).2 = Good (Some ("image/png", "img")).
Proof. vm_compute. reflexivity. Qed.

Lemma budget_is_kept_witness :
  payload (db (store w_published)) + metadata (db (store w_published)) + reserved (db (store w_published)) <= MaxBytes w_opts ∧
  Z.of_nat (size (reservations (db (store w_published)))) <= MaxReservations w_opts.
Proof. apply (budget_is_kept w_opts w_arrange w_published w_opts_ok); [cbn; lia|apply w_published_reached]. Defined.

Lemma every_blob_has_an_owner_witness :
  is_Some (blobs (db (store w_published)) !! sha256hex "img") ∨
  ∃ id r, reservations (db (store w_published)) !! id = Some r ∧ r_candidate r = Some (sha256hex "img") ∧
    r_bytes r = reservationBytes.
Proof.
  apply (every_blob_has_an_owner w_opts w_arrange w_published (sha256hex "img") "img" w_opts_ok);
    [cbn; lia|apply w_published_reached|vm_compute; reflexivity].
Defined.

Lemma store_refines_cache_witness :
  cache_step (images (db (store w_staged))) (Published w_key "image/png" "img" true) (images (db (store w_published))).
Proof.
  apply (store_refines_cache w_opts w_arrange w_staged _ w_published w_opts_ok); [cbn; lia|apply w_reached_staged|apply w_step4].
Defined.

Definition w_made : St := (makeRoom w_opts w_arrange Low (2 ^ 26) 0 w_s3).1.

Lemma eviction_respects_tiers_witness :
  blobs (tx w_made) !! sha256hex "img" = Some 3 ∧
  filter (λ kv, refers (sha256hex "img") kv.2 = true) (variants (tx w_made)) =
    filter (λ kv, refers (sha256hex "img") kv.2 = true) (variants (tx w_s3)) ∧
  bodies (fs w_made) !! sha256hex "img" = bodies (fs w_s3) !! sha256hex "img".
Proof.
  apply (eviction_respects_tiers w_opts w_arrange Low (2 ^ 26) 0 w_s3 (sha256hex "img") 3); vm_compute; reflexivity.
Defined.

Lemma recover_ends_witness : (recover w_arrange w_s3).2 ≠ Fail OutOfFuel.
Proof. apply (recover_ends w_arrange). intros l. reflexivity. Defined.

(** *** A temporary file without an owner *)

(** The same image is published again under a new reservation: the blob is
    already there, so the temporary file is not renamed, and the reservation
    is gone with the commit.  When its deferred removal then fails, the file
    stays on disk with no row that accounts for it, until the next full
    recovery. *)
Definition last_removal_fails (s : St) : St :=
  with_env s (replicate 11 w_tick ++ [mkTick Lost 1 0]).

Lemma deduplicated_commit_can_leave_a_temporary :
  let s4 := after_reserve w_s3 w_id2 in
  let s5 := last_removal_fails (after_stage s4 w_id2 "img") in
  let '(s6, r) := publish w_opts (w_handle w_id2) (sha256hex "img") "image/png" "img" s5 in
  r = Good tt ∧ reservations (db s6) = ∅ ∧ tmps (fs s6) !! w_id2 = Some "img" ∧ env s6 = [].
Proof. vm_compute. repeat split. Qed.

End ArtworkSystem.
