(* ===== verification/Maintenance.v ===== *)
(** * The maintenance loops (artwork.go: Run; retention.go: Run)

    Two background goroutines select on timers and channels until their
    context ends.  The artwork loop recovers a store that is not ready,
    retries after a failure and sweeps; requests use the store between any
    two of its turns.  The retention loop purges with the settings of the
    day. *)

From S2P Require Import Prelude GoStrings Retention Artwork ArtworkLogic ArtworkSystem.

(** ** Artwork *)

Module ArtworkRun.
Import Artwork ArtworkLogic ArtworkSystem.

(** The cases of the [select]. *)
Inductive signal := Done_ | RetryFires | Wakes | Ticks.

(** The store, whether the retry timer is armed, and whether the loop has
    returned. *)
Record runner := mkRunner { inner : St; retry : bool; ended : bool }.

Section run.
Context (opts : SharedOptions) (arrange : list string → list string).

(** [Sweep], and the timer when expired entries are left. *)
Definition sweep_then (s : St) (armed : bool) : runner :=
  let s := settle (sweep opts arrange s).1 in mkRunner s (armed || expiredPending s) false.

(** The body of the retry and of the maintenance case; [armed] is the timer
    as the case finds it. *)
Definition recover_then (s : St) (armed : bool) : runner :=
  if ready s then sweep_then s armed
  else match recover arrange s with
       | (s, Good _) => sweep_then (settle s) armed
       | (s, Fail _) => mkRunner (settle s) true false
       end.

(** A case can be taken when its timer has fired or its channel holds a
    message; [wake] is the message of [maintenanceWake]. *)
Definition enabled (x : signal) (r : runner) : bool :=
  negb (ended r) && match x with RetryFires => retry r | Wakes => wake (inner r) | _ => true end.

Definition turn (x : signal) (r : runner) : runner :=
  let s := inner r in
  match x with
  | Done_ => mkRunner s (retry r) true
  | RetryFires => recover_then s false
  | Wakes => sweep_then (set_flags s (ready s) (expiredPending s) false) (retry r)
  | Ticks => recover_then s (retry r)
  end.

(** What requests and administrators do with the store. *)
Inductive use : (St → St) → Prop :=
  | u_reserve key p id : use (λ s, (Reserve opts arrange key p id s).1)
  | u_stage id d : use (λ s, (stage id d s).1)
  | u_publish h d ct body : use (λ s, (publish opts h d ct body s).1)
  | u_release id : use (λ s, (release id s).1)
  | u_get key : use (λ s, (GetContext arrange key s).1)
  | u_stats : use (λ s, (Stats_ opts s).1)
  | u_evict : use (λ s, (EvictLowPriority opts arrange s).1).

Inductive run_step : runner → runner → Prop :=
  | run_turn x r : enabled x r = true → run_step r (turn x r)
  | run_use f s t e : use f → run_step (mkRunner s t e) (mkRunner (settle (f s)) t e)
  | run_env s t e env : run_step (mkRunner s t e) (mkRunner (with_env s env) t e).

(** [Run] starts with the retry timer armed. *)
Definition started_run (s : St) : runner := mkRunner s true false.

(** ** A store that is ready stays ready *)

Definition up (s : St) : Prop := ready s = true.
#[local] Instance up_stable : Stable up.
Proof. intros s s' (_ & _ & _ & _ & E). unfold up. by rewrite E. Qed.
Notation stays c := (triple up c (λ _, up) up).

Lemma stays_change f : (∀ t s, ready (f t s) = ready s) → stays (change f).
Proof. intros Hf. apply (inv_change _). intros t s. unfold up. by rewrite Hf. Qed.
Lemma stays_modify f : (∀ s, ready (f s) = ready s) → stays (modify f).
Proof. intros Hf s. unfold up. cbn. by rewrite Hf. Qed.
Lemma stays_deferred {A} (c : M A) d : stays c → stays d → stays (deferred c d).
Proof. intros Hc Hd. by apply (triple_deferred _ _ _ (λ _, up) (λ _, up) up up). Qed.
Lemma stays_transaction {A} (c : M A) : stays c → stays (transaction c).
Proof.
  intros Hc. apply (inv_bind _); [by apply stays_change|]. intros []. by apply stays_deferred, stays_modify.
Qed.
Lemma stays_ensure : stays (ensure arrange).
Proof. intros s Hs. unfold ensure. by rewrite Hs. Qed.

(** The structure of a program, one construct at a time. *)
Ltac stay :=
  repeat first
    [ solve [auto with stays] | apply stays_transaction | apply stays_ensure | apply (inv_stats opts _) | apply (inv_freeBytes _)
    | by apply inv_ret | by apply inv_fail | apply (inv_query _) | (by apply stays_change) | (by apply stays_modify)
    | apply (inv_attempt _) | apply (inv_bind _); [|intros] | apply stays_deferred | case_match ].

Lemma stays_removeBlob d : stays (removeBlob d).
Proof. unfold removeBlob, removeBody, exec. stay. Qed.
Lemma stays_removeAll l : stays (removeAll l).
Proof. induction l; cbn [removeAll]; [by apply inv_ret|]. apply (inv_bind _); [apply stays_removeBlob|done]. Qed.
Lemma stays_releaseReservation id : stays (releaseReservation id).
Proof. unfold releaseReservation, removeTmp, removeBody, exec. stay. Qed.

#[local] Hint Resolve stays_removeBlob stays_removeAll stays_releaseReservation : stays.

Lemma stays_cleanExpired : stays (cleanExpired arrange).
Proof.
  apply (inv_bind _); [apply (inv_query _)|]. intros l. induction l; cbn [releaseAll]; stay.
Qed.
Lemma stays_readBlob d : stays (readBlob d).
Proof. eapply triple_conseq; [| | |apply (triple_readBlob up)]; cbn; [done|by intros ? s [? _]|done]. Qed.
Lemma stays_writeReservedTemp id b : stays (writeReservedTemp id b).
Proof. by apply (triple_writeReservedTemp _). Qed.
Lemma stays_prune : stays (pruneExpiredBatch arrange).
Proof. unfold pruneExpiredBatch, exec. stay. Qed.
Lemma stays_removeUnreferenced : stays (removeUnreferenced arrange).
Proof.
  assert (Hl : ∀ n, stays (removeUnreferenced_loop arrange n)) by (induction n; cbn [removeUnreferenced_loop]; stay).
  intros s Hs. by apply Hl.
Qed.
Lemma stays_makeRoom p n pn : stays (makeRoom opts arrange p n pn).
Proof.
  unfold makeRoom. apply (inv_bind _); [apply (inv_stats opts _)|]. intros st. cbv zeta. case_match; [by apply inv_ret|].
  apply (inv_bind _); [apply (inv_query _)|]. intros l. apply (inv_evict_loop opts _). auto with stays.
Qed.
#[local] Hint Resolve stays_cleanExpired stays_prune stays_removeUnreferenced stays_makeRoom stays_readBlob stays_writeReservedTemp : stays.

Lemma stays_Reserve key p id : stays (Reserve opts arrange key p id).
Proof. unfold Reserve, admission, set_pending, insertReservation, exec, commit. stay. Qed.
Lemma stays_stage id d : stays (stage id d).
Proof. unfold stage, exec, commit. stay. Qed.
Lemma stays_renameTmp id d : stays (renameTmp id d).
Proof. apply stays_change. intros t s. by case_match. Qed.
#[local] Hint Resolve stays_renameTmp : stays.
Lemma stays_publish h d ct body : stays (publish opts h d ct body).
Proof. unfold publish, publish_file, removeTmp, removeBody, exec, commit. stay. Qed.
Lemma stays_release id : stays (release id).
Proof. unfold release, commit. stay. Qed.
Lemma stays_GetContext key : stays (GetContext arrange key).
Proof. unfold GetContext, lookup, exec, commit. stay. Qed.
Lemma stays_sweep : stays (sweep opts arrange).
Proof. unfold sweep, set_pending, commit. stay. Qed.
Lemma stays_evict : stays (EvictLowPriority opts arrange).
Proof. unfold EvictLowPriority, commit. stay. Qed.

Lemma stays_Stats : stays (Stats_ opts).
Proof. intros s Hs. unfold Stats_. rewrite Hs. revert s Hs. unfold commit. stay. Qed.

Lemma stays_first {A} (c : M A) s : stays c → up s → up (settle (c s).1).
Proof. intros Hc Hs. specialize (Hc s Hs). by destruct (c s) as [s' []]. Qed.

Lemma use_stays f s : use f → up s → up (settle (f s)).
Proof.
  intros [] Hs; apply stays_first; auto using stays_Reserve, stays_stage, stays_publish, stays_release, stays_GetContext,
    stays_Stats, stays_evict.
Qed.

(** A recovery that reports success leaves the store ready. *)
Lemma recover_ready s s' : recover arrange s = (s', Good tt) → up s'.
Proof.
  enough (H : triple (λ _, True) (recover arrange) (λ _, up) (λ _, True)) by (intros E; specialize (H s I); by rewrite E in H).
  assert (Ht : ∀ A (c : M A), triple (λ _, True) c (λ _ _, True) (λ _, True)) by (intros A c s0 _; by destruct (c s0) as [? []]).
  assert (Hb : ∀ A (c : M A) (k : A → M unit), (∀ a, triple (λ _, True) (k a) (λ _, up) (λ _, True)) →
    triple (λ _, True) (bindM c k) (λ _, up) (λ _, True)) by (intros; by eapply triple_bind).
  apply Hb. intros ?. unfold transaction. apply Hb. intros ?.
  apply (triple_deferred _ _ _ (λ _, up) (λ _, up) (λ _, True) (λ _, True)); [|intros _; by apply stays_modify|apply Ht|done|done].
  repeat (apply Hb; intros ?). by intros s0 _.
Qed.

(** ** The loop *)

Lemma sweep_then_up s armed : up s → up (inner (sweep_then s armed)).
Proof. intros Hs. cbn. apply stays_first; [apply stays_sweep|done]. Qed.

Lemma turn_up x r : up (inner r) → up (inner (turn x r)).
Proof.
  intros Hs. destruct x; cbn [turn]; cbv zeta; [done|..]; unfold recover_then; rewrite ?(Hs : ready _ = true);
    by apply sweep_then_up.
Qed.

Lemma run_step_up r r' : run_step r r' → up (inner r) → up (inner r').
Proof. intros [] Hs; cbn in *; [by apply turn_up|by apply use_stays|done]. Qed.

(** A turn leaves the store ready or the timer armed, whatever it found. *)
Lemma recover_then_armed s armed : up (inner (recover_then s armed)) ∨ retry (recover_then s armed) = true.
Proof.
  unfold recover_then. destruct (ready s) eqn:E; [left; by apply sweep_then_up|].
  destruct (recover arrange s) as [s' [[]|e]] eqn:Er; [|by right]. left. apply sweep_then_up. by apply recover_ready in Er.
Qed.

Lemma run_step_armed r r' :
  run_step r r' → up (inner r) ∨ retry r = true → up (inner r') ∨ retry r' = true.
Proof.
  intros Hstep [Hs|Ht]; [left; by eapply run_step_up|].
  destruct Hstep as [x r Hx| |]; [|by right..]. destruct x; cbn [turn]; cbv zeta; [by right|apply recover_then_armed| |apply recover_then_armed].
  right. cbn. by rewrite Ht.
Qed.

(** The store comes up by itself and stays up.  Whatever requests do between
    the turns of the loop, as long as it has not ended the store is ready or
    the retry timer is armed; the attempt during which the database answers
    makes it ready; a ready store stays ready; and a turn that leaves expired
    entries behind has armed the timer again. *)
Theorem artwork_comes_up s r :
  rtc run_step (started_run s) r →
  (ended r = false → ready (inner r) = true ∨ enabled RetryFires r = true) ∧
  (∀ x, x = RetryFires ∨ x = Ticks → (recover arrange (inner r)).2 = Good tt → ready (inner (turn x r)) = true) ∧
  (ready (inner r) = true → ∀ r', rtc run_step r r' → ready (inner r') = true) ∧
  (∀ x, x ≠ Done_ → expiredPending (inner (turn x r)) = true → retry (turn x r) = true).
Proof.
  intros Hr. split; [|split; [|split]].
  - intros He. assert (H : up (inner r) ∨ retry r = true).
    { clear He. remember (started_run s) as r0 eqn:E0. assert (H0 : up (inner r0) ∨ retry r0 = true) by (subst; by right).
      clear E0. induction Hr as [r|r1 r2 r3 Hs _ IH]; [done|]. apply IH. by eapply run_step_armed. }
    unfold enabled. rewrite He. cbn. tauto.
  - intros x Hx Hg. assert (H : ∀ armed, up (inner (recover_then (inner r) armed))).
    { intros armed. unfold recover_then. destruct (ready (inner r)) eqn:E; [by apply sweep_then_up|].
      destruct (recover arrange (inner r)) as [s' [[]|e]] eqn:Er; [|done]. apply sweep_then_up. by apply recover_ready in Er. }
    destruct Hx as [-> | ->]; apply H.
  - intros Hup r' Hr'. induction Hr' as [|r1 r2 r3 Hs _ IH]; [done|]. apply IH; [|by eapply run_step_up].
    by eapply rtc_r.
  - intros x Hx. assert (H : ∀ s armed, expiredPending (inner (sweep_then s armed)) = true → retry (sweep_then s armed) = true).
    { intros s0 armed E. cbn in *. rewrite E. apply orb_true_r. }
    assert (H' : ∀ armed, expiredPending (inner (recover_then (inner r) armed)) = true → retry (recover_then (inner r) armed) = true).
    { intros armed. unfold recover_then. destruct (ready (inner r)); [apply H|].
      destruct (recover arrange (inner r)) as [s' [[]|e]]; [apply H|done]. }
    destruct x; [done|apply H'|apply H|apply H'].
Qed.

End run.
End ArtworkRun.

(** ** Retention *)

Module RetentionRun.
Import Retention.

(** The cases of the [select]; with the two timers the settings table as the
    pass finds it. *)
Inductive timer := Stopped_ | Initial (settings : string → option string) | Daily (settings : string → option string).

Section run.
Context (arrange : list string → list string) (p : Policy).

(** [Run]: a pass for each timer until the context ends; without a database
    it returns at once. *)
Fixpoint turns (l : list timer) (w : world) : world :=
  match l with
  | [] => w
  | Stopped_ :: _ => w
  | (Initial s | Daily s) :: r => turns r (purgeAndLog arrange true s p w).1.1
  end.
Definition Run (db : bool) (l : list timer) (w : world) : world := if negb db then w else turns l w.

Context (arrange_perm : ∀ l, arrange l ≡ₚ l).

(** What a run may take away by the time [t]. *)
Definition old_session (t : Z) (e : option Z) : Prop := ∃ ended, e = Some ended ∧ ended < t - Day.
Record takes_only_old (w w' : world) : Prop := mkOld {
  O_time : now w <= now w';
  O_sessions : went (old_session (now w')) (sessions (tabs w)) (sessions (tabs w'));
  O_audits : went (λ t, t < now w' - Day) (audits (tabs w)) (audits (tabs w'));
}.

Lemma takes_refl w : takes_only_old w w.
Proof. split; [done|apply went_refl..]. Qed.
Lemma takes_trans w1 w2 w3 : takes_only_old w1 w2 → takes_only_old w2 w3 → takes_only_old w1 w3.
Proof.
  intros [T1 S1 A1] [T2 S2 A2]. split; [lia|eapply went_trans; [|done..]..].
  - intros e (t & -> & ?). exists t. split; [done|lia].
  - cbn. lia.
Qed.

(** A pass, whatever the settings table holds: a bound that is not positive
    disables its class. *)
Lemma pass_takes s w : takes_only_old w (purgeAndLog arrange true s p w).1.1.
Proof.
  unfold purgeAndLog. set (q := livePolicy true s p). destruct (PurgeOnce arrange q true w) as [[w' r] st] eqn:E.
  destruct (PurgeOnce_ok arrange arrange_perm q _ _ _ _ E) as (_ & [Ht HS _ _ HA] & _). cbn [fst].
  assert (HD : 0 < Day) by done. split; [done|..]; (eapply went_mono; [|done]).
  - intros [t|] [Hp He]; [|done]. apply Z.ltb_lt in He. exists t. split; [done|nia].
  - intros t [Hp He%Z.ltb_lt]. nia.
Qed.

Lemma turns_take l w : takes_only_old w (turns l w).
Proof.
  revert w. induction l as [|[|s|s] l IH]; intros w; cbn [turns]; [apply takes_refl..| |];
    (eapply takes_trans; [apply pass_takes|apply IH]).
Qed.

Lemma went_keeps {R} (f : R → Prop) (m m' : gmap string R) k r : went f m m' → m !! k = Some r → ¬ f r → m' !! k = Some r.
Proof.
  intros [Hs Hw] Hk Hf. destruct (m' !! k) as [r'|] eqn:E; [|by destruct Hf; eapply Hw].
  pose proof (lookup_weaken _ _ _ _ E Hs). congruence.
Qed.

(** Whatever the settings table holds on whichever day, the loop never
    removes a session that is still active, nor a session or an audit event
    that is not more than a day old. *)
Theorem retention_loop_is_safe db l w :
  let w' := Run db l w in
  (∀ id, sessions (tabs w) !! id = Some None → sessions (tabs w') !! id = Some None) ∧
  (∀ id t, sessions (tabs w) !! id = Some (Some t) → now w' - Day <= t → sessions (tabs w') !! id = Some (Some t)) ∧
  (∀ id t, audits (tabs w) !! id = Some t → now w' - Day <= t → audits (tabs w') !! id = Some t).
Proof.
  cbv zeta. unfold Run. destruct db; [cbn [negb]|by split_and!]. destruct (turns_take l w) as [_ HS HA]. split_and!.
  - intros id Hi. eapply went_keeps; [done..|]. by intros (t & [=] & _).
  - intros id t Hi Ht. eapply went_keeps; [done..|]. intros (t' & [= <-] & ?). lia.
  - intros id t Hi Ht. eapply went_keeps; [done..|]. cbn. lia.
Qed.

End run.
End RetentionRun.
