(* ===== verification/Identity.v ===== *)
(** * The identity resolver (internal/identity/identity.go)

    Which Plex account a token fingerprint belongs to, whether the
    credential was proven recently, and which client instance the device is.
    [Resolve] is a program of atomic actions: the locked sections over the
    two process-local caches, the statements on the database tables and the
    call to plex.tv.  Any number of calls interleave (Threads); a statement
    may fail before or after it took effect, and the process may restart,
    which keeps the tables and loses the caches.

    The [log] of the world is what plex.tv answered and when; no code reads
    it.  The instants a call reads and the instants a statement stamps are
    those of one clock. *)

From Stdlib Require Import Eqdep_dec.
From S2P Require Import Prelude GoStrings GoHttp GoCrypto CacheKeys Trace Effects Threads.

Module Identity.

Import CacheKeys.

Definition revalidateAfter : Z := Hour.
Definition credentialValidityPeriod : Z := 24 * Hour.
Definition memTTL : Z := 5 * Minute.
Definition memMax : nat := 4096%nat.

(** ** Data *)

Record Client := mkClient {
  Identifier : string; Product : string; Version : string;
  Platform : string; Device : string; Model : string;
}.

Definition FromTrace (c : Trace.Client) : Client :=
  mkClient (Trace.ID c) (Trace.Product c) (Trace.Version c) (Trace.Platform c) (Trace.Device c) (Trace.Model c).

Record Resolved := mkResolved {
  Scope : string; IdentityID : string; ClientID : string; AccountID : Z;
  Known : bool; Fresh : bool; Invalid : bool; Degraded : bool;
}.

Record acctEntry := mkAcct {
  a_scope : string; a_identityID : string; a_accountID : Z;
  a_known : bool; a_fresh : bool; a_invalid : bool; a_at : Z;
}.
Record cliEntry := mkCli { c_clientID : string; c_at : Z }.

(** [GetUser]: an account, an error with an HTTP status, another error. *)
Inductive tv_answer := TvUser (id : Z) (username : string) | TvStatus (code : Z) | TvError.

Definition isAuthFailure (a : tv_answer) : bool :=
  match a with TvStatus code => (code =? 401) || (code =? 403) | _ => false end.

(** [Resolver.DB] and [Resolver.TV] may be nil. *)
Record Resolver := mkResolver { hasDB : bool; hasTV : bool }.

Definition nullIfEmpty (s : string) : option string := if s =s "" then None else Some s.

(** A row of [plex_token_identities], by server and fingerprint. *)
Record link := mkLink {
  l_identity : option string; l_status : string; l_seen : Z; l_validated : option Z;
}.
(** A row of [plex_identities]. *)
Record identity := mkIdentity { i_id : string; i_server : string; i_account : Z; i_username : string }.
(** A row of [client_instances], by server and client identifier. *)
Record instance := mkInstance { n_id : string; n_columns : list (option string); n_seen : Z }.

(** What the link query scans. *)
Record linkRow := mkLinkRow {
  r_identity : option string; r_account : option Z; r_status : string; r_validated : option Z;
}.

#[global] Instance Client_eq_dec : EqDecision Client.
Proof. solve_decision. Defined.
#[global] Instance acctEntry_eq_dec : EqDecision acctEntry.
Proof. solve_decision. Defined.
#[global] Instance cliEntry_eq_dec : EqDecision cliEntry.
Proof. solve_decision. Defined.

(** ** The actions *)

Inductive op :=
  | Now
  | MemGet (fingerprint cliKey : string)
  | MemClient (cliKey : string) (e : cliEntry)
  | Remember (fingerprint : string) (a : option acctEntry) (identifier clientID : string) (now : Z)
  | EnabledServer
  | SelectLink (server fingerprint : string)
  | GetUser (fingerprint token : string)
  | InsertIdentity (server : string) (account : Z) (username : string)
  | SelectIdentity (server : string) (account : Z)
  | UpdateIdentity (id username : string)
  | UpsertLink (server fingerprint identityID : string)
  | MarkInvalid (server fingerprint : string)
  | TouchLink (server fingerprint : string)
  | UpsertClient (server : string) (c : Client)
  | UpsertBinding (identityID clientID : string).

#[global] Instance op_eq_dec : EqDecision op.
Proof. solve_decision. Defined.

Definition resp (o : op) : Type :=
  match o with
  | Now => Z
  | MemGet _ _ => option acctEntry * option cliEntry
  | EnabledServer => string
  | SelectLink _ _ => option linkRow
  | GetUser _ _ => tv_answer
  | InsertIdentity _ _ _ => bool
  | SelectIdentity _ _ | UpsertClient _ _ => option string
  | _ => unit
  end.

Notation code := (prog resp).

Lemma resp_inj (o : op) (x y : resp o) : Ev o x = Ev o y → x = y.
Proof.
  intros E. injection E. intros E'. apply inj_pair2_eq_dec in E'; [done|]. intros. apply op_eq_dec.
Qed.

(** ** Resolution *)

Definition cliKey (fingerprint identifier : string) : string := fingerprint +:+ String NUL identifier.

(** [time.Since(t) < d] of an optional instant. *)
Definition within (t : option Z) (d : Z) : code bool :=
  match t with
  | None => Ret false
  | Some v => now <~ act Now ;; Ret (now - v <? d)
  end.

Definition upsertIdentity (serverID : string) (accountID : Z) (username : string) : code string :=
  ok <~ act (InsertIdentity serverID accountID username) ;;
  if negb ok then Ret ""
  else
    id <~ act (SelectIdentity serverID accountID) ;;
    match id with
    | None => Ret ""
    | Some id => do act (UpdateIdentity id username) ;; Ret id
    end.

Definition recordClient (serverID identityID : string) (client : Client) : code string :=
  if Identifier client =s "" then Ret ""
  else
    id <~ act (UpsertClient serverID client) ;;
    match id with
    | None => Ret ""
    | Some clientID =>
        if (clientID =s "") || (identityID =s "") then Ret clientID
        else do act (UpsertBinding identityID clientID) ;; Ret clientID
    end.

Definition resolveClient (r : Resolver) (identityID : string) (client : Client) : code string :=
  if negb (hasDB r) || (Identifier client =s "") then Ret ""
  else
    serverID <~ act EnabledServer ;;
    if serverID =s "" then Ret "" else recordClient serverID identityID client.

Definition fallback (fingerprint : string) : Resolved :=
  mkResolved ("tok:" +:+ fingerprint) "" "" 0 false false false false.
Definition rejected (fingerprint : string) : Resolved :=
  mkResolved ("tok:" +:+ fingerprint) "" "" 0 false false true false.
Definition associated (identityID clientID : string) (accountID : Z) (fresh degraded : bool) : Resolved :=
  mkResolved ("acct:" +:+ Itoa accountID) identityID clientID accountID true fresh false degraded.

(** plex.tv named the account: bind the fingerprint to it. *)
Definition bindAccount (serverID fingerprint : string) (client : Client) (id : Z) (username : string)
    : code (Resolved * bool) :=
  iid <~ upsertIdentity serverID id username ;;
  do act (UpsertLink serverID fingerprint iid) ;;
  if iid =s "" then Ret (fallback fingerprint, true)
  else c <~ recordClient serverID iid client ;; Ret (associated iid c id true false, true).

(** The end of [resolveCold]: no usable link, ask plex.tv. *)
Definition resolveLive (r : Resolver) (serverID fingerprint token : string) (client : Client)
    : code (Resolved * bool) :=
  if negb (hasTV r) || (token =s "") then Ret (fallback fingerprint, true)
  else
    a <~ act (GetUser fingerprint token) ;;
    match a with
    | TvUser id username =>
        if id =? 0 then Ret (fallback fingerprint, true) else bindAccount serverID fingerprint client id username
    | _ =>
        if isAuthFailure a
        then do act (MarkInvalid serverID fingerprint) ;; Ret (rejected fingerprint, true)
        else Ret (mkResolved ("tok:" +:+ fingerprint) "" "" 0 false false false true, false)
    end.

(** The branch of [resolveCold] for a fingerprint linked to an account. *)
Definition resolveLinked (r : Resolver) (serverID fingerprint token : string) (client : Client)
    (identityID : string) (accountID : Z) (validatedAt : option Z) : code (Resolved * bool) :=
  fresh <~ within validatedAt credentialValidityPeriod ;;
  if fresh || negb (hasTV r) || (token =s "") then
    c <~ recordClient serverID identityID client ;;
    do act (TouchLink serverID fingerprint) ;;
    Ret (associated identityID c accountID fresh false, true)
  else
    a <~ act (GetUser fingerprint token) ;;
    let degraded :=
      c <~ recordClient serverID identityID client ;;
      Ret (associated identityID c accountID false true, false) in
    match a with
    | TvUser id username =>
        if negb (id =? 0) then bindAccount serverID fingerprint client id username else degraded
    | _ =>
        if isAuthFailure a
        then do act (MarkInvalid serverID fingerprint) ;; Ret (rejected fingerprint, true)
        else degraded
    end.

Definition resolveCold (r : Resolver) (fingerprint token : string) (client : Client) : code (Resolved * bool) :=
  if negb (hasDB r) then Ret (fallback fingerprint, true)
  else
    serverID <~ act EnabledServer ;;
    if serverID =s "" then Ret (fallback fingerprint, true)
    else
      row <~ act (SelectLink serverID fingerprint) ;;
      let status := match row with Some l => r_status l | None => "" end in
      let validatedAt := match row with Some l => r_validated l | None => None end in
      let linked := match row with
                    | Some (mkLinkRow (Some i) (Some a) _ _) => if i =s "" then None else Some (i, a)
                    | _ => None
                    end in
      if status =s "invalid" then
        recent <~ within validatedAt revalidateAfter ;;
        if recent : bool then Ret (rejected fingerprint, true)
        else resolveLive r serverID fingerprint token client
      else
        match linked with
        | Some (i, a) => resolveLinked r serverID fingerprint token client i a validatedAt
        | None => resolveLive r serverID fingerprint token client
        end.

Definition entry_of (res : Resolved) (now : Z) : acctEntry :=
  mkAcct (Scope res) (IdentityID res) (AccountID res) (Known res) (Fresh res) (Invalid res) now.

Definition with_client (a : acctEntry) (clientID : string) : Resolved :=
  mkResolved (a_scope a) (a_identityID a) clientID (a_accountID a) (a_known a) (a_fresh a) (a_invalid a) false.

Definition Resolve (r : option Resolver) (fingerprint token : string) (client : Client) : code Resolved :=
  match r with
  | None => Ret (fallback fingerprint)
  | Some r =>
      if fingerprint =s "" then Ret (fallback fingerprint)
      else
        now <~ act Now ;;
        let key := cliKey fingerprint (Identifier client) in
        m <~ act (MemGet fingerprint key) ;;
        let cold :=
          res <~ resolveCold r fingerprint token client ;;
          let '(res, store) := res in
          do act (Remember fingerprint (if store : bool then Some (entry_of res now) else None)
                   (Identifier client) (ClientID res) now) ;;
          Ret res in
        match m.1 with
        | None => cold
        | Some acct =>
            if now - a_at acct <? memTTL then
              if Identifier client =s "" then Ret (with_client acct "")
              else
                let cached :=
                  match m.2 with
                  | Some cli => if now - c_at cli <? memTTL then Some (c_clientID cli) else None
                  | None => None
                  end in
                match cached with
                | Some id => Ret (with_client acct id)
                | None =>
                    id <~ resolveClient r (a_identityID acct) client ;;
                    if id =s "" then Ret (with_client acct id)
                    else do act (MemClient key (mkCli id now)) ;; Ret (with_client acct id)
                end
            else cold
        end
  end.

(** ** The shared world *)

Record caches := mkCaches {
  acct : gmap string acctEntry; cli : gmap string cliEntry; server : string; srvAt : Z;
}.
Record tables := mkTables {
  links : gmap (string * string) link;
  identities : list identity;
  instances : gmap (string * string) instance;
  bindings : gmap (string * string) Z;
}.
(** An answer of plex.tv: when, for which fingerprint and token, what. *)
Notation answer := (Z * string * string * tv_answer)%type (only parsing).
Record world := mkWorld { mem : caches; db : tables; clock : Z; log : list answer }.

Definition New : caches := mkCaches ∅ ∅ "" 0.

(** A statement is carried out, is lost, or is carried out while its reply
    is lost. *)
Inductive fate := Done | Lost | Unseen.

(** The order in which a loop ranges over a map. *)
Record shuffle (E : Type) := mkShuffle {
  order : list (string * E) → list (string * E);
  order_perm : ∀ l, order l ≡ₚ l;
}.
Arguments mkShuffle {E} order order_perm.
Arguments order {E} s l.

(** What the environment decides at one action: the time that passed, the
    fate of a statement, a generated row id, the rows of [plex_servers]
    (id, enabled, created_at), plex.tv's answer, two iteration orders. *)
Record choice := mkChoice {
  advance : N; outcome_ : fate; uuid : string; server_rows : list (string * bool * Z);
  tv : tv_answer; acct_order : shuffle acctEntry; cli_order : shuffle cliEntry;
}.

Definition done_ (c : choice) : bool := match outcome_ c with Done => true | _ => false end.
Definition effect (c : choice) : bool := match outcome_ c with Lost => false | _ => true end.

(** [ORDER BY created_at DESC LIMIT 1] over the enabled rows. *)
Definition newest_enabled (rows : list (string * bool * Z)) : option string :=
  match filter (λ r, r.1.2 = true) rows with
  | [] => None
  | r :: l => Some (best_of (λ a b, b.2 <? a.2) r l).1.1
  end.

Definition enabledServer (c : choice) (now : Z) (m : caches) : caches * string :=
  if negb (server m =s "") && (now - srvAt m <? Minute) then (m, server m)
  else if negb (done_ c) then (m, "")
  else match newest_enabled (server_rows c) with
       | None => (m, "")
       | Some id => (mkCaches (acct m) (cli m) id now, id)
       end.

(** The loop of the two evictions: the first entry, then any older one. *)
Definition oldest {E} (at_ : E → Z) (l : list (string * E)) : string :=
  match l with
  | [] => ""
  | e :: r => (best_of (λ a b, at_ a.2 <? at_ b.2) e r).1
  end.
Definition evictAcctLocked (c : choice) (m : gmap string acctEntry) : gmap string acctEntry :=
  delete (oldest a_at (order (acct_order c) (map_to_list m))) m.
Definition evictCliLocked (c : choice) (m : gmap string cliEntry) : gmap string cliEntry :=
  delete (oldest c_at (order (cli_order c) (map_to_list m))) m.

(** The locked end of [Resolve]. *)
Definition remember (c : choice) (fingerprint : string) (a : option acctEntry) (identifier clientID : string)
    (now : Z) (m : caches) : caches :=
  let ac := match a with
            | None => acct m
            | Some e => <[fingerprint := e]>
                          (if (memMax <=? size (acct m))%nat then evictAcctLocked c (acct m) else acct m)
            end in
  if identifier =s "" then mkCaches ac (cli m) (server m) (srvAt m)
  else
    let cl := if (memMax <=? size (cli m))%nat then evictCliLocked c (cli m) else cli m in
    let cl := if clientID =s "" then cl else <[cliKey fingerprint identifier := mkCli clientID now]> cl in
    mkCaches ac cl (server m) (srvAt m).

(** *** The statements *)

Definition of_account (sv : string) (account : Z) (i : identity) : bool :=
  (i_server i =s sv) && (i_account i =? account).

Definition selectLink (t : tables) (sv fp : string) : option linkRow :=
  match links t !! (sv, fp) with
  | None => None
  | Some l =>
      let account := match l_identity l with
                     | None => None
                     | Some id => i_account <$> find (λ i, i_id i =s id) (identities t)
                     end in
      Some (mkLinkRow (l_identity l) account (l_status l) (l_validated l))
  end.

Definition insertIdentity (id sv : string) (account : Z) (username : string) (t : tables) : tables :=
  if existsb (of_account sv account) (identities t) then t
  else mkTables (links t) (identities t ++ [mkIdentity id sv account username]) (instances t) (bindings t).

Definition selectIdentity (sv : string) (account : Z) (t : tables) : option string :=
  i_id <$> find (of_account sv account) (identities t).

Definition updateIdentity (id username : string) (t : tables) : tables :=
  mkTables (links t)
    ((λ i, if i_id i =s id then mkIdentity (i_id i) (i_server i) (i_account i) username else i) <$> identities t)
    (instances t) (bindings t).

Definition set_link (sv fp : string) (l : link) (t : tables) : tables :=
  mkTables (<[(sv, fp) := l]> (links t)) (identities t) (instances t) (bindings t).
Definition upsertLink (now : Z) (sv fp iid : string) : tables → tables :=
  set_link sv fp (mkLink (nullIfEmpty iid) "valid" now (Some now)).
Definition markInvalid (now : Z) (sv fp : string) : tables → tables :=
  set_link sv fp (mkLink None "invalid" now (Some now)).
Definition touchLink (now : Z) (sv fp : string) (t : tables) : tables :=
  match links t !! (sv, fp) with
  | Some l => if l_seen l <? now - Hour
              then set_link sv fp (mkLink (l_identity l) (l_status l) now (l_validated l)) t else t
  | None => t
  end.

Definition columns (c : Client) : list (option string) :=
  nullIfEmpty <$> [Product c; Version c; Platform c; Device c; Model c].
Definition upsertClient (now : Z) (id sv : string) (c : Client) (t : tables) : tables * string :=
  let id := match instances t !! (sv, Identifier c) with Some n => n_id n | None => id end in
  (mkTables (links t) (identities t)
     (<[(sv, Identifier c) := mkInstance id (columns c) now]> (instances t)) (bindings t), id).
Definition upsertBinding (now : Z) (iid cid : string) (t : tables) : tables :=
  mkTables (links t) (identities t) (instances t) (<[(iid, cid) := now]> (bindings t)).

(** Generated row ids are new. *)
Definition fresh_id (id : string) (t : tables) : bool :=
  negb (id =s "") && forallb (λ i, negb (i_id i =s id)) (identities t) &&
  forallb (λ n, negb (n_id n.2 =s id)) (map_to_list (instances t)).

Definition exec (c : choice) (w0 : world) (o : op) : option (world * resp o) :=
  let now := clock w0 + Z.of_N (advance c) in
  let w := mkWorld (mem w0) (db w0) now (log w0) in
  let with_mem m := mkWorld m (db w) now (log w) in
  let with_db t := mkWorld (mem w) (if effect c then t else db w) now (log w) in
  match o return option (world * resp o) with
  | Now => Some (w, now)
  | MemGet fp key => Some (w, (acct (mem w) !! fp, cli (mem w) !! key))
  | MemClient key e =>
      Some (with_mem (mkCaches (acct (mem w)) (<[key := e]> (cli (mem w))) (server (mem w)) (srvAt (mem w))), tt)
  | Remember fp a identifier cid at_ => Some (with_mem (remember c fp a identifier cid at_ (mem w)), tt)
  | EnabledServer => let '(m, id) := enabledServer c now (mem w) in Some (with_mem m, id)
  | SelectLink sv fp => Some (w, if done_ c then selectLink (db w) sv fp else None)
  | GetUser fp tok => Some (mkWorld (mem w) (db w) now ((now, fp, tok, tv c) :: log w), tv c)
  | InsertIdentity sv a n =>
      if fresh_id (uuid c) (db w) then Some (with_db (insertIdentity (uuid c) sv a n (db w)), done_ c) else None
  | SelectIdentity sv a => Some (w, if done_ c then selectIdentity sv a (db w) else None)
  | UpdateIdentity id n => Some (with_db (updateIdentity id n (db w)), tt)
  | UpsertLink sv fp iid => Some (with_db (upsertLink now sv fp iid (db w)), tt)
  | MarkInvalid sv fp => Some (with_db (markInvalid now sv fp (db w)), tt)
  | TouchLink sv fp => Some (with_db (touchLink now sv fp (db w)), tt)
  | UpsertClient sv cl =>
      if fresh_id (uuid c) (db w)
      then let '(t, id) := upsertClient now (uuid c) sv cl (db w) in
           Some (with_db t, if done_ c then Some id else None)
      else None
  | UpsertBinding iid cid => Some (with_db (upsertBinding now iid cid (db w)), tt)
  end.

(** ** Calls *)

(** Every caller fingerprints the token it passes with its own secret. *)
Record call := mkCall { resolver : option Resolver; secret_ : string; token_ : string; client_ : Client }.
Definition fp_ (k : call) : string := Trace.Fingerprint (secret_ k) (token_ k).
Definition program (k : call) : code Resolved := Resolve (resolver k) (fp_ k) (token_ k) (client_ k).

(** An installation starts with empty tables; a restart keeps them. *)
Definition boot (w : world) : Prop :=
  mem w = New ∧ db w = mkTables ∅ [] ∅ ∅ ∧ log w = [].
Definition restart (w : world) : world := mkWorld New (db w) (clock w) (log w).

Notation reached := (reached program exec boot restart).


(** ** Invariants *)

(** plex.tv named an account for the fingerprint at [g]; it rejected the
    credential at [g]. *)
Definition proved (w : world) (fp : string) (g : Z) : Prop :=
  ∃ tok id name, id ≠ 0 ∧ (g, fp, tok, TvUser id name) ∈ log w.
Definition refused (w : world) (fp : string) (g : Z) : Prop :=
  ∃ tok a, isAuthFailure a = true ∧ (g, fp, tok, a) ∈ log w.

(** [P] held at an instant not after [v]. *)
Definition by_ (P : Z → Prop) (v : Z) : Prop := ∃ g, g <= v ∧ P g.

Definition link_ok (w : world) (fp : string) (iid : option string) (status : string) (val : option Z) : Prop :=
  ∃ v, val = Some v ∧ v <= clock w ∧
    (status = "valid" ∧ by_ (proved w fp) v ∨ status = "invalid" ∧ iid = None ∧ by_ (refused w fp) v).

(** The parts of a resolution agree. *)
Definition shaped (fp scope iid : string) (account : Z) (known fresh invalid : bool) : Prop :=
  if known then iid ≠ "" ∧ scope = "acct:" +:+ Itoa account ∧ invalid = false
  else iid = "" ∧ account = 0 ∧ scope = "tok:" +:+ fp ∧ fresh = false.
Definition entry_shaped (fp : string) (e : acctEntry) : Prop :=
  shaped fp (a_scope e) (a_identityID e) (a_accountID e) (a_known e) (a_fresh e) (a_invalid e).
Definition res_shaped (fp : string) (r : Resolved) : Prop :=
  shaped fp (Scope r) (IdentityID r) (AccountID r) (Known r) (Fresh r) (Invalid r).

(** [P] was on record at an instant less than [d] before [at_]. *)
Definition recently (P : Z → Prop) (at_ d : Z) : Prop := ∃ v, at_ - v < d ∧ by_ P v.

Definition entry_ok (w : world) (fp : string) (e : acctEntry) : Prop :=
  entry_shaped fp e ∧
  (a_fresh e = true → recently (proved w fp) (a_at e) credentialValidityPeriod) ∧
  (a_invalid e = true → recently (refused w fp) (a_at e) revalidateAfter).

(** The cached instance is the row of the device in the key. *)
Definition instance_of (w : world) (identifier id : string) : Prop :=
  ∃ sv n, instances (db w) !! (sv, identifier) = Some n ∧ n_id n = id.
Definition cli_ok (w : world) (key : string) (e : cliEntry) : Prop :=
  ∃ fp identifier, key = cliKey fp identifier ∧ free_of NUL fp ∧ instance_of w identifier (c_clientID e).

Record I (w : world) : Prop := mkI {
  I_links : ∀ sv fp l, links (db w) !! (sv, fp) = Some l → link_ok w fp (l_identity l) (l_status l) (l_validated l);
  I_acct : ∀ fp e, acct (mem w) !! fp = Some e → entry_ok w fp e;
  I_cli : ∀ key e, cli (mem w) !! key = Some e → cli_ok w key e;
  I_size : (size (acct (mem w)) <= memMax)%nat;
  I_instances : ∀ k n k' n', instances (db w) !! k = Some n → instances (db w) !! k' = Some n' →
    n_id n = n_id n' → k = k';
}.

(** What a call may rely on about its own past actions. *)
Definition fact (w : world) (e : event resp) (h : list (event resp)) : Prop :=
  match e with
  | Ev o x =>
      match o as o return resp o → Prop with
      | Now => λ t, t <= clock w ∧ ∀ t', Ev Now t' ∈ h → t' <= t
      | MemGet fp key => λ m,
          (∀ a, m.1 = Some a → entry_ok w fp a) ∧ (∀ c, m.2 = Some c → cli_ok w key c)
      | SelectLink sv fp => λ row,
          ∀ l, row = Some l → link_ok w fp (r_identity l) (r_status l) (r_validated l)
      | GetUser fp tok => λ a,
          ∃ g, (g, fp, tok, a) ∈ log w ∧ g <= clock w ∧ ∀ t', Ev Now t' ∈ h → t' <= g
      | UpsertClient sv cl => λ id, ∀ i, id = Some i → instance_of w (Identifier cl) i
      | _ => λ _, True
      end x
  end.

(** The grounds, among its past actions, on which a call at [at_] calls a
    credential fresh or rejected. *)
Definition asked (h : list (event resp)) (fp : string) (at_ : Z) (P : tv_answer → Prop) : Prop :=
  ∃ tok a h', seen h (Ev (GetUser fp tok) a) h' ∧ P a ∧ Ev Now at_ ∈ h'.
Definition on_record (h : list (event resp)) (fp : string) (at_ d : Z) (P : string → Prop) : Prop :=
  ∃ sv l v t h', Ev (SelectLink sv fp) (Some l) ∈ h ∧ P (r_status l) ∧ r_validated l = Some v ∧
    t - v < d ∧ seen h (Ev Now t) h' ∧ Ev Now at_ ∈ h'.
Definition named (a : tv_answer) : Prop := ∃ id name, a = TvUser id name ∧ id ≠ 0.
Definition auth_failure (a : tv_answer) : Prop := isAuthFailure a = true.

Definition fresh_ground (h : list (event resp)) (fp : string) (at_ : Z) : Prop :=
  asked h fp at_ named ∨ on_record h fp at_ credentialValidityPeriod (λ st, st ≠ "invalid").
Definition invalid_ground (h : list (event resp)) (fp : string) (at_ : Z) : Prop :=
  asked h fp at_ auth_failure ∨ on_record h fp at_ revalidateAfter (λ st, st = "invalid").

Definition recorded (h : list (event resp)) (identifier id : string) : Prop :=
  ∃ sv cl, Identifier cl = identifier ∧ Ev (UpsertClient sv cl) (Some id) ∈ h.

Definition grounded (h : list (event resp)) (fp : string) (at_ : Z) (r : Resolved) : Prop :=
  res_shaped fp r ∧ (Fresh r = true → fresh_ground h fp at_) ∧ (Invalid r = true → invalid_ground h fp at_).

(** The guard each action meets. *)
Definition K (k : call) (h : list (event resp)) (o : op) : Prop :=
  match o with
  | UpsertLink sv fp iid => ∃ tok a, Ev (GetUser fp tok) a ∈ h ∧ named a
  | MarkInvalid sv fp => ∃ tok a, Ev (GetUser fp tok) a ∈ h ∧ auth_failure a
  | MemClient key e => ∃ identifier, key = cliKey (fp_ k) identifier ∧ recorded h identifier (c_clientID e)
  | Remember fp a identifier cid at_ =>
      fp = fp_ k ∧
      (∀ e, a = Some e → ∃ r, e = entry_of r at_ ∧ grounded h fp at_ r) ∧
      (cid ≠ "" → recorded h identifier cid)
  | _ => True
  end.


(** The result of a call, in terms of its own actions. *)
Definition Q (k : call) (h : list (event resp)) (r : Resolved) : Prop :=
  let fp := fp_ k in
  let key := cliKey fp (Identifier (client_ k)) in
  (resolver k = None ∨ fp = "") ∧ r = fallback fp ∨
  ∃ t0 m, Ev Now t0 ∈ h ∧ last h = Some (Ev Now t0) ∧ Ev (MemGet fp key) m ∈ h ∧
    (grounded h fp t0 r ∨
     ∃ a, m.1 = Some a ∧ t0 - a_at a < memTTL ∧ r = with_client a (ClientID r)) ∧
    (ClientID r ≠ "" →
     recorded h (Identifier (client_ k)) (ClientID r) ∨
     ∃ c, m.2 = Some c ∧ c_clientID c = ClientID r).

(** ** Every program meets the guard *)

Lemma ext_asked h h' fp at_ P : ext h h' → asked h fp at_ P → asked h' fp at_ P.
Proof. intros He (tok & a & p & H & ?). exists tok, a, p. split; [by eapply ext_seen|done]. Qed.
Lemma ext_on_record h h' fp at_ d P : ext h h' → on_record h fp at_ d P → on_record h' fp at_ d P.
Proof.
  intros He (sv & l & v & t & p & H1 & H2 & H3 & H4 & H5 & H6). exists sv, l, v, t, p.
  split; [by eapply ext_in|]. do 3 (split; [done|]). split; [by eapply ext_seen|done].
Qed.
Lemma ext_fresh h h' fp at_ : ext h h' → fresh_ground h fp at_ → fresh_ground h' fp at_.
Proof. intros He [H|H]; [left; by eapply ext_asked|right; by eapply ext_on_record]. Qed.
Lemma ext_invalid h h' fp at_ : ext h h' → invalid_ground h fp at_ → invalid_ground h' fp at_.
Proof. intros He [H|H]; [left; by eapply ext_asked|right; by eapply ext_on_record]. Qed.
Lemma ext_recorded h h' i id : ext h h' → recorded h i id → recorded h' i id.
Proof. intros He (sv & cl & ? & H). exists sv, cl. split; [done|]. by eapply ext_in. Qed.
Lemma ext_grounded h h' fp at_ r : ext h h' → grounded h fp at_ r → grounded h' fp at_ r.
Proof. intros He (H1 & H2 & H3). repeat split; eauto using ext_fresh, ext_invalid. Qed.

#[local] Hint Resolve ext_cons ext_cons_r ext_in ext_seen ext_recorded ext_fresh ext_invalid : core.

Lemma fallback_grounded h fp at_ : grounded h fp at_ (fallback fp).
Proof. repeat split; discriminate. Qed.
Lemma rejected_grounded h fp at_ : invalid_ground h fp at_ → grounded h fp at_ (rejected fp).
Proof. by repeat split. Qed.
Lemma associated_grounded h fp at_ iid cid acc fr deg :
  iid ≠ "" → (fr = true → fresh_ground h fp at_) → grounded h fp at_ (associated iid cid acc fr deg).
Proof. by repeat split. Qed.

Section guards.
Context (k : call).
Notation al p h Q := (always (K k) p h Q).

Lemma recordClient_safe sv iid cl h :
  al (recordClient sv iid cl) h (λ h' id, ext h h' ∧ (id ≠ "" → recorded h' (Identifier cl) id)).
Proof.
  unfold recordClient. case_match; [by split|]. cbn [always pbind act]. split; [done|].
  intros [id|]; [|split; [auto|done]].
  assert (Hr : recorded (Ev (UpsertClient sv cl) (Some id) :: h) (Identifier cl) id).
  { exists sv, cl. split; [done|]. set_solver. }
  destruct (_ || _); cbn [always pbind act]; [split; auto|]. split; [done|]. intros x. split; [auto|].
  intros _. eapply ext_recorded; [|done]. auto.
Qed.

Lemma resolveClient_safe r iid cl h :
  al (resolveClient r iid cl) h (λ h' id, ext h h' ∧ (id ≠ "" → recorded h' (Identifier cl) id)).
Proof.
  unfold resolveClient. case_match; [by split|]. cbn [always pbind act]. split; [done|].
  intros sv. case_match; [split; [auto|done]|]. eapply always_mono; [done| |apply recordClient_safe].
  cbn. intros h' id [He Hr]. split; [|done]. etransitivity; [|done]. auto.
Qed.

Lemma upsertIdentity_safe sv a n h : al (upsertIdentity sv a n) h (λ h' _, ext h h').
Proof.
  unfold upsertIdentity. cbn [always pbind act]. split; [done|]. intros []; cbn [negb always pbind act]; [|auto].
  split; [done|]. intros [id|]; cbn [always pbind act]; [|auto]. split; [done|]. auto.
Qed.

(** What the cold path returns, for a call that started at [t0]. *)
Definition cold_ok (fp identifier : string) (t0 : Z) (h h' : list (event resp)) (res : Resolved * bool) : Prop :=
  ext h h' ∧ grounded h' fp t0 res.1 ∧ (ClientID res.1 ≠ "" → recorded h' identifier (ClientID res.1)).

Lemma cold_ok_ext fp i t0 h0 h h' res : ext h0 h → cold_ok fp i t0 h h' res → cold_ok fp i t0 h0 h' res.
Proof. intros He (H1 & H2). split; [|done]. by etransitivity. Qed.

Lemma cold_ok_plain fp i t0 h h' r b :
  ext h h' → grounded h' fp t0 r → ClientID r = "" → cold_ok fp i t0 h h' (r, b).
Proof. intros ? ? E. split; [done|]. split; [done|]. cbn. by rewrite E. Qed.

Lemma bindAccount_safe sv fp cl id name t0 h :
  asked h fp t0 named →
  al (bindAccount sv fp cl id name) h (cold_ok fp (Identifier cl) t0 h).
Proof.
  intros Ha. unfold bindAccount. apply always_bind. eapply always_mono; [done| |apply upsertIdentity_safe].
  cbn. intros h1 iid He. split.
  { destruct Ha as (tok & a & p & Hs%seen_in & Hn & _). exists tok, a. split; [by eapply ext_in|done]. }
  intros u. destruct (String.eqb_spec iid "") as [->|Hne]; cbn [always pbind act].
  { apply cold_ok_plain; auto using fallback_grounded. }
  apply always_bind. eapply always_mono; [done| |apply recordClient_safe].
  cbn. intros h2 c [He2 Hc]. assert (Hh : ext h h2) by (etransitivity; [|done]; auto).
  split; [done|]. split; [|done]. apply associated_grounded; [done|]. intros _. left. by eapply ext_asked.
Qed.

Lemma rejection_safe sv fp i t0 h :
  asked h fp t0 auth_failure →
  al (do act (MarkInvalid sv fp) ;; Ret (rejected fp, true)) h (cold_ok fp i t0 h).
Proof.
  intros Ha. cbn [always pbind act]. split.
  { destruct Ha as (tok & a & p & Hs%seen_in & Hn & _). by exists tok, a. }
  intros u. apply cold_ok_plain; auto. apply rejected_grounded. left. eapply ext_asked; [|done]. auto.
Qed.

Lemma resolveLive_safe r sv fp tok cl t0 h :
  Ev Now t0 ∈ h → al (resolveLive r sv fp tok cl) h (cold_ok fp (Identifier cl) t0 h).
Proof.
  intros Ht. unfold resolveLive.
  destruct (negb (hasTV r) || (tok =s "")); [apply cold_ok_plain; auto using fallback_grounded; reflexivity|].
  cbn [always pbind act]. split; [done|]. intros a.
  assert (Hask : ∀ P : _ → Prop, P a → asked (Ev (GetUser fp tok) a :: h) fp t0 P).
  { intros P HP. exists tok, a, h. split; [apply seen_now|done]. }
  assert (Hel : ∀ p, al p (Ev (GetUser fp tok) a :: h) (cold_ok fp (Identifier cl) t0 (Ev (GetUser fp tok) a :: h)) →
            al p (Ev (GetUser fp tok) a :: h) (cold_ok fp (Identifier cl) t0 h)).
  { intros p. apply always_mono; [done|]. intros h' x. apply cold_ok_ext. auto. }
  destruct a as [id name|code|]; cbn [isAuthFailure].
  - destruct (Z.eqb_spec id 0); [apply cold_ok_plain; auto using fallback_grounded|].
    apply Hel, bindAccount_safe, Hask. by exists id, name.
  - destruct ((code =? 401) || (code =? 403)) eqn:E; [apply Hel, rejection_safe, Hask, E|].
    apply cold_ok_plain; [auto| |done]. repeat split; discriminate.
  - apply cold_ok_plain; [auto| |done]. repeat split; discriminate.
Qed.

Lemma within_safe t0 v d h :
  Ev Now t0 ∈ h →
  al (within v d) h (λ h' b, ext h h' ∧ (b = true → ∃ u t p, v = Some u ∧ t - u < d ∧
    seen h' (Ev Now t) p ∧ Ev Now t0 ∈ p)).
Proof.
  intros Ht. unfold within. destruct v as [u|]; cbn [always pbind act]; [|by split].
  split; [done|]. intros t. split; [auto|]. intros E. exists u, t, h. zbool.
  split; [done|]. split; [done|]. split; [apply seen_now|done].
Qed.

Lemma association_safe sv i cl fp a fr deg b t0 h h2 :
  i ≠ "" → ext h h2 → (∀ h', ext h2 h' → fr = true → fresh_ground h' fp t0) →
  al (recordClient sv i cl) h2 (λ h' c, ∀ h'', ext h' h'' →
    cold_ok fp (Identifier cl) t0 h h'' (associated i c a fr deg, b)).
Proof.
  intros Hi He Hf. eapply always_mono; [done| |apply recordClient_safe]. cbn. intros h3 c [He3 Hc] h4 He4.
  assert (ext h2 h4) by (by transitivity h3). split; [by transitivity h2|].
  split; [apply associated_grounded; auto|]. intros Hne. apply (ext_recorded h3); [done|]. by apply Hc.
Qed.

Lemma resolveLinked_safe r sv fp tok cl i a l t0 h :
  Ev Now t0 ∈ h → i ≠ "" → Ev (SelectLink sv fp) (Some l) ∈ h → r_status l ≠ "invalid" →
  al (resolveLinked r sv fp tok cl i a (r_validated l)) h (cold_ok fp (Identifier cl) t0 h).
Proof.
  intros Ht Hi Hl Hst. unfold resolveLinked. apply always_bind.
  eapply always_mono; [done| |by apply within_safe]. cbn. intros h1 fr [He Hfr].
  assert (Hg : ∀ h', ext h1 h' → fr = true → fresh_ground h' fp t0).
  { intros h' He' E. destruct (Hfr E) as (u & t & p & ? & ? & ? & ?). right. exists sv, l, u, t, p.
    split; [eapply ext_in; [|done]; by etransitivity|]. do 3 (split; [done|]). split; [by eapply ext_seen|done]. }
  destruct (fr || negb (hasTV r) || (tok =s "")) eqn:Ef.
  { apply always_bind. eapply always_mono; [done| |by apply (association_safe sv i cl fp a fr false true t0 h)].
    cbn. intros h2 c Hok. split; [done|]. intros u. apply Hok. auto. }
  cbn [always pbind act]. split; [done|]. intros ans.
  assert (He1 : ext h (Ev (GetUser fp tok) ans :: h1)) by auto.
  assert (Hask : ∀ P : _ → Prop, P ans → asked (Ev (GetUser fp tok) ans :: h1) fp t0 P).
  { intros P HP. exists tok, ans, h1. split; [apply seen_now|]. split; [done|]. by eapply ext_in. }
  assert (Hel : ∀ p, al p (Ev (GetUser fp tok) ans :: h1) (cold_ok fp (Identifier cl) t0 (Ev (GetUser fp tok) ans :: h1)) →
            al p (Ev (GetUser fp tok) ans :: h1) (cold_ok fp (Identifier cl) t0 h)).
  { intros p. apply always_mono; [done|]. intros h' x. by apply cold_ok_ext. }
  assert (Hdeg : al (c <~ recordClient sv i cl ;; Ret (associated i c a false true, false))
                   (Ev (GetUser fp tok) ans :: h1) (cold_ok fp (Identifier cl) t0 h)).
  { apply always_bind. eapply always_mono; [done| |by apply (association_safe sv i cl fp a false true false t0 h)].
    cbn. intros h2 c Hok. by apply Hok. }
  destruct ans as [id name|code|]; cbn [isAuthFailure]; [| |apply Hdeg].
  - destruct (Z.eqb_spec id 0); cbn [negb]; [apply Hdeg|]. apply Hel, bindAccount_safe, Hask. by exists id, name.
  - destruct ((code =? 401) || (code =? 403)) eqn:E; [apply Hel, rejection_safe, Hask, E|apply Hdeg].
Qed.

Lemma resolveCold_safe r fp tok cl t0 h :
  Ev Now t0 ∈ h → al (resolveCold r fp tok cl) h (cold_ok fp (Identifier cl) t0 h).
Proof.
  intros Ht. unfold resolveCold.
  assert (Hfb : ∀ h', ext h h' → cold_ok fp (Identifier cl) t0 h h' (fallback fp, true)).
  { intros h' He. apply cold_ok_plain; auto using fallback_grounded. }
  destruct (negb (hasDB r)); [by apply Hfb|]. cbn [always pbind act]. split; [done|]. intros sv.
  destruct (sv =s ""); [apply Hfb; auto|]. cbn [always pbind act]. split; [done|]. intros row.
  set (h2 := Ev (SelectLink sv fp) row :: _). assert (He : ext h h2) by (unfold h2; auto).
  assert (Ht2 : Ev Now t0 ∈ h2) by (by eapply ext_in).
  assert (Hup : ∀ h3 p, ext h h3 → al p h3 (cold_ok fp (Identifier cl) t0 h3) → al p h3 (cold_ok fp (Identifier cl) t0 h)).
  { intros h3 p He3. apply always_mono; [done|]. intros h' x. by apply cold_ok_ext. }
  cbv zeta. destruct row as [l|]; cbn [String.eqb]; [|by apply Hup, resolveLive_safe].
  assert (Hl : Ev (SelectLink sv fp) (Some l) ∈ h2) by (unfold h2; set_solver).
  destruct (String.eqb_spec (r_status l) "invalid") as [Hst|Hst].
  - apply always_bind. eapply always_mono; [done| |by apply within_safe]. cbn. intros h3 rec [He3 Hrec].
    assert (ext h h3) by (by transitivity h2). destruct rec; [|by apply Hup, resolveLive_safe; eauto].
    apply cold_ok_plain; [done| |done]. apply rejected_grounded. right.
    destruct (Hrec eq_refl) as (u & t & p & ? & ? & ? & ?). exists sv, l, u, t, p. split; [by apply (ext_in h2)|done].
  - destruct l as [[i|] [a|] st v]; try (by apply Hup, resolveLive_safe).
    destruct (String.eqb_spec i ""); [by apply Hup, resolveLive_safe|].
    apply Hup; [done|]. by apply (resolveLinked_safe r sv fp tok cl i a (mkLinkRow (Some i) (Some a) st v)).
Qed.
End guards.

Lemma last_ext {E} (h h' : list E) e : ext h h' → last h = Some e → last h' = Some e.
Proof. intros [l ->] H. rewrite last_app. by rewrite H. Qed.

Lemma Resolve_safe k : always (K k) (program k) [] (Q k).
Proof.
    unfold program, Resolve. destruct (resolver k) as [r|] eqn:Er; [|left; split; [by left|done]].
  destruct (String.eqb_spec (fp_ k) "") as [Hfp|Hfp]; [left; split; [by right|done]|].
  set (fp := fp_ k) in *. set (tok := token_ k). set (cl := client_ k).
  cbn [always pbind act]. split; [done|]. intros t0. split; [done|]. intros m.
  set (h0 := [Ev (MemGet _ _) m; Ev Now t0]).
  assert (Hb : ∀ h', ext h0 h' → Ev Now t0 ∈ h' ∧ last h' = Some (Ev Now t0) ∧ Ev (MemGet fp (cliKey fp (Identifier cl))) m ∈ h').
  { intros h' He. split; [eapply ext_in; [done|]; unfold h0; set_solver|].
    split; [by eapply last_ext|]. eapply ext_in; [done|]. unfold h0. set_solver. }
  assert (Hcold : always (K k) (res <~ resolveCold r fp tok cl;;
      (let '(res, store) := res in
       do act (Remember fp (if store : bool then Some (entry_of res t0) else None) (Identifier cl) (ClientID res) t0) ;;
       Ret res)) h0 (Q k)).
  { apply always_bind. eapply always_mono; [done| |apply (resolveCold_safe k r fp tok cl t0); unfold h0; set_solver].
    intros h1 [res store] (He & Hg & Hc). cbn [always pbind act] in *. split.
    - split; [done|]. split; [|done]. intros e E. destruct store; [|done]. injection E as <-. by exists res.
    - intros u. assert (He' := ext_cons_r (Ev (Remember fp (if store then Some (entry_of res t0) else None)
        (Identifier cl) (ClientID res) t0) u) _ _ He).
      destruct (Hb _ He') as (? & ? & ?). right. exists t0, m. do 3 (split; [done|]).
      split; [left; eapply ext_grounded; [|done]; auto|]. intros Hne. left. eapply ext_recorded; [|by apply Hc]. auto. }
  assert (Hwarm : ∀ a cid h', m.1 = Some a → t0 - a_at a < memTTL → ext h0 h' →
    (cid ≠ "" → recorded h' (Identifier cl) cid ∨ ∃ c, m.2 = Some c ∧ c_clientID c = cid) → Q k h' (with_client a cid)).
  { intros a cid h' Ea Hlt He Hc. destruct (Hb _ He) as (? & ? & ?). right. exists t0, m. do 3 (split; [done|]).
    split; [right; by exists a|done]. }
  destruct (m.1) as [a|] eqn:Ea; [|exact Hcold].
  destruct (t0 - a_at a <? memTTL) eqn:Elt; [|exact Hcold]. zbool.
  destruct (String.eqb_spec (Identifier cl) "") as [Hid|Hid]; [by apply Hwarm|]. cbv zeta.
  assert (Hres : always (K k) (id <~ resolveClient r (a_identityID a) cl ;;
      (if id =s "" then Ret (with_client a id)
       else do act (MemClient (cliKey fp (Identifier cl)) (mkCli id t0)) ;; Ret (with_client a id))) h0 (Q k)).
  { apply always_bind. eapply always_mono; [done| |apply resolveClient_safe]. cbn. intros h1 id [He Hr].
    destruct (String.eqb_spec id "") as [->|Hne]; [by apply Hwarm|]. cbn [always pbind act]. split.
    - exists (Identifier cl). auto.
    - intros u. apply Hwarm; auto. intros _. left. eapply ext_recorded; [|by apply Hr]. auto. }
  destruct (m.2) as [c|] eqn:Ec; [|exact Hres].
  destruct (t0 - c_at c <? memTTL); [|exact Hres]. apply Hwarm; [done|done|reflexivity|]. intros _. right. by exists c.
Qed.


(** ** Every action keeps the invariant *)

(** Time passes, answers are only added, a device keeps its instance. *)
Definition grow (w w' : world) : Prop :=
  clock w <= clock w' ∧ (∀ a, a ∈ log w → a ∈ log w') ∧
  (∀ identifier id, instance_of w identifier id → instance_of w' identifier id).

Lemma grow_proved w w' fp g : grow w w' → proved w fp g → proved w' fp g.
Proof. intros (_ & H & _) (tok & id & name & ? & ?). exists tok, id, name. auto. Qed.
Lemma grow_refused w w' fp g : grow w w' → refused w fp g → refused w' fp g.
Proof. intros (_ & H & _) (tok & a & ? & ?). exists tok, a. auto. Qed.
Lemma by_mono (P P' : Z → Prop) v : (∀ g, P g → P' g) → by_ P v → by_ P' v.
Proof. intros H (g & ? & ?). exists g. auto. Qed.
Lemma recently_mono (P P' : Z → Prop) at_ d : (∀ g, P g → P' g) → recently P at_ d → recently P' at_ d.
Proof. intros H (v & ? & ?). exists v. split; [done|]. by eapply by_mono. Qed.

Lemma grow_entry w w' fp e : grow w w' → entry_ok w fp e → entry_ok w' fp e.
Proof.
  intros Hg (H1 & H2 & H3). split; [done|]. split; intros E.
  - eapply recently_mono; [|by apply H2]. intros g. by apply grow_proved.
  - eapply recently_mono; [|by apply H3]. intros g. by apply grow_refused.
Qed.
Lemma grow_link w w' fp i st v : grow w w' → link_ok w fp i st v → link_ok w' fp i st v.
Proof.
  intros Hg (u & -> & Hu & H). exists u. split; [done|]. split; [destruct Hg; lia|].
  destruct H as [[? H]|(? & ? & H)]; [left|right]; repeat (split; [done|]); (eapply by_mono; [|done]); intros g.
  - by apply grow_proved.
  - by apply grow_refused.
Qed.
Lemma grow_cli w w' key e : grow w w' → cli_ok w key e → cli_ok w' key e.
Proof. intros (_ & _ & H) (fp & i & ? & ? & ?). exists fp, i. auto. Qed.

Lemma upsertClient_instances now id sv cl t k n :
  instances t !! k = Some n → ∃ n', instances (upsertClient now id sv cl t).1 !! k = Some n' ∧ n_id n' = n_id n.
Proof.
  intros Hk. cbn. destruct (decide (k = (sv, Identifier cl))) as [->|Hne].
  - rewrite lookup_insert_eq, Hk. by eexists.
  - rewrite lookup_insert_ne by done. by exists n.
Qed.

Lemma exec_grow c w o w' x : exec c w o = Some (w', x) → grow w w'.
Proof.
  assert (Hsame : ∀ m t l, instances t = instances (db w) → (∀ a, a ∈ log w → a ∈ l) →
            grow w (mkWorld m t (clock w + Z.of_N (advance c)) l)).
  { intros m t l Ht Hl. split; [cbn; lia|]. split; [done|]. intros i id (sv & n & Hn & E). exists sv, n. cbn.
    by rewrite Ht. }
  destruct o; cbn; intros E; try (injection E as <- _; apply Hsame; [by destruct (effect c)|set_solver]).
  - destruct (enabledServer _ _ _) as [m id]. injection E as <- _. by apply Hsame.
  - destruct (fresh_id _ _); [|done]. injection E as <- _. apply Hsame; [|done].
    unfold insertIdentity. destruct (effect c); [|done]. by case_match.
  - injection E as <- _. apply Hsame; [|done]. unfold touchLink.
    destruct (effect c); [|done]. destruct (links (db w) !! _) as [l|]; [|done]. by destruct (_ <? _).
  - destruct (fresh_id _ _); [|done]. injection E as <- _. destruct (effect c); [|by apply Hsame].
    split; [cbn; lia|]. split; [done|]. intros i id (sv & n & Hn & E).
    destruct (upsertClient_instances (clock w + Z.of_N (advance c)) (uuid c) server0 c0 (db w) _ _ Hn) as (n' & Hn' & En).
    exists sv, n'. split; [exact Hn'|congruence].
Qed.

Lemma fact_stable c w o w' x e h : I w → exec c w o = Some (w', x) → fact w e h → fact w' e h.
Proof.
  intros _ He. apply exec_grow in He. destruct e as [o' y]. destruct o'; cbn; try done.
  - destruct He. intros [??]. split; [lia|done].
  - intros [Ha Hc]. split; intros ? E; eauto using grow_entry, grow_cli.
  - intros H l E. eauto using grow_link.
  - intros (g & Hg & ? & ?). destruct He as (? & Hl & _). exists g. split; [by apply Hl|]. split; [lia|done].
  - intros H i E. destruct He as (_ & _ & Hi). eauto.
Qed.


Lemma oldest_in {E} (at_ : E → Z) (sh : shuffle E) (m : gmap string E) :
  m ≠ ∅ → is_Some (m !! oldest at_ (order sh (map_to_list m))).
Proof.
  intros Hm. pose proof (order_perm _ sh (map_to_list m)) as Hp. unfold oldest.
  destruct (order sh (map_to_list m)) as [|e r] eqn:El.
  { symmetry in Hp. apply Permutation_nil_r, map_to_list_empty_iff in Hp. done. }
  pose proof (best_of_in (λ a b : string * E, at_ a.2 <? at_ b.2) e r) as Hb.
  set (b := best_of _ e r) in *. rewrite Hp in Hb. destruct b as [k v]. apply elem_of_map_to_list in Hb. by exists v.
Qed.

Lemma size_delete_lt {E} (m : gmap string E) k : is_Some (m !! k) → (size (delete k m) < size m)%nat.
Proof.
  intros Hk. rewrite map_size_delete_Some by done. assert (size m ≠ 0%nat); [|lia].
  rewrite map_size_non_empty_iff. intros ->. rewrite lookup_empty in Hk. by destruct Hk.
Qed.

Lemma size_insert_le {E} (m : gmap string E) k e : (size (<[k := e]> m) <= S (size m))%nat.
Proof. rewrite map_size_insert. case_match; unfold id; lia. Qed.

(** Insertion into a bounded cache after an eviction keeps the bound. *)
Lemma bounded_insert {E} (at_ : E → Z) (sh : shuffle E) (m : gmap string E) k e :
  (size m <= memMax)%nat →
  (size (<[k := e]> (if (memMax <=? size m)%nat then delete (oldest at_ (order sh (map_to_list m))) m else m))
     <= memMax)%nat.
Proof.
  intros Hm. destruct (Nat.leb_spec memMax (size m)) as [Hge|Hlt].
  - assert (Hne : m ≠ ∅). { intros ->. rewrite map_size_empty in Hge. unfold memMax in Hge. lia. }
    pose proof (size_delete_lt m _ (oldest_in at_ sh m Hne)).
    pose proof (size_insert_le (delete (oldest at_ (order sh (map_to_list m))) m) k e). lia.
  - pose proof (size_insert_le m k e). lia.
Qed.

(** The invariant after a change of the world, from what is new in it. *)
Lemma I_step w w' :
  grow w w' → I w →
  (∀ sv fp l, links (db w') !! (sv, fp) = Some l → links (db w) !! (sv, fp) = Some l ∨
     link_ok w' fp (l_identity l) (l_status l) (l_validated l)) →
  (∀ fp e, acct (mem w') !! fp = Some e → acct (mem w) !! fp = Some e ∨ entry_ok w' fp e) →
  (∀ key e, cli (mem w') !! key = Some e → cli (mem w) !! key = Some e ∨ cli_ok w' key e) →
  (size (acct (mem w')) <= memMax)%nat →
  (∀ k n k' n', instances (db w') !! k = Some n → instances (db w') !! k' = Some n' → n_id n = n_id n' → k = k') →
  I w'.
Proof.
  intros Hg HI Hl Ha Hc Hs Hn. split; [| | |done|done].
  - intros sv fp l E. destruct (Hl _ _ _ E) as [E'|]; [|done]. apply (grow_link w); [done|]. by eapply I_links.
  - intros fp e E. destruct (Ha _ _ E) as [E'|]; [|done]. apply (grow_entry w); [done|]. by eapply I_acct.
  - intros key e E. destruct (Hc _ _ E) as [E'|]; [|done]. apply (grow_cli w); [done|]. by eapply I_cli.
Qed.

Lemma I_same w w' : grow w w' → I w → mem w' = mem w → db w' = db w → I w'.
Proof.
  intros Hg HI Em Ed. apply (I_step w); [done..| | | | |]; rewrite ?Em, ?Ed; auto; [apply I_size|apply I_instances]; done.
Qed.

Lemma now_known w h t t' h' :
  facts fact w h → seen h (Ev Now t) h' → Ev Now t' ∈ h' → t' <= t.
Proof. intros Hf Hs Hin. destruct (Hf _ _ Hs) as [_ H]. by apply H. Qed.

Lemma asked_logged w h fp at_ P :
  facts fact w h → asked h fp at_ P → ∃ tok a g, (g, fp, tok, a) ∈ log w ∧ P a ∧ at_ <= g.
Proof.
  intros Hf (tok & a & h' & Hs & HP & Hin). destruct (Hf _ _ Hs) as (g & Hl & _ & Hg). exists tok, a, g. auto.
Qed.

(** A status on record, and the instant it was stamped. *)
Lemma on_record_stamped w h fp at_ d P :
  facts fact w h → on_record h fp at_ d P →
  ∃ st v, P st ∧ at_ - v < d ∧
    (st = "valid" ∧ by_ (proved w fp) v ∨ st = "invalid" ∧ by_ (refused w fp) v).
Proof.
  intros Hf (sv & l & v & t & h' & Hl & HP & Hv & Hd & Hs & Hin).
  pose proof (now_known _ _ _ _ _ Hf Hs Hin). apply (facts_in fact w h) in Hl as (h2 & _ & Hl); [|done].
  destruct (Hl l eq_refl) as (u & Hu & _ & Hok). rewrite Hv in Hu. injection Hu as <-.
  exists (r_status l), v. split; [done|]. split; [lia|]. naive_solver.
Qed.

Lemma fresh_sound w h fp at_ :
  facts fact w h → fresh_ground h fp at_ → recently (proved w fp) at_ credentialValidityPeriod.
Proof.
  intros Hf [H|H].
  - destruct (asked_logged _ _ _ _ _ Hf H) as (tok & a & g & Hl & (id & name & -> & Hid) & Hg).
    exists g. split; [unfold credentialValidityPeriod, Hour, Minute, Second; lia|].
    exists g. split; [lia|]. by exists tok, id, name.
  - destruct (on_record_stamped _ _ _ _ _ _ Hf H) as (st & v & Hne & Hd & [[_ ?]|[? _]]); [|done]. by exists v.
Qed.

Lemma invalid_sound w h fp at_ :
  facts fact w h → invalid_ground h fp at_ → recently (refused w fp) at_ revalidateAfter.
Proof.
  intros Hf [H|H].
  - destruct (asked_logged _ _ _ _ _ Hf H) as (tok & a & g & Hl & Ha & Hg).
    exists g. split; [unfold revalidateAfter, Hour, Minute, Second; lia|].
    exists g. split; [lia|]. by exists tok, a.
  - destruct (on_record_stamped _ _ _ _ _ _ Hf H) as (st & v & -> & Hd & [[? _]|[_ ?]]); [done|]. by exists v.
Qed.

Lemma grounded_entry w h fp at_ r :
  facts fact w h → grounded h fp at_ r → entry_ok w fp (entry_of r at_).
Proof. intros Hf (H1 & H2 & H3). split; [done|]. split; intros E; [by apply (fresh_sound w h), H2|by apply (invalid_sound w h), H3]. Qed.

Lemma recorded_instance w h identifier id : facts fact w h → recorded h identifier id → instance_of w identifier id.
Proof.
  intros Hf (sv & cl & <- & Hin). apply (facts_in fact w h) in Hin as (h' & _ & H); [|done]. by apply H.
Qed.


Lemma facts_stable c w o w' x h : I w → exec c w o = Some (w', x) → facts fact w h → facts fact w' h.
Proof. intros HI He Hf e h' Hs. eapply fact_stable; [done..|by apply Hf]. Qed.

(** A change of one link. *)
Lemma I_set_link w w' (b : bool) sv fp l :
  grow w w' → I w → mem w' = mem w → db w' = (if b then set_link sv fp l (db w) else db w) →
  link_ok w' fp (l_identity l) (l_status l) (l_validated l) → I w'.
Proof.
  intros Hg HI Em Ed Hl. destruct b; [|by eapply I_same].
  apply (I_step w); [done..| | | | |]; rewrite ?Em, ?Ed; auto; [|apply I_size, HI|apply I_instances, HI].
  intros sv' fp' l' E. cbn in E. destruct (decide ((sv, fp) = (sv', fp'))) as [[= -> ->]|Hne].
  - rewrite lookup_insert_eq in E. injection E as <-. by right.
  - rewrite lookup_insert_ne in E by done. by left.
Qed.

(** Changes of tables that no part of the invariant reads. *)
Lemma I_other w w' :
  grow w w' → I w → mem w' = mem w → links (db w') = links (db w) → instances (db w') = instances (db w) → I w'.
Proof.
  intros Hg HI Em El Ei. apply (I_step w); [done..| | | | |]; rewrite ?Em, ?El, ?Ei; auto; [apply I_size|apply I_instances]; done.
Qed.

Lemma fresh_id_instances id t k n : fresh_id id t = true → instances t !! k = Some n → n_id n ≠ id.
Proof.
  unfold fresh_id. intros E Hk. zbool. rewrite forallb_forall in H0.
  specialize (H0 (k, n)). cbn in H0. apply elem_of_map_to_list, list_elem_of_In in Hk. apply H0 in Hk. zbool. done.
Qed.

Lemma I_upsertClient w w' now id sv cl :
  grow w w' → I w → fresh_id id (db w) = true → mem w' = mem w → db w' = (upsertClient now id sv cl (db w)).1 → I w'.
Proof.
  intros Hg HI Hf Em Ed. apply (I_step w); [done..| | | | |]; rewrite ?Em, ?Ed; auto; [apply I_size, HI|].
  pose proof (I_instances w HI) as Hinj.
  assert (Hnew : ∀ k n, instances (upsertClient now id sv cl (db w)).1 !! k = Some n →
    (∃ n0, instances (db w) !! k = Some n0 ∧ n_id n0 = n_id n) ∨ (k = (sv, Identifier cl) ∧ n_id n = id)).
  { intros k n. cbn. destruct (decide ((sv, Identifier cl) = k)) as [<-|Hne].
    - rewrite lookup_insert_eq. intros [= <-]. cbn. destruct (instances (db w) !! _) as [n0|]; [left; by exists n0|by right].
    - rewrite lookup_insert_ne by done. intros H. left. by exists n. }
  intros k n k' n' H1 H2 E. apply Hnew in H1 as [(m & H1 & E1)|[-> E1]]; apply Hnew in H2 as [(m' & H2 & E2)|[-> E2]]; [| | |done].
  - eapply Hinj; [done..|congruence].
  - apply (fresh_id_instances _ _ _ _ Hf) in H1. congruence.
  - apply (fresh_id_instances _ _ _ _ Hf) in H2. congruence.
Qed.

Lemma Fingerprint_free secret token : free_of NUL (Trace.Fingerprint secret token).
Proof.
  unfold Trace.Fingerprint. destruct (_ || _); [done|].
  apply (all_chars_impl is_hex); [|apply EncodeToString_hex]. intros c. by destruct c as [[][][][][][][][]].
Qed.

Lemma I_remember w w' c k h fp a identifier cid at_ :
  grow w w' → I w → facts fact w' h → db w' = db w → mem w' = remember c fp a identifier cid at_ (mem w) →
  K k h (Remember fp a identifier cid at_) → I w'.
Proof.
  intros Hg HI Hf Ed Em (-> & Ha & Hc). apply (I_step w); [done..| | | | |]; rewrite ?Ed; auto; [| | |apply I_instances, HI].
  - intros f e E. rewrite Em in E. unfold remember in E.
    assert (E' : match a with None => acct (mem w) | Some e => <[fp_ k := e]>
        (if (memMax <=? size (acct (mem w)))%nat then evictAcctLocked c (acct (mem w)) else acct (mem w)) end !! f = Some e).
    { by destruct (identifier =s ""). }
    destruct a as [e'|]; [|by left]. destruct (decide (fp_ k = f)) as [<-|Hne].
    + rewrite lookup_insert_eq in E'. injection E' as <-. destruct (Ha _ eq_refl) as (r & -> & Hr).
      right. by eapply grounded_entry.
    + rewrite lookup_insert_ne in E' by done. left. destruct (memMax <=? _)%nat; [|done].
      unfold evictAcctLocked in E'. by apply lookup_delete_Some in E' as [_ ?].
  - intros key e E. rewrite Em in E. unfold remember in E. destruct (identifier =s ""); [by left|].
    cbn [cli] in E. assert (Hev : ∀ e, (if (memMax <=? size (cli (mem w)))%nat then evictCliLocked c (cli (mem w))
      else cli (mem w)) !! key = Some e → cli (mem w) !! key = Some e).
    { intros e0. destruct (memMax <=? _)%nat; [|done]. unfold evictCliLocked.
      intros H0. by apply lookup_delete_Some in H0 as [_ ?]. }
    destruct (String.eqb_spec cid "") as [|Hne]; [left; by apply Hev|].
    destruct (decide (cliKey (fp_ k) identifier = key)) as [<-|Hk].
    + rewrite lookup_insert_eq in E. injection E as <-. right. exists (fp_ k), identifier. split; [done|]. split; [apply Fingerprint_free|].
      eapply recorded_instance; [done|]. by apply Hc.
    + rewrite lookup_insert_ne in E by done. left. by apply Hev.
  - rewrite Em. unfold remember. pose proof (I_size w HI) as Hs.
    assert (Hb : (size (match a with None => acct (mem w) | Some e => <[fp_ k := e]>
        (if (memMax <=? size (acct (mem w)))%nat then evictAcctLocked c (acct (mem w)) else acct (mem w)) end) <= memMax)%nat).
    { destruct a; [|done]. by apply bounded_insert. }
    by destruct (identifier =s "").
Qed.


Lemma I_exec c w k h o w' x :
  I w → facts fact w h → K k h o → exec c w o = Some (w', x) → I w' ∧ fact w' (Ev o x) h.
Proof.
  intros HI Hf HK He. pose proof (exec_grow _ _ _ _ _ He) as Hg.
  pose proof (facts_stable _ _ _ _ _ h HI He Hf) as Hf'.
  assert (Htime : ∀ t', Ev Now t' ∈ h → t' <= clock w).
  { intros t' Ht. apply (facts_in fact w h) in Ht as (h' & _ & Ht & _); done. }
  destruct o; cbn in He.
  - injection He as <- <-. split; [by apply (I_same w)|]. cbn. split; [lia|]. intros t' Ht. apply Htime in Ht. lia.
  - injection He as <- <-. split; [by apply (I_same w)|]. split; cbn; intros e E.
    + apply (grow_entry w); [done|]. by eapply I_acct.
    + apply (grow_cli w); [done|]. by eapply I_cli.
  - injection He as <- <-. split; [|done].
    apply (I_step w); [done|done|by auto|by auto| |exact (I_size w HI)|exact (I_instances w HI)]. intros key e' E. cbn in E.
    destruct (decide (cliKey0 = key)) as [->|Hne].
    + rewrite lookup_insert_eq in E. injection E as <-. right. destruct HK as (i & -> & Hr).
      exists (fp_ k), i. split; [done|]. split; [apply Fingerprint_free|]. by eapply recorded_instance.
    + rewrite lookup_insert_ne in E by done. by left.
  - injection He as <- <-. split; [|done]. by eapply (I_remember w).
  - destruct (enabledServer _ _ _) as [m id] eqn:Es. injection He as <- <-. split; [|done].
    assert (Hm : acct m = acct (mem w) ∧ cli m = cli (mem w)).
    { unfold enabledServer in Es. destruct (_ && _); [by injection Es as <- _|]. destruct (negb _); [by injection Es as <- _|].
      destruct (newest_enabled _); by injection Es as <- _. }
    destruct Hm as [Ea Ec].
    apply (I_step w); [done|done|by auto| | | |exact (I_instances w HI)]; cbn; rewrite ?Ea, ?Ec; auto. exact (I_size w HI).
  - injection He as <- <-. split; [by apply (I_same w)|]. cbn. intros l E. destruct (done_ c); [|done].
    unfold selectLink in E. destruct (links (db w) !! _) as [l0|] eqn:El; [|done]. injection E as <-. cbn.
    apply (grow_link w); [done|]. by eapply I_links.
  - injection He as <- <-. split; [by apply (I_same w)|]. cbn. eexists. split; [apply list_elem_of_here|]. split; [done|].
    intros t' Ht. apply Htime in Ht. lia.
  - destruct (fresh_id _ _); [|done]. injection He as <- <-. split; [|done].
    apply (I_other w); [done..| |]; cbn; unfold insertIdentity; destruct (effect c); try done; by case_match.
  - injection He as <- <-. split; [by apply (I_same w)|done].
  - injection He as <- <-. split; [|done]. apply (I_other w); [done..| |]; cbn; by destruct (effect c).
  - injection He as <- <-. split; [|done]. eapply (I_set_link w); [done..|]. cbn. eexists. split; [done|]. split; [done|].
    left. split; [done|]. destruct HK as (tok & a & Hin & id & name & -> & Hid).
    apply (facts_in fact w h) in Hin as (h' & _ & g & Hl & Hg' & _); [|done].
    exists g. split; [cbn in *; lia|]. by exists tok, id, name.
  - injection He as <- <-. split; [|done]. eapply (I_set_link w); [done..|]. cbn. eexists. split; [done|]. split; [done|].
    right. split; [done|]. split; [done|]. destruct HK as (tok & a & Hin & Ha).
    apply (facts_in fact w h) in Hin as (h' & _ & g & Hl & Hg' & _); [|done].
    exists g. split; [cbn in *; lia|]. by exists tok, a.
  - injection He as <- <-. split; [|done]. unfold touchLink in Hg |- *.
    destruct (links (db w) !! _) as [l|] eqn:El; [|by apply (I_same w); destruct (effect c)].
    destruct (_ <? _); [|by apply (I_same w); destruct (effect c)].
    eapply (I_set_link w); [done..|]. cbn. apply (grow_link w); [done|]. by eapply I_links.
  - destruct (fresh_id _ _) eqn:Ef; [|done]. injection He as <- <-. split.
    + destruct (effect c) eqn:Eeff; [|by apply (I_same w)]. by eapply (I_upsertClient w).
    + cbn. intros i E. unfold done_, effect in *. destruct (outcome_ c); [|done..]. injection E as <-.
      exists server0. eexists. cbn. rewrite lookup_insert_eq. by split.
  - injection He as <- <-. split; [|done]. apply (I_other w); [done..| |]; cbn; by destruct (effect c).
Qed.

Lemma I_boot w : boot w → I w.
Proof.
  intros (Em & Ed & El). split; rewrite ?Em, ?Ed; cbn.
  - intros sv fp l H. by rewrite lookup_empty in H.
  - intros fp e H. by rewrite lookup_empty in H.
  - intros key e H. by rewrite lookup_empty in H.
  - rewrite map_size_empty. unfold memMax. lia.
  - intros k n k' n' H. by rewrite lookup_empty in H.
Qed.

Lemma I_restart w : I w → I (restart w).
Proof.
  intros HI. apply (I_step w); [|done|by auto| | | |exact (I_instances w HI)]; cbn.
  - split; [done|]. by split.
  - intros fp e H. by rewrite lookup_empty in H.
  - intros key e H. by rewrite lookup_empty in H.
  - rewrite map_size_empty. unfold memMax. lia.
Qed.

(** What holds of a call that returned. *)
Lemma resolved s n k h r :
  reached s → pool s !! n = Some (mkThread k (Ret r) h) →
  I (Threads.mem s) ∧ facts fact (Threads.mem s) h ∧ Q k h r.
Proof.
  apply (returned_safe program exec boot restart I fact K Q I_boot I_restart Resolve_safe fact_stable I_exec).
Qed.


(** ** Results *)

Lemma result_shaped w k h r : facts fact w h → Q k h r → res_shaped (fp_ k) r.
Proof.
  intros Hf [[_ ->]|(t0 & m & _ & _ & Hm & [(Hs & _)|(a & Ea & _ & ->)] & _)]; [done|done|].
  apply (facts_in fact w h) in Hm as (h' & _ & Ha & _); [|done]. by destruct (Ha _ Ea) as [? _].
Qed.

Lemma recently_cached (P : Z → Prop) t0 at_ d : t0 - at_ < memTTL → recently P at_ d → recently P t0 (d + memTTL).
Proof. intros Ht (v & Hv & HP). exists v. split; [lia|done]. Qed.
Lemma recently_weaken (P : Z → Prop) t0 d : recently P t0 d → recently P t0 (d + memTTL).
Proof. intros (v & Hv & HP). exists v. split; [unfold memTTL, Minute, Second; lia|done]. Qed.

Lemma result_grounds w k h r :
  facts fact w h → Q k h r → Fresh r = true ∨ Invalid r = true →
  ∃ t0, last h = Some (Ev Now t0) ∧
    (Fresh r = true → recently (proved w (fp_ k)) t0 (credentialValidityPeriod + memTTL)) ∧
    (Invalid r = true → recently (refused w (fp_ k)) t0 (revalidateAfter + memTTL)).
Proof.
  intros Hf [[_ ->]|(t0 & m & _ & Hlast & Hm & Hr & _)] Hor; [by destruct Hor|]. exists t0. split; [done|].
  destruct Hr as [(_ & H1 & H2)|(a & Ea & Hlt & ->)].
  - split; intros E; apply recently_weaken; [eapply fresh_sound|eapply invalid_sound]; eauto.
  - apply (facts_in fact w h) in Hm as (h' & _ & Ha & _); [|done]. destruct (Ha _ Ea) as (_ & H1 & H2).
    split; intros E; eapply recently_cached; eauto.
Qed.

Lemma cliKey_inj fp fp' i i' :
  free_of NUL fp → free_of NUL fp' → cliKey fp i = cliKey fp' i' → fp = fp' ∧ i = i'.
Proof. intros ? ?. by apply field_inj_l. Qed.

Lemma result_client w k h r :
  facts fact w h → Q k h r → ClientID r ≠ "" → instance_of w (Identifier (client_ k)) (ClientID r).
Proof.
  intros Hf [[_ ->]|(t0 & m & _ & _ & Hm & _ & Hc)] Hne; [done|].
  destruct (Hc Hne) as [Hr|(c & Ec & <-)]; [by eapply recorded_instance|].
  apply (facts_in fact w h) in Hm as (h' & _ & _ & Hcli); [|done].
  destruct (Hcli _ Ec) as (fp & i & Ek & Hfree & Hi).
  apply cliKey_inj in Ek as [_ ->]; [done|apply Fingerprint_free|done].
Qed.

(** C22: The parts of every resolution agree, whatever other calls, failing
    statements and restarts happened: a known account comes with its
    identity and its scope and is not rejected; without one the resolution
    is scoped by the fingerprint alone, claims no identity and is not
    fresh. *)
Theorem resolution_is_consistent s n k h r :
  reached s → pool s !! n = Some (mkThread k (Ret r) h) →
  if Known r
  then IdentityID r ≠ "" ∧ Scope r = "acct:" +:+ Itoa (AccountID r) ∧ Invalid r = false
  else IdentityID r = "" ∧ AccountID r = 0 ∧ Scope r = "tok:" +:+ fp_ k ∧ Fresh r = false.
Proof. intros Hr Hn. destruct (resolved s n k h r Hr Hn) as (_ & Hf & HQ). by eapply result_shaped. Qed.


(** A credential is reported as rejected only when plex.tv answered 401 or
    403 for that fingerprint, on record less than an hour and five minutes
    before the call started: transport failures, rate limits and server
    errors never reject a credential. *)
Theorem invalid_was_rejected s n k h r :
  reached s → pool s !! n = Some (mkThread k (Ret r) h) → Invalid r = true →
  ∃ t0 v g tok a, last h = Some (Ev Now t0) ∧ t0 - v < revalidateAfter + memTTL ∧ g <= v ∧
    isAuthFailure a = true ∧ (g, fp_ k, tok, a) ∈ log (Threads.mem s).
Proof.
  intros Hr Hn E. destruct (resolved s n k h r Hr Hn) as (_ & Hf & HQ).
  destruct (result_grounds _ _ _ _ Hf HQ (or_intror E)) as (t0 & Hl & _ & H).
  destruct (H E) as (v & Hv & g & Hg & tok & a & Ha & Hin). by exists t0, v, g, tok, a.
Qed.

(** The [n]th call, with the arguments [k], was answered with [r]. *)
Definition answered (s : state (resp := resp) (W := world) (kind := call) (A := Resolved)) (n : nat) (k : call) (r : Resolved) : Prop :=
  ∃ h, pool s !! n = Some (mkThread k (Ret r) h).

(** Two calls are given the same client instance only for the same client
    identifier: no device inherits the instance of another one, also when
    they share a token and its cache entries. *)
Theorem device_isolation s n n' k k' r r' :
  reached s → answered s n k r → answered s n' k' r' →
  ClientID r ≠ "" → ClientID r = ClientID r' → Identifier (client_ k) = Identifier (client_ k').
Proof.
  intros Hr [h Hn] [h' Hn'] Hne E.
  destruct (resolved s n k h r Hr Hn) as (HI & Hf & HQ). destruct (resolved s n' k' h' r' Hr Hn') as (_ & Hf' & HQ').
  destruct (result_client _ _ _ _ Hf HQ Hne) as (sv & m & Hm & Em).
  destruct (result_client _ _ _ _ Hf' HQ' ltac:(congruence)) as (sv' & m' & Hm' & Em').
  assert (Hk : (sv, Identifier (client_ k)) = (sv', Identifier (client_ k'))).
  { eapply (I_instances _ HI); [done..|congruence]. }
  by injection Hk.
Qed.

(** The account cache never exceeds its bound. *)
Theorem account_cache_bounded s : reached s → (size (acct (mem (Threads.mem s))) <= memMax)%nat.
Proof.
  intros Hr. apply I_size.
  by apply (reached_safe program exec boot restart I fact K Q I_boot I_restart Resolve_safe fact_stable I_exec).
Qed.

Definition not_tv (o : op) : bool := match o with GetUser _ _ => false | _ => true end.

Lemma recordClient_local sv iid cl : only not_tv (recordClient sv iid cl).
Proof.
  unfold recordClient. case_match; [done|]. cbn [only pbind act]. split; [done|]. intros [id|]; [|done].
  by destruct (_ || _).
Qed.

Lemma resolveClient_local r iid cl : only not_tv (resolveClient r iid cl).
Proof.
  unfold resolveClient. case_match; [done|]. cbn [only pbind act]. split; [done|]. intros sv.
  case_match; [done|]. apply recordClient_local.
Qed.

(** The steady state: a call that finds a cached account younger than
    [memTTL] never asks plex.tv. *)
Theorem warm_is_local r fp token cl t0 a c t res :
  trace_of (Resolve r fp token cl)
    (Ev Now t0 :: Ev (MemGet fp (cliKey fp (Identifier cl))) (Some a, c) :: t) res →
  t0 - a_at a < memTTL → Forall (λ e, not_tv (op_of e) = true) t.
Proof.
  unfold Resolve. intros Ht Hlt. destruct r as [r|]; [|by inversion Ht].
  destruct (String.eqb_spec fp ""); [by inversion Ht|]. cbn [pbind act] in Ht.
  do 2 apply trace_act_inv in Ht. cbn [fst snd] in Ht. apply Z.ltb_lt in Hlt. rewrite Hlt in Ht.
  eapply only_trace; [|exact Ht]. destruct (Identifier cl =s ""); [done|]. cbv zeta.
  destruct c as [c|]; [destruct (t0 - c_at c <? memTTL); [done|]|];
    (apply only_bind; [apply resolveClient_local|]; intros id; by destruct (id =s "")).
Qed.


(** ** Concrete runs *)

Definition w_shuffle {E} : shuffle E := mkShuffle (λ l, l) (λ l, reflexivity l).
Definition w_choice (id : string) (a : tv_answer) : choice :=
  mkChoice 1 Done id [("srv", true, 1)] a w_shuffle w_shuffle.
Definition w_world : world := mkWorld New (mkTables ∅ [] ∅ ∅) (1000 * Hour) [].
Definition w_call (token device : string) : call :=
  mkCall (Some (mkResolver true true)) "s" token (mkClient device "Plex Web" "" "" "" "").

Lemma w_boot : boot w_world.
Proof. done. Qed.

(** A proven credential from two devices (the second finds the account in
    the cache), a rejected one, and the first device again. *)
Definition w_moves : list (move (kind := call) (choice := choice)) :=
  [Spawn (w_call "t" "tv"); Spawn (w_call "t" "phone"); Spawn (w_call "u" "")]
  ++ replicate 6 (Go 0 (w_choice "i1" (TvUser 7 "ada"))) ++ replicate 3 (Go 0 (w_choice "i2" TvError))
  ++ replicate 3 (Go 0 (w_choice "c1" TvError)) ++ replicate 6 (Go 1 (w_choice "c2" TvError))
  ++ replicate 7 (Go 2 (w_choice "i3" (TvStatus 401)))
  ++ [Spawn (w_call "t" "tv")] ++ replicate 2 (Go 3 (w_choice "" TvError)).

Definition w_end : option (state (kind := call)) := schedule program exec restart (mkState w_world []) w_moves.

Definition w_state : state (kind := call) := match w_end with Some s => s | None => mkState w_world [] end.

Lemma w_state_results :
  (λ th, match left th with Ret r => Some r | _ => None end) <$> pool w_state =
  [Some (mkResolved "acct:7" "i1" "c1" 7 true true false false);
   Some (mkResolved "acct:7" "i1" "c2" 7 true true false false);
   Some (mkResolved ("tok:" +:+ fp_ (w_call "u" "")) "" "" 0 false false true false);
   Some (mkResolved "acct:7" "i1" "c1" 7 true true false false)].
Proof. vm_compute. reflexivity. Qed.


Definition w_own (n : nat) : list (event resp) := match pool w_state !! n with Some th => own th | None => [] end.
Definition w_fresh (client : string) : Resolved := mkResolved "acct:7" "i1" client 7 true true false false.

Lemma w_calls_reached : reached w_state.
Proof.
  apply (schedule_reached program exec boot restart (mkState w_world []) w_moves).
  - apply reached_boot, w_boot.
  - vm_compute. reflexivity.
Qed.

Lemma w_first : pool w_state !! 0%nat = Some (mkThread (w_call "t" "tv") (Ret (w_fresh "c1")) (w_own 0)).
Proof. vm_compute. reflexivity. Qed.
Lemma w_second : pool w_state !! 1%nat = Some (mkThread (w_call "t" "phone") (Ret (w_fresh "c2")) (w_own 1)).
Proof. vm_compute. reflexivity. Qed.
Lemma w_third :
  pool w_state !! 2%nat = Some (mkThread (w_call "u" "") (Ret (rejected (fp_ (w_call "u" "")))) (w_own 2)).
Proof. vm_compute. reflexivity. Qed.

Lemma w_first_again : pool w_state !! 3%nat = Some (mkThread (w_call "t" "tv") (Ret (w_fresh "c1")) (w_own 3)).
Proof. vm_compute. reflexivity. Qed.

Lemma resolution_is_consistent_witness :
  IdentityID (w_fresh "c1") ≠ "" ∧ Scope (w_fresh "c1") = "acct:" +:+ Itoa 7 ∧ Invalid (w_fresh "c1") = false.
Proof. exact (resolution_is_consistent w_state 0 _ _ _ w_calls_reached w_first). Defined.


Lemma invalid_was_rejected_witness :
  ∃ t0 v g tok a, last (w_own 2) = Some (Ev Now t0) ∧ t0 - v < revalidateAfter + memTTL ∧ g <= v ∧
    isAuthFailure a = true ∧ (g, fp_ (w_call "u" ""), tok, a) ∈ log (Threads.mem w_state).
Proof. exact (invalid_was_rejected w_state 2 _ _ _ w_calls_reached w_third eq_refl). Defined.

Lemma device_isolation_witness :
  Identifier (client_ (w_call "t" "tv")) = Identifier (client_ (w_call "t" "tv")).
Proof.
  refine (device_isolation w_state 0 3 _ _ _ _ w_calls_reached (ex_intro _ _ w_first) (ex_intro _ _ w_first_again) _ eq_refl).
  discriminate.
Defined.

Lemma account_cache_bounded_witness : (size (acct (mem (Threads.mem w_state))) <= memMax)%nat.
Proof. exact (account_cache_bounded w_state w_calls_reached). Defined.

Definition w_client : Client := mkClient "d" "" "" "" "" "".
Definition w_entry : acctEntry := mkAcct "acct:7" "i1" 7 true true false 5.
Definition w_trace : list (event resp) :=
  [Ev EnabledServer "srv"; Ev (UpsertClient "srv" w_client) (Some "c1"); Ev (UpsertBinding "i1" "c1") tt;
   Ev (MemClient (cliKey "f" "d") (mkCli "c1" 9)) tt].

Lemma warm_is_local_witness : Forall (λ e, not_tv (op_of e) = true) w_trace.
Proof.
  refine (warm_is_local (Some (mkResolver true true)) "f" "t" w_client 9 w_entry None _
            (Some (with_client w_entry "c1")) _ _); [|reflexivity].
  repeat (refine (trace_act _ _ _ _ _ _)). refine (trace_ret _).
Defined.

(** *** The other cache *)

(** A call that finds its account in the cache adds an entry for a device it
    has not seen without looking at the size of that cache: nothing bounds
    it while the devices of warm accounts keep changing. *)
Lemma warm_devices_are_not_evicted c w fp token cl a :
  acct (mem w) !! fp = Some a → fp ≠ "" → Identifier cl ≠ "" →
  cli (mem w) !! cliKey fp (Identifier cl) = None →
  instances (db w) !! (server (mem w), Identifier cl) = None →
  clock w + Z.of_N (advance c) - a_at a < memTTL →
  server (mem w) ≠ "" → clock w + 3 * Z.of_N (advance c) - srvAt (mem w) < Minute →
  outcome_ c = Done → fresh_id (uuid c) (db w) = true →
  match run exec (replicate 6 c) w (Resolve (Some (mkResolver true true)) fp token cl) with
  | Some (w', r) => size (cli (mem w')) = S (size (cli (mem w))) ∧ ClientID r = uuid c
  | None => False
  end.
Proof.
  intros Ha Hfp Hid Hcli Hn Hat Hsv Hsrv Ho Hf. unfold Resolve.
  assert (Hne : uuid c ≠ "") by (unfold fresh_id in Hf; by zbool).
  rewrite (proj2 (String.eqb_neq _ _) Hfp). cbn [pbind act replicate run exec mem fst snd]. rewrite Ha, Hcli.
  replace (clock w + Z.of_N (advance c) - a_at a <? memTTL) with true by (symmetry; by apply Z.ltb_lt).
  rewrite (proj2 (String.eqb_neq _ _) Hid). unfold resolveClient. cbn [hasDB negb orb].
  rewrite (proj2 (String.eqb_neq _ _) Hid). cbn [pbind act run exec mem clock enabledServer].
  unfold enabledServer. cbn [mem server srvAt]. rewrite (proj2 (String.eqb_neq _ _) Hsv). cbn [negb andb].
  replace (_ <? Minute) with true by (symmetry; apply Z.ltb_lt; lia).
  rewrite (proj2 (String.eqb_neq _ _) Hsv). unfold recordClient. rewrite (proj2 (String.eqb_neq _ _) Hid).
  cbn [pbind act run exec db mem clock]. rewrite Hf. unfold upsertClient. rewrite Hn.
  unfold done_. rewrite Ho. rewrite (proj2 (String.eqb_neq _ _) Hne). cbn [orb].
  destruct (a_identityID a =s ""); cbn [pbind act run exec mem]; rewrite (proj2 (String.eqb_neq _ _) Hne);
    cbn [pbind act run exec mem cli ClientID with_client]; (split; [by rewrite map_size_insert_None|done]).
Qed.

End Identity.
