(* ===== verification/Admin.v ===== *)
(** * Administrator authentication (internal/admin: session.go, admin.go, missing.go)

    The private listener accepts two kinds of callers: the operator who
    holds the setup token printed at start-up, for fifteen minutes and until
    the administrator account exists, and the administrator, by password and
    a browser session.  This file models the session store, the
    authentication wrapper of every protected route, login, logout, the
    first-run setup and the rate limiter, as programs of atomic actions that
    other calls may interleave with.

    Protected handlers are the action [Next]: what they do is not part of
    this file, that they run is.  Form decoding, cookie parsing and JSON
    decoding give the fields of a request. *)

From S2P Require Import Prelude GoStrings GoHttp GoCrypto Effects Threads Passwords.

Module Admin.
Import Passwords.

Definition sessionTTL : Z := 12 * Hour.
Definition bootstrapWindow : Z := 15 * Minute.
Definition loginWindow : Z := 5 * Minute.
Definition loginMax : nat := 10%nat.

(** ** Data *)

Record session := mkSession { csrf : string; expires : Z; subject : string }.

(** The fields of [Mux] that do not change after start-up. *)
Record Mux := mkMux {
  setupToken : string; setupIssued : Z; requireAuth : bool; hasSvc : bool;
}.

(** A request: [form] is what [ParseForm] gives, [body] the decoded JSON of
    a setup request. *)
Record setupBody := mkSetup { b_username : string; b_password : string; b_token : string }.
Record areq := mkReq {
  method : string; authorization : string; cookie : option string; form : option Values;
  csrfHeader : string; peer : string; body : option setupBody;
}.

(** What the client is answered: an error with its code, the redirect of a
    login with the session cookie, or what the handler wrote. *)
Inductive reply :=
  | Denied (status : Z) (code : string)
  | Page
  | SignedIn (id : string) (maxAge : Z)
  | SignedOut
  | Created
  | Handled (subject : string).

#[global] Instance session_eq_dec : EqDecision session.
Proof. solve_decision. Defined.

(** ** Actions *)

(** What the setup transaction reports. *)
Inductive setup_outcome := SetupDone | SetupExists | SetupFailed.

Inductive op :=
  | Now
  | Consumed
  | Consume
  | Random (n : Z)
  | Create (id csrf subject : string) (ttl : Z)
  | Lookup (id : string)
  | Revoke (id : string)
  | RevokeSubject (subject : string)
  | CheckRate (key : string) (window : Z) (max : nat)
  | SelectHash (username : string)
  | UpdateHash (username hash : string)
  | InsertAdmin (username hash : string)
  | Next (subject : string).

Definition resp (o : op) : Type :=
  match o with
  | Now => Z
  | Consumed => bool
  | Random _ => option string
  | Lookup _ => option session
  | CheckRate _ _ _ => bool
  | SelectHash _ => option string
  | InsertAdmin _ _ => setup_outcome
  | _ => unit
  end.

#[global] Instance op_eq_dec : EqDecision op.
Proof. solve_decision. Defined.

Notation program_ := (prog resp).

Section handlers.
Context (IDKey : ∀ (password salt : string) (time memory threads keyLen : Z), string).
Context (m : Mux).

(** ** Sessions and the setup token *)

(** [hex.EncodeToString] of random bytes. *)
Fixpoint hex_of (s : string) : string :=
  match s with
  | "" => ""
  | String c r => String (hex_lower (Z.of_N (code c) / 16)) (String (hex_lower (Z.of_N (code c) mod 16)) (hex_of r))
  end.
Definition randomHex (n : Z) : program_ (option string) :=
  b <~ act (resp := resp) (Random n) ;; Ret (option_map hex_of b).

Definition createWithSubjectTTL (subj : string) (ttl : Z) : program_ (option (string * string)) :=
  if ttl <=? 0 then Ret None
  else
    id <~ randomHex 24 ;;
    match id with
    | None => Ret None
    | Some id =>
        csrf <~ randomHex 24 ;;
        match csrf with
        | None => Ret None
        | Some csrf => do act (Create id csrf subj ttl) ;; Ret (Some (id, csrf))
        end
    end.
Definition createWithSubject (subj : string) : program_ (option (string * string)) :=
  createWithSubjectTTL subj sessionTTL.

Definition sessionOf (r : areq) : program_ (option session) :=
  match cookie r with
  | None => Ret None
  | Some id => act (Lookup id)
  end.

Definition setupTokenValid (got : string) : program_ bool :=
  if negb (got =s setupToken m) then Ret false
  else
    consumed <~ act Consumed ;;
    if consumed : bool then Ret false
    else now <~ act Now ;; Ret (negb (bootstrapWindow <? now - setupIssued m)).

Definition consumeSetup : program_ unit := do act Consume ;; do act (RevokeSubject "setup-token") ;; Ret tt.

Definition bootstrapTTL : program_ Z := now <~ act Now ;; Ret (bootstrapWindow - (now - setupIssued m)).

(** ** The wrapper of the protected routes *)

Definition bearer (r : areq) : string := TrimPrefix (authorization r) "Bearer ".

Definition safe_method (r : areq) : bool :=
  (method r =s "GET") || (method r =s "HEAD") || (method r =s "OPTIONS").

(** [r.FormValue] of a parsed form. *)
Definition csrf_ok (r : areq) (f : Values) (s : session) : bool :=
  (QueryGet f "csrf" =s csrf s) || (csrfHeader r =s csrf s).

Definition auth (next : string → program_ reply) (r : areq) : program_ reply :=
  if negb (requireAuth m) then next ""
  else
    ok <~ (if bearer r =s "" then Ret false else setupTokenValid (bearer r)) ;;
    if ok : bool then next "setup-token"
    else
      sess <~ sessionOf r ;;
      match sess with
      | None => Ret (Denied 401 "SETUP_TOKEN_REQUIRED")
      | Some s =>
          let run := next (if subject s =s "" then "browser-session" else subject s) in
          if safe_method r then run
          else match form r with
               | None => Ret (Denied 400 "INVALID_BODY")
               | Some f => if csrf_ok r f s then run else Ret (Denied 403 "CSRF_REQUIRED")
               end
      end.

(** ** Handlers *)

Definition verifyAdmin (username password : string) : program_ (option string) :=
  if negb (hasSvc m) then Ret None
  else
    hash <~ act (SelectHash username) ;;
    match hash with
    | None => Ret None
    | Some hash => Ret (if verifyPassword IDKey hash password then Some hash else None)
    end.

Definition login_token (tok : string) : program_ reply :=
  ok <~ setupTokenValid tok ;;
  if negb ok then Ret (Denied 401 "INVALID_TOKEN")
  else
    ttl <~ bootstrapTTL ;;
    s <~ createWithSubjectTTL "setup-token" ttl ;;
    match s with
    | None => Ret (Denied 401 "INVALID_TOKEN")
    | Some (id, _) => Ret (SignedIn id (Z.quot (if ttl <=? 0 then Second else ttl) Second))
    end.

Definition rehash (hash username password : string) : program_ unit :=
  if needsRehash hash then
    salt <~ act (resp := resp) (Random saltLen) ;;
    match hashPassword IDKey salt password with
    | Some fresh => do act (UpdateHash username fresh) ;; Ret tt
    | None => Ret tt
    end
  else Ret tt.

Definition login_key (r : areq) (username : string) : string := "login:" +:+ peer r +:+ ":" +:+ username.

Definition login_password (r : areq) (username password : string) : program_ reply :=
  if (username =s "") || (password =s "") then Ret (Denied 401 "INVALID_CREDENTIALS")
  else
    allowed <~ act (CheckRate (login_key r username) loginWindow loginMax) ;;
    if negb allowed then Ret (Denied 429 "RATE_LIMITED")
    else
      hash <~ verifyAdmin username password ;;
      match hash with
      | None => Ret (Denied 401 "INVALID_CREDENTIALS")
      | Some hash =>
          do rehash hash username password ;;
          s <~ createWithSubject username ;;
          match s with
          | None => Ret (Denied 500 "SESSION_FAILED")
          | Some (id, _) => Ret (SignedIn id (Z.quot sessionTTL Second))
          end
      end.

Definition handleLogin (r : areq) : program_ reply :=
  if method r =s "GET" then Ret Page
  else if method r =s "POST" then
    match form r with
    | None => Ret (Denied 400 "INVALID_BODY")
    | Some f =>
        if QueryGet f "token" =s "" then login_password r (QueryGet f "username") (QueryGet f "password")
        else login_token (QueryGet f "token")
    end
  else Ret (Denied 405 "METHOD_NOT_ALLOWED").

Definition handleLogout (r : areq) : program_ reply :=
  if negb (method r =s "POST") then Ret (Denied 405 "METHOD_NOT_ALLOWED")
  else
    match cookie r with
    | Some id => do act (Revoke id) ;; Ret SignedOut
    | None => Ret SignedOut
    end.

(** The token of the header, else the one of the body. *)
Definition setup_token (r : areq) (b : setupBody) : string :=
  if bearer r =s "" then b_token b else bearer r.

Definition handleSetup (r : areq) : program_ reply :=
  if negb (method r =s "POST") then Ret (Denied 405 "METHOD_NOT_ALLOWED")
  else if negb (hasSvc m) then Ret (Denied 409 "SETUP_DISABLED")
  else
    match body r with
    | None => Ret (Denied 400 "INVALID_BODY")
    | Some b =>
        if (b_username b =s "") || (b_password b =s "") then Ret (Denied 400 "INVALID_BODY")
        else
          ok <~ setupTokenValid (setup_token r b) ;;
          if negb ok then Ret (Denied 401 "SETUP_TOKEN_REQUIRED")
          else
            salt <~ (if slen (b_password b) <? 8 then Ret None else act (resp := resp) (Random saltLen)) ;;
            match hashPassword IDKey salt (b_password b) with
            | None => Ret (Denied 400 "WEAK_PASSWORD")
            | Some hash =>
                res <~ act (InsertAdmin (b_username b) hash) ;;
                match res with
                | SetupFailed => Ret (Denied 502 "SETUP_FAILED")
                | SetupExists => Ret (Denied 409 "SETUP_DISABLED")
                | SetupDone => do consumeSetup ;; Ret Created
                end
            end
    end.

(** The routes: every one but login and setup goes through [auth]. *)
Inductive call := Login (r : areq) | Logout (r : areq) | Setup (r : areq) | Protected (r : areq).

Definition protected (r : areq) (subj : string) : program_ reply := do act (Next subj) ;; Ret (Handled subj).

Definition program (k : call) : program_ reply :=
  match k with
  | Login r => handleLogin r
  | Logout r => auth (λ subj, do act (Next subj) ;; handleLogout r) r
  | Setup r => handleSetup r
  | Protected r => auth (protected r) r
  end.

End handlers.

(** ** The shared world *)

(** What is in memory; [admins] are the rows of [admin_users] (user name and
    password hash).  Two columns that the program does not have record what
    happened: the rows that a login read, with the time, and the attempts
    the rate limiter let pass. *)
Record world := mkWorld {
  setupConsumed : bool; sessions : gmap string session; rate : gmap string (list Z);
  admins : list (string * string); clock : Z;
  shown : list (Z * string * string); passed : list (string * Z);
}.

(** A statement is carried out, is lost, or is carried out while its reply
    is lost. *)
Inductive fate := Done | Lost | Unseen.
Record choice := mkChoice { advance : N; outcome_ : fate; random : option string }.
Definition effect (c : choice) : bool := match outcome_ c with Lost => false | _ => true end.
Definition done_ (c : choice) : bool := match outcome_ c with Done => true | _ => false end.

Definition sweepLocked (now : Z) (ss : gmap string session) : gmap string session :=
  filter (λ kv, ¬ expires kv.2 < now) ss.
Definition create (now : Z) (id csrf subj : string) (ttl : Z) (ss : gmap string session) : gmap string session :=
  <[id := mkSession csrf (now + ttl) subj]> (sweepLocked now ss).
Definition lookup (now : Z) (id : string) (ss : gmap string session) : gmap string session * option session :=
  match ss !! id with
  | None => (ss, None)
  | Some s => if expires s <? now then (delete id ss, None) else (ss, Some s)
  end.
Definition revokeSubject (subj : string) (ss : gmap string session) : gmap string session :=
  filter (λ kv, subject kv.2 ≠ subj) ss.

(** The sliding window of attempts of one key. *)
Definition fresh_hits (now window : Z) (hits : list Z) : list Z := filter (λ t, now - t < window) hits.
Definition checkRate (now : Z) (key : string) (window : Z) (max : nat) (rt : gmap string (list Z))
    : gmap string (list Z) * bool :=
  let fresh := fresh_hits now window (default [] (rt !! key)) in
  if (max <=? length fresh)%nat then (<[key := fresh]> rt, false) else (<[key := fresh ++ [now]]> rt, true).

(** The transaction of [handleSetup]; its advisory lock keeps setups apart. *)
Definition insertAdmin (c : choice) (username hash : string) (rows : list (string * string))
    : list (string * string) * setup_outcome :=
  match outcome_ c, rows with
  | Lost, _ => (rows, SetupFailed)
  | _, _ :: _ => (rows, SetupExists)
  | Done, [] => ([(username, hash)], SetupDone)
  | Unseen, [] => ([(username, hash)], SetupFailed)
  end.

Definition updateHash (username hash : string) (rows : list (string * string)) : list (string * string) :=
  (λ u, if u.1 =s username then (u.1, hash) else u) <$> rows.

(** The random source returns as many bytes as asked for. *)
Definition random_ok (n : Z) (b : option string) : bool :=
  match b with Some b => slen b =? n | None => true end.

Definition exec (c : choice) (w : world) (o : op) : option (world * resp o) :=
  let now := clock w + Z.of_N (advance c) in
  let put ss := mkWorld (setupConsumed w) ss (rate w) (admins w) now (shown w) (passed w) in
  let rows a := mkWorld (setupConsumed w) (sessions w) (rate w) a now (shown w) (passed w) in
  let same := put (sessions w) in
  match o return option (world * resp o) with
  | Now => Some (same, now)
  | Consumed => Some (same, setupConsumed w)
  | Consume => Some (mkWorld true (sessions w) (rate w) (admins w) now (shown w) (passed w), tt)
  | Random n => if random_ok n (random c) then Some (same, random c) else None
  | Create id csrf subj ttl => Some (put (create now id csrf subj ttl (sessions w)), tt)
  | Lookup id => let '(ss, s) := lookup now id (sessions w) in Some (put ss, s)
  | Revoke id => Some (put (delete id (sessions w)), tt)
  | RevokeSubject subj => Some (put (revokeSubject subj (sessions w)), tt)
  | CheckRate key window max =>
      let '(rt, ok) := checkRate now key window max (rate w) in
      Some (mkWorld (setupConsumed w) (sessions w) rt (admins w) now (shown w)
              (if ok then (key, now) :: passed w else passed w), ok)
  | SelectHash username =>
      let row := if done_ c then snd <$> find (λ u, u.1 =s username) (admins w) else None in
      Some (mkWorld (setupConsumed w) (sessions w) (rate w) (admins w) now
              (match row with Some h => (now, username, h) :: shown w | None => shown w end) (passed w), row)
  | UpdateHash username hash =>
      Some (rows (if effect c then updateHash username hash (admins w) else admins w), tt)
  | InsertAdmin username hash => let '(a, r) := insertAdmin c username hash (admins w) in Some (rows a, r)
  | Next subj => Some (same, tt)
  end.

(** ** Guards

    What every action of a call rests on, in terms of the actions before. *)

Section security.
Context (IDKey : ∀ (password salt : string) (time memory threads keyLen : Z), string).
Context (m : Mux).

(** A process starts with the account it finds, or none. *)
Definition boot (w : world) : Prop :=
  setupConsumed w = false ∧ sessions w = ∅ ∧ rate w = ∅ ∧ (length (admins w) <= 1)%nat ∧
  clock w = setupIssued m ∧ shown w = [] ∧ passed w = [].
(** Calls may be abandoned at any point. *)
Notation reached := (reached (program IDKey m) exec boot (λ w, w)).

(** The setup token was checked: not consumed, inside its window. *)
Definition token_checked (h : list (event resp)) : Prop :=
  Ev Consumed false ∈ h ∧ ∃ t, Ev Now t ∈ h ∧ t - setupIssued m <= bootstrapWindow.

(** A password matched the record a look-up returned. *)
Definition password_checked (h : list (event resp)) (username : string) : Prop :=
  ∃ hash password, Ev (SelectHash username) (Some hash) ∈ h ∧ verifyPassword IDKey hash password = true.

Definition request_of (k : call) : areq :=
  match k with Login r | Logout r | Setup r | Protected r => r end.

Definition by_token (r : areq) (h : list (event resp)) (subj : string) : Prop :=
  bearer r = setupToken m ∧ bearer r ≠ "" ∧ subj = "setup-token" ∧ token_checked h.
Definition by_cookie (r : areq) (h : list (event resp)) : Prop :=
  ∃ id s, cookie r = Some id ∧ Ev (Lookup id) (Some s) ∈ h ∧
    (safe_method r = true ∨ ∃ f, form r = Some f ∧ csrf_ok r f s = true).

Definition K (k : call) (h : list (event resp)) (o : op) : Prop :=
  match o with
  | Create id csrf subj ttl =>
      (∃ b, csrf = hex_of b ∧ Ev (Random 24) (Some b) ∈ h) ∧
      (subj = "setup-token" ∧ token_checked h ∧ (∃ t, Ev Now t ∈ h ∧ ttl = bootstrapWindow - (t - setupIssued m)) ∨
       ttl = sessionTTL ∧ password_checked h subj)
  | CheckRate key window max => window = loginWindow ∧ max = loginMax
  | SelectHash username => Ev (CheckRate (login_key (request_of k) username) loginWindow loginMax) true ∈ h
  | Next subj => requireAuth m = false ∨ by_token (request_of k) h subj ∨ by_cookie (request_of k) h
  | _ => True
  end.

(** What a call that created the account did. *)
Definition set_up (r : areq) (h : list (event resp)) : Prop :=
  ∃ b salt hash, body r = Some b ∧ setup_token r b = setupToken m ∧ token_checked h ∧
    hashPassword IDKey salt (b_password b) = Some hash ∧ Ev (InsertAdmin (b_username b) hash) SetupDone ∈ h ∧
    Ev Consume tt ∈ h.
Definition Q (k : call) (h : list (event resp)) (a : reply) : Prop :=
  match a with Created => set_up (request_of k) h | _ => True end.

Section guards.
Context (k : call).
Notation al p h Q := (always (K k) p h Q).

Lemma hex_of_length s : slen (hex_of s) = 2 * slen s.
Proof. unfold slen. induction s as [|c s IH]; [done|]. cbn [hex_of String.length]. lia. Qed.

Lemma token_checked_ext h h' : ext h h' → token_checked h → token_checked h'.
Proof. intros He [H1 (t & H2 & H3)]. split; [by eapply ext_in|]. exists t. split; [by eapply ext_in|done]. Qed.

#[local] Hint Resolve ext_cons ext_cons_r ext_in : core.

Lemma setupTokenValid_safe got h :
  al (setupTokenValid m got) h (λ h' b, ext h h' ∧ (b = true → got = setupToken m ∧ token_checked h')).
Proof.
  unfold setupTokenValid. destruct (String.eqb_spec got (setupToken m)) as [->|]; cbn [negb always pbind act]; [|by split].
  split; [done|]. intros []; cbn [always]; [by split; auto|]. split; [done|]. intros t. split; [auto|].
  intros E. split; [done|]. split; [set_solver|]. exists t. split; [set_solver|]. zbool. lia.
Qed.

Lemma randomHex_safe n h :
  al (randomHex n) h (λ h' x, ext h h' ∧ ∀ y, x = Some y → ∃ b, y = hex_of b ∧ Ev (Random n) (Some b) ∈ h').
Proof.
  unfold randomHex. cbn [always pbind act]. split; [done|]. intros b. split; [auto|]. intros y E.
  destruct b as [b|]; [|discriminate]. injection E as <-. exists b. split; [done|]. set_solver.
Qed.

(** A session is created on the grounds its caller has. *)
Lemma create_safe subj ttl h :
  (∀ h', ext h h' → 0 < ttl →
     subj = "setup-token" ∧ token_checked h' ∧ (∃ t, Ev Now t ∈ h' ∧ ttl = bootstrapWindow - (t - setupIssued m)) ∨
     ttl = sessionTTL ∧ password_checked h' subj) →
  al (createWithSubjectTTL subj ttl) h (λ h' _, ext h h').
Proof.
  intros Hg. unfold createWithSubjectTTL. destruct (Z.leb_spec ttl 0) as [|Hpos]; [cbn [always]; reflexivity|].
  apply always_bind. eapply always_mono; [done| |apply randomHex_safe]. cbn beta. intros h1 [id|] [He1 _]; [|exact He1].
  apply always_bind. eapply always_mono; [done| |apply randomHex_safe]. cbn beta.
  intros h2 [c|] [He2 Hc]; cbn [always pbind act]; [|by transitivity h1].
  assert (He : ext h h2) by (by transitivity h1). split; [|intros; auto]. split; [by apply Hc|]. by apply Hg.
Qed.

Lemma sessionOf_safe r h :
  al (sessionOf r) h (λ h' s, ext h h' ∧
    ∀ s0, s = Some s0 → ∃ id, cookie r = Some id ∧ Ev (Lookup id) (Some s0) ∈ h').
Proof.
  unfold sessionOf. destruct (cookie r) as [id|]; cbn [always pbind act]; [|by split].
  split; [done|]. intros s. split; [auto|]. intros s0 ->. exists id. split; [done|]. set_solver.
Qed.

Lemma auth_safe next h :
  (∀ subj h', ext h h' →
     requireAuth m = false ∨ by_token (request_of k) h' subj ∨ by_cookie (request_of k) h' →
     al (next subj) h' (Q k)) →
  al (auth m next (request_of k)) h (Q k).
Proof.
  intros Hn. unfold auth. destruct (requireAuth m) eqn:Er; cbn [negb]; [|apply Hn; auto; reflexivity].
  apply always_bind. set (r := request_of k).
  apply (always_mono (K k) _ _ _ (λ h' b, ext h h' ∧ (b = true → by_token r h' "setup-token"))); [done| |].
  - intros h1 [] [He Ht]; [apply Hn; auto|]. apply always_bind.
    eapply always_mono; [done| |apply sessionOf_safe]. cbn beta. intros h2 [s|] [He2 Hs]; [|done].
    destruct (Hs _ eq_refl) as (id & Hc & Hl). cbv zeta.
    assert (Hrun : safe_method r = true ∨ (∃ f, form r = Some f ∧ csrf_ok r f s = true) →
      al (next (if subject s =s "" then "browser-session" else subject s)) h2 (Q k)).
    { intros Hok. apply Hn; [by transitivity h1|]. right; right. by exists id, s. }
    destruct (safe_method r); [by apply Hrun; left|]. destruct (form r) as [f|] eqn:Ef; [|done].
    destruct (csrf_ok r f s) eqn:Ec; [|done]. apply Hrun. right. by exists f.
  - destruct (String.eqb_spec (bearer r) ""); [by split|].
    eapply always_mono; [done| |apply setupTokenValid_safe]. cbn beta. intros h1 b [He Ht]. split; [done|].
    intros E. destruct (Ht E). by split.
Qed.

Lemma login_token_safe tok h : al (login_token m tok) h (Q k).
Proof.
  unfold login_token. apply always_bind. eapply always_mono; [done| |apply setupTokenValid_safe]. cbn beta.
  intros h1 [] [He Ht]; cbn [negb always]; [|done]. destruct (Ht eq_refl) as [_ Hc].
  unfold bootstrapTTL. cbn [always pbind act]. split; [done|]. intros t. apply always_bind.
  eapply always_mono; [done| |apply create_safe].
  - cbn beta. intros h2 [[id c]|] _; done.
  - intros h2 He2 _. left. split; [done|]. split; [eapply token_checked_ext; [|done]; etransitivity; [|done]; auto|].
    exists t. split; [|done]. eapply ext_in; [done|]. set_solver.
Qed.

Lemma rehash_safe hash u pw h : al (rehash IDKey hash u pw) h (λ h' _, ext h h').
Proof.
  unfold rehash. destruct (needsRehash hash); [|cbn [always]; reflexivity]. cbn [always pbind act]. split; [done|]. intros salt.
  destruct (hashPassword IDKey salt pw); cbn [always pbind act]; [split; [done|]; intros []|]; auto.
Qed.

Lemma login_password_safe u pw h : al (login_password IDKey m (request_of k) u pw) h (Q k).
Proof.
  unfold login_password. destruct ((u =s "") || (pw =s "")); [done|]. cbn [always pbind act]. split; [done|].
  intros []; cbn [negb always]; [|done]. unfold verifyAdmin. destruct (hasSvc m); cbn [negb always pbind act]; [|done].
  split; [set_solver|]. intros [hash|]; cbn [always pbind]; [|done].
  destruct (verifyPassword IDKey hash pw) eqn:Ev_; cbn [always]; [|done].
  apply always_bind. eapply always_mono; [done| |apply rehash_safe]. cbn beta. intros h1 [] He.
  apply always_bind. eapply always_mono; [done| |apply create_safe].
  - cbn beta. intros h2 [[id c]|] _; done.
  - intros h2 He2 _. right. split; [done|]. exists hash, pw. split; [|done].
    eapply ext_in; [exact He2|]. eapply ext_in; [exact He|]. set_solver.
Qed.

Lemma handleSetup_safe h : al (handleSetup IDKey m (request_of k)) h (Q k).
Proof.
  unfold handleSetup. do 2 (case_match; [done|]). destruct (body (request_of k)) as [b|] eqn:Eb; [|done].
  case_match; [done|]. apply always_bind. eapply always_mono; [done| |apply setupTokenValid_safe]. cbn beta.
  intros h1 [] [He Ht]; cbn [negb always]; [|done]. destruct (Ht eq_refl) as [Et Hc].
  apply always_bind. apply (always_mono (K k) _ _ _ (λ h' _, ext h1 h')); [done| |].
  - intros h2 salt He2. destruct (hashPassword IDKey salt (b_password b)) as [hash|] eqn:Eh; [|done].
    cbn [always pbind act]. split; [done|]. intros []; [|done..]. cbn [consumeSetup always pbind act].
    split; [done|]. intros []. split; [done|]. intros []. exists b, salt, hash. do 2 (split; [done|]).
    split; [eapply token_checked_ext; [|done]; auto|]. split; [done|]. split; set_solver.
  - case_match; cbn [always pbind act]; [reflexivity|split; [done|]; intros; auto].
Qed.

End guards.

Lemma admin_program_safe k : always (K k) (program IDKey m k) [] (Q k).
Proof.
  destruct k as [r|r|r|r]; cbn [program].
  - unfold handleLogin. case_match; [done|]. case_match; [|done]. destruct (form r); [|done].
    case_match; [apply (login_password_safe (Login r))|apply login_token_safe].
  - apply (auth_safe (Logout r)). intros subj h' _ Hg. cbn [always pbind act]. split; [done|]. intros [].
    unfold handleLogout. case_match; [done|]. by destruct (cookie r).
  - apply (handleSetup_safe (Setup r)).
  - apply (auth_safe (Protected r)). intros subj h' _ Hg. unfold protected. cbn [always pbind act]. by split.
Qed.

(** ** The invariant *)

(** Where a session comes from: a setup token checked at [t1], or a password
    that matched the record shown at [t1]; it was created at [t2]. *)
Definition minted_by_token (s : session) (t : Z) : Prop :=
  ∃ t1 t2, setupIssued m <= t1 <= t2 ∧ t2 <= t ∧ subject s = "setup-token" ∧
    expires s = t2 + (bootstrapWindow - (t1 - setupIssued m)).
Definition minted_by_password (w : world) (s : session) (t : Z) : Prop :=
  ∃ t1 t2 hash password, (t1, subject s, hash) ∈ shown w ∧ t1 <= t2 <= t ∧
    verifyPassword IDKey hash password = true ∧ expires s = t2 + sessionTTL.
Definition session_ok (w : world) (s : session) (t : Z) : Prop :=
  slen (csrf s) = 48 ∧ (minted_by_token s t ∨ minted_by_password w s t).

(** The attempts of a key that the limiter let pass, latest first. *)
Definition attempts (w : world) (key : string) : list Z := (filter (λ p, p.1 = key) (passed w)).*2.
Definition within (window t : Z) (l : list Z) : list Z := filter (λ a, t - window < a <= t) l.
Definition in_window (t : Z) (l : list Z) : list Z := within loginWindow t l.
(** The stored hits are the attempts that were fresh at the last check. *)
Definition hits_ok (w : world) (key : string) : Prop :=
  ∃ c, c <= clock w ∧ default [] (rate w !! key) = rev (fresh_hits c loginWindow (attempts w key)).

Record I (w : world) : Prop := mkI {
  I_clock : setupIssued m <= clock w;
  I_sessions : ∀ id s, sessions w !! id = Some s → session_ok w s (clock w);
  I_admins : (length (admins w) <= 1)%nat;
  I_hits : ∀ key, hits_ok w key;
  I_past : ∀ key a, a ∈ attempts w key → a <= clock w;
  I_bound : ∀ key t, (length (in_window t (attempts w key)) <= loginMax)%nat;
}.

Definition fact (w : world) (e : event resp) (h : list (event resp)) : Prop :=
  match e with
  | Ev o x =>
      match o as o return resp o → Prop with
      | Now => λ t, setupIssued m <= t <= clock w
      | Random n => λ x, ∀ b, x = Some b → slen b = n
      | Lookup id => λ x, ∀ s, x = Some s → ∃ t, t <= clock w ∧ t <= expires s ∧ session_ok w s t
      | SelectHash u => λ x, ∀ hash, x = Some hash → ∃ t, t <= clock w ∧ (t, u, hash) ∈ shown w
      | Consume => λ _, setupConsumed w = true
      | _ => λ _, True
      end x
  end.

(** Time passes and the records grow. *)
Definition grows (w w' : world) : Prop :=
  clock w <= clock w' ∧ shown w ⊆ shown w' ∧ (setupConsumed w = true → setupConsumed w' = true).

Lemma exec_grows c w o w' x : exec c w o = Some (w', x) → grows w w'.
Proof.
  destruct o; cbn [exec]; try (intros [= <- _]; repeat split; cbn; try done; lia).
  - case_match; [|discriminate]. intros [= <- _]. repeat split; cbn; try done; lia.
  - destruct (lookup _ _ _) as [ss s]. intros [= <- _]. repeat split; cbn; try done; lia.
  - destruct (checkRate _ _ _ _ _) as [rt ok]. intros [= <- _]. repeat split; cbn; try done; lia.
  - intros [= <- _]. repeat split; cbn; [lia| |done]. case_match; set_solver.
  - destruct (insertAdmin _ _ _ _) as [a r]. intros [= <- _]. repeat split; cbn; try done; lia.
Qed.

Lemma session_ok_grows w w' s t t' : grows w w' → t <= t' → session_ok w s t → session_ok w' s t'.
Proof.
  intros (_ & Hs & _) Ht [Hc [(t1 & t2 & ? & ? & ? & ?)|(t1 & t2 & hash & pw & ? & ? & ? & ?)]]; (split; [done|]).
  - left. exists t1, t2. repeat split; try done; lia.
  - right. exists t1, t2, hash, pw. repeat split; try done; [by apply Hs|lia..].
Qed.

Lemma admin_fact_stable c w o w' x e h : I w → exec c w o = Some (w', x) → fact w e h → fact w' e h.
Proof.
  intros _ He%exec_grows. destruct e as [[] y]; cbn [fact]; try done.
  - destruct He. lia.
  - by apply He.
  - intros H s E. destruct (H s E) as (t & ? & ? & ?). exists t. destruct He as (? & ? & ?).
    split; [lia|]. split; [done|]. by eapply session_ok_grows.
  - intros H hash E. destruct (H hash E) as (t & ? & ?). destruct He as (? & Hs & ?). exists t.
    split; [lia|]. by apply Hs.
Qed.

(** ** The rate limiter *)

Lemma fresh_fresh window c now l : c <= now → fresh_hits now window (fresh_hits c window l) = fresh_hits now window l.
Proof.
  intros Hc. unfold fresh_hits. rewrite list_filter_filter. apply list_filter_iff. intros a. split; [by intros []|].
  intros. split; [done|lia].
Qed.

Lemma filter_rev {A} (P : A → Prop) `{∀ x, Decision (P x)} (l : list A) : filter P (rev l) = rev (filter P l).
Proof.
  induction l as [|x l IH]; [done|]. cbn [rev]. rewrite filter_app, IH, filter_cons, filter_cons.
  case_decide; [done|]. by rewrite filter_nil, app_nil_r.
Qed.

(** The parts of the invariant about the limiter. *)
Definition limited (w : world) : Prop :=
  (∀ key, hits_ok w key) ∧ (∀ key a, a ∈ attempts w key → a <= clock w) ∧
  ∀ key t, (length (in_window t (attempts w key)) <= loginMax)%nat.

Lemma limited_same w w' :
  rate w' = rate w → passed w' = passed w → clock w <= clock w' → limited w → limited w'.
Proof.
  intros Er Ep Hc (H1 & H2 & H3). unfold limited, hits_ok, attempts in *. rewrite Er, Ep. split; [|split; [|done]].
  - intros key. destruct (H1 key) as (c & ? & ?). exists c. split; [lia|done].
  - intros key a Ha. transitivity (clock w); [by eapply H2|done].
Qed.

Lemma attempts_cons w key now sc ss rt a sh key' :
  attempts (mkWorld sc ss rt a now sh ((key, now) :: passed w)) key' =
  if decide (key' = key) then now :: attempts w key' else attempts w key'.
Proof.
  unfold attempts. cbn [passed]. rewrite filter_cons. cbn [fst].
  destruct (decide (key' = key)) as [->|Hne]; [by rewrite decide_True|by rewrite decide_False].
Qed.

(** Letting an attempt pass keeps every window within the limit. *)
Lemma bound_cons window max now l t :
  (∀ a, a ∈ l → a <= now) → (length (fresh_hits now window l) < max)%nat →
  (length (within window t l) <= max)%nat → (length (within window t (now :: l)) <= max)%nat.
Proof.
  intros Hp Hf Hl. unfold within. rewrite filter_cons. case_decide as Hd; [|done]. cbn [length].
  change (filter _ l) with (within window t l).
  enough (length (within window t l) <= length (fresh_hits now window l))%nat by lia. unfold within.
  clear Hf Hl. induction l as [|a l IH]; [done|]. unfold fresh_hits in *. rewrite !filter_cons.
  specialize (IH ltac:(set_solver)). pose proof (Hp a ltac:(set_solver)).
  repeat case_decide; cbn [length]; try lia.
Qed.

Lemma checkRate_limited w key now sc ss a sh :
  clock w <= now → limited w →
  limited (mkWorld sc ss (checkRate now key loginWindow loginMax (rate w)).1 a now sh
    (if (checkRate now key loginWindow loginMax (rate w)).2 then (key, now) :: passed w else passed w)).
Proof.
  intros Hc (H1 & H2 & H3). destruct (H1 key) as (c & Hle & Hh).
  assert (Hf : fresh_hits now loginWindow (default [] (rate w !! key)) = rev (fresh_hits now loginWindow (attempts w key))).
  { rewrite Hh. unfold fresh_hits at 1. rewrite filter_rev. f_equal. apply fresh_fresh. lia. }
  unfold checkRate. rewrite Hf, length_rev. destruct (Nat.leb_spec loginMax (length (fresh_hits now loginWindow (attempts w key)))) as [|Hlt];
    cbn [fst snd]; unfold limited, hits_ok; cbn [rate clock].
  - change (∀ k, attempts (mkWorld sc ss _ a now sh (passed w)) k = attempts w k) with (∀ k, attempts w k = attempts w k).
    split; [|split]; [|intros k a' Ha; transitivity (clock w); [by eapply H2|done]|done].
    intros k. destruct (decide (k = key)) as [->|Hne].
    + exists now. split; [lia|]. by rewrite lookup_insert_eq.
    + destruct (H1 k) as (c' & ? & ?). exists c'. split; [lia|]. by rewrite lookup_insert_ne.
  - split; [|split].
    + intros k. rewrite attempts_cons. destruct (decide (k = key)) as [->|Hne].
      * exists now. split; [lia|]. rewrite lookup_insert_eq. cbn [default]. unfold fresh_hits. rewrite filter_cons, decide_True by (unfold loginWindow, Minute, Second; lia).
        done.
      * destruct (H1 k) as (c' & ? & ?). exists c'. split; [lia|]. by rewrite lookup_insert_ne.
    + intros k a'. rewrite attempts_cons. intros Ha. case_decide; [apply elem_of_cons in Ha as [->|Ha]; [lia|]|];
        (transitivity (clock w); [by eapply H2|done]).
    + intros k t. rewrite attempts_cons. case_decide as Hk; [|done]. subst k. apply bound_cons; [|done|done].
      intros a' Ha. transitivity (clock w); [by eapply H2|done].
Qed.

(** ** Every action keeps the invariant *)

Lemma I_limited w : I w → limited w.
Proof. by intros []. Qed.

Lemma I_intro w w' :
  I w → grows w w' → (∀ id s, sessions w' !! id = Some s → session_ok w' s (clock w')) →
  (length (admins w') <= 1)%nat → limited w' → I w'.
Proof. intros [] (? & _) ? ? (? & ? & ?). split; try done. lia. Qed.

Lemma sessions_sub w w' :
  I w → grows w w' → sessions w' ⊆ sessions w →
  ∀ id s, sessions w' !! id = Some s → session_ok w' s (clock w').
Proof.
  intros HI Hg Hs id s E. eapply session_ok_grows; [done|apply Hg|].
  eapply (I_sessions _ HI). by eapply lookup_weaken.
Qed.

(** An action that at most forgets sessions. *)
Lemma I_quiet w w' :
  I w → grows w w' → sessions w' ⊆ sessions w → admins w' = admins w → rate w' = rate w → passed w' = passed w → I w'.
Proof.
  intros HI Hg Hs Ea Er Ep. apply (I_intro w); [done|done|by eapply sessions_sub|rewrite Ea; apply HI|].
  apply (limited_same w); [done|done|apply Hg|by apply I_limited].
Qed.

Lemma create_ok w id csrf subj ttl k h now :
  I w → facts fact w h → K k h (Create id csrf subj ttl) → clock w <= now →
  session_ok w (mkSession csrf (now + ttl) subj) now.
Proof.
  intros HI Hf [(b & -> & Hb) Hg] Hn. destruct (facts_in fact w h _ Hf Hb) as (? & _ & Hlen). cbn [fact] in Hlen.
  split; cbn [csrf]; [rewrite hex_of_length, (Hlen b eq_refl); done|].
  destruct Hg as [(-> & Hc & t & Ht & ->)|[-> (hash & pw & Hh & Hv)]].
  - left. destruct (facts_in fact w h _ Hf Ht) as (? & _ & Hr). cbn [fact] in Hr. exists t, now. cbn. repeat split; lia.
  - right. destruct (facts_in fact w h _ Hf Hh) as (? & _ & Hr). cbn [fact] in Hr.
    destruct (Hr hash eq_refl) as (t1 & ? & ?). exists t1, now, hash, pw. cbn. repeat split; try done; lia.
Qed.

Lemma admin_exec_ok c w k h o w' x :
  I w → facts fact w h → K k h o → exec c w o = Some (w', x) → I w' ∧ fact w' (Ev o x) h.
Proof.
  intros HI Hf HK He. pose proof (exec_grows _ _ _ _ _ He) as Hg.
  assert (Hnow : setupIssued m <= clock w + Z.of_N (advance c)) by (pose proof (I_clock _ HI); lia).
  destruct o; cbn [exec] in He.
  - injection He as <- <-. split; [by apply (I_quiet w)|]. cbn. lia.
  - injection He as <- <-. split; [by apply (I_quiet w)|done].
  - injection He as <- <-. split; [by apply (I_quiet w)|done].
  - destruct (random_ok n (random c)) eqn:Er; [|discriminate]. injection He as <- <-.
    split; [by apply (I_quiet w)|]. cbn [fact]. intros b E. rewrite E in Er. cbn in Er. by zbool.
  - injection He as <- <-. split; [|done]. apply (I_intro w); [done|done| |apply HI|].
    + cbn [sessions clock]. intros id' s E. unfold create in E. apply lookup_insert_Some in E as [[_ <-]|[_ E]].
      * eapply session_ok_grows; [done|reflexivity|]. eapply create_ok; [done..|lia].
      * apply (session_ok_grows w _ _ (clock w)); [done|lia|]. apply map_lookup_filter_Some in E as [E _].
        by eapply (I_sessions _ HI).
    + apply (limited_same w); [done|done|apply Hg|by apply I_limited].
  - unfold lookup in He. destruct (sessions w !! id) as [s|] eqn:Es.
    2:{ injection He as <- <-. split; [by apply (I_quiet w)|done]. }
    destruct (Z.ltb_spec (expires s) (clock w + Z.of_N (advance c))) as [|Hlive]; injection He as <- <-.
    + split; [apply (I_quiet w); try done; cbn; apply delete_subseteq|done].
    + split; [by apply (I_quiet w)|]. cbn [fact]. intros s' [= <-]. exists (clock w + Z.of_N (advance c)).
      split; [done|]. split; [done|]. apply (session_ok_grows w _ _ (clock w)); [done|lia|]. by eapply (I_sessions _ HI).
  - injection He as <- <-. split; [apply (I_quiet w); try done; cbn; apply delete_subseteq|done].
  - injection He as <- <-. split; [apply (I_quiet w); try done; cbn; apply map_filter_subseteq|done].
  - destruct HK as [-> ->]. destruct (checkRate _ _ _ _ _) as [rt ok] eqn:Er. injection He as <- <-.
    split; [|done]. apply (I_intro w); [done|done|by eapply (sessions_sub w)|apply HI|].
    pose proof (checkRate_limited w key (clock w + Z.of_N (advance c)) (setupConsumed w) (sessions w) (admins w)
      (shown w) ltac:(lia) (I_limited _ HI)) as Hl. by rewrite Er in Hl.
  - injection He as <- <-. split; [by apply (I_quiet w)|]. cbn [fact]. intros hash E. rewrite E.
    eexists. split; [|by left]. done.
  - injection He as <- <-. split; [|done]. apply (I_intro w); [done|done|by eapply (sessions_sub w)| |].
    + cbn. destruct (effect c); [unfold updateHash; rewrite length_fmap|]; apply HI.
    + apply (limited_same w); [done|done|apply Hg|by apply I_limited].
  - destruct (insertAdmin _ _ _ _) as [rows r] eqn:Ei. injection He as <- <-. split; [|done].
    apply (I_intro w); [done|done|by eapply (sessions_sub w)| |].
    + cbn. unfold insertAdmin in Ei. pose proof (I_admins _ HI). destruct (outcome_ c), (admins w); injection Ei as <- _; done.
    + apply (limited_same w); [done|done|apply Hg|by apply I_limited].
  - injection He as <- <-. split; [by apply (I_quiet w)|done].
Qed.

Lemma admin_boot_ok w : boot w → I w.
Proof.
  intros (E1 & E2 & E3 & E4 & E5 & E6 & E7). split; try done.
  - lia.
  - intros id s E. by rewrite E2, lookup_empty in E.
  - intros key. exists (clock w). split; [done|]. unfold attempts. by rewrite E3, E7, lookup_empty.
  - intros key a. unfold attempts. rewrite E7. cbn. by intros ?%elem_of_nil.
  - intros key t. unfold attempts. rewrite E7. cbn. unfold loginMax. lia.
Qed.

Lemma reached_ok s :
  reached s → I (mem s) ∧
  ∀ n k p h, pool s !! n = Some (mkThread k p h) → facts fact (mem s) h ∧ always (K k) p h (Q k).
Proof.
  by apply (reached_safe (program IDKey m) exec boot (λ w, w) I fact K Q admin_boot_ok (λ _ H, H) admin_program_safe admin_fact_stable admin_exec_ok).
Qed.

Lemma guard_met s n k p h o x :
  reached s → pool s !! n = Some (mkThread k p h) → Ev o x ∈ h → ∃ h', seen h (Ev o x) h' ∧ K k h' o.
Proof.
  intros Hr Hn [h' Hs]%in_seen. exists h'. split; [done|].
  eapply (reached_met (program IDKey m) exec boot (λ w, w) K Q admin_program_safe s Hr n k p h Hn). exact Hs.
Qed.

(** ** Theorems *)


(** C26: Guessing is bounded: in any interval of five minutes the limiter lets at
    most ten attempts pass for one source and user name, and a stored
    password record is only read by a call that it let pass. *)
Theorem guessing_is_bounded s :
  reached s →
  (∀ key t, (length (in_window t (attempts (mem s) key)) <= loginMax)%nat) ∧
  ∀ n k p h username x, pool s !! n = Some (mkThread k p h) → Ev (SelectHash username) x ∈ h →
    Ev (CheckRate (login_key (request_of k) username) loginWindow loginMax) true ∈ h.
Proof.
  intros Hr. destruct (reached_ok s Hr) as [HI _]. split; [apply HI|].
  intros n k p h u x Hn Hin. destruct (guard_met _ _ _ _ _ _ _ Hr Hn Hin) as (h' & [l ->] & HK). cbn [K] in HK.
  set_solver.
Qed.

(** C27: First-run setup: there is never more than one administrator, and a setup
    call that reports creation carried the setup token, not consumed and
    inside its window, stored a record made from its own password, and left
    the bootstrap capability consumed. *)
Theorem setup_is_exclusive s :
  reached s →
  (length (admins (mem s)) <= 1)%nat ∧
  ∀ n k h, pool s !! n = Some (mkThread k (Ret Created) h) →
    setupConsumed (mem s) = true ∧ token_checked h ∧
    ∃ b salt hash, body (request_of k) = Some b ∧ setup_token (request_of k) b = setupToken m ∧
      hashPassword IDKey salt (b_password b) = Some hash ∧ Ev (InsertAdmin (b_username b) hash) SetupDone ∈ h.
Proof.
  intros Hr. destruct (reached_ok s Hr) as [HI Hall]. split; [apply HI|]. intros n k h Hn.
  destruct (Hall _ _ _ _ Hn) as [Hf (b & salt & hash & ? & ? & ? & ? & ? & Hc)].
  destruct (facts_in fact (mem s) h _ Hf Hc) as (? & _ & Hcons). cbn [fact] in Hcons.
  split; [done|]. split; [done|]. by exists b, salt, hash.
Qed.

End security.

(** ** Concrete runs *)

Definition w_mux : Mux := mkMux "token" 1000 true true.
Definition w_salt : string := "0123456789abcdef".
Definition w_bytes : string := "0123456789abcdef01234567".
Definition w_go (b : string) : choice := mkChoice 1 Done (Some b).
Definition w_form (l : list (string * string)) : Values := list_to_map ((λ p, (p.1, [p.2])) <$> l).
Definition w_setup : call :=
  Setup (mkReq "POST" "Bearer token" None None "" "peer" (Some (mkSetup "ada" "correct horse" ""))).
Definition w_login : call :=
  Login (mkReq "POST" "" None (Some (w_form [("username", "ada"); ("password", "correct horse")])) "" "peer" None).
Definition w_bootstrap : call :=
  Login (mkReq "POST" "" None (Some (w_form [("token", "token")])) "" "peer" None).
Definition w_mutation : call :=
  Protected (mkReq "POST" "" (Some (hex_of w_bytes)) (Some (w_form [])) (hex_of w_bytes) "peer" None).
Definition w_world : world := mkWorld false ∅ ∅ [] 1000 [] [].

Lemma w_admin_boot : boot w_mux w_world.
Proof. repeat split; done || (cbn; lia). Qed.

(** The account is created, the administrator signs in and changes
    something. *)
Definition w_moves : list (move (kind := call) (choice := choice)) :=
  [Spawn w_setup; Spawn w_login; Spawn w_mutation] ++ replicate 6 (Go 0 (w_go w_salt))
  ++ replicate 5 (Go 1 (w_go w_bytes)) ++ replicate 2 (Go 2 (w_go w_bytes)).

Notation w_program := (program w_IDKey w_mux).
Definition w_state : state (resp := resp) := Eval vm_compute in
  default (mkState w_world []) (schedule w_program exec (λ w, w) (mkState w_world []) w_moves).

Lemma w_schedule : schedule w_program exec (λ w, w) (mkState w_world []) w_moves = Some w_state.
Proof. vm_compute. reflexivity. Qed.
Lemma w_signed_in : reached w_program exec (boot w_mux) (λ w, w) w_state.
Proof.
  apply (schedule_reached w_program exec (boot w_mux) (λ w, w) (mkState w_world []) w_moves); [|exact w_schedule].
  apply reached_boot, w_admin_boot.
Qed.


Lemma guessing_is_bounded_witness :
  attempts (mem w_state) "login:peer:ada" = [1007] ∧
  (length (in_window 1007 (attempts (mem w_state) "login:peer:ada")) <= loginMax)%nat.
Proof.
  split; [vm_compute; reflexivity|]. exact (proj1 (guessing_is_bounded w_IDKey w_mux w_state w_signed_in) _ _).
Defined.

Lemma setup_is_exclusive_witness : setupConsumed (mem w_state) = true.
Proof.
  exact (proj1 (proj2 (setup_is_exclusive w_IDKey w_mux w_state w_signed_in) 0%nat w_setup _ eq_refl)).
Defined.

(** A login with the setup token that was checked before the account was
    created, but creates its session after, survives the revocation: the
    setup call has answered, the capability is consumed, and the session
    still opens the protected routes. *)
Definition w_read : call := Protected (mkReq "GET" "" (Some (hex_of w_bytes)) None "" "peer" None).
Definition race_moves : list (move (kind := call) (choice := choice)) :=
  [Spawn w_bootstrap; Spawn w_setup] ++ replicate 2 (Go 0 (w_go w_bytes)) ++ replicate 6 (Go 1 (w_go w_salt))
  ++ replicate 4 (Go 0 (w_go w_bytes)) ++ [Spawn w_read] ++ replicate 2 (Go 2 (w_go w_bytes)).

Lemma bootstrap_login_races_with_setup :
  match schedule w_program exec (λ w, w) (mkState w_world []) race_moves with
  | Some s => setupConsumed (mem s) = true ∧ (left <$> pool s) !! 1%nat = Some (Ret Created) ∧
              (left <$> pool s) !! 2%nat = Some (Ret (Handled "setup-token"))
  | None => False
  end.
Proof. vm_compute. done. Qed.

End Admin.
