(* ===== verification/AdminHandlers.v ===== *)
(** * The control plane's handlers (internal/admin: admin.go, ops.go, missing.go)

    The routes behind the authentication of [Admin] that look at the edge or
    make it do something: warming, synchronization, cache invalidation,
    artwork eviction, targeted capture, the compatibility matrix, onboarding
    and the views of the database.  Each is a program of atomic actions on
    the components it controls, so that requests may interleave; what the
    actions do to the shared state is in [AdminControl].  The listings,
    settings and policies are in [AdminApi] and [PolicyAdmin].

    Statements of the database, the media server and the onboarding service
    answer as they will; decoding a JSON body or a form gives its fields.
    [svc] is always present where the onboarding routes run (main.go wires
    it), and so is the store of observations. *)

From S2P Require Import Prelude GoStrings GoHttp Effects Warmer WarmerView Capture Spike Onboarding Artwork Panels.

Module AdminHandlers.
Import Panels.

(** ** Data *)

(** The parts that may not be wired. *)
Record Wiring := mkWiring {
  svc : bool; hasWarming : bool; hasWarmerStats : bool; hasRebuilder : bool; hasEvictor : bool; hasArtworkStats : bool;
  hasSync : bool; hasInvalidator : bool; hasCapture : bool; hasSpike : bool; hasRegistry : bool;
}.

(** A request; [subject] and [csrfToken] are what the authentication put into
    its context. *)
Record request := mkReq {
  method : string; path : string; query : Values; subject : option string; csrfToken : string; contentType : string;
}.

Definition subjectOf (r : request) : string :=
  match subject r with Some s => if s =s "" then "admin" else s | None => "admin" end.

(** The rate limits of these routes: the limiter's key and the number of
    requests it lets pass in a minute. *)
Inductive limit := ServerTest | CacheInvalidate | CollectionRebuild | ArtworkEvict.
#[global] Instance limit_eq_dec : EqDecision limit.
Proof. solve_decision. Defined.
Definition rate_key (l : limit) (subj : string) : string :=
  match l with
  | ServerTest => "server-test:" +:+ subj
  | CacheInvalidate => "cache-invalidate:" +:+ subj
  | CollectionRebuild => subj +:+ ":collection-rebuild"
  | ArtworkEvict => subj +:+ ":artwork-evict"
  end.
Definition rate_max (l : limit) : nat :=
  match l with ServerTest => 5 | CacheInvalidate => 10 | CollectionRebuild => 2 | ArtworkEvict => 1 end.

(** A query: refused, or the rows in order, each read or not, and whether
    the iteration ended well. *)
Inductive rows (R : Type) := QueryFails | Rows (scans : list (option R)) (ended : bool).
Arguments QueryFails {R}.
Arguments Rows {R} scans ended.
Fixpoint scan_all {R} (l : list (option R)) : option (list R) :=
  match l with
  | [] => Some []
  | None :: _ => None
  | Some x :: r => match scan_all r with Some xs => Some (x :: xs) | None => None end
  end.
(** Every listing gives up on a row that cannot be read and on an iteration
    that ended with an error. *)
Definition collect {R} (q : rows R) : option (list R) :=
  match q with
  | QueryFails => None
  | Rows l ended => match scan_all l with Some xs => if ended then Some xs else None | None => None end
  end.

(** The panel ignores the error and shows what [Matrix] returned with it. *)
Definition read_rows {R} (q : rows R) : list R :=
  match q with QueryFails => [] | Rows l _ => default [] (scan_all l) end.

Record server_row := mkServer {
  v_name : string; v_internal : string; v_media : string; v_machine : string; v_friendly : string; v_version : string;
  v_status : string; v_error : string;
}.
Record item_row := mkItem { i_id : string; i_ratingKey : string; i_title : string; i_type : string }.
Record variant_row := mkVariant {
  va_index : Z; va_container : string; va_codec : string; va_width : option Z; va_height : option Z; va_bitrate : option Z; va_range : string;
}.
Record playback_row := mkPlayback {
  y_id : string; y_ratingKey : string; y_mode : string; y_routing : string; y_started : string; y_ended : option string;
  y_final : option string; y_policy : string;
}.
Record decision_row := mkDecision { d_requested : Z; d_selected : Z; d_decision : string; d_reason : string; d_code : Z; d_details : string }.
Record cursor_row := mkCursor {
  c_type : string; c_library : option string; c_status : string; c_started : option string; c_completed : option string; c_error : string;
}.
Record trace_row := mkTrace { x_type : string; x_status : string; x_started : string; x_expires : string; x_summary : string }.

(** How a synchronization ended; [ErrInFlight] is told apart. *)
Inductive sync_result := Synced | InFlight | SyncFailed.
(** What [artworkStats] gave. *)
Inductive art_result := ArtStats (s : Artwork.Stats) | ArtInitializing | ArtUnavailable.

(** The after state of an audit event. *)
Inductive note :=
  | NTest (reachable : bool) (status : string) (machineMatch : bool) (identity : string + string)
  | NScope (scope class : string)
  | NWarming (c : Warmer.Config) (paused : bool)
  | NCompleted
  | NEvicted (removed freed : Z)
  | NResult (job : option string)
  | NCapture (minutes : Z) (reason : string).

(** What a successful answer carries. *)
Inductive answer :=
  | AStatus (onboarding : option Onboarding.StatusReport)
  | AServer (s : option server_row)
  | ATest (n : note)
  | AItem (i : item_row) (l : list variant_row)
  | AInvalidated (scope class : string)
  | AStorage (artwork : option art_result) (counts : option (list Z))
  | AWarming (c : Warmer.Config) (s : WarmerView.Stats)
  | ACoverage (c : Warmer.Config) (s : WarmerView.Stats) (artwork : option art_result)
  | ARebuilt (ratingKey : string)
  | AEvicted (removed freed : Z)
  | APlayback (p : playback_row) (l : list decision_row)
  | ATrace (id : string) (t : trace_row)
  | ACompleted
  | ASyncDisabled
  | ACursors (l : list cursor_row)
  | AJob (job : string)
  | AMatrix (l : list matrix_row)
  | AIssue (i : Onboarding.PINIssue)
  | AClaimed (claimed : bool) (stage : string)
  | AAuthenticated (username stage : string)
  | AServers (l : list Onboarding.ServerSummary)
  | ASelected (r : Onboarding.SelectReport)
  | AVerified (r : option Onboarding.VerifyReport)
  | ACounters (hits misses warmed warmErrs : Z) (warmer : option WarmerView.Stats)
  | AReport (session : option playback_row) (decisions : option (list (decision_row * string))) (events : list Spike.Event)
  | ASpike (enabled : bool) (events : list Spike.Event)
  | ACaptures (targets : list Capture.Target) (events : list Capture.Event)
  | ATarget (t : Capture.Target)
  | ARemoved (n : nat)
  | ARecorded.

(** An answer: [writeData], [writeError], an error with data beside it, a
    redirect, an HTML page, or a panic; [Stepped] ends a step that is not a
    request. *)
Inductive reply :=
  | Data (status : Z) (a : answer)
  | Error_ (status : Z) (code : string)
  | ErrorData (status : Z) (code : string) (a : answer)
  | Redirect (to : string)
  | Html (page : string)
  | Panicked
  | Stepped.

(** ** Actions *)

Inductive op :=
  | CheckRate (l : limit) (subj : string)
  | SyncSlot
  | SyncFull
  | SyncCollections
  | Rebuild (key : string)
  | SyncStatus
  | Invalidate (scope class : string)
  | EvictLow
  | ArtworkStats
  | WarmConfig
  | WarmStats
  | WarmConfigure (c : Warmer.Config)
  | WarmPause (b : bool)
  | CapEvents
  | CapTargets
  | CapStart (clientID ratingKey : string) (ttl : Z) (reason : string)
  | CapStop (clientID ratingKey : string)
  | SpikeEvents
  | ObsMatrix
  | ObsRecord (o : Spike.Observation)
  | Counters
  | ServerRow
  | ItemRow (id : string)
  | VariantRows (id : string)
  | PlaybackRow (id : string)
  | SessionRow (session : string)
  | DecisionRows (id : string)
  | ReportRows (id : string)
  | TraceRow (id : string)
  | CountRows (table : string)
  | PmsCheck (url : string)
  | FetchIdentity (url : string)
  | OnbStatus
  | OnbIssue
  | OnbPoll
  | OnbSubmit (token : string)
  | OnbList
  | OnbSelect (clientIdentifier : string)
  | OnbVerify
  | Audit (subj action objType objID : string) (before : option note) (after : note)
  | Warming (ev : Warmer.event)
  | Capturing (c : Capture.call).

(** [SyncSlot] is the section under [syncMu]: the job that holds the slot,
    or the job the caller may now start. *)
Definition resp (o : op) : Type :=
  match o with
  | CheckRate _ _ => bool
  | SyncSlot => string + string
  | SyncFull => sync_result
  | SyncCollections => sync_result
  | Rebuild _ => bool
  | SyncStatus => option (list cursor_row)
  | EvictLow => option (Z * Z)
  | ArtworkStats => art_result
  | WarmConfig => Warmer.Config
  | WarmStats => outcome WarmerView.Stats
  | WarmConfigure _ => bool
  | CapEvents => list Capture.Event
  | CapTargets => list Capture.Target
  | CapStart _ _ _ _ => outcome Capture.Target
  | CapStop _ _ => nat
  | SpikeEvents => list Spike.Event
  | ObsMatrix => rows matrix_row
  | ObsRecord _ => option string
  | Counters => Z * Z * Z * Z
  | ServerRow => option server_row
  | ItemRow _ => option item_row
  | VariantRows _ => rows variant_row
  | PlaybackRow _ => option playback_row
  | SessionRow _ => option playback_row
  | DecisionRows _ => rows decision_row
  | ReportRows _ => rows (decision_row * string)
  | TraceRow _ => option trace_row
  | CountRows _ => option Z
  | PmsCheck _ => string
  | FetchIdentity _ => string + string
  | OnbStatus => Onboarding.StatusReport
  | OnbIssue => outcome Onboarding.PINIssue
  | OnbPoll => outcome bool
  | OnbSubmit _ => outcome string
  | OnbList => outcome (list Onboarding.ServerSummary)
  | OnbSelect _ => outcome Onboarding.SelectReport
  | OnbVerify => option Onboarding.VerifyReport * option string
  | _ => unit
  end.

Notation code := (prog resp).
#[local] Notation fail s c := (Ret (Error_ s c)) (only parsing).
#[local] Notation ok a := (Ret (Data 200 a)) (only parsing).
#[local] Notation not_allowed := (Ret (Error_ 405 "METHOD_NOT_ALLOWED")) (only parsing).

(** ** Shared steps *)

Section handlers.
Context (m : Wiring).

Definition auditEventWithBefore (subj action objType objID : string) (before : option note) (after : note) : code unit :=
  if negb (svc m) then Ret tt else act (Audit subj action objType objID before after).
Definition auditEvent (subj action objType objID : string) (after : note) : code unit :=
  auditEventWithBefore subj action objType objID None after.

Definition artwork_stats : code (option art_result) :=
  if hasArtworkStats m then s <~ act ArtworkStats ;; Ret (Some s) else Ret None.

(** ** Status and server *)

Definition handleOverallStatus (r : request) : code reply :=
  if negb (method r =s "GET") then not_allowed
  else if svc m then s <~ act OnbStatus ;; ok (AStatus (Some s)) else ok (AStatus None).

Definition handleServer (r : request) : code reply :=
  if negb (method r =s "GET") then not_allowed
  else if negb (svc m) then fail 409 "SERVER_DISABLED"
  else s <~ act ServerRow ;; ok (AServer s).

Definition machine_of (id : string + string) : string := match id with inl x => x | inr _ => "" end.
Definition test_note (status : string) (id : string + string) (machine : string) : note :=
  NTest (negb (status =s "down") && negb (status =s "unknown")) status
    (negb (machine_of id =s "") && (machine_of id =s machine)) id.

Definition handleServerTest (r : request) : code reply :=
  if negb (method r =s "POST") then not_allowed
  else
    pass <~ act (CheckRate ServerTest (subjectOf r)) ;;
    if negb pass then fail 429 "RATE_LIMITED"
    else if negb (svc m) then fail 409 "SERVER_DISABLED"
    else
      s <~ act ServerRow ;;
      match s with
      | None => fail 409 "NO_SERVER"
      | Some s =>
          status <~ act (PmsCheck (v_internal s)) ;;
          id <~ act (FetchIdentity (v_internal s)) ;;
          let out := test_note status id (v_machine s) in
          do auditEvent (subjectOf r) "server.test" "server" "origin" out ;;
          ok (ATest out)
      end.

(** ** Synchronization *)

Definition handleCollectionsRefresh (r : request) : code reply :=
  if negb (method r =s "POST") then not_allowed
  else if negb (hasSync m) then fail 409 "SYNC_DISABLED"
  else
    x <~ act SyncCollections ;;
    match x with
    | InFlight => fail 409 "SYNC_IN_FLIGHT"
    | SyncFailed => fail 502 "COLLECTION_SYNC_FAILED"
    | Synced => do auditEvent (subjectOf r) "sync.collections" "library" "collections" (NResult None) ;; ok ACompleted
    end.

Definition handleSyncStatus (r : request) : code reply :=
  if negb (method r =s "GET") then not_allowed
  else if negb (hasSync m) then ok ASyncDisabled
  else
    x <~ act SyncStatus ;;
    match x with None => fail 502 "SYNC_STATUS_FAILED" | Some l => ok (ACursors l) end.

Definition handleSyncFull (r : request) : code reply :=
  if negb (method r =s "POST") then not_allowed
  else if negb (hasSync m) then fail 409 "SYNC_DISABLED"
  else
    slot <~ act SyncSlot ;;
    match slot with
    | inl held => Ret (ErrorData 429 "SYNC_RATE_LIMITED" (AJob (if held =s "" then "sync-full-current" else held)))
    | inr job =>
        x <~ act SyncFull ;;
        match x with
        | InFlight => Ret (ErrorData 409 "SYNC_IN_FLIGHT" (AJob job))
        | SyncFailed => fail 502 "SYNC_FAILED"
        | Synced => do auditEvent (subjectOf r) "sync.full" "sync" "full" (NResult (Some job)) ;; ok (AJob job)
        end
    end.

Definition handleServerSync (r : request) : code reply :=
  if negb (method r =s "POST") then not_allowed else handleSyncFull r.

(** ** Library *)

Definition handleLibraryItem (r : request) : code reply :=
  if negb (method r =s "GET") then not_allowed
  else if negb (svc m) then fail 409 "LIBRARY_DISABLED"
  else
    let id := TrimPrefix (path r) "/api/v1/library/items/" in
    if id =s "" then fail 404 "NOT_FOUND"
    else
      i <~ act (ItemRow id) ;;
      match i with
      | None => fail 404 "ITEM_NOT_FOUND"
      | Some i =>
          l <~ act (VariantRows id) ;;
          match collect l with None => fail 502 "VARIANTS_FAILED" | Some l => ok (AItem i l) end
      end.

(** ** Cache and storage *)

(** [scope] and [class] are what the decoder left in the body, whether it
    succeeded or not. *)
Definition handleCacheInvalidate (r : request) (scope class : string) : code reply :=
  if negb (method r =s "POST") then not_allowed
  else
    pass <~ act (CheckRate CacheInvalidate (subjectOf r)) ;;
    if negb pass then fail 429 "RATE_LIMITED"
    else
      let scope := if scope =s "" then "all" else scope in
      do (if hasInvalidator m then act (Invalidate scope class) else Ret tt) ;;
      do auditEvent (subjectOf r) "cache.invalidate" "cache" (scope +:+ "/" +:+ class) (NScope scope class) ;;
      ok (AInvalidated scope class).

(** The sessions counted are the open ones. *)
Fixpoint count_tables (tables : list string) : code (list Z) :=
  match tables with
  | [] => Ret []
  | t :: r => n <~ act (CountRows t) ;; l <~ count_tables r ;; Ret (default 0 n :: l)
  end.

Definition handleStorage (r : request) : code reply :=
  if negb (method r =s "GET") then not_allowed
  else
    a <~ artwork_stats ;;
    if svc m then
      l <~ count_tables ["library_items"; "playback_sessions"; "playback_decisions"; "diagnostic_traces"; "audit_events"] ;;
      ok (AStorage a (Some l))
    else ok (AStorage a None).

(** ** Warming *)

Definition adminWarmMaxTracked : Z := 512.
Definition adminWarmMaxRequests : Z := 64.
Definition adminWarmMaxPerScope : Z := 16.
Definition adminWarmMinBytes : Z := Z.shiftl 8 20.
Definition adminWarmMaxBytes : Z := Z.shiftl 256 20.

Record warming_body := mkWarmingBody {
  wb_enabled : option bool; wb_paused : option bool; wb_maxTracked : option Z; wb_requests : option Z; wb_perScope : option Z;
  wb_bytes : option Z;
}.
Definition body_empty (b : warming_body) : bool :=
  match b with mkWarmingBody None None None None None None => true | _ => false end.

(** The current configuration with the fields of the body over it. *)
Definition merged (b : warming_body) (c : Warmer.Config) : Warmer.Config :=
  Warmer.mkConfig (default (Warmer.Enabled c) (wb_enabled b)) (default (Warmer.MaxTracked c) (wb_maxTracked b))
    (default (Warmer.RequestsPerPass c) (wb_requests b)) (default (Warmer.MaxPerScopePerPass c) (wb_perScope b))
    (default (Warmer.BytesPerPass c) (wb_bytes b)).
Definition limits_ok (c : Warmer.Config) : bool :=
  negb ((Warmer.MaxTracked c <? 1) || (adminWarmMaxTracked <? Warmer.MaxTracked c)
    || (Warmer.RequestsPerPass c <? 1) || (adminWarmMaxRequests <? Warmer.RequestsPerPass c)
    || (Warmer.MaxPerScopePerPass c <? 1) || (adminWarmMaxPerScope <? Warmer.MaxPerScopePerPass c)
    || (Warmer.RequestsPerPass c <? Warmer.MaxPerScopePerPass c)
    || (Warmer.BytesPerPass c <? adminWarmMinBytes) || (adminWarmMaxBytes <? Warmer.BytesPerPass c)).

Definition with_stats (f : WarmerView.Stats → code reply) : code reply :=
  s <~ act WarmStats ;;
  match s with Ok s => f s | _ => Ret Panicked end.

Definition show_warming : code reply := c <~ act WarmConfig ;; with_stats (λ s, ok (AWarming c s)).

Definition pause_if (p : option bool) : code unit :=
  match p with Some b => act (resp := resp) (WarmPause b) | None => Ret tt end.

(** The second half of a change: the limits hold. *)
Definition apply_warming (r : request) (b : warming_body) (cfg : Warmer.Config) : code reply :=
  c <~ act WarmConfig ;;
  with_stats (λ s,
    let before := NWarming c (WarmerView.st_paused s) in
    done <~ act (WarmConfigure cfg) ;;
    if negb done then fail 400 "WARMING_CONFIG_INVALID"
    else
      do pause_if (wb_paused b) ;;
      with_stats (λ s,
        do auditEventWithBefore (subjectOf r) "warming.configure" "warming" "global" (Some before)
             (NWarming cfg (WarmerView.st_paused s)) ;;
        show_warming)).

Definition handleWarming (r : request) (body : option warming_body) : code reply :=
  if negb (hasWarming m) then fail 409 "WARMING_UNAVAILABLE"
  else if method r =s "GET" then show_warming
  else if method r =s "PATCH" then
    match body with
    | None => fail 400 "INVALID_BODY"
    | Some b =>
        if body_empty b then fail 400 "INVALID_BODY"
        else
          c <~ act WarmConfig ;;
          let cfg := merged b c in
          if negb (limits_ok cfg) then fail 400 "WARMING_LIMIT_INVALID" else apply_warming r b cfg
    end
  else not_allowed.

Definition handleWarmingCoverage (r : request) : code reply :=
  if negb (method r =s "GET") then not_allowed
  else if negb (hasWarming m) then fail 409 "WARMING_UNAVAILABLE"
  else
    c <~ act WarmConfig ;;
    with_stats (λ s, a <~ artwork_stats ;; ok (ACoverage c s a)).

Fixpoint all_digits (s : string) : bool :=
  match s with
  | EmptyString => true
  | String c r => negb ((Ascii.nat_of_ascii c <? 48)%nat || (57 <? Ascii.nat_of_ascii c)%nat) && all_digits r
  end.
(** A byte of a multi-byte rune is above the digits too. *)
Definition asciiDigits (s : string) : bool := negb (s =s "") && all_digits s.

Definition rebuild_key (p : string) : string := TrimSuffix (TrimPrefix p "/api/v1/warming/collections/") "/rebuild".

Definition handleCollectionRebuild (r : request) : code reply :=
  if negb (method r =s "POST") then not_allowed
  else if negb (hasRebuilder m) then fail 409 "COLLECTION_REBUILD_UNAVAILABLE"
  else
    let key := rebuild_key (path r) in
    if (key =s "") || Contains key "/" || negb (asciiDigits key) then fail 400 "COLLECTION_KEY_INVALID"
    else
      pass <~ act (CheckRate CollectionRebuild (subjectOf r)) ;;
      if negb pass then fail 429 "RATE_LIMITED"
      else
        done <~ act (Rebuild key) ;;
        if negb done then fail 502 "COLLECTION_REBUILD_FAILED"
        else
          do auditEvent (subjectOf r) "warming.collection.rebuild" "collection" key NCompleted ;;
          ok (ARebuilt key).

Definition handleEvictLowPriority (r : request) : code reply :=
  if negb (method r =s "POST") then not_allowed
  else if negb (hasEvictor m) then fail 409 "ARTWORK_EVICTION_UNAVAILABLE"
  else
    pass <~ act (CheckRate ArtworkEvict (subjectOf r)) ;;
    if negb pass then fail 429 "RATE_LIMITED"
    else
      x <~ act EvictLow ;;
      match x with
      | None => fail 502 "ARTWORK_EVICTION_FAILED"
      | Some (removed, freed) =>
          do auditEvent (subjectOf r) "storage.evict_low_priority" "artwork" "low" (NEvicted removed freed) ;;
          ok (AEvicted removed freed)
      end.

(** ** Playback and diagnostics *)

Definition handlePlaybackDetail (r : request) : code reply :=
  if negb (method r =s "GET") then not_allowed
  else if negb (svc m) then fail 409 "SESSIONS_DISABLED"
  else
    let id := TrimPrefix (path r) "/api/v1/playback/" in
    if id =s "" then fail 404 "NOT_FOUND"
    else
      p <~ act (PlaybackRow id) ;;
      match p with
      | None => fail 404 "PLAYBACK_NOT_FOUND"
      | Some p =>
          l <~ act (DecisionRows (y_id p)) ;;
          match collect l with None => fail 502 "DECISIONS_FAILED" | Some l => ok (APlayback p l) end
      end.

Definition handleTraceDetail (r : request) : code reply :=
  if negb (method r =s "GET") then not_allowed
  else if negb (svc m) then fail 409 "TRACES_DISABLED"
  else
    let id := TrimPrefix (path r) "/api/v1/diagnostics/traces/" in
    t <~ act (TraceRow id) ;;
    match t with None => fail 404 "TRACE_NOT_FOUND" | Some t => ok (ATrace id t) end.

Definition handleLogs (r : request) : code reply :=
  if negb (method r =s "GET") then not_allowed else fail 501 "LOGS_NOT_IMPLEMENTED".

Definition matrix (f : list matrix_row → answer) : code reply :=
  x <~ act ObsMatrix ;;
  match collect x with None => fail 502 "MATRIX_FAILED" | Some l => ok (f l) end.

Definition handleCompat (r : request) : code reply :=
  if negb (method r =s "GET") then not_allowed else matrix AMatrix.

Definition handleCacheStats (r : request) : code reply :=
  if negb (method r =s "GET") then not_allowed
  else
    n <~ (if hasRegistry m then act Counters else Ret (0, 0, 0, 0)) ;;
    let '(hits, misses, warmed, errs) := n in
    if hasWarmerStats m then with_stats (λ s, ok (ACounters hits misses warmed errs (Some s)))
    else ok (ACounters hits misses warmed errs None).

(** The playback session and its decisions; decisions that could not all be
    read are left out. *)
Definition session_evidence (sessionID : string) : code (option playback_row * option (list (decision_row * string))) :=
  if negb (svc m) then Ret (None, None)
  else
    s <~ act (SessionRow sessionID) ;;
    match s with
    | None => Ret (None, None)
    | Some s => l <~ act (ReportRows (y_id s)) ;; Ret (Some s, collect l)
    end.

Definition spike_events : code (list Spike.Event) := if hasSpike m then act SpikeEvents else Ret [].

Definition handleSpikeReport (r : request) : code reply :=
  if negb (method r =s "GET") then not_allowed
  else
    let sessionID := QueryGet (query r) "session" in
    if sessionID =s "" then fail 400 "INVALID_BODY"
    else
      x <~ session_evidence sessionID ;;
      e <~ spike_events ;;
      ok (AReport x.1 x.2 (filter (λ ev, Spike.SessionID ev = sessionID) e)).

Definition handleSpikeEvents (r : request) : code reply :=
  if negb (method r =s "GET") then not_allowed
  else e <~ spike_events ;; ok (ASpike (hasSpike m) e).

(** [events[len(events)-n:]] when there are more. *)
Definition latest {A} (n : nat) (l : list A) : list A := if (n <? length l)%nat then drop (length l - n) l else l.

Record capture_body := mkCaptureBody { cb_client : string; cb_key : string; cb_minutes : Z; cb_reason : string }.
(** [time.Duration(minutes) * time.Minute], a 64-bit product. *)
Definition capture_ttl (minutes : Z) : Z :=
  let ttl := int64 (minutes * Minute) in if ttl <=? 0 then 30 * Minute else ttl.

Definition handleCapture (r : request) (body : option capture_body) : code reply :=
  if negb (hasCapture m) then fail 409 "CAPTURE_DISABLED"
  else if method r =s "GET" then
    e <~ act CapEvents ;;
    t <~ act CapTargets ;;
    ok (ACaptures t (latest 50 e))
  else if method r =s "POST" then
    match body with
    | None => fail 400 "INVALID_BODY"
    | Some b =>
        x <~ act (CapStart (cb_client b) (cb_key b) (capture_ttl (cb_minutes b)) (cb_reason b)) ;;
        match x with
        | Ok t =>
            do auditEvent (subjectOf r) "trace.create" "capture" (cb_client b +:+ "/" +:+ cb_key b) (NCapture (cb_minutes b) (cb_reason b)) ;;
            Ret (Data 201 (ATarget t))
        | _ => fail 400 "CAPTURE_FAILED"
        end
    end
  else if method r =s "DELETE" then
    match body with
    | None => fail 400 "INVALID_BODY"
    | Some b => n <~ act (CapStop (cb_client b) (cb_key b)) ;; ok (ARemoved n)
    end
  else not_allowed.

Definition handleSpikeObservations (r : request) (body : option Spike.Observation) : code reply :=
  if method r =s "GET" then matrix AMatrix
  else if method r =s "POST" then
    match body with
    | None => fail 400 "INVALID_BODY"
    | Some o =>
        e <~ act (ObsRecord o) ;;
        match e with Some _ => fail 400 "RECORD_FAILED" | None => Ret (Data 201 ARecorded) end
    end
  else not_allowed.

Definition observation_of (f : Values) : Spike.Observation :=
  Spike.mkObservation (QueryGet f "platform") (QueryGet f "product") (QueryGet f "productVersion") (QueryGet f "playbackType")
    (QueryGet f "status") (QueryGet f "notes").

Definition handleSpikePanel (r : request) (form : Values) : code reply :=
  if method r =s "POST" then
    let o := observation_of form in
    e <~ act (ObsRecord o) ;;
    let msg := match e with
               | Some err => "record failed: " +:+ err
               | None => "recorded " +:+ Spike.Product o +:+ " " +:+ Spike.PlaybackType o +:+ " " +:+ Spike.Status o
               end in
    Ret (Redirect ("/admin/spike?msg=" +:+ QueryEscape msg))
  else
    x <~ act ObsMatrix ;;
    e <~ spike_events ;;
    Ret (Html (spike_page (hasSpike m) (QueryGet (query r) "msg") (csrfToken r) (read_rows x) (latest 20 e))).

(** ** Onboarding *)

Definition handleStatus (r : request) : code reply :=
  if negb (method r =s "GET") then not_allowed else s <~ act OnbStatus ;; ok (AStatus (Some s)).

(** An error of the service, or its panic. *)
Definition serve {A} (x : outcome A) (status : Z) (error : string) (f : A → code reply) : code reply :=
  match x with Ok a => f a | Err _ => fail status error | Panic => Ret Panicked end.

Definition handlePIN (r : request) : code reply :=
  if method r =s "POST" then
    x <~ act OnbIssue ;; serve x 502 "PIN_ISSUE_FAILED" (λ i, Ret (Data 201 (AIssue i)))
  else if method r =s "GET" then
    x <~ act OnbPoll ;;
    serve x 502 "PIN_POLL_FAILED" (λ claimed, s <~ act OnbStatus ;; ok (AClaimed claimed (Onboarding.stage s)))
  else not_allowed.

Definition is_json (r : request) : bool := HasPrefix (contentType r) "application/json".

(** [token] is what the JSON body or the form gave, where it could be
    read. *)
Definition handleToken (r : request) (token : option string) : code reply :=
  if negb (method r =s "POST") then not_allowed
  else match token with
  | None => fail 400 "INVALID_BODY"
  | Some token =>
      x <~ act (OnbSubmit token) ;;
      serve x 502 "TOKEN_REJECTED" (λ username,
        if is_json r then s <~ act OnbStatus ;; ok (AAuthenticated username (Onboarding.stage s))
        else Ret (Redirect ("/admin/onboarding?msg=" +:+ QueryEscape ("token accepted for " +:+ username))))
  end.

Definition handleResources (r : request) : code reply :=
  if negb (method r =s "GET") then not_allowed
  else x <~ act OnbList ;; serve x 502 "RESOURCES_FAILED" (λ l, ok (AServers l)).

Definition handleSelect (r : request) (clientIdentifier : option string) : code reply :=
  if negb (method r =s "POST") then not_allowed
  else match clientIdentifier with
  | None => fail 400 "INVALID_BODY"
  | Some c =>
      if c =s "" then fail 400 "INVALID_BODY"
      else x <~ act (OnbSelect c) ;; serve x 409 "SELECT_FAILED" (λ rep, ok (ASelected rep))
  end.

Definition handleVerify (r : request) : code reply :=
  if negb (method r =s "POST") then not_allowed
  else
    x <~ act OnbVerify ;;
    match x.2 with
    | Some _ => Ret (ErrorData 409 "VERIFY_FAILED" (AVerified x.1))
    | None => ok (AVerified x.1)
    end.

Definition form_has (f : Values) (k : string) : bool := bool_decide (is_Some (f !! k)).
Definition zero_report : Onboarding.VerifyReport := Onboarding.mkReport "" "" "" "" false false "".
Definition verify_message (x : option Onboarding.VerifyReport * option string) : string :=
  let rep := default zero_report x.1 in
  match x.2 with
  | Some err => "VERIFY FAILED: " +:+ err +:+ " (origin=" +:+ Onboarding.OriginID rep +:+ " resource=" +:+ Onboarding.ResourceID rep
                +:+ " proxied=" +:+ Onboarding.ProxiedID rep +:+ ")"
  | None => "VERIFIED: " +:+ Onboarding.OriginID rep +:+ " customUrl=" +:+ show_bool (Onboarding.CustomURL rep) +:+ " media="
            +:+ Onboarding.MediaOrigin rep
  end.

(** A form of the panel: the first button whose name it carries. *)
Definition panel_message (f : Values) : code (option string) :=
  if form_has f "issue-pin" then
    x <~ act OnbIssue ;;
    Ret match x with
        | Ok i => Some ("PIN " +:+ Onboarding.IssueCode i +:+ ": open " +:+ Onboarding.AuthURL i)
        | Err e => Some ("PIN failed: " +:+ e)
        | Panic => None
        end
  else if form_has f "poll-pin" then
    x <~ act OnbPoll ;;
    Ret match x with
        | Ok claimed => Some (if claimed : bool then "owner authenticated" else "not claimed yet")
        | Err e => Some ("poll failed: " +:+ e)
        | Panic => None
        end
  else if form_has f "select" then
    x <~ act (OnbSelect (QueryGet f "clientIdentifier")) ;;
    Ret match x with
        | Ok s => Some ("selected " +:+ Onboarding.SelMachine s +:+ " media=" +:+ Onboarding.SelMedia s)
        | Err e => Some ("select failed: " +:+ e)
        | Panic => None
        end
  else if form_has f "verify" then x <~ act OnbVerify ;; Ret (Some (verify_message x))
  else Ret (Some "").

Definition handlePanel (r : request) (form : Values) : code reply :=
  if method r =s "POST" then
    msg <~ panel_message form ;;
    Ret match msg with Some msg => Redirect ("/admin/onboarding?msg=" +:+ QueryEscape msg) | None => Panicked end
  else
    s <~ act OnbStatus ;;
    l <~ act OnbList ;;
    let page servers := Html (onboarding_page (Onboarding.stage s) (QueryGet (query r) "msg") (csrfToken r) servers) in
    Ret match l with Ok servers => page servers | Err _ => page [] | Panic => Panicked end.

(** ** Routes *)

(** A request to one of the routes, with its decoded body; or a step of the
    warmer or of the capture store that the data plane takes meanwhile. *)
Inductive call :=
  | GetOverall (r : request) | GetServer (r : request) | PostServerTest (r : request) | PostServerSync (r : request)
  | GetItem (r : request) | PostInvalidate (r : request) (scope class : string) | GetStorage (r : request)
  | AnyWarming (r : request) (body : option warming_body) | GetCoverage (r : request) | PostRebuild (r : request)
  | PostEvict (r : request) | GetPlayback (r : request) | GetTrace (r : request) | GetLogs (r : request)
  | PostRefresh (r : request) | GetSyncStatus (r : request) | PostSyncFull (r : request) | GetCompat (r : request)
  | GetStatus (r : request) | AnyPIN (r : request) | PostToken (r : request) (token : option string) | GetResources (r : request)
  | PostSelect (r : request) (clientIdentifier : option string) | PostVerify (r : request) | AnyPanel (r : request) (form : Values)
  | GetCacheStats (r : request) | GetReport (r : request) | GetSpikeEvents (r : request)
  | AnyCapture (r : request) (body : option capture_body) | AnyObservations (r : request) (body : option Spike.Observation)
  | AnySpikePanel (r : request) (form : Values)
  | WarmerStep (ev : Warmer.event) | CaptureStep (c : Capture.call).

Definition program (k : call) : code reply :=
  match k with
  | GetOverall r => handleOverallStatus r
  | GetServer r => handleServer r
  | PostServerTest r => handleServerTest r
  | PostServerSync r => handleServerSync r
  | GetItem r => handleLibraryItem r
  | PostInvalidate r s c => handleCacheInvalidate r s c
  | GetStorage r => handleStorage r
  | AnyWarming r b => handleWarming r b
  | GetCoverage r => handleWarmingCoverage r
  | PostRebuild r => handleCollectionRebuild r
  | PostEvict r => handleEvictLowPriority r
  | GetPlayback r => handlePlaybackDetail r
  | GetTrace r => handleTraceDetail r
  | GetLogs r => handleLogs r
  | PostRefresh r => handleCollectionsRefresh r
  | GetSyncStatus r => handleSyncStatus r
  | PostSyncFull r => handleSyncFull r
  | GetCompat r => handleCompat r
  | GetStatus r => handleStatus r
  | AnyPIN r => handlePIN r
  | PostToken r t => handleToken r t
  | GetResources r => handleResources r
  | PostSelect r c => handleSelect r c
  | PostVerify r => handleVerify r
  | AnyPanel r f => handlePanel r f
  | GetCacheStats r => handleCacheStats r
  | GetReport r => handleSpikeReport r
  | GetSpikeEvents r => handleSpikeEvents r
  | AnyCapture r b => handleCapture r b
  | AnyObservations r b => handleSpikeObservations r b
  | AnySpikePanel r f => handleSpikePanel r f
  | WarmerStep ev => do act (Warming ev) ;; Ret Stepped
  | CaptureStep c => do act (Capturing c) ;; Ret Stepped
  end.

End handlers.

End AdminHandlers.
