(* ===== verification/AdminControl.v ===== *)
(** * The control plane under concurrent requests (internal/admin)

    The handlers of [AdminHandlers] on the state they share: the rate
    limiter, the slot of the full synchronization, the warmer, the capture
    store, the compatibility profiles and the audit trail.  Requests of any
    number of administrators interleave with each other and with the steps
    the data plane takes on the warmer and the capture store.

    Theorems: what the interface lets an administrator do is rationed and
    stays within limits, and what changes the edge is asked for with an
    unsafe method and leaves a trail. *)

From S2P Require Import Prelude GoStrings GoHttp Effects Threads Warmer WarmerView Capture Spike Onboarding Admin AdminHandlers.

Module AdminControl.
Import AdminHandlers.

Definition syncInterval : Z := 5 * Minute.

(** ** The shared state *)

Record audit_row := mkAudit {
  a_subject : string; a_action : string; a_type : string; a_id : string; a_before : option note; a_after : note;
}.

(** [lastSyncFull] is [None] for the zero time.  Two columns that the program
    does not have record what happened: the requests the limiter let pass,
    and the slots of full synchronizations that were given away, latest
    first. *)
Record world := mkWorld {
  clock : Z; rate : gmap string (list Z); lastSyncFull : option Z; lastSyncJob : string;
  warm : Warmer.world; cap : Capture.Store; profiles : list Spike.profile; audits : list audit_row;
  passed : list (limit * string * Z); slots : list (Z * string);
}.

(** What the environment decides: the time until the action and between
    the readings of the clock in it, the iteration orders of a map, the fate of a statement, and what
    other systems answer. *)
Record choice := mkChoice {
  advance : N; naming : N; storing : N; its : list (list (string * Warmer.tracked)); fate_ : Admin.fate; oracle : ∀ o : op, resp o;
}.

Section control.
Context (parse_url : string → option (string * (string → string))) (quote : list string → string).
(** [Format("20060102T150405Z")] of an instant. *)
Context (format : Z → string).

Definition at_ (w : world) (now : Z) : world :=
  mkWorld now (rate w) (lastSyncFull w) (lastSyncJob w) (warm w) (cap w) (profiles w) (audits w) (passed w) (slots w).
Definition set_warm (w : world) (x : Warmer.world) : world :=
  mkWorld (clock w) (rate w) (lastSyncFull w) (lastSyncJob w) x (cap w) (profiles w) (audits w) (passed w) (slots w).
Definition set_cap (w : world) (x : Capture.Store) : world :=
  mkWorld (clock w) (rate w) (lastSyncFull w) (lastSyncJob w) (warm w) x (profiles w) (audits w) (passed w) (slots w).
Definition on_warm (w : world) (x : Warmer.Warmer) : world :=
  set_warm w (Warmer.mkWorld x (clock w) (Warmer.running (warm w))).

(** [checkRate] with the window of a minute. *)
Definition check_rate (w : world) (l : limit) (subj : string) : world * bool :=
  let '(rt, pass) := Admin.checkRate (clock w) (rate_key l subj) Minute (rate_max l) (rate w) in
  (mkWorld (clock w) rt (lastSyncFull w) (lastSyncJob w) (warm w) (cap w) (profiles w) (audits w)
     (if pass then (l, subj, clock w) :: passed w else passed w) (slots w), pass).

(** The section of [handleSyncFull] under [syncMu]; [named] and [later] are
    the clock when the job is named and when the slot is stored. *)
Definition sync_slot (w : world) (named later : Z) : world * (string + string) :=
  if match lastSyncFull w with Some t => clock w - t <? syncInterval | None => false end
  then (w, inl (lastSyncJob w))
  else
    let job := format named in
    (mkWorld later (rate w) (Some later) job (warm w) (cap w) (profiles w) (audits w) (passed w) ((later, job) :: slots w), inr job).

Definition record_observation (w : world) (f : Admin.fate) (o : Spike.Observation) : world * option string :=
  match Spike.Record_ (clock w) (profiles w) o with
  | Ok rows' =>
      let stored := mkWorld (clock w) (rate w) (lastSyncFull w) (lastSyncJob w) (warm w) (cap w) rows' (audits w) (passed w) (slots w) in
      match f with Admin.Done => (stored, None) | Admin.Unseen => (stored, Some "timeout") | Admin.Lost => (w, Some "timeout") end
  | Err e => (w, Some e)
  | Panic => (w, Some "")
  end.

Definition add_audit (w : world) (f : Admin.fate) (row : audit_row) : world :=
  match f with
  | Admin.Lost => w
  | _ => mkWorld (clock w) (rate w) (lastSyncFull w) (lastSyncJob w) (warm w) (cap w) (profiles w) (row :: audits w) (passed w) (slots w)
  end.

(** The warmer's own steps and the data plane's; only an administrator
    configures and pauses. *)
Definition own_step (ev : Warmer.event) : bool :=
  match ev with Warmer.Reconfigure _ _ | Warmer.Pause _ => false | _ => true end.
Definition data_plane (c : Capture.call) : bool :=
  match c with Capture.CMatch _ | Capture.CRecord _ _ => true | _ => false end.

Definition exec (c : choice) (w0 : world) (o : op) : option (world * resp o) :=
  let w := at_ w0 (clock w0 + Z.of_N (advance c)) in
  let wm := Warmer.wm (warm w) in
  match o return option (world * resp o) with
  | CheckRate l subj => Some (check_rate w l subj)
  | SyncSlot => let named := clock w + Z.of_N (naming c) in Some (sync_slot w named (named + Z.of_N (storing c)))
  | WarmConfig => Some (w, Warmer.config wm)
  | WarmStats => let '(wm, s) := WarmerView.stats (clock w) wm in Some (on_warm w wm, s)
  | WarmConfigure cfg => let '(wm, ok) := Warmer.Configure (its c) cfg wm in Some (on_warm w wm, ok)
  | WarmPause b => Some (on_warm w (Warmer.SetPaused b wm), tt)
  | CapEvents => Some (w, Capture.Events (cap w))
  | CapTargets => let '(s, l) := Capture.Targets (clock w) (cap w) in Some (set_cap w s, l)
  | CapStart a b ttl reason => let '(s, r) := Capture.Start (clock w) (cap w) a b ttl reason in Some (set_cap w s, r)
  | CapStop a b => let '(s, n) := Capture.Stop (cap w) a b in Some (set_cap w s, n)
  | ObsRecord x => Some (record_observation w (fate_ c) x)
  | Audit subj action ty id before after => Some (add_audit w (fate_ c) (mkAudit subj action ty id before after), tt)
  | Warming ev =>
      if own_step ev
      then Some (set_warm w (Warmer.step parse_url quote (Warmer.mkWorld wm (clock w) (Warmer.running (warm w))) ev), tt)
      else None
  | Capturing x => if data_plane x then Some (set_cap w (Capture.step (cap w) (clock w, x)), tt) else None
  | o => Some (w, oracle c o)
  end.

Definition boot (w : world) : Prop :=
  rate w = ∅ ∧ lastSyncFull w = None ∧ lastSyncJob w = "" ∧ warm w = Warmer.start ∧ cap w = Capture.New ∧
  passed w = [] ∧ slots w = [].

Context (m : Wiring).

Notation reached := (Threads.reached (program m) exec boot (λ w, w)).

(** ** Guards *)

Definition request_of (k : call) : option request :=
  match k with
  | GetOverall r | GetServer r | PostServerTest r | PostServerSync r | GetItem r | PostInvalidate r _ _ | GetStorage r
  | AnyWarming r _ | GetCoverage r | PostRebuild r | PostEvict r | GetPlayback r | GetTrace r | GetLogs r | PostRefresh r
  | GetSyncStatus r | PostSyncFull r | GetCompat r | GetStatus r | AnyPIN r | PostToken r _ | GetResources r | PostSelect r _
  | PostVerify r | AnyPanel r _ | GetCacheStats r | GetReport r | GetSpikeEvents r | AnyCapture r _ | AnyObservations r _
  | AnySpikePanel r _ => Some r
  | WarmerStep _ | CaptureStep _ => None
  end.
Definition caller (k : call) : string := match request_of k with Some r => subjectOf r | None => "" end.

(** The methods that [Admin.auth] serves without a CSRF token. *)
Definition safe_name (s : string) : bool := (s =s "GET") || (s =s "HEAD") || (s =s "OPTIONS").
Definition unsafe (k : call) : Prop := ∃ r, request_of k = Some r ∧ safe_name (method r) = false.

(** The actions that change what the edge does or has stored. *)
Definition changes (o : op) : bool :=
  match o with
  | SyncFull | SyncCollections | Rebuild _ | Invalidate _ _ | EvictLow | WarmConfigure _ | WarmPause _ | CapStart _ _ _ _
  | CapStop _ _ | ObsRecord _ | OnbIssue | OnbPoll | OnbSubmit _ | OnbSelect _ | OnbVerify | Audit _ _ _ _ _ _ => true
  | _ => false
  end.

(** What has to be on record after an action: action, object type, object. *)
Definition audit_due (e : event resp) : option (string * string * string) :=
  match e with
  | Ev o x =>
      match o as o return resp o → _ with
      | FetchIdentity _ => λ _, Some ("server.test", "server", "origin")
      | Invalidate s c => λ _, Some ("cache.invalidate", "cache", s +:+ "/" +:+ c)
      | SyncFull => λ x, match x with Synced => Some ("sync.full", "sync", "full") | _ => None end
      | SyncCollections => λ x, match x with Synced => Some ("sync.collections", "library", "collections") | _ => None end
      | Rebuild key => λ x, if x : bool then Some ("warming.collection.rebuild", "collection", key) else None
      | EvictLow => λ x, match x with Some _ => Some ("storage.evict_low_priority", "artwork", "low") | None => None end
      | WarmConfigure _ => λ x, if x : bool then Some ("warming.configure", "warming", "global") else None
      | CapStart a b _ _ => λ x, match x with Ok _ => Some ("trace.create", "capture", a +:+ "/" +:+ b) | _ => None end
      | _ => λ _, None
      end x
  end.

Definition paid (k : call) (h : list (event resp)) (o : op) : Prop :=
  match o with
  | Rebuild key => asciiDigits key = true ∧ Ev (CheckRate CollectionRebuild (caller k)) true ∈ h
  | EvictLow => Ev (CheckRate ArtworkEvict (caller k)) true ∈ h
  | Invalidate _ _ => Ev (CheckRate CacheInvalidate (caller k)) true ∈ h
  | PmsCheck _ | FetchIdentity _ => Ev (CheckRate ServerTest (caller k)) true ∈ h
  | SyncFull => ∃ job, Ev SyncSlot (inr job) ∈ h
  | WarmConfigure c => limits_ok c = true
  | Audit subj action ty id _ _ =>
      subj = caller k ∧ ((∃ e, e ∈ h ∧ audit_due e = Some (action, ty, id)) ∨ hasInvalidator m = false ∧ action = "cache.invalidate")
  | _ => True
  end.
Definition K (k : call) (h : list (event resp)) (o : op) : Prop :=
  paid k h o ∧ (changes o = true → unsafe k ∨ o = OnbPoll ∧ ∃ r, k = AnyPIN r).

Definition on_record (subj : string) (h : list (event resp)) (d : string * string * string) : Prop :=
  ∃ before after, Ev (Audit subj d.1.1 d.1.2 d.2 before after) tt ∈ h.
Definition Q (k : call) (h : list (event resp)) (a : reply) : Prop :=
  svc m = true → a ≠ Panicked → ∀ e d, e ∈ h → audit_due e = Some d → on_record (caller k) h d.

(** ** Every program meets its guards *)

Lemma K_plain k h o : changes o = false → paid k h o → K k h o.
Proof. intros Hc Hp. split; [done|congruence]. Qed.
Lemma K_change k h o r : request_of k = Some r → safe_name (method r) = false → paid k h o → K k h o.
Proof. intros Hr Hs Hp. split; [done|]. intros _. left. by exists r. Qed.

Lemma unsafe_of r x : method r = x → safe_name x = false → safe_name (method r) = false.
Proof. by intros ->. Qed.

(** Walks a program: every action and every branch on what it returned. *)
Ltac walk :=
  repeat first
    [ progress cbn [always pbind act count_tables]
    | progress cbv zeta
    | match goal with
      | |- _ ∧ _ => split
      | |- ∀ _, _ => let x := fresh "x" in intro x; cbn [resp] in x; match type of x with unit => destruct x | _ => idtac end
      | |- context [if negb ?b then _ else _] => destruct b eqn:?; cbn [negb]
      | |- context [if ?b then _ else _] => destruct b eqn:?
      | |- context [match ?x with _ => _ end] => destruct x eqn:?
      end ].
Ltac found := solve [apply list_elem_of_In; cbn; subst; repeat first [left; reflexivity | right]].
Ltac quiet := apply K_plain; [reflexivity|cbn [paid caller request_of]; first [exact I | found | split; [done|found]]].
Ltac closed :=
  intros Hsvc Hp e d He Hd; unfold on_record, caller; cbn [request_of];
  repeat (apply elem_of_cons in He as [->|He]; [cbn in Hd; try discriminate Hd; injection Hd as <-; cbn [fst snd];
    first [congruence | eexists _, _; found]|]); by apply elem_of_nil in He.

Lemma views_safe k r :
  k ∈ [GetOverall r; GetServer r; GetItem r; GetStorage r; GetCoverage r; GetPlayback r; GetTrace r; GetLogs r; GetSyncStatus r;
       GetCompat r; GetStatus r; GetResources r; GetCacheStats r; GetReport r; GetSpikeEvents r] →
  always (K k) (program m k) [] (Q k).
Proof.
  intros Hk. repeat (apply elem_of_cons in Hk as [->|Hk]); [..|by apply elem_of_nil in Hk]; cbn [program];
    unfold handleOverallStatus, handleServer, handleLibraryItem, handleStorage, handleWarmingCoverage, handlePlaybackDetail,
      handleTraceDetail, handleLogs, handleSyncStatus, handleCompat, handleStatus, handleResources, handleCacheStats,
      handleSpikeReport, handleSpikeEvents, matrix, session_evidence, spike_events, artwork_stats, with_stats, serve;
    walk; try quiet; closed.
Qed.

(** A change asked for with the request's unsafe method. *)
Ltac change_ok :=
  eapply K_change; [reflexivity|eapply unsafe_of; [apply String.eqb_eq; eassumption|reflexivity]|
    cbn [paid caller request_of]].
Ltac pick := (left; reflexivity) + (right; pick).
Ltac trail :=
  split; [reflexivity|]; first
    [ left; eexists; split; [apply list_elem_of_In; cbn; pick|cbn; repeat match goal with E : _ = _ |- _ => rewrite E end; reflexivity]
    | right; split; [assumption|reflexivity] ].
Ltac step_ok := first [quiet; fail | change_ok; first [exact I | assumption | found | trail | eexists; found]].
Ltac settle := first [step_ok | closed].

Lemma synchronization_safe k r :
  k ∈ [PostServerTest r; PostServerSync r; PostRefresh r; PostSyncFull r] → always (K k) (program m k) [] (Q k).
Proof.
  intros Hk. repeat (apply elem_of_cons in Hk as [->|Hk]); [..|by apply elem_of_nil in Hk]; cbn [program];
    unfold handleServerTest, handleServerSync, handleCollectionsRefresh, handleSyncFull, auditEvent, auditEventWithBefore;
    walk; settle.
Qed.

Lemma operations_safe k r :
  (∃ b, k = AnyWarming r b) ∨ k ∈ [PostRebuild r; PostEvict r] ∨ (∃ sc cl, k = PostInvalidate r sc cl) ∨ (∃ b, k = AnyCapture r b) →
  always (K k) (program m k) [] (Q k).
Proof.
  intros [[b ->]|[Hk|[(sc & cl & ->)|[b ->]]]]; [|repeat (apply elem_of_cons in Hk as [->|Hk]); [..|by apply elem_of_nil in Hk]|..];
    cbn [program]; unfold handleWarming, handleCollectionRebuild, handleEvictLowPriority, handleCacheInvalidate, handleCapture,
      apply_warming, show_warming, with_stats, pause_if, auditEvent, auditEventWithBefore; walk; try settle.
  all: change_ok; split; [|found]; repeat match goal with E : _ || _ = false |- _ => apply orb_false_iff in E as [] end;
    by apply negb_false_iff.
Qed.

Lemma onboarding_routes_safe k r :
  k ∈ [AnyPIN r; PostVerify r] ∨ (∃ t, k = PostToken r t) ∨ (∃ c, k = PostSelect r c) ∨ (∃ f, k = AnyPanel r f) ∨
  (∃ b, k = AnyObservations r b) ∨ (∃ f, k = AnySpikePanel r f) →
  always (K k) (program m k) [] (Q k).
Proof.
  intros [Hk|[[t ->]|[[c ->]|[[f ->]|[[b ->]|[f ->]]]]]]; [repeat (apply elem_of_cons in Hk as [->|Hk]); [..|by apply elem_of_nil in Hk]|..];
    cbn [program]; unfold handlePIN, handleVerify, handleToken, handleSelect, handlePanel, panel_message, handleSpikeObservations,
      handleSpikePanel, matrix, spike_events, serve; walk; try settle.
  split; [done|]. intros _. right. split; [done|]. by exists r.
Qed.

Ltac one_of := solve [repeat first [eexists; reflexivity | eexists _, _; reflexivity | found | left; one_of | right]].

Lemma control_safe k : always (K k) (program m k) [] (Q k).
Proof.
  destruct k; first
    [ eapply views_safe; found
    | eapply synchronization_safe; found
    | eapply operations_safe; one_of
    | eapply onboarding_routes_safe; one_of
    | cbn [program always pbind act]; split; [by apply K_plain|intros []; closed] ].
Qed.

(** ** The invariant *)

(** The requests the limiter let pass, of one kind and administrator, and of
    one key. *)
Definition requests (w : world) (l : limit) (subj : string) : list Z := (filter (λ p, p.1 = (l, subj)) (passed w)).*2.
Definition hits (w : world) (key : string) : list Z := (filter (λ p, rate_key p.1.1 p.1.2 = key) (passed w)).*2.

Record rationed (w : world) : Prop := mkRationed {
  R_hits : ∀ key, ∃ c, c <= clock w ∧ default [] (rate w !! key) = rev (Admin.fresh_hits c Minute (hits w key));
  R_past : ∀ p, p ∈ passed w → p.2 <= clock w;
  R_bound : ∀ l subj t, (length (Admin.within Minute t (requests w l subj)) <= rate_max l)%nat;
}.

(** Slots are five minutes apart, and the stored time is the latest. *)
Definition spaced (w : world) : Prop :=
  lastSyncFull w = fst <$> head (slots w) ∧ (∀ t j, (t, j) ∈ slots w → t <= clock w) ∧
  ∀ i t t' j j', slots w !! i = Some (t, j) → slots w !! S i = Some (t', j') → syncInterval <= t - t'.

Record Inv (w : world) : Prop := mkInv {
  I_rate : rationed w;
  I_slots : spaced w;
  I_warm : limits_ok (Warmer.config (Warmer.wm (warm w))) = true;
  I_cap : ∃ h, cap w = Capture.run h ∧ Forall (λ c, c.1 <= clock w) h;
}.

Lemma requests_hits w l subj t now :
  (length (Admin.fresh_hits now t (requests w l subj)) <= length (Admin.fresh_hits now t (hits w (rate_key l subj))))%nat.
Proof.
  unfold Admin.fresh_hits, requests, hits. induction (passed w) as [|[[l' s'] a] ps IH]; [done|].
  rewrite !filter_cons. cbn [fst snd]. destruct (decide ((l', s') = (l, subj))) as [[= -> ->]|Hne].
  - rewrite (decide_True (P := rate_key l subj = _)) by done. cbn [fmap list_fmap]. rewrite !filter_cons. case_decide; cbn; lia.
  - case_decide; [|done]. cbn [fmap list_fmap]. rewrite filter_cons. case_decide; cbn; lia.
Qed.

Lemma check_rate_ok w l subj : rationed w → rationed (check_rate w l subj).1.
Proof.
  intros [H1 H2 H3]. unfold check_rate. set (key := rate_key l subj). destruct (H1 key) as (c & Hle & Hh).
  assert (Hf : Admin.fresh_hits (clock w) Minute (default [] (rate w !! key)) = rev (Admin.fresh_hits (clock w) Minute (hits w key))).
  { rewrite Hh. unfold Admin.fresh_hits at 1. rewrite Admin.filter_rev. f_equal. by apply Admin.fresh_fresh. }
  unfold Admin.checkRate. rewrite Hf, length_rev.
  destruct (Nat.leb_spec (rate_max l) (length (Admin.fresh_hits (clock w) Minute (hits w key)))) as [|Hlt]; cbn [fst].
  - split; [|done|done]. intros k. cbn [rate clock]. destruct (decide (k = key)) as [->|Hne].
    + exists (clock w). split; [done|]. by rewrite lookup_insert_eq.
    + rewrite lookup_insert_ne by done. apply H1.
  - split; cbn [rate clock passed].
    + intros k. unfold hits. cbn [passed]. rewrite filter_cons. cbn [fst snd]. fold key. destruct (decide (key = k)) as [<-|Hne].
      * exists (clock w). split; [done|]. rewrite lookup_insert_eq. cbn [default fmap list_fmap]. unfold Admin.fresh_hits.
        rewrite filter_cons, decide_True by (unfold Minute, Second; cbn; lia). done.
      * rewrite lookup_insert_ne by done. apply H1.
    + intros p [->|Hp]%elem_of_cons; [done|]. by apply H2.
    + intros l' s' t. unfold requests. cbn [passed]. rewrite filter_cons. cbn [fst]. case_decide as E; [|apply H3].
      injection E as -> ->. cbn [fmap list_fmap snd]. apply Admin.bound_cons; [| |apply H3].
      * intros a' ([[? ?] a] & -> & [_ Ha]%list_elem_of_filter)%list_elem_of_fmap. by apply (H2 _ Ha).
      * eapply Nat.le_lt_trans; [apply (requests_hits w)|done].
Qed.

Lemma sync_slot_ok w named later : clock w <= later → spaced w → spaced (sync_slot w named later).1.
Proof.
  intros Hle (H1 & H2 & H3). unfold sync_slot. destruct (lastSyncFull w) as [t|] eqn:El.
  - destruct (Z.ltb_spec (clock w - t) syncInterval) as [|Hge]; cbn [fst]; [by split; [congruence|]|].
    split; [done|]. cbn [slots clock]. split; [intros t' j' [[= -> ->]|Hin]%elem_of_cons; [lia|specialize (H2 _ _ Hin); lia]|].
    intros [|i] t1 t2 j1 j2; cbn [lookup list_lookup]; [|apply H3]. intros [= <- <-] Hs.
    destruct (slots w) as [|[t3 j3] sl]; [done|]. injection Hs as -> ->. cbn in H1. injection H1 as ->. lia.
  - cbn [fst]. split; [done|]. cbn [slots clock]. destruct (slots w) as [|[t3 j3] sl]; [|done].
    split; [intros t' j' [[= -> ->]|[]%elem_of_nil]%elem_of_cons; lia|]. intros [|i] ? ? ? ?; cbn; done.
Qed.

(** Nothing but time and the named parts changed. *)
Lemma Inv_intro w w' :
  Inv w → clock w <= clock w' → rationed w' → spaced w' → limits_ok (Warmer.config (Warmer.wm (warm w'))) = true →
  (∃ h, cap w' = Capture.run h ∧ Forall (λ c, c.1 <= clock w') h) → Inv w'.
Proof. intros. by split. Qed.

Lemma Inv_at w now : Inv w → clock w <= now → Inv (at_ w now).
Proof.
  intros [[R1 R2 R3] (S1 & S2 & S3) Hw (h & Hh & Hf)] Hle. split; [split| | |].
  - intros key. destruct (R1 key) as (c & ? & ?). exists c. split; [cbn; lia|done].
  - intros p Hp. cbn. specialize (R2 p Hp). lia.
  - done.
  - split; [done|]. split; [|done]. cbn. intros t j Hj. specialize (S2 t j Hj). lia.
  - done.
  - exists h. split; [done|]. eapply Forall_impl; [done|]. cbn. lia.
Qed.

Lemma Inv_warm w x : Inv w → limits_ok (Warmer.config x) = true → Inv (on_warm w x).
Proof. intros [[R1 R2 R3] HS Hw Hc] Hx. by split. Qed.

Lemma Inv_cap w (c : Capture.call) : Inv w → Inv (set_cap w (Capture.step (cap w) (clock w, c))).
Proof.
  intros [HR HS Hw (h & Hh & Hf)]. split; [by destruct HR|done|done|]. exists (h ++ [(clock w, c)]). cbn [cap set_cap clock].
  split; [unfold Capture.run; by rewrite foldl_app, Hh|]. apply Forall_app. split; [done|]. by apply Forall_singleton.
Qed.

(** The two checks of a warming change are the same, so that the second
    never refuses. *)
Lemma limits_config c : limits_ok c = Warmer.config_ok c.
Proof. reflexivity. Qed.

Definition fact (w : world) (e : event resp) (h : list (event resp)) : Prop :=
  match e with
  | Ev o x =>
      match o as o return resp o → Prop with
      | CheckRate l subj => λ x, x = true → ∃ t, t <= clock w ∧ (l, subj, t) ∈ passed w
      | SyncSlot => λ x, ∀ job, x = inr job → ∃ t, (t, job) ∈ slots w
      | _ => λ _, True
      end x
  end.

Definition grows (w w' : world) : Prop := clock w <= clock w' ∧ passed w ⊆ passed w' ∧ slots w ⊆ slots w'.
#[local] Instance grows_preorder : PreOrder grows.
Proof. split; [by intros w; split_and!|]. intros a b c (? & ? & ?) (? & ? & ?). split_and!; [lia|by etrans..]. Qed.

Lemma check_rate_grows w l subj : grows w (check_rate w l subj).1.
Proof. unfold check_rate. destruct (Admin.checkRate _ _ _ _ _) as [rt []]; split_and!; cbn; try done; set_solver. Qed.

Lemma sync_slot_grows w named later : clock w <= later → grows w (sync_slot w named later).1.
Proof. intros Hle. unfold sync_slot. case_match; [reflexivity|]. split_and!; cbn; try done; set_solver. Qed.

Lemma at_grows w now : clock w <= now → grows w (at_ w now).
Proof. intros. by split_and!. Qed.

(** An action after the clock has moved. *)
Lemma operation_cases c w o w' x :
  exec c w o = Some (w', x) →
  let w1 := at_ w (clock w + Z.of_N (advance c)) in
  (∃ l subj, o = CheckRate l subj ∧ w' = (check_rate w1 l subj).1) ∨
  (∃ named later, o = SyncSlot ∧ w' = (sync_slot w1 named later).1 ∧ clock w1 <= later) ∨
  (∃ y, w' = set_warm w1 y ∧ (Warmer.config (Warmer.wm y) = Warmer.config (Warmer.wm (warm w1)) ∨
     o = WarmConfigure (Warmer.config (Warmer.wm y)))) ∨
  (∃ k, w' = set_cap w1 (Capture.step (cap w1) (clock w1, k))) ∨
  (w' = w1 ∨ (∃ rows, w' = mkWorld (clock w1) (rate w1) (lastSyncFull w1) (lastSyncJob w1) (warm w1) (cap w1) rows (audits w1) (passed w1) (slots w1)) ∨
   ∃ trail, w' = mkWorld (clock w1) (rate w1) (lastSyncFull w1) (lastSyncJob w1) (warm w1) (cap w1) (profiles w1) trail (passed w1) (slots w1)).
Proof.
  cbv zeta. set (w1 := at_ w _). intros He. destruct o; cbn [exec] in He; fold w1 in He;
    try (injection He as <- _; do 4 right; by left).
  - left. exists l, subj. split; [done|]. injection He as He. by rewrite He.
  - right; left. injection He as He. eexists _, _. split; [done|]. rewrite He. split; [reflexivity|]. cbn; lia.
  - right; right; left. destruct (WarmerView.stats _ _) as [wm s] eqn:Es. injection He as <- _. eexists. split; [reflexivity|]. left.
    unfold WarmerView.stats in Es. cbv zeta in Es. by injection Es as <- _.
  - right; right; left. pose proof (WarmerView.Configure_spec (its c) c0 (Warmer.wm (warm w1))) as [_ Hc].
    destruct (Warmer.Configure _ _ _) as [wm ok]. injection He as <- _. eexists. split; [reflexivity|]. cbn [fst] in Hc.
    cbn [Warmer.wm]. rewrite Hc. destruct (Warmer.config_ok c0); [by right|by left].
  - right; right; left. injection He as <- _. eexists. split; [done|]. by left.
  - right; right; right; left. unfold Capture.Targets in He. injection He as <- _. by exists Capture.CTargets.
  - right; right; right; left. destruct (Capture.Start _ _ _ _ _ _) as [s r] eqn:Es. injection He as <- _.
    exists (Capture.CStart clientID ratingKey ttl reason). cbn [Capture.step]. by rewrite Es.
  - right; right; right; left. unfold Capture.Stop in He. injection He as <- _. by exists (Capture.CStop clientID ratingKey).
  - do 4 right. injection He as He. unfold record_observation in He. destruct (Spike.Record_ _ _ _); [|injection He as <- _; by left..].
    destruct (fate_ c); injection He as <- _; eauto.
  - do 4 right. injection He as <- _. unfold add_audit. destruct (fate_ c); eauto.
  - right; right; left. destruct (own_step ev) eqn:Eo; [|discriminate]. injection He as <- _. eexists. split; [reflexivity|left].
    rewrite WarmerView.step_config; [done|]. intros its' c'. by destruct ev.
  - right; right; right; left. destruct (data_plane c0); [|discriminate]. injection He as <- _. by exists c0.
Qed.

Lemma operation_grows c w o w' x : exec c w o = Some (w', x) → grows w w'.
Proof.
  intros He. apply operation_cases in He. cbv zeta in He. set (w1 := at_ w _) in He.
  assert (Hg : grows w w1) by (apply at_grows; lia). etrans; [exact Hg|].
  destruct He as [(l & subj & _ & ->)|[(n & t & _ & -> & Ht)|[(y & -> & _)|[(k & ->)|[->|[(rows & ->)|(tr & ->)]]]]]].
  - apply check_rate_grows.
  - by apply sync_slot_grows.
  - by split_and!.
  - by split_and!.
  - reflexivity.
  - by split_and!.
  - by split_and!.
Qed.

Lemma control_fact_stable c w o w' x e h : Inv w → exec c w o = Some (w', x) → fact w e h → fact w' e h.
Proof.
  intros _ (H1 & H2 & H3)%operation_grows. destruct e as [[] y]; cbn [fact]; try done.
  - intros H E. destruct (H E) as (t & ? & ?). exists t. split; [lia|auto].
  - intros H job E. destruct (H job E) as (t & ?). exists t. auto.
Qed.

Lemma control_exec_ok c w k h o w' x :
  Inv w → facts fact w h → K k h o → exec c w o = Some (w', x) → Inv w' ∧ fact w' (Ev o x) h.
Proof.
  intros HI _ [Hp _] He. split.
  - pose proof (operation_cases _ _ _ _ _ He) as Hc. cbv zeta in Hc. set (w1 := at_ w _) in Hc.
    assert (H1 : Inv w1) by (apply Inv_at; [done|lia]). clearbody w1. pose proof H1 as [HR HS Hw Hcap].
    destruct Hc as [(l & subj & _ & ->)|[(n & t & _ & -> & Ht)|[(y & -> & Hy)|[(j & ->)|[->|[(rows & ->)|(tr & ->)]]]]]].
    + apply check_rate_ok with (l := l) (subj := subj) in HR. revert HR. unfold check_rate.
      destruct (Admin.checkRate _ _ _ _ _) as [rt b]. intros HR. by split.
    + apply (sync_slot_ok _ n t Ht) in HS. revert HS. unfold sync_slot. case_match; intros HS; [done|]. destruct HR as [R1 R2 R3].
      split; [split|done|done|]; cbn.
      * intros key. destruct (R1 key) as (c' & ? & ?). exists c'. split; [lia|done].
      * intros p Hin. specialize (R2 p Hin). lia.
      * done.
      * destruct Hcap as (h' & ? & Hf). exists h'. split; [done|]. eapply Forall_impl; [done|]. cbn. lia.
    + destruct HR. split; try done. cbn [warm set_warm]. destruct Hy as [->| ->]; [done|exact Hp].
    + by apply Inv_cap.
    + done.
    + by destruct HR.
    + by destruct HR.
  - destruct o; cbn [fact]; try done.
    + cbn [exec] in He. injection He as He. unfold check_rate in He. destruct (Admin.checkRate _ _ _ _ _) as [rt b].
      injection He as <- <-. intros ->. eexists. split; [|left; reflexivity]. done.
    + cbn [exec] in He. injection He as He. unfold sync_slot in He. intros job ->. case_match; [done|].
      injection He as <- <-. eexists. by left.
Qed.

Lemma control_boot_ok w : boot w → Inv w.
Proof.
  intros (E1 & E2 & _ & E4 & E5 & E6 & E7). split; [split| | |].
  - intros key. exists (clock w). unfold hits. by rewrite E1, E6, lookup_empty.
  - rewrite E6. by intros p []%elem_of_nil.
  - intros l subj t. unfold requests. rewrite E6. cbn. lia.
  - unfold spaced. rewrite E2, E7. split; [done|]. split; [by intros ? ? []%elem_of_nil|done].
  - by rewrite E4.
  - exists []. by rewrite E5.
Qed.

Lemma control_reached_ok s :
  reached s → Inv (mem s) ∧
  ∀ n k p h, pool s !! n = Some (mkThread k p h) → facts fact (mem s) h ∧ always (K k) p h (Q k).
Proof.
  by apply (reached_safe (program m) exec boot (λ w, w) Inv fact K Q control_boot_ok (λ _ H, H) control_safe control_fact_stable control_exec_ok).
Qed.

Lemma control_guard_met s n k p h o x :
  reached s → pool s !! n = Some (mkThread k p h) → Ev o x ∈ h → ∃ h', seen h (Ev o x) h' ∧ K k h' o.
Proof.
  intros Hr Hn [h' Hs]%in_seen. exists h'. split; [done|].
  eapply (reached_met (program m) exec boot (λ w, w) K Q control_safe s Hr n k p h Hn). exact Hs.
Qed.

(** ** Theorems *)

Lemma limits_bounds c :
  limits_ok c = true →
  1 <= Warmer.MaxTracked c <= 512 ∧ 1 <= Warmer.RequestsPerPass c <= 64 ∧
  1 <= Warmer.MaxPerScopePerPass c <= Z.min 16 (Warmer.RequestsPerPass c) ∧ 8 * 2 ^ 20 <= Warmer.BytesPerPass c <= 256 * 2 ^ 20.
Proof.
  rewrite limits_config. intros H%Warmer.config_ok_bounds. lia.
Qed.

Lemma targets_expire w t : Inv w → t ∈ Capture.targets (cap w) → Capture.expires t <= clock w + 8 * Hour.
Proof.
  intros [_ _ _ (h & -> & Hf)] Ht. destruct (Capture.invariant_run h) as [_ _ Ha]. rewrite Forall_forall in Ha.
  destruct (Ha t Ht) as [(before & now & ttl & after & E & -> & _) _]. rewrite Forall_forall in Hf.
  specialize (Hf (now, Capture.CStart (Capture.ClientID t) (Capture.RatingKey t) ttl (Capture.Reason t)) ltac:(rewrite E; set_solver)).
  cbn in Hf. pose proof (Capture.clamp_bounds ttl) as [[_ ?] _]. unfold Capture.Hour, Capture.Minute, Hour, Minute, Second in *. lia.
Qed.


(** C14: What changes the edge is asked for deliberately and leaves a trail.  A
    request whose method is exempt from the CSRF check changes nothing,
    except that a poll of the PIN claim may store the owner's token.  A
    finished request that tested the server, invalidated a cache, ran a
    synchronization, rebuilt a collection, evicted artwork, configured the
    warmer or armed a capture has sent the audit event of that action and
    object under the administrator's name; and no audit event is sent for
    something that did not happen. *)
Theorem changes_are_deliberate_and_audited s n k p h :
  reached s → pool s !! n = Some (mkThread k p h) →
  (∀ o x, Ev o x ∈ h → changes o = true → unsafe k ∨ o = OnbPoll ∧ ∃ r, k = AnyPIN r) ∧
  (∀ a, p = Ret a → svc m = true → a ≠ Panicked → ∀ e d, e ∈ h → audit_due e = Some d → on_record (caller k) h d) ∧
  (hasInvalidator m = true → ∀ subj action ty id before after, Ev (Audit subj action ty id before after) tt ∈ h →
     subj = caller k ∧ ∃ e, e ∈ h ∧ audit_due e = Some (action, ty, id)).
Proof.
  intros Hr Hn. split; [|split].
  - intros o x Hin Hc. destruct (control_guard_met _ _ _ _ _ _ _ Hr Hn Hin) as (h' & _ & [_ Hk]). auto.
  - intros a ->. destruct (control_reached_ok s Hr) as [_ Hall]. by destruct (Hall _ _ _ _ Hn) as [_ Hq].
  - intros Hi subj action ty id before after Hin.
    destruct (control_guard_met _ _ _ _ _ _ _ Hr Hn Hin) as (h' & [l ->] & [[-> [(e & He & Hd)|[Hf _]]] _]); [|congruence].
    split; [done|]. exists e. split; [set_solver|done].
Qed.

End control.

(** ** Concrete runs *)

Definition w_status : Onboarding.StatusReport := Onboarding.mkStatus "pending" None None None.
(** Everything the edge asks succeeds; a full synchronization ends as
    [full]. *)
Definition w_oracle (full : sync_result) (o : op) : resp o :=
  match o return resp o with
  | CheckRate _ _ => true | SyncSlot => inl "" | SyncFull => full | SyncCollections => Synced | Rebuild _ => true
  | SyncStatus => Some [] | Invalidate _ _ => tt | EvictLow => Some (3, 4096) | ArtworkStats => ArtInitializing
  | WarmConfig => Warmer.DefaultConfig | WarmStats => Panic | WarmConfigure _ => true | WarmPause _ => tt
  | CapEvents => [] | CapTargets => [] | CapStart _ _ _ _ => Err "" | CapStop _ _ => 0%nat | SpikeEvents => [] | ObsMatrix => QueryFails
  | ObsRecord _ => None | Counters => (0, 0, 0, 0) | ServerRow => None | ItemRow _ => None | VariantRows _ => QueryFails
  | PlaybackRow _ => None | SessionRow _ => None | DecisionRows _ => QueryFails | ReportRows _ => QueryFails | TraceRow _ => None
  | CountRows _ => None | PmsCheck _ => "ok" | FetchIdentity _ => inl "m1" | OnbStatus => w_status | OnbIssue => Err ""
  | OnbPoll => Ok true | OnbSubmit _ => Ok "ada" | OnbList => Ok [] | OnbSelect _ => Err "" | OnbVerify => (None, None)
  | Audit _ _ _ _ _ _ => tt | Warming _ => tt | Capturing _ => tt
  end.
Definition w_after (d : N) (full : sync_result) : choice := mkChoice d 0 0 [] Admin.Done (w_oracle full).
Definition w_wiring : Wiring := mkWiring true true true true true true true true true true true.
Definition w_req (method path : string) : request := mkReq method path ∅ (Some "ada") "" "application/json".
Definition w_format (t : Z) : string := Itoa (t ÷ Second).
Definition w_parse : string → option (string * (string → string)) := λ _, None.
Definition w_quote : list string → string := λ l, Join l "|".
Definition w_boot : world := mkWorld 0 ∅ None "" Warmer.start Capture.New [] [] [] [].

Notation w_schedule_from := (schedule (program w_wiring) (exec w_parse w_quote w_format) (λ w, w)).
Notation w_reached := (Threads.reached (program w_wiring) (exec w_parse w_quote w_format) boot (λ w, w)).
Definition w_state (l : list (move (kind := call) (choice := choice))) : state (resp := resp) (W := world) (kind := call) (A := reply) :=
  default (mkState w_boot []) (w_schedule_from (mkState w_boot []) l).

Lemma setup_reached l : is_Some (w_schedule_from (mkState w_boot []) l) → w_reached (w_state l).
Proof.
  intros [s E]. unfold w_state. rewrite E. cbn. eapply (schedule_reached _ _ boot); [|exact E].
  apply reached_boot. by repeat split.
Qed.

Definition w_replies (s : state (resp := resp) (W := world) (kind := call) (A := reply)) : list (option reply) :=
  (λ th, match left th with Ret a => Some a | _ => None end) <$> pool s.

(** An administrator rebuilds a collection, arms a capture, tunes the warmer
    and starts a full synchronization. *)
Definition w_moves : list (move (kind := call) (choice := choice)) :=
  [Spawn (PostRebuild (w_req "POST" "/api/v1/warming/collections/42/rebuild"));
   Spawn (AnyCapture (w_req "POST" "/api/v1/diagnostics/capture") (Some (mkCaptureBody "tv" "" 5 "stutter")));
   Spawn (AnyWarming (w_req "PATCH" "/api/v1/warming") (Some (mkWarmingBody None (Some true) None (Some 8) None None)));
   Spawn (PostSyncFull (w_req "POST" "/api/v1/sync/full"))]
  ++ replicate 3 (Go 0 (w_after 1 Synced)) ++ replicate 2 (Go 1 (w_after 1 Synced)) ++ replicate 9 (Go 2 (w_after 1 Synced))
  ++ replicate 3 (Go 3 (w_after 1 Synced)).

Lemma w_moves_run : is_Some (w_schedule_from (mkState w_boot []) w_moves).
Proof. vm_compute. eauto. Qed.

Definition w_end : state (resp := resp) (W := world) (kind := call) (A := reply) := Eval vm_compute in w_state w_moves.
Lemma served_reached : w_reached w_end.
Proof.
  assert (E : w_state w_moves = w_end) by (vm_compute; reflexivity). rewrite <- E. apply setup_reached, w_moves_run.
Qed.

Lemma w_moves_replies :
  w_replies w_end =
  [Some (Data 200 (ARebuilt "42")); Some (Data 201 (ATarget (Capture.mkTarget "tv" "" "stutter" 300000000004)));
   Some (Data 200 (AWarming (Warmer.mkConfig true 512 8 4 67108864)
     (WarmerView.mkStats 0 0 true true 0 0 0 ∅ 0 8 67108864))); Some (Data 200 (AJob "0"))].
Proof. vm_compute. reflexivity. Qed.

Definition rebuilt (s : state (resp := resp) (W := world) (kind := call) (A := reply)) (key : string) : Prop :=
  ∃ k p h x, pool s !! 0%nat = Some (mkThread k p h) ∧ Ev (Rebuild key) x ∈ h ∧ (∃ t, (CollectionRebuild, caller k, t) ∈ passed (mem s)).


Definition audited (s : state (resp := resp) (W := world) (kind := call) (A := reply)) (n : nat) (d : string * string * string) : Prop :=
  ∃ k p h, pool s !! n = Some (mkThread k p h) ∧ on_record (caller k) h d.

Lemma changes_are_deliberate_and_audited_witness : audited w_end 2 ("warming.configure", "warming", "global").
Proof.
  eexists _, _, _. split; [reflexivity|].
  destruct (changes_are_deliberate_and_audited w_parse w_quote w_format w_wiring w_end 2 _ _ _ served_reached eq_refl) as (_ & H & _).
  eapply H; [reflexivity|reflexivity|done|do 5 right; left|reflexivity].
Defined.

(** A full synchronization that runs longer than five minutes loses its job
    id: the next request is told that a job of its own, which never ran, is
    in flight, and so is the one after it. *)
Lemma running_job_is_misreported :
  let sync := Spawn (PostSyncFull (w_req "POST" "/api/v1/sync/full")) in
  let minutes n := w_after (n * 60 * 1000000000) InFlight in
  w_replies (w_state [sync; sync; sync; Go 0 (w_after 0 Synced); Go 1 (minutes 6%N); Go 1 (w_after 0 InFlight); Go 2 (w_after 1 InFlight)]) =
  [None; Some (ErrorData 409 "SYNC_IN_FLIGHT" (AJob "360")); Some (ErrorData 429 "SYNC_RATE_LIMITED" (AJob "360"))].
Proof. vm_compute. reflexivity. Qed.

(** A synchronization that failed keeps its slot: for five minutes it is
    reported as in flight and cannot be tried again. *)
Lemma failed_job_is_reported_in_flight :
  let sync := Spawn (PostSyncFull (w_req "POST" "/api/v1/sync/full")) in
  w_replies (w_state [sync; sync; Go 0 (w_after 0 Synced); Go 0 (w_after 1 SyncFailed); Go 1 (w_after 1 Synced)]) =
  [Some (Error_ 502 "SYNC_FAILED"); Some (ErrorData 429 "SYNC_RATE_LIMITED" (AJob "0"))].
Proof. vm_compute. reflexivity. Qed.

(** Ending a capture and recording an observation leave no audit event. *)
Lemma unaudited_changes :
  let stop := Spawn (AnyCapture (w_req "DELETE" "/api/v1/diagnostics/capture") (Some (mkCaptureBody "tv" "" 0 ""))) in
  let observe := Spawn (AnyObservations (w_req "POST" "/api/v1/spike/observations")
    (Some (Spike.mkObservation "Web" "Plex Web" "1" "progressive" "SUPPORTED" ""))) in
  let s := w_state [stop; observe; Go 0 (w_after 1 Synced); Go 1 (w_after 1 Synced)] in
  w_replies s = [Some (Data 200 (ARemoved 0)); Some (Data 201 ARecorded)] ∧ length (profiles (mem s)) = 1%nat ∧ audits (mem s) = [].
Proof. vm_compute. done. Qed.

(** A GET, which needs no CSRF token, polls the PIN claim. *)
Lemma get_polls_the_claim :
  let s := w_state [Spawn (AnyPIN (w_req "GET" "/api/v1/onboarding/pin")); Go 0 (w_after 1 Synced); Go 0 (w_after 1 Synced)] in
  w_replies s = [Some (Data 200 (AClaimed true "pending"))].
Proof. vm_compute. reflexivity. Qed.

End AdminControl.
