(* ===== verification/AdminApi.v ===== *)
(** * The administrator's API (internal/admin: missing.go, ops.go)

    Listings with cursor pagination, the runtime settings, and the storage
    of policies.  Every one of these handlers runs behind the authentication
    of [Admin].  Statements are parameters or work on explicit tables; JSON
    decoding of a body gives its fields, and the audit trail, which no
    handler reads, is left out. *)

From S2P Require Import Prelude GoStrings GoHttp GoBase64 Policy Retention.

Module AdminApi.

(** What a handler answers; a nil dereference ends it without an answer. *)
Inductive api (A : Type) := Answer (a : A) | Refused (status : Z) (code : string) | Panicked.
Arguments Answer {A} a.
Arguments Panicked {A}.
Arguments Refused {A} status code.

(** ** Pagination *)

Notation enc_url := (EncodeToString64 url_alphabet).
Notation dec_url := (DecodeString64 url_alphabet).

Definition parseLimit (q : Values) (def max : Z) : Z :=
  match Atoi (QueryGet q "limit") with
  | Some n => if n <=? 0 then def else if max <? n then max else n
  | None => def
  end.

Definition parseCursor (q : Values) (def max : Z) : Z * Z :=
  let c := QueryGet q "cursor" in
  (parseLimit q def max,
   if c =s "" then 0
   else match dec_url c with
        | Some raw => match Atoi raw with Some n => if 0 <=? n then n else 0 | None => 0 end
        | None => 0
        end).

Definition encodeCursor (offset : Z) : option string :=
  if offset <=? 0 then None else Some (enc_url (Itoa offset)).

(** [writePage]: the rows and the next cursor. *)
Record page (R : Type) := mkPage { data : list R; nextCursor : option string }.
Arguments mkPage {R} data nextCursor.
Arguments data {R} p.
Arguments nextCursor {R} p.
Definition writePage {R} (rows : list R) (next : option Z) : page R :=
  mkPage rows (match next with Some n => encodeCursor n | None => None end).

(** The common end of the listings: one row more than asked for tells
    whether there is a next page. *)
Definition cut_page {R} (out : list R) (limit offset : Z) : page R :=
  if limit <? Z.of_nat (length out)
  then writePage (take (Z.to_nat limit) out) (Some (int64 (offset + limit)))
  else writePage out None.

(** A listing: [rows limit offset] is the statement with its LIMIT and
    OFFSET. *)
Definition listing {R} (svc : bool) (method disabled failed : string) (q : Values)
    (rows : Z → Z → option (list R)) : api (page R) :=
  if negb (method =s "GET") then Refused 405 "METHOD_NOT_ALLOWED"
  else if negb svc then Refused 409 disabled
  else
    let '(limit, offset) := parseCursor q 50 200 in
    match rows (limit + 1) offset with
    | None => Refused 502 failed
    | Some out => Answer (cut_page out limit offset)
    end.

Record user := mkUser {
  u_id : string; u_account : Z; u_username : string; u_name : string; u_type : string; u_restricted : bool;
}.
Definition handleUsers (svc : bool) (method : string) (q : Values) (rows : Z → Z → option (list user)) : api (page user) :=
  listing svc method "USERS_DISABLED" "USERS_FAILED" q rows.

Record device := mkDevice {
  d_id : string; d_client : string; d_name : string; d_product : string; d_version : string; d_platform : string;
}.
Definition handleDevices (svc : bool) (method : string) (q : Values) (rows : Z → Z → option (list device)) : api (page device) :=
  listing svc method "DEVICES_DISABLED" "DEVICES_FAILED" q rows.

(** The statement of the items also takes the search text. *)
Record item := mkItem { i_id : string; i_ratingKey : string; i_title : string; i_type : string; i_year : Z }.
Definition handleLibraryItems (svc : bool) (method : string) (q : Values) (rows : string → Z → Z → option (list item))
    : api (page item) :=
  listing svc method "LIBRARY_DISABLED" "LIBRARY_FAILED" q (rows (QueryGet q "q")).

(** Sessions may be limited to those started before an instant. *)
Record playback := mkPlayback {
  s_id : string; s_session : string; s_ratingKey : string; s_mode : string; s_routing : string;
  s_started : string; s_ended : string; s_final : string; s_decision : option string;
}.
Definition handleSessions (svc : bool) (method : string) (q : Values) (rows : string → Z → Z → option (list playback))
    : api (page playback) :=
  listing svc method "SESSIONS_DISABLED" "SESSIONS_FAILED" q (rows (QueryGet q "before")).

(** Diagnostic traces are listed and created; a trace lives for at most
    eight hours. *)
Record trace_row := mkTraceRow { t_id : string; t_type : string; t_status : string; t_started : string; t_expires : string }.
Record trace_body := mkTraceBody { traceType : string; target : string; minutes : Z }.
Definition trace_ttl (b : trace_body) : Z := if (minutes b <=? 0) || (8 * 60 <? minutes b) then 30 else minutes b.
Inductive traces_answer := TracePage (p : page trace_row) | TraceCreated (id : string) (expiresMinutes : Z).

(** [server] is the enabled server; [insert server type ttl target] the
    INSERT, which returns the new id. *)
Definition handleTraces (svc : bool) (method : string) (q : Values) (rows : Z → Z → option (list trace_row))
    (body : option trace_body) (server : option string) (insert : string → string → Z → string → option string)
    : api traces_answer :=
  if negb svc then Refused 409 "TRACES_DISABLED"
  else if method =s "GET" then
    match listing true "GET" "" "TRACES_FAILED" q rows with
    | Answer p => Answer (TracePage p)
    | Refused s c => Refused s c
    | Panicked => Panicked
    end
  else if method =s "POST" then
    match body with
    | None => Refused 400 "INVALID_BODY"
    | Some b =>
        let typ := if traceType b =s "" then "protocol" else traceType b in
        match server with
        | None => Refused 409 "NO_SERVER"
        | Some sv =>
            match insert sv typ (trace_ttl b) (target b) with
            | None => Refused 502 "TRACE_CREATE_FAILED"
            | Some id => Answer (TraceCreated id (trace_ttl b))
            end
        end
    end
  else Refused 405 "METHOD_NOT_ALLOWED".

(** *** Following the cursors *)

(** The query a client sends for the page after [cursor]. *)
Definition query_of (limit : string) (cursor : option string) : Values :=
  match cursor with
  | None => {[ "limit" := [limit] ]}
  | Some c => <["cursor" := [c]]> {[ "limit" := [limit] ]}
  end.

(** All pages of a table that does not change, from [cursor] on. *)
Fixpoint follow {R} (fuel : nat) (table : list R) (limit : string) (cursor : option string) : option (list (list R)) :=
  match fuel with
  | O => None
  | S f =>
      match listing true "GET" "" "" (query_of limit cursor)
              (λ n offset, Some (take (Z.to_nat n) (drop (Z.to_nat offset) table))) with
      | Answer p =>
          match nextCursor p with
          | None => Some [data p]
          | Some c => match follow f table limit (Some c) with Some l => Some (data p :: l) | None => None end
          end
      | _ => None
      end
  end.

Lemma parseLimit_range q def max : 1 <= def <= max → 1 <= parseLimit q def max <= max.
Proof.
  intros Hd. unfold parseLimit. destruct (Atoi _) as [n|]; [|lia].
  destruct (Z.leb_spec n 0); [lia|]. destruct (Z.ltb_spec max n); lia.
Qed.

Lemma query_limit limit c : QueryGet (query_of limit c) "limit" = limit.
Proof. destruct c; done. Qed.

Lemma parseCursor_encodeCursor limit n c :
  0 < n < 2 ^ 63 → encodeCursor n = Some c →
  parseCursor (query_of limit (Some c)) 50 200 = (parseLimit (query_of limit None) 50 200, n).
Proof.
  intros Hn. unfold encodeCursor. destruct (Z.leb_spec n 0); [lia|]. intros [= <-]. unfold parseCursor.
  assert (Hc : QueryGet (query_of limit (Some (enc_url (Itoa n)))) "cursor" = enc_url (Itoa n)) by done.
  rewrite Hc. pose proof (DecodeString64_EncodeToString64 url_alphabet url_alphabet_ok (Itoa n)) as Hd.
  destruct (String.eqb_spec (enc_url (Itoa n)) "") as [E|_].
  { exfalso. rewrite E in Hd. pose proof (Atoi_Itoa n ltac:(lia)) as Ha. injection Hd as Hd. by rewrite <- Hd in Ha. }
  rewrite Hd, Atoi_Itoa by lia. destruct (Z.leb_spec 0 n); [|lia]. unfold parseLimit. by rewrite !query_limit.
Qed.

Section follow.
Context {R : Type} (table : list R) (limit : string).
Context (Hsmall : Z.of_nat (length table) < 2 ^ 62).
Notation size_ := (parseLimit (query_of limit None) 50 200).

Lemma follow_spec fuel cursor offset :
  parseCursor (query_of limit cursor) 50 200 = (size_, offset) → 0 <= offset <= Z.of_nat (length table) →
  (length table - Z.to_nat offset < fuel)%nat →
  ∃ pages, follow fuel table limit cursor = Some pages ∧ concat pages = drop (Z.to_nat offset) table ∧
    Forall (λ l, Z.of_nat (length l) <= 200) pages.
Proof.
  pose proof (parseLimit_range (query_of limit None) 50 200 ltac:(lia)) as Hl.
  revert cursor offset. induction fuel as [|f IH]; intros cursor offset Hc Ho Hf; [lia|]. cbn [follow]. unfold listing.
  change (negb ("GET" =s "GET")) with false. cbn [negb]. cbv iota. rewrite Hc.
  set (out := take (Z.to_nat (size_ + 1)) (drop (Z.to_nat offset) table)).
  assert (Hlen : length out = (Z.to_nat (size_ + 1) `min` (length table - Z.to_nat offset))%nat)
    by (unfold out; by rewrite length_take, length_drop).
  unfold cut_page. destruct (Z.ltb_spec size_ (Z.of_nat (length out))) as [Hmore|Hlast].
  - rewrite int64_id by (unfold is_int64; lia). cbn [writePage nextCursor data].
    destruct (encodeCursor (offset + size_)) as [c|] eqn:Ec.
    2:{ unfold encodeCursor in Ec. destruct (Z.leb_spec (offset + size_) 0); [lia|discriminate]. }
    destruct (IH (Some c) (offset + size_)) as (pages & -> & Hcat & Hall).
    + by apply (parseCursor_encodeCursor limit (offset + size_) c); [lia|].
    + lia.
    + lia.
    + eexists. split; [done|]. cbn [concat]. rewrite Hcat. unfold out. rewrite take_take, Nat.min_l by lia.
      rewrite Z2Nat.inj_add by lia. rewrite <- drop_drop, take_drop. split; [done|]. constructor; [|done].
      rewrite length_take. lia.
  - cbn [writePage nextCursor data]. exists [out]. split; [done|]. cbn [concat]. rewrite app_nil_r.
    split; [unfold out; apply take_ge; rewrite length_drop; lia|]. repeat constructor. lia.
Qed.

End follow.

(** Pagination is complete: whatever page size a client asks for, following
    the cursors of a listing ends and shows every row of the table exactly
    once and in order, on pages of at most 200 rows. *)
Theorem pages_cover {R} (table : list R) (limit : string) :
  Z.of_nat (length table) < 2 ^ 62 →
  ∃ pages, follow (S (length table)) table limit None = Some pages ∧ concat pages = table ∧
    Forall (λ l, Z.of_nat (length l) <= 200) pages.
Proof.
  intros Hs. destruct (follow_spec table limit Hs (S (length table)) None 0) as (pages & H1 & H2 & H3); [done|lia|lia|].
  by exists pages.
Qed.

Lemma pages_cover_witness :
  ∃ pages, follow 6 [1; 2; 3; 4; 5] "2" None = Some pages ∧ concat pages = [1; 2; 3; 4; 5].
Proof.
  destruct (pages_cover [1; 2; 3; 4; 5] "2" ltac:(cbn; lia)) as (pages & H1 & H2 & _). by exists pages.
Defined.

Example three_pages : follow 6 [1; 2; 3; 4; 5] "2" None = Some [[1; 2]; [3; 4]; [5]].
Proof. vm_compute. reflexivity. Qed.

(** ** Runtime settings *)

(** Name, bounds and default of the settings that may be changed. *)
Definition settingBounds : list (string * (Z * Z * Z)) :=
  [("replx.playback_retention_days", (1, 3650, 30)); ("replx.audit_retention_days", (1, 3650, 180))].
Definition bounds_of (key : string) : option (Z * Z * Z) := snd <$> find (λ b, b.1 =s key) settingBounds.
Definition runtimeSettingKeys : list string := settingBounds.*1.

Definition validatedSetting (key raw : string) : option Z :=
  '(lo, hi, _) ← bounds_of key;
  n ← Retention.unmarshalInt raw;
  if (n <? lo) || (hi <? n) then None else Some n.

(** The loop of a PATCH over the members of the body, in the order the map
    is ranged over; [fates] says what becomes of the statement of a key. *)
Fixpoint patch (fates : string → Retention.fate) (body : list (string * string)) (settings : gmap string string)
    : gmap string string * api unit :=
  match body with
  | [] => (settings, Answer tt)
  | (k, v) :: body =>
      match validatedSetting k v with
      | None => (settings, Refused 400 "SETTING_INVALID")
      | Some n =>
          let stored := <[k := Itoa n]> settings in
          match fates k with
          | Retention.Done => patch fates body stored
          | Retention.Lost => (settings, Refused 502 "SETTING_STORE_FAILED")
          | Retention.Unseen => (stored, Refused 502 "SETTING_STORE_FAILED")
          end
      end
  end.

Inductive settings_answer := SettingsAre (l : list (string * string)) | Updated.
(** [order] is how the map of the body is ranged over; a GET lists the
    rows of the known keys, sorted, if its statement succeeds. *)
Definition handleSettings (svc : bool) (method : string) (order : list (string * string) → list (string * string))
    (fates : string → Retention.fate) (body : option (gmap string string)) (query_ok : bool) (settings : gmap string string)
    : gmap string string * api settings_answer :=
  if negb svc then (settings, Refused 409 "SETTINGS_DISABLED")
  else if method =s "GET" then
    (settings, if query_ok
               then Answer (SettingsAre (merge_sort (λ a b, String.le a.1 b.1)
                      (map_to_list (filter (λ kv, kv.1 ∈ runtimeSettingKeys) settings))))
               else Refused 502 "SETTINGS_FAILED")
  else if method =s "PATCH" then
    match body with
    | None => (settings, Refused 400 "INVALID_BODY")
    | Some b =>
        match patch fates (order (map_to_list b)) settings with
        | (s, Answer _) => (s, Answer Updated)
        | (s, Refused st c) => (s, Refused st c)
        | (s, Panicked) => (s, Panicked)
        end
    end
  else (settings, Refused 405 "METHOD_NOT_ALLOWED").

Lemma unmarshal_stored n : 1 <= n <= 3650 → Retention.unmarshalInt (Itoa n) = Some n.
Proof.
  intros Hn.
  assert (H : forallb (λ k, bool_decide (Retention.unmarshalInt (Itoa (Z.of_nat k)) = Some (Z.of_nat k))) (seq 1 3650) = true)
    by (vm_compute; reflexivity).
  rewrite forallb_forall in H. specialize (H (Z.to_nat n)). rewrite Z2Nat.id in H by lia.
  assert (Hr : (1 <= Z.to_nat n < 1 + 3650)%nat) by lia. specialize (H (proj2 (in_seq 3650 1 (Z.to_nat n)) Hr)).
  by apply bool_decide_eq_true in H.
Qed.

Lemma validatedSetting_range key raw n :
  validatedSetting key raw = Some n → key ∈ runtimeSettingKeys ∧ 1 <= n <= 3650.
Proof.
  unfold validatedSetting, bounds_of. cbn [find settingBounds fst].
  destruct (String.eqb_spec "replx.playback_retention_days" key) as [<-|_];
    [|destruct (String.eqb_spec "replx.audit_retention_days" key) as [<-|_]; [|discriminate]];
    (cbn [fmap option_fmap option_map snd mbind option_bind];
     destruct (Retention.unmarshalInt raw) as [k|]; [|discriminate]; cbn [mbind option_bind];
     destruct ((k <? 1) || (3650 <? k)) eqn:E; [discriminate|]; intros [= <-]; zbool; split; [cbn; set_solver|lia]).
Qed.

Lemma patch_spec fates body settings s :
  NoDup body.*1 → patch fates body settings = (s, Answer tt) →
  (∀ k v, (k, v) ∈ body → ∃ n, validatedSetting k v = Some n ∧ s !! k = Some (Itoa n)) ∧
  (∀ k, k ∉ body.*1 → s !! k = settings !! k).
Proof.
  revert settings. induction body as [|[k v] body IH]; intros settings Hnd; cbn [patch].
  - intros [= <-]. split; [by intros k v ?%elem_of_nil|done].
  - cbn in Hnd. apply NoDup_cons in Hnd as [Hk Hnd]. destruct (validatedSetting k v) as [n|] eqn:E; [|discriminate].
    destruct (fates k); [|discriminate..]. intros Hp. destruct (IH _ Hnd Hp) as [H1 H2]. split.
    + intros k' v' [[= -> ->]|Hin]%elem_of_cons; [|by apply H1]. exists n. split; [done|].
      rewrite (H2 k) by done. apply lookup_insert_eq.
    + intros k' Hk'. cbn in Hk'. rewrite H2 by set_solver. apply lookup_insert_ne. set_solver.
Qed.

(** A change of a setting takes effect: after a PATCH that is answered with
    success, whatever order its members are handled in, the next retention
    pass uses, for each setting that was sent, the number of days the
    administrator sent, and every such number is between 1 and 3650; settings
    that were not sent keep what they had. *)
Theorem settings_take_effect order fates body settings s fallback :
  (∀ l, order l ≡ₚ l) →
  handleSettings true "PATCH" order fates (Some body) true settings = (s, Answer Updated) →
  let live := Retention.livePolicy true (λ k, s !! k) fallback in
  let was := Retention.livePolicy true (λ k, settings !! k) fallback in
  let days k d d' := match body !! k with
                     | Some v => ∃ n, validatedSetting k v = Some n ∧ 1 <= n <= 3650 ∧ d = n
                     | None => d = d'
                     end in
  days "replx.playback_retention_days" (Retention.PlaybackDays live) (Retention.PlaybackDays was) ∧
  days "replx.audit_retention_days" (Retention.AuditDays live) (Retention.AuditDays was).
Proof.
  intros Ho. unfold handleSettings. change ("PATCH" =s "GET") with false. change ("PATCH" =s "PATCH") with true.
  cbn [negb]. cbv iota. destruct (patch _ _ _) as [s' [[]| |]] eqn:Hp; [|discriminate..]. intros [= <-]. cbv zeta.
  assert (Hnd : NoDup (order (map_to_list body)).*1) by (rewrite Ho; apply NoDup_fst_map_to_list).
  destruct (patch_spec _ _ _ _ Hnd Hp) as [H1 H2].
  assert (Hdays : ∀ k fb, match body !! k with
    | Some v => ∃ n, validatedSetting k v = Some n ∧ 1 <= n <= 3650 ∧
        Retention.live_days (Retention.settingDays (λ k, s' !! k) k) fb = n
    | None => Retention.live_days (Retention.settingDays (λ k, s' !! k) k) fb =
              Retention.live_days (Retention.settingDays (λ k, settings !! k) k) fb end).
  { intros k fb. destruct (body !! k) as [v|] eqn:Eb.
    - destruct (H1 k v) as (n & Hv & Hs); [rewrite Ho; by apply elem_of_map_to_list|].
      exists n. destruct (validatedSetting_range _ _ _ Hv) as [_ Hn]. split; [done|]. split; [done|].
      unfold Retention.settingDays. rewrite Hs. cbn. rewrite unmarshal_stored by done.
      unfold Retention.live_days. destruct (Z.leb_spec 1 n), (Z.leb_spec n 3650); cbn; lia.
    - unfold Retention.settingDays. rewrite H2; [done|]. rewrite Ho. intros ([k' v] & -> & Hin)%list_elem_of_fmap.
      apply elem_of_map_to_list in Hin. cbn in Eb. congruence. }
  split; apply Hdays.
Qed.

Lemma settings_take_effect_witness :
  Retention.PlaybackDays (Retention.livePolicy true
    (λ k, ({[ "replx.playback_retention_days" := "7" ]} : gmap string string) !! k) (Retention.mkPolicy 30 180 0)) = 7.
Proof.
  assert (E : handleSettings true "PATCH" (λ l, l) (λ _, Retention.Done)
    (Some {[ "replx.playback_retention_days" := "7" ]}) true ∅ = ({[ "replx.playback_retention_days" := "7" ]}, Answer Updated))
    by (vm_compute; reflexivity).
  destruct (proj1 (settings_take_effect (λ l, l) (λ _, Retention.Done) {[ "replx.playback_retention_days" := "7" ]} ∅ _
    (Retention.mkPolicy 30 180 0) (λ l, reflexivity l) E)) as (n & Hv & _ & Ed).
  rewrite Ed. vm_compute in Hv. by injection Hv.
Defined.

(** A PATCH that is refused may have changed a setting: the members before
    the offending one are stored already. *)
Example refused_patch_changes_settings :
  handleSettings true "PATCH" (λ _, [("replx.audit_retention_days", "7"); ("unknown", "1")]) (λ _, Retention.Done)
    (Some {[ "replx.audit_retention_days" := "7"; "unknown" := "1" ]}) true ∅ =
  ({[ "replx.audit_retention_days" := "7" ]}, Refused 400 "SETTING_INVALID").
Proof. vm_compute. reflexivity. Qed.

End AdminApi.
