(* ===== verification/PolicyAdmin.v ===== *)
(** * Storing policies (internal/admin: ops.go, missing.go)

    The administrator writes policies for everyone, a user or a device; the
    playback engine loads them with [Policy.Load.LoadEffective].  The table
    [policies] is explicit here, with the statements of both sides, so that
    a write and the next load can be put together.  Decoding a configuration
    is the same parameter as in [Policy.Load]. *)

From S2P Require Import Prelude GoStrings GoHttp Policy Retention AdminApi.

Module PolicyAdmin.
Import Engine Load AdminApi.

(** ** Tables *)

Record prow := mkRow {
  p_server : string; p_scope : string; p_scopeID : option string; p_name : string;
  p_config : string; p_enabled : bool; p_updated : Z;
}.
Notation ptable := (list prow) (only parsing).

(** The answers a write depends on: the enabled server, the ids of users and
    devices, whether a look-up of these fails, what becomes of the
    transaction, the time. *)
Record answers := mkAnswers {
  server : option string; users : list string; devices : list string; lookup_fails : bool;
  commit : Retention.fate; at_ : Z;
}.

(** ** Validation *)

Section admin.
Context (unmarshal : string → Policy + string).

Definition tristate_ok (t : TriState) : bool :=
  let l := ToLower t in (l =s "") || (l =s Inherit) || (l =s Allow) || (l =s Deny).
Definition prefer_ok (t : TriState) : bool :=
  let l := ToLower t in (l =s "") || (l =s Inherit) || (l =s Allow).
Definition routing_ok (r : string) : bool := (r =s "") || (r =s "inherit") || (r =s "automatic").

Definition scope_ok (scopeType scopeID : string) : bool :=
  if scopeType =s "global" then scopeID =s ""
  else if (scopeType =s "user") || (scopeType =s "device") then negb (scopeID =s "")
  else false.

Definition validatePolicy (scopeType scopeID name config : string) : option Policy :=
  if negb (scope_ok scopeType scopeID) then None
  else if name =s "" then None
  else
    match unmarshal config with
    | inr _ => None
    | inl p =>
        if forallb tristate_ok [Allow4K p; AllowHDR p; AllowDolbyVision p; AllowTranscode p; UnknownDRBehavior p]
           && prefer_ok (PreferDirectPlay p) && routing_ok (RoutingMode p)
        then Some p else None
    end.

(** ** Storage *)

(** The scope id column: NULL for the global scope. *)
Definition scope_column (scopeType scopeID : string) : option string :=
  if scopeType =s "global" then None else Some scopeID.
Definition same_scope (sv scopeType : string) (sid : option string) (r : prow) : bool :=
  (p_server r =s sv) && (p_scope r =s scopeType) && bool_decide (p_scopeID r = sid).
(** The DELETE of the transaction: a global row of the server, or the row of
    the user or device. *)
Definition replaced (sv scopeType scopeID : string) (r : prow) : bool :=
  (p_server r =s sv) && (p_scope r =s scopeType) &&
  ((scopeType =s "global") || bool_decide (p_scopeID r = Some scopeID)).

Definition replace (sv scopeType scopeID name config : string) (enabled : bool) (now : Z) (t : ptable) : ptable :=
  mkRow sv scopeType (scope_column scopeType scopeID) name config enabled now ::
  filter (λ r, replaced sv scopeType scopeID r = false) t.

Definition storePolicy (a : answers) (scopeType scopeID name config : string) (enabled : bool) (t : ptable)
    : ptable * option string :=
  match server a with
  | None => (t, Some "no enabled server")
  | Some sv =>
      if (scopeType =s "user") && (lookup_fails a || negb (bool_decide (scopeID ∈ users a)))
      then (t, Some "unknown user scope_id")
      else if (scopeType =s "device") && (lookup_fails a || negb (bool_decide (scopeID ∈ devices a)))
      then (t, Some "unknown device scope_id")
      else
        let t' := replace sv scopeType scopeID name config enabled (at_ a) t in
        match commit a with
        | Retention.Done => (t', None)
        | Retention.Lost => (t, Some "transaction failed")
        | Retention.Unseen => (t', Some "transaction failed")
        end
  end.

(** ** Handlers *)

Record policy_body := mkBody {
  scopeType : string; scopeID : string; name : string; config : string; enabled : option bool;
}.

(** [PUT /api/v1/policies]; [body] is the decoded JSON. *)
Definition handlePolicies_put (svc : bool) (a : answers) (body : option policy_body) (t : ptable) : ptable * api unit :=
  if negb svc then (t, Refused 409 "POLICY_DISABLED")
  else
    match body with
    | None => (t, Refused 400 "INVALID_BODY")
    | Some b =>
        match validatePolicy (scopeType b) (scopeID b) (name b) (config b) with
        | None => (t, Refused 400 "POLICY_INVALID")
        | Some _ =>
            match storePolicy a (scopeType b) (scopeID b) (name b) (config b) (default true (enabled b)) t with
            | (t', None) => (t', Answer tt)
            | (t', Some _) => (t', Refused 502 "POLICY_STORE_FAILED")
            end
        end
    end.

(** One row of the listing of [GET /api/v1/policies]. *)
Record policy_row := mkPolicyRow { l_scope : string; l_id : string; l_name : string; l_config : string; l_enabled : bool }.
Inductive policies_answer := PolicyPage (p : page policy_row) | Stored.

Definition handlePolicies (svc : bool) (method : string) (q : Values) (rows : Z → Z → option (list policy_row))
    (a : answers) (body : option policy_body) (t : ptable) : ptable * api policies_answer :=
  if negb svc then (t, Refused 409 "POLICY_DISABLED")
  else if method =s "GET" then
    (t, match listing true "GET" "" "POLICIES_FAILED" q rows with
        | Answer p => Answer (PolicyPage p)
        | Refused s c => Refused s c
        | Panicked => Panicked
        end)
  else if method =s "PUT" then
    match handlePolicies_put svc a body t with
    | (t', Answer _) => (t', Answer Stored)
    | (t', Refused s c) => (t', Refused s c)
    | (t', Panicked) => (t', Panicked)
    end
  else (t, Refused 405 "METHOD_NOT_ALLOWED").

(** [PUT] or [PATCH /api/v1/users/<id>/policy] and the same for devices:
    the name may be left out.  Without a database [storePolicy] dereferences
    nil. *)
Definition scoped_put (scope default_name : string) (svc : bool) (a : answers) (id : string)
    (body : option (string * string)) (t : ptable) : ptable * api unit :=
  match body with
  | None => (t, Refused 400 "INVALID_BODY")
  | Some (nm, cfg) =>
      if cfg =s "" then (t, Refused 400 "INVALID_BODY")
      else
        if negb svc then (t, Panicked)
        else match storePolicy a scope id (if nm =s "" then default_name else nm) cfg true t with
        | (t', None) => (t', Answer tt)
        | (t', Some _) => (t', Refused 400 "POLICY_STORE_FAILED")
        end
  end.
Definition handleUserPolicyPut : bool → answers → string → option (string * string) → ptable → ptable * api unit :=
  scoped_put "user" "user-policy".
Definition handleDevicePolicyPut : bool → answers → string → option (string * string) → ptable → ptable * api unit :=
  scoped_put "device" "device-policy".

(** [GET /api/v1/users/<id>/policy]: the configuration of an enabled row of
    any server, the first in the order the database returns them. *)
Definition scoped_get (scope : string) (svc : bool) (arrange : list prow → list prow) (fails : bool) (id : string)
    (t : ptable) : api (option string) :=
  if negb svc then Refused 409 "POLICY_DISABLED"
  else if fails then Answer None
  else Answer (p_config <$> head (arrange
         (filter (λ r, (p_scope r =s scope) && bool_decide (p_scopeID r = Some id) && p_enabled r = true) t))).
Definition handleUserPolicyGet := scoped_get "user".
Definition handleDevicePolicyGet := scoped_get "device".

(** *** One user or device *)

(** The id and whether the path goes on to the policy. *)
Definition detail_path (prefix path : string) : string * bool :=
  let parts := Split (TrimPrefix path prefix) "/" in
  (default "" (head parts), bool_decide (tail parts = ["policy"])).

Inductive detail (R : Type) := Shown (r : R) | PolicyIs (config : option string) | PolicyStored | DeviceUpdated.
Arguments Shown {R} r.
Arguments PolicyIs {R} config.
Arguments PolicyStored {R}.
Arguments DeviceUpdated {R}.
Definition as_detail {A R} (f : A → detail R) (x : api A) : api (detail R) :=
  match x with Answer a => Answer (f a) | Refused s c => Refused s c | Panicked => Panicked end.

(** What a detail request depends on besides the tables. *)
Record detail_env := mkDetailEnv {
  e_svc : bool; e_arrange : list prow → list prow; e_fails : bool; e_answers : answers;
  e_policy : option (string * string);
}.
Definition policy_method (m : string) : bool := (m =s "PATCH") || (m =s "PUT").

Definition handleUserDetail (e : detail_env) (method path : string) (find_user : string → option user) (t : ptable)
    : ptable * api (detail user) :=
  let '(uid, isPolicy) := detail_path "/api/v1/users/" path in
  if uid =s "" then (t, Refused 404 "NOT_FOUND")
  else if isPolicy && (method =s "GET") then
    (t, as_detail PolicyIs (handleUserPolicyGet (e_svc e) (e_arrange e) (e_fails e) uid t))
  else if isPolicy && policy_method method then
    let '(t', r) := handleUserPolicyPut (e_svc e) (e_answers e) uid (e_policy e) t in (t', as_detail (λ _, PolicyStored) r)
  else if negb isPolicy && (method =s "GET") then
    (t, if negb (e_svc e) then Refused 409 "USERS_DISABLED"
        else match find_user uid with Some u => Answer (Shown u) | None => Refused 404 "USER_NOT_FOUND" end)
  else (t, Refused 405 "METHOD_NOT_ALLOWED").

(** A device may be renamed; [rename] is the body of the PATCH and [fate]
    what becomes of its UPDATE. *)
Definition with_name (n : string) (d : device) : device :=
  mkDevice (d_id d) (d_client d) n (d_product d) (d_version d) (d_platform d).
Definition handleDeviceDetail (e : detail_env) (method path : string) (rename : option (option string))
    (fate : Retention.fate) (t : ptable) (ds : gmap string device) : ptable * gmap string device * api (detail device) :=
  let '(did, isPolicy) := detail_path "/api/v1/devices/" path in
  if did =s "" then (t, ds, Refused 404 "NOT_FOUND")
  else if isPolicy && (method =s "GET") then
    (t, ds, as_detail PolicyIs (handleDevicePolicyGet (e_svc e) (e_arrange e) (e_fails e) did t))
  else if isPolicy && policy_method method then
    let '(t', r) := handleDevicePolicyPut (e_svc e) (e_answers e) did (e_policy e) t in (t', ds, as_detail (λ _, PolicyStored) r)
  else if negb isPolicy && (method =s "GET") then
    (t, ds, if negb (e_svc e) then Refused 409 "DEVICES_DISABLED"
            else if e_fails e then Refused 404 "DEVICE_NOT_FOUND"
            else match ds !! did with Some d => Answer (Shown d) | None => Refused 404 "DEVICE_NOT_FOUND" end)
  else if negb isPolicy && (method =s "PATCH") then
    match rename with
    | None => (t, ds, Refused 400 "INVALID_BODY")
    | Some name =>
        if negb (e_svc e) then (t, ds, Refused 409 "DEVICES_DISABLED")
        else match name, fate with
             | None, _ => (t, ds, Answer DeviceUpdated)
             | Some n, Retention.Done => (t, alter (with_name n) did ds, Answer DeviceUpdated)
             | Some n, Retention.Lost => (t, ds, Refused 502 "DEVICE_UPDATE_FAILED")
             | Some n, Retention.Unseen => (t, alter (with_name n) did ds, Refused 502 "DEVICE_UPDATE_FAILED")
             end
    end
  else (t, ds, Refused 405 "METHOD_NOT_ALLOWED").

(** ** Loading (internal/policy/load.go) *)

(** The two statements of [loadLevel]: without a scope id every row of the
    scope type counts; the latest enabled one wins. *)
Definition matches (sv scopeType : string) (sid : option string) (r : prow) : bool :=
  (p_server r =s sv) && (p_scope r =s scopeType) && p_enabled r &&
  match sid with None => true | Some _ => bool_decide (p_scopeID r = sid) end.
Definition level_query (t : ptable) (sv scopeType : string) (sid : option string) : RowResult :=
  match filter (λ r, matches sv scopeType sid r = true) t with
  | [] => NoRows
  | r :: l => Row (p_config (best_of (λ a b, p_updated b <? p_updated a) r l))
  end.

(** ** A write and the next load *)

(** The unique indexes of the table, and its check of the scope id. *)
Definition table_ok (t : ptable) : Prop :=
  NoDup ((λ r, (p_server r, p_scope r, p_scopeID r)) <$> t) ∧
  Forall (λ r, p_scope r = "global" ↔ p_scopeID r = None) t.

(** A scope as [LoadEffective] asks for it. *)
Definition level (scopeType : string) (sid : option string) : Prop := scopeType = "global" ↔ sid = None.

Lemma replaced_same sv st id r :
  (p_scope r = "global" ↔ p_scopeID r = None) →
  replaced sv st id r = true ↔ p_server r = sv ∧ p_scope r = st ∧ p_scopeID r = scope_column st id.
Proof.
  intros Hr. unfold replaced, scope_column. destruct (String.eqb_spec st "global") as [->|Hne];
    rewrite ?orb_true_l, ?orb_false_l, ?andb_true_r, !andb_true_iff, !String.eqb_eq, ?bool_decide_eq_true.
  - split; [intros [? ?]|intros (? & ? & ?)]; [split_and!; try done; by apply Hr|done].
  - tauto.
Qed.

Lemma replace_ok sv st id nm cfg en now t :
  table_ok t → table_ok (replace sv st id nm cfg en now t).
Proof.
  intros [Hnd Hf]. unfold replace. split.
  - cbn [fmap list_fmap p_server p_scope p_scopeID]. apply NoDup_cons. split.
    + intros (r & E & Hr)%list_elem_of_fmap. apply list_elem_of_filter in Hr as [Hr Hin].
      rewrite Forall_forall in Hf. injection E as E1 E2 E3.
      assert (replaced sv st id r = true) by (apply replaced_same; [by apply Hf|done]). congruence.
    + eapply sublist_NoDup; [exact Hnd|]. apply fmap_sublist, sublist_filter.
  - constructor; [cbn; unfold scope_column; destruct (String.eqb_spec st "global"); naive_solver|].
    rewrite Forall_forall in Hf |- *. intros r [_ Hr]%list_elem_of_filter. by apply Hf.
Qed.

(** The query of the scope that was written finds the new row, if it is
    enabled; no other scope is touched. *)
Lemma query_written sv st id nm cfg en now t :
  level_query (replace sv st id nm cfg en now t) sv st (scope_column st id) = if en then Row cfg else NoRows.
Proof.
  unfold level_query, replace.
  assert (Hnone : filter (λ r, matches sv st (scope_column st id) r = true) (filter (λ r, replaced sv st id r = false) t) = []).
  { apply elem_of_nil_inv. intros r Hr. apply list_elem_of_filter in Hr as [Hm Hr].
    apply list_elem_of_filter in Hr as [Hr _]. unfold matches, replaced, scope_column in *.
    apply andb_prop in Hm as [[Hm _]%andb_prop Hid]. rewrite Hm in Hr. destruct (st =s "global"); [done|].
    by rewrite Hid in Hr. }
  assert (Hnew : matches sv st (scope_column st id) (mkRow sv st (scope_column st id) nm cfg en now) = en).
  { unfold matches, scope_column. cbn [p_server p_scope p_enabled p_scopeID]. rewrite !String.eqb_refl.
    destruct (st =s "global"), en; cbn; rewrite ?bool_decide_eq_true_2 by done; done. }
  rewrite filter_cons, Hnone. destruct en; [by rewrite decide_True by exact Hnew|].
  rewrite decide_False; [done|]. by rewrite Hnew.
Qed.

Lemma filter_keeps {A} (P Q : A → Prop) `{∀ x, base.Decision (P x), ∀ x, base.Decision (Q x)} (l : list A) :
  Forall (λ x, P x → Q x) l → filter P (filter Q l) = filter P l.
Proof.
  induction 1 as [|x l Hx Hl IH]; [done|]. rewrite !filter_cons.
  destruct (decide (Q x)) as [HQ|HQ], (decide (P x)) as [HP|HP]; rewrite ?filter_cons, ?decide_True, ?decide_False, ?IH by done; try done.
  by destruct (HQ (Hx HP)).
Qed.

(** The column a scope is looked up under decides what is found. *)
Lemma matches_scope sv st sid r :
  (p_scope r = "global" ↔ p_scopeID r = None) → level st sid → matches sv st sid r = true →
  (p_server r, p_scope r, p_scopeID r) = (sv, st, sid).
Proof.
  intros Hr Hl. unfold matches. rewrite !andb_true_iff, !String.eqb_eq. intros [[[Es Et] _] Hid].
  destruct sid as [i|]; [apply bool_decide_eq_true in Hid; by rewrite Es, Et, Hid|].
  rewrite Es, Et. by rewrite (proj1 Hr (eq_trans Et (proj2 Hl eq_refl))).
Qed.

Lemma query_other sv st id nm cfg en now t sv' st' sid' :
  Forall (λ r, p_scope r = "global" ↔ p_scopeID r = None) t → level st' sid' →
  (sv', st', sid') ≠ (sv, st, scope_column st id) →
  level_query (replace sv st id nm cfg en now t) sv' st' sid' = level_query t sv' st' sid'.
Proof.
  intros Hf Hl Hne. unfold level_query, replace. rewrite filter_cons, decide_False.
  - rewrite filter_keeps; [done|]. eapply Forall_impl; [exact Hf|]. intros r Hr Hm.
    destruct (replaced sv st id r) eqn:E; [|done]. exfalso. apply Hne.
    apply replaced_same in E as (E1 & E2 & E3); [|done]. rewrite <- (matches_scope _ _ _ _ Hr Hl Hm). congruence.
  - intros Hm. apply Hne. symmetry.
    refine (matches_scope sv' st' sid' (mkRow sv st (scope_column st id) nm cfg en now) _ Hl Hm).
    cbn. unfold scope_column. destruct (String.eqb_spec st "global"); naive_solver.
Qed.

Lemma validate_decodes st id nm cfg p : validatePolicy st id nm cfg = Some p → unmarshal cfg = inl p.
Proof.
  unfold validatePolicy. destruct (negb _); [done|]. destruct (nm =s ""); [done|].
  destruct (unmarshal cfg) as [q|]; [|done]. destruct (_ && _); [|done]. by intros [= ->].
Qed.


End admin.

(** ** Concrete runs *)

Definition w_policy : Policy := mkPolicy (Some 1920) None None None "" "Deny" "" "" "" None "" "" None.
Definition w_decode (raw : string) : Policy + string := if raw =s "{}" then inl w_policy else inr "syntax".
Definition w_answers : answers := mkAnswers (Some "srv") ["ada"] ["tv"] false Retention.Done 5.
Definition w_body : policy_body := mkBody "user" "ada" "no 4k" "{}" None.
Definition w_table : ptable := [mkRow "srv" "user" (Some "ada") "old" "x" true 1; mkRow "srv" "global" None "all" "{}" true 2].


(** The routes of a user or a device store what [PUT /policies] refuses: a
    configuration that does not decode is answered with success, and from
    then on the user's policy cannot be loaded. *)
Lemma user_policy_put_is_not_validated :
  validatePolicy w_decode "user" "ada" "user-policy" "[]" = None ∧
  match handleUserPolicyPut true w_answers "ada" (Some ("", "[]")) w_table with
  | (t', r) => r = Answer tt ∧
      ∃ e, LoadEffective (level_query t') w_decode true "srv" (Some "ada") None = inr e
  end.
Proof. split; [reflexivity|]. cbn. split; [reflexivity|]. eexists. vm_compute. reflexivity. Qed.

End PolicyAdmin.
