(* ===== verification/Proxy.v ===== *)
(** * The gateway handler (internal/proxy)

    [ServeHTTP] and everything it calls, as a program over the atomic
    actions it performs on state shared with concurrent requests (caches,
    generations, leases, the broken flag, the flight table, the warmer) and
    on other systems (origin server, identity resolver, playback engine,
    spike resolver, artwork store).  The properties of this file hold for
    every execution, whatever those actions return; the interleavings of
    many requests are the subject of the next file. *)

From Stdlib Require Import Eqdep_dec.
From S2P Require Import Prelude GoStrings GoHttp GoCrypto Policy Gateway CacheEntry CacheKeys.
From S2P Require Import Generations Trace Playback Warmer Effects Identity.

Module Proxy.

Import Gateway CacheEntry CacheKeys.

Notation Header := (list (string * list string)) (only parsing).

(** ** Requests and responses *)

(** A public request: its URL's authority, the immediate peer's address as
    [peerIP] reports it and whether [trustedPeer] holds of it. *)
Record inbound := mkInbound {
  request : Request; urlHost : string; observed : string; trusted : bool;
}.

(** A response of the origin: its body as far as it could be read, and
    whether reading ended in an error. *)
Record Response := mkResponse {
  StatusCode : Z; RespHeader : Header; RespBody : string; ReadFails : bool;
}.

(** A request to the origin; the path is the one joined to the base. *)
Record outbound := mkOutbound {
  oMethod : string; oPath : string; oRawQuery : string; oHeader : Header;
}.

Inductive decision_reply :=
  | NotHandled
  | Handled
  | Denied (code message : string) (rejected : list Engine.Rejection).

Inductive hook := PartPolicy | SpikeBoundary.
Inductive hijack := NoHijacker | HijackFailed | Hijacked.
Inductive art_priority := ArtLow | ArtNormal | ArtHigh.

(** What is written to the client, by the place that writes it. *)
Inductive Reply :=
  | ErrorReply (status : Z) (h : Header) (code message requestId : string) (rejected : list string)
  | RedirectReply (h : Header)
  | CachedReply (h : Header) (e : Entry)
  | ArtworkReply (h : Header) (body : string)
  | OriginReply (h : Header) (resp : Response)
  | StatusReply (status : Z) (h : Header)
  | RawReply (text : string).

(** ** The actions *)

Inductive op :=
  | Foreground | ForegroundDone
  | Resolve (fingerprint token : string) (c : Identity.Client)
  | Revoke (fingerprint : string)
  | ForgetScope (scope : string)
  | GensGet (scope class : string)
  | GensBump (o : Generations.gen_op)
  | LoadBroken
  | StoreBroken (b : bool)
  | Authorized (fingerprint key : string)
  | Grant (fingerprint key : string)
  | CacheGet (key : string)
  | CacheSet (key : string) (e : Entry) (ttl : Z)
  | CacheDelete (key : string)
  | TrackAuthorized (key : string) (s : Warmer.Snapshot) (credential : string)
  | Permit (key : string)
  | InFlight (key : string)
  | TryBegin (key : string)
  | EndFlight (key : string)
  | BeforeDeadline
  | Pause
  | NewRequest (out : outbound)
  | Origin (out : outbound)
  | SpikeResolve (r : Request) (session playback : string)
  | CallPolicy (h : hook) (r : Request) (partID session : string)
  | PlaybackEnd (r : Request)
  | PlaybackDecision (r : Request) (fingerprint session identityID clientUUID : string)
  | ArtReady
  | ArtGet (key : string)
  | ArtReserve (key : string) (p : art_priority)
  | ArtCommit (key contentType body : string)
  | ArtCancel (key : string)
  | HasFlusher
  | HijackClient
  | DialOrigin
  | Pipe (r : Request)
  | Write (w : Reply).

#[global] Instance outbound_eq_dec : EqDecision outbound.
Proof. solve_decision. Defined.

#[global] Instance Response_eq_dec : EqDecision Response.
Proof. solve_decision. Defined.

#[global] Instance hook_eq_dec : EqDecision hook.
Proof. solve_decision. Defined.

#[global] Instance art_priority_eq_dec : EqDecision art_priority.
Proof. solve_decision. Defined.

#[global] Instance Reply_eq_dec : EqDecision Reply.
Proof. solve_decision. Defined.

#[global] Instance op_eq_dec : EqDecision op.
Proof. solve_decision. Defined.

(** What each action returns: [None] and [false] stand for an error. *)
Definition resp (o : op) : Type :=
  match o with
  | Resolve _ _ _ => Identity.Resolved
  | GensGet _ _ => option (Z * Z)
  | GensBump _ | LoadBroken | Authorized _ _ | CacheSet _ _ _ | Permit _ => bool
  | CacheGet _ => option Entry
  | InFlight _ | TryBegin _ | BeforeDeadline | Pause | NewRequest _ => bool
  | Origin _ => option Response
  | SpikeResolve _ _ _ => option string
  | CallPolicy _ _ _ _ => string * bool * string
  | PlaybackDecision _ _ _ _ _ => decision_reply
  | ArtReady | ArtReserve _ _ | ArtCommit _ _ _ | HasFlusher | DialOrigin | Write _ => bool
  | ArtGet _ => option (string * string)
  | HijackClient => hijack
  | _ => unit
  end.

Notation code := (prog resp).

(** The same action with two answers is two different events. *)
Lemma Ev_inj (o : op) (x y : resp o) : Ev o x = Ev o y → x = y.
Proof.
  intros E. injection E. intros E'. apply inj_pair2_eq_dec in E'; [done|]. intros. apply op_eq_dec.
Qed.

(** ** Configuration (Options) *)

Inductive ingress := cloudflare_tunnel | direct.
#[global] Instance ingress_eq_dec : EqDecision ingress.
Proof. solve_decision. Defined.

Record Options := mkOptions {
  mode : ingress;
  originPath : string;
  secret : string;
  has_identity : bool;
  has_cache : bool;
  has_warmer : bool;
  has_playback : bool;
  has_artwork : bool;
  has_partPolicy : bool;
  has_spike : bool;
  spike_has_boundary : bool;
  (** the media gateway: scheme and host, and base path *)
  mediaFallback : option (string * string);
}.

(** [boundaryPolicy]. *)
Definition boundaryPolicy (h : Options) : option hook :=
  if has_partPolicy h then Some PartPolicy
  else if has_spike h && spike_has_boundary h then Some SpikeBoundary
  else None.

(** ** Headers and paths *)

Definition RequestIDHeader : string := "X-Replx-Edge-Request-ID".
Definition CacheHeader : string := "X-Replx-Edge-Cache".
Definition PlaybackTraceHeader : string := "X-Replx-Edge-Playback-Trace-ID".
Definition MediaRouteUnavailable : string := "MEDIA_ROUTE_UNAVAILABLE".

Definition hopByHop : list string :=
  ["Connection"; "Proxy-Connection"; "Keep-Alive"; "Te"; "Trailer"; "Transfer-Encoding"; "Upgrade";
   "Proxy-Authenticate"; "Proxy-Authorization"].

Definition textprotoCanonical (k : string) : string :=
  match List.find (EqualFold k) hopByHop with Some hop => hop | None => k end.

(** The lowered tokens of the [Connection] header. *)
Definition connected (src : Header) : list string :=
  ToLower <$> filter (λ t, t ≠ "") (TrimSpace <$> Split (HGet src "Connection") ",").

Definition dropped_header (src : Header) (k : string) : bool :=
  existsb (String.eqb (textprotoCanonical k)) hopByHop || existsb (String.eqb (ToLower k)) (connected src).

Definition copyHeaders (dst src : Header) : Header :=
  foldl (λ dst e, if dropped_header src e.1 then dst else foldl (λ d v, HAdd d e.1 v) dst e.2) dst src.

Definition isBulkMediaResponse (h : Header) : bool :=
  let raw := HGet h "Content-Type" in
  let ct := ToLower (TrimSpace (match Cut raw ";" with Some (a, _) => a | None => raw end)) in
  HasPrefix ct "video/" || HasPrefix ct "audio/" ||
  ((ct =s "application/vnd.apple.mpegurl") || (ct =s "application/x-mpegurl")) ||
  (ct =s "application/dash+xml").

Definition singleJoin (a b : string) : string := TrimSuffix a "/" +:+ "/" +:+ TrimPrefix b "/".

Definition forwardedFor (i : inbound) : string :=
  if observed i =s "" then ""
  else
    let prior := HGet (ReqHeader (request i)) "X-Forwarded-For" in
    if negb (prior =s "") && trusted i then prior +:+ ", " +:+ observed i else observed i.

Definition substitutePartRequest (r : Request) (substitute : string) : Request :=
  let '(path, query) := match Cut substitute "?" with
                        | Some (a, b) => (a, b)
                        | None => (substitute, RawQuery r)
                        end in
  if negb (HasPrefix path "/") then r
  else mkRequest (Method r) path query (ReqHeader r) (ContentLength r).

Definition isStateWrite (path : string) : bool :=
  let p := ToLower path in
  existsb (HasSuffix (TrimSuffix p "/")) ["/:/timeline"; "/:/progress"; "/:/scrobble"; "/:/unscrobble"] ||
  IsSessionStop p.

(** [artwork.Match]. *)
Definition artworkMatch (path : string) : bool := HasPrefix (ToLower path) "/photo/:/transcode".
Definition artworkMaxBodyBytes : Z := Z.shiftl 8 20.

Definition artworkCacheKey (scope : string) (r : Request) : string :=
  sha256hex (RequestKeyGen scope "artwork" r 0 0).

Definition artworkPriority (r : Request) : art_priority :=
  let resource := ToLower (QueryGet (URLQuery r) "url") in
  if Contains resource "background" || HasSuffix resource "/art" then ArtLow
  else if HasSuffix resource "/thumb" || HasSuffix resource "/poster" || HasSuffix resource "/cover" then ArtHigh
  else ArtNormal.

Definition requestHasCondition (r : Request) : bool :=
  existsb (λ e, HasPrefix (ToLower e.1) "if-") (ReqHeader r).

Definition isSSE (r : Request) : bool := Path r =s "/:/eventsource/notifications".
Definition isWebSocket (r : Request) : bool :=
  (Path r =s "/:/websocket/notifications") &&
  existsb (λ v, EqualFold (TrimSpace v) "websocket") (Split (HGet (ReqHeader r) "Upgrade") ",").

(** ** Per-request observations *)

Record obs := mkObs {
  fingerprint : string; scope : string; identityID : string; clientUUID : string;
  fresh : bool; invalid : bool; client : Trace.Client; session : string; ratingKey : string;
  playback : string;
  cacheKey : string; cacheTTL : Z; cacheable : bool; cacheState : string;
  scopeGen : Z; globalGen : Z;
}.

(** Assignments to the fields the handler changes after the identity is known. *)
Definition with_cache (o : obs) (key : string) (ttl : Z) (ok : bool) (sg gg : Z) : obs :=
  mkObs (fingerprint o) (scope o) (identityID o) (clientUUID o) (fresh o) (invalid o) (client o)
    (session o) (ratingKey o) (playback o) key ttl ok (cacheState o) sg gg.
Definition with_state (o : obs) (st : string) : obs :=
  mkObs (fingerprint o) (scope o) (identityID o) (clientUUID o) (fresh o) (invalid o) (client o)
    (session o) (ratingKey o) (playback o) (cacheKey o) (cacheTTL o) (cacheable o) st
    (scopeGen o) (globalGen o).

Definition when (b : bool) (c : code unit) : code unit := if b then c else Ret tt.

(** The identity part of [observe]: fingerprint, scope, identity, client,
    fresh and invalid. *)
Definition observe_identity (h : Options) (r : Request) (c : Trace.Client)
    : code (string * string * string * string * bool * bool) :=
  let token := Trace.ExtractToken r in
  if token =s "" then Ret ("", "", "", "", false, false)
  else
    let fp := Trace.Fingerprint (secret h) token in
    let sc := "tok:" +:+ fp in
    if negb (has_identity h) then Ret (fp, sc, "", "", false, false)
    else
      res <~ act (Resolve fp token (Identity.FromTrace c)) ;;
      let sc := if negb (Identity.IdentityID res =s "") then UserScope (Identity.IdentityID res)
                else if negb (Identity.Scope res =s "") then Identity.Scope res else sc in
      do when (Identity.Invalid res) (do act (Revoke fp) ;; when (has_warmer h) (act (ForgetScope sc))) ;;
      Ret (fp, sc, Identity.IdentityID res, Identity.ClientID res, Identity.Fresh res, Identity.Invalid res).

Definition refreshCacheGeneration (r : Request) (o : obs) : code (bool * obs) :=
  let class := ClassOf (Path r) in
  g <~ act (GensGet (scope o) class) ;;
  match g with
  | None => Ret (false, with_cache o (cacheKey o) (cacheTTL o) (cacheable o) 0 0)
  | Some (sg, gg) =>
      Ret (true, with_cache o (RequestKeyGen (scope o) class r sg gg) (cacheTTL o) (cacheable o) sg gg)
  end.

Definition observe (h : Options) (r : Request) : code obs :=
  let c := Trace.ExtractClient r in
  let sess := Trace.ExtractSession r in
  let rk := Trace.ExtractRatingKey r in
  id <~ observe_identity h r c ;;
  let '(fp, sc, iid, cid, fr, inv) := id in
  let pb := if Trace.IsPlaybackRoute (Path r)
            then Trace.PlaybackTraceID (secret h) fp (Trace.ID c) sess rk else "" in
  let o := mkObs fp sc iid cid fr inv c sess rk pb "" 0 false "bypass" 0 0 in
  if has_cache h && negb (fp =s "") && negb (sc =s "") && negb inv then
    match RequestCacheable r with
    | None => Ret o
    | Some ttl =>
        ro <~ refreshCacheGeneration r (with_cache o "" ttl true 0 0) ;;
        let '(ok, o) := ro in
        let off := with_cache o (cacheKey o) (cacheTTL o) false (scopeGen o) (globalGen o) in
        if negb ok then Ret off
        else b <~ act LoadBroken ;; Ret (if b : bool then off else o)
    end
  else Ret o.

Definition currentCacheGeneration (r : Request) (o : obs) : code bool :=
  g <~ act (GensGet (scope o) (ClassOf (Path r))) ;;
  Ret (match g with Some (sg, gg) => (sg =? scopeGen o) && (gg =? globalGen o) | None => false end).

Definition revokeRejectedAuthorization (h : Options) (o : obs) (status : Z) : code unit :=
  if negb (status =? 401) && negb (status =? 403) then Ret tt
  else do act (Revoke (fingerprint o)) ;; when (has_warmer h) (act (ForgetScope (scope o))).

(** ** Serving a stored response *)

(** The response header as [ServeHTTP] starts it. *)
Definition start_header (id : string) (o : obs) : Header :=
  let h := HSet [] RequestIDHeader id in
  if playback o =s "" then h else HSet h PlaybackTraceHeader (playback o).

Definition no_store_edges (h : Header) : Header :=
  HSet (HSet h "CDN-Cache-Control" "no-store") "Cloudflare-CDN-Cache-Control" "no-store".

Definition cached_header (id : string) (o : obs) (e : Entry) : Header :=
  let h := no_store_edges (HSet (HSet (start_header id o) RequestIDHeader id) CacheHeader "hit") in
  let h := if ContentType e =s "" then h else HSet h "Content-Type" (ContentType e) in
  foldl (λ h kv, HSet h kv.1 kv.2) h (map_to_list (Headers e)).

Definition serveCache (r : Request) (id : string) (o : obs) : code (bool * obs) :=
  if negb (cacheable o) || invalid o then Ret (false, o)
  else
    let miss := Ret (false, with_state o "miss") in
    b <~ act LoadBroken ;;
    if b : bool then miss
    else
      a <~ act (Authorized (fingerprint o) (cacheKey o)) ;;
      if negb a then miss
      else
        e <~ act (CacheGet (cacheKey o)) ;;
        match e with
        | None => miss
        | Some e =>
            b <~ act LoadBroken ;;
            if b : bool then miss
            else
              c <~ currentCacheGeneration r o ;;
              if negb c then miss
              else do act (Write (CachedReply (cached_header id o e) e)) ;; Ret (true, with_state o "hit")
        end.

(** ** Retirement *)

Definition bumpStateGeneration (sc : string) : code unit :=
  if sc =s "" then Ret tt
  else
    ok <~ act (GensBump (Generations.BumpScope sc)) ;;
    when (negb ok) (act (StoreBroken true)).

(** [InvalidateCacheContext]; the result says that no error was returned. *)
Definition InvalidateCacheContext (sc class : string) : code bool :=
  let failing (o : Generations.gen_op) : code bool :=
    ok <~ act (GensBump o) ;;
    if ok : bool then Ret true else do act (StoreBroken true) ;; Ret false in
  if ((sc =s "all") || (sc =s "")) && negb (class =s "") then failing (Generations.BumpServerClass class)
  else if (sc =s "") || (sc =s "all") then
    ok <~ act (GensBump Generations.BumpAll) ;;
    if ok : bool then do act (StoreBroken false) ;; Ret true
    else do act (StoreBroken true) ;; Ret false
  else if class =s "" then failing (Generations.BumpScope sc)
  else failing (Generations.Bump sc class).

(** ** Stampede control *)

(** The waiting loop.  A turn sleeps fifty milliseconds and the deadline is
    two seconds away, so forty turns reach it. *)
Fixpoint wait_loop (fuel : nat) (key : string) : code bool :=
  match fuel with
  | O => Ret false
  | S n =>
      t <~ act BeforeDeadline ;;
      if negb t then Ret false
      else
        alive <~ act Pause ;;
        if negb alive then Ret false
        else
          e <~ act (CacheGet key) ;;
          match e with
          | Some _ => Ret true
          | None =>
              still <~ act (InFlight key) ;;
              if negb still then Ret true else wait_loop n key
          end
  end.

Definition waitForFlight (key : string) : code bool :=
  inflight <~ act (InFlight key) ;;
  if negb inflight then Ret false else wait_loop 40 key.

(** ** Refusals and redirects *)

Definition json_no_store (h : Header) : Header :=
  HSet (HSet h "Content-Type" "application/json") "Cache-Control" "no-store".

Definition write_error (status : Z) (id : string) (h : Header) (reason message : string)
    (rejected : list string) : code unit :=
  do act (Write (ErrorReply status (json_no_store h) reason message id rejected)) ;; Ret tt.

Definition writeInvalidPath (id : string) (o : obs) : code unit :=
  write_error 400 id (start_header id o) "INVALID_PATH" "request target must be an origin-relative path" [].
Definition writeSessionsDeny (id : string) (o : obs) : code unit :=
  write_error 403 id (start_header id o) "SESSIONS_OWNER_ADMIN_ONLY"
    "GET /status/sessions is owner-admin only via the private admin API (GET /api/v1/sessions); companion control across Replx Edge is unsupported in 1.0" [].
Definition writeMediaUnavailable (id : string) (o : obs) : code unit :=
  write_error 403 id (start_header id o) MediaRouteUnavailable
    "bulk media must not traverse the Cloudflare control hostname; use direct origin routing or the media gateway" [].
Definition writePartDeny (id : string) (o : obs) (reason : string) : code unit :=
  write_error 403 id (start_header id o) (if reason =s "" then Playback.DecisionRequired else reason)
    "playback policy forbids this media request" [].
Definition writePolicyDeny (id : string) (o : obs) (reason message : string)
    (rejected : list Engine.Rejection) : code unit :=
  write_error 403 id (start_header id o) reason message (Engine.RenderReason <$> rejected).
Definition writeBadGateway (id : string) (o : obs) : code unit :=
  write_error 502 id (start_header id o) "ORIGIN_UNAVAILABLE"
    "PMS origin unreachable; retry or inspect origin health" [].

(** [routing.WriteMediaRedirect]. *)
Definition WriteMediaRedirect (id : string) (o : obs) (location : string) : code unit :=
  do act (Write (RedirectReply (HSet (HSet (start_header id o) "Location" location)
                                  "Cache-Control" "no-store"))) ;; Ret tt.

(** [url.URL.String] escapes a path byte unless it is unreserved or one of
    the delimiters a path may hold. *)
Definition escape_path_char (c : ascii) : string :=
  if unreserved c || Contains "$&+,/:;=@" (String c EmptyString) then String c EmptyString
  else String "%" (String (hex_digit (GoStrings.code c / 16)) (String (hex_digit (GoStrings.code c mod 16)) EmptyString)).
Fixpoint escape_path (s : string) : string :=
  match s with EmptyString => EmptyString | String c r => escape_path_char c +:+ escape_path r end.

Definition writeMediaGatewayRedirect (base : string * string) (r : Request) (id : string) (o : obs) : code unit :=
  WriteMediaRedirect id o
    (base.1 +:+ escape_path (singleJoin base.2 (Path r)) +:+ (if RawQuery r =s "" then "" else "?" +:+ RawQuery r)).

(** ** Fetching from the origin *)

Definition origin_request (h : Options) (i : inbound) (r : Request) (id : string) (forward : bool) : outbound :=
  let hd := HSet (copyHeaders [] (ReqHeader r)) RequestIDHeader id in
  mkOutbound (Method r) (singleJoin (originPath h) (Path r)) (RawQuery r)
    (if forward && negb (forwardedFor i =s "") then HSet hd "X-Forwarded-For" (forwardedFor i) else hd).

(** [copyBody]: relay the body, and store it when it is complete and may be
    stored. *)
Definition copyBody (h : Options) (r : Request) (o : obs) (hdr : Header) (rs : Response) : code unit :=
  written <~ act (Write (OriginReply hdr rs)) ;;
  if negb (cacheable o) || negb (StatusCode rs =? 200) || negb (StorableResponse (RespHeader rs)) then Ret tt
  else if MaxEntryBytes <? slen (RespBody rs) then Ret tt
  else if ReadFails rs || negb written then Ret tt
  else
    b <~ act LoadBroken ;;
    if b : bool then Ret tt
    else
      c <~ currentCacheGeneration r o ;;
      if negb c then Ret tt
      else
        stored <~ act (CacheSet (cacheKey o)
          (mkEntry (StatusCode rs) (HGet (RespHeader rs) "Content-Type") (SafeHeaders (RespHeader rs)) (RespBody rs))
          (cacheTTL o)) ;;
        if negb stored then Ret tt
        else
          do act (Grant (fingerprint o) (cacheKey o)) ;;
          when (has_warmer h && (HeaderVariation (ReqHeader r) =s ""))
            (act (TrackAuthorized (cacheKey o)
              (Warmer.mkSnapshot (Method r) (Path r) (RawQuery r) (HGet (ReqHeader r) "Accept") (scope o)
                 (ClassOf (Path r)) (cacheTTL o) Warmer.Low) (Trace.ExtractToken r))).

Definition state_write_acknowledged (r : Request) (status : Z) : bool :=
  negb (Method r =s "HEAD") && negb (Method r =s "OPTIONS") && (200 <=? status) && (status <? 300) &&
  isStateWrite (Path r).

Definition relay_header (id : string) (o : obs) (control : bool) (rs : Response) : Header :=
  let h := HSet (copyHeaders (start_header id o) (RespHeader rs)) RequestIDHeader id in
  if control then no_store_edges (HSet h CacheHeader (cacheState o)) else h.

(** [proxy]; [control] is the route class. *)
Definition proxy (h : Options) (i : inbound) (r : Request) (id : string) (o : obs) (control : bool) : code unit :=
  let out := origin_request h i r id true in
  let out := if cacheable o
             then mkOutbound (oMethod out) (oPath out) (oRawQuery out) (HDel (oHeader out) "Accept-Encoding")
             else out in
  built <~ act (NewRequest out) ;;
  if negb built then writeBadGateway id o
  else
    rs <~ act (Origin out) ;;
    match rs with
    | None => writeBadGateway id o
    | Some rs =>
        do revokeRejectedAuthorization h o (StatusCode rs) ;;
        do when (state_write_acknowledged r (StatusCode rs)) (bumpStateGeneration (scope o)) ;;
        if bool_decide (mode h = cloudflare_tunnel) && control && isBulkMediaResponse (RespHeader rs)
        then writeMediaUnavailable id o
        else copyBody h r o (relay_header id o control rs) rs
    end.

(** ** Artwork *)

Definition artwork_refuses (h : Options) (r : Request) (o : obs) : bool :=
  let hd := ReqHeader r in
  negb (has_artwork h) || (fingerprint o =s "") || (scope o =s "") || negb (artworkMatch (Path r)) ||
  (negb (Method r =s "GET") || negb (HGet hd "Range" =s "") || negb (HGet hd "Cookie" =s "") ||
   negb (HGet hd "Authorization" =s "") || requestHasCondition r ||
   Contains (ToLower (HGet hd "Cache-Control")) "no-store" ||
   Contains (ToLower (HGet hd "Cache-Control")) "no-cache" ||
   Contains (ToLower (HGet hd "Pragma")) "no-cache") ||
  (invalid o || (has_identity h && negb (fresh o))).

Definition artwork_header (id : string) (o : obs) (ct : string) : Header :=
  let h := HSet (HSet (start_header id o) RequestIDHeader id) CacheHeader "hit" in
  if ct =s "" then h else HSet h "Content-Type" ct.

(** The fetch of a missing transcode, after the reservation was made. *)
Definition artwork_fill (h : Options) (id key : string) (o : obs) (out : outbound) : code bool :=
  rs <~ act (Origin out) ;;
  match rs with
  | None => Ret false
  | Some rs =>
      do revokeRejectedAuthorization h o (StatusCode rs) ;;
      if (artworkMaxBodyBytes <? slen (RespBody rs)) || ReadFails rs then Ret false
      else
        do (if (StatusCode rs =? 200) && StorableResponse (RespHeader rs) &&
               HasPrefix (ToLower (HGet (RespHeader rs) "Content-Type")) "image/"
            then
              stored <~ act (ArtCommit key (HGet (RespHeader rs) "Content-Type") (RespBody rs)) ;;
              when stored (act (Grant (fingerprint o) key))
            else Ret tt) ;;
        do act (Write (OriginReply
          (HSet (HSet (copyHeaders (start_header id o) (RespHeader rs)) RequestIDHeader id) CacheHeader "miss") rs)) ;;
        Ret true
  end.

Definition serveArtwork (h : Options) (i : inbound) (r : Request) (id : string) (o : obs) : code bool :=
  if artwork_refuses h r o then Ret false
  else
    ready <~ act ArtReady ;;
    if negb ready then Ret false
    else
      let key := artworkCacheKey (scope o) r in
      let fetch : code bool :=
        let out := origin_request h i r id true in
        built <~ act (NewRequest out) ;;
        if negb built then Ret false
        else
          reserved <~ act (ArtReserve key (artworkPriority r)) ;;
          if negb reserved then Ret false
          else done <~ artwork_fill h id key o out ;; do act (ArtCancel key) ;; Ret done in
      a <~ act (Authorized (fingerprint o) key) ;;
      if negb a then fetch
      else
        hit <~ act (ArtGet key) ;;
        match hit with
        | Some (ct, body) => do act (Write (ArtworkReply (artwork_header id o ct) body)) ;; Ret true
        | None => fetch
        end.

(** ** Notification streams *)

Definition streamSSE (h : Options) (i : inbound) (r : Request) (id : string) (o : obs) : code unit :=
  let out := origin_request h i r id false in
  built <~ act (NewRequest out) ;;
  if negb built then writeBadGateway id o
  else
    rs <~ act (Origin out) ;;
    match rs with
    | None => writeBadGateway id o
    | Some rs =>
        let hdr := HSet (copyHeaders (start_header id o) (RespHeader rs)) RequestIDHeader id in
        flusher <~ act HasFlusher ;;
        if negb flusher then do act (Write (StatusReply 502 hdr)) ;; Ret tt
        else do act (Write (OriginReply hdr rs)) ;; Ret tt
    end.

Definition bad_gateway_text : string :=
  "HTTP/1.1 502 Bad Gateway" +:+ String "013" (String "010" ("Content-Length: 0" +:+ String "013" (String "010"
  ("Connection: close" +:+ String "013" (String "010" (String "013" (String "010" ""))))))).

Definition tunnelWebSocket (r : Request) (id : string) (o : obs) : code unit :=
  hj <~ act HijackClient ;;
  match hj with
  | NoHijacker => writeBadGateway id o
  | HijackFailed => Ret tt
  | Hijacked =>
      up <~ act DialOrigin ;;
      if negb up then do act (Write (RawReply bad_gateway_text)) ;; Ret tt
      else act (Pipe r)
  end.

Definition serveStreaming (h : Options) (i : inbound) (r : Request) (id : string) (o : obs) : code bool :=
  if isWebSocket r then do tunnelWebSocket r id o ;; Ret true
  else if isSSE r then do streamSSE h i r id o ;; Ret true
  else Ret false.

(** ** ServeHTTP *)

(** From the cache look-up on: a control request is served from the cache,
    waits for the request that is filling its key, or is proxied. *)
Definition serve_proxied (h : Options) (i : inbound) (r : Request) (id : string) (o : obs) (control : bool)
    : code unit :=
  s <~ (if control then serveCache r id o else Ret (false, o)) ;;
  let '(served, o) := s in
  if served : bool then Ret tt
  else if cacheable o && has_cache h then
    waited <~ waitForFlight (cacheKey o) ;;
    s <~ (if waited : bool then serveCache r id o else Ret (false, o)) ;;
    let '(served, o) := s in
    if served : bool then Ret tt
    else
      won <~ act (TryBegin (cacheKey o)) ;;
      if won : bool then do proxy h i r id o control ;; act (EndFlight (cacheKey o))
      else
        s <~ serveCache r id o ;;
        let '(served, o) := s in
        if served : bool then Ret tt else proxy h i r id o control
  else proxy h i r id o control.

(** The playback engine's turn: [true] when the request is finished. *)
Definition serve_playback (h : Options) (r : Request) (id : string) (o : obs) : code bool :=
  if negb (has_playback h) then Ret false
  else
    do when (IsSessionStop (Path r)) (act (PlaybackEnd r)) ;;
    if negb (IsDecision (Path r)) then Ret false
    else
      d <~ act (PlaybackDecision r (fingerprint o) (session o) (identityID o) (clientUUID o)) ;;
      match d with
      | Denied c m rj => do writePolicyDeny id o c m rj ;; Ret true
      | Handled => Ret true
      | NotHandled => Ret false
      end.

(** The direct-mode boundary: the request to go on with, or a refusal. *)
Definition enforce_boundary (h : Options) (r : Request) (id : string) (o : obs) : code (option Request) :=
  match boundaryPolicy h with
  | None => Ret (Some r)
  | Some hk =>
      let partID := Playback.PartIDFromPath (Path r) in
      if negb (partID =s "") || IsManifest (Path r) then
        v <~ act (CallPolicy hk r partID (session o)) ;;
        let '(sub, deny, reason) := v in
        if deny : bool then do writePartDeny id o reason ;; Ret None
        else Ret (Some (if sub =s "" then r else substitutePartRequest r sub))
      else Ret (Some r)
  end.

(** Everything after the routing decision. *)
Definition serve_routed (h : Options) (i : inbound) (r : Request) (id : string) (o : obs) (control : bool)
    : code unit :=
  streamed <~ serveStreaming h i r id o ;;
  if streamed : bool then Ret tt
  else
    played <~ (if control then serve_playback h r id o else Ret false) ;;
    if played : bool then Ret tt
    else
      art <~ (if control then serveArtwork h i r id o else Ret false) ;;
      if art : bool then Ret tt else serve_proxied h i r id o control.

Definition serve_tunnel_media (h : Options) (r : Request) (id : string) (o : obs) : code unit :=
  loc <~ (if has_spike h then act (SpikeResolve r (session o) (playback o)) else Ret None) ;;
  match loc with
  | Some loc => WriteMediaRedirect id o loc
  | None =>
      match mediaFallback h with
      | Some base => writeMediaGatewayRedirect base r id o
      | None => writeMediaUnavailable id o
      end
  end.

Definition serve (h : Options) (i : inbound) (id : string) : code unit :=
  let r := request i in
  o <~ observe h r ;;
  if negb (urlHost i =s "") || HasPrefix (Path r) "//" then writeInvalidPath id o
  else
    match Classify (Path r) with
    | ActionDenySessions => writeSessionsDeny id o
    | ActionDenyUnknownMedia =>
        if decide (mode h = cloudflare_tunnel) then writeMediaUnavailable id o
        else serve_routed h i r id o true
    | ActionMediaRedirect =>
        if decide (mode h = cloudflare_tunnel) then serve_tunnel_media h r id o
        else
          r <~ enforce_boundary h r id o ;;
          match r with None => Ret tt | Some r => serve_routed h i r id o false end
    | ActionPlayQueueObserve | ActionControl => serve_routed h i r id o true
    end.

Definition ServeHTTP (h : Options) (i : inbound) (id : string) : code unit :=
  do when (has_warmer h) (act Foreground) ;;
  do serve h i id ;;
  when (has_warmer h) (act ForegroundDone).

(** ** A background refresh as actions (warmer.go, cmd/replx-edge) *)

(** The key function the program installs. *)
Definition KeyFunc (s : Warmer.Snapshot) : code string :=
  let class := if Warmer.Class_ s =s "" then ClassOf (Warmer.sPath s) else Warmer.Class_ s in
  g <~ act (GensGet (Warmer.Scope s) class) ;;
  Ret (match g with
       | None => ""
       | Some (sg, gg) =>
           ResponseKeyGen (Warmer.Scope s) class (Warmer.sMethod s) (Warmer.sPath s)
             (ParseQuery (Warmer.sRawQuery s)) (Warmer.sAccept s) sg gg
       end).

Definition refresh_request (s : Warmer.Snapshot) (credential : string) : Request :=
  mkRequest (Warmer.sMethod s) (Warmer.sPath s) (Warmer.sRawQuery s)
    (let h := HSet [] "X-Plex-Token" credential in
     if Warmer.sAccept s =s "" then h else HSet h "Accept" (Warmer.sAccept s)) 0.

(** [refreshChecked] with the key function and the permit; the result says
    that no error was returned. *)
Definition refreshChecked (key : string) (s : Warmer.Snapshot) (credential : string) : code bool :=
  storeKey <~ KeyFunc s ;;
  if storeKey =s "" then Ret false
  else
    let req := refresh_request s credential in
    let out := mkOutbound (Method req) (Path req) (RawQuery req) (ReqHeader req) in
    built <~ act (NewRequest out) ;;
    if negb built then Ret false
    else
      match RequestCacheable req with
      | None => Ret false
      | Some _ =>
          rs <~ act (Origin (mkOutbound (Method req) (Path req) (RawQuery req) (HDel (ReqHeader req) "Accept-Encoding"))) ;;
          match rs with
          | None => Ret false
          | Some rs =>
              if negb (StatusCode rs =? 200) || negb (StorableResponse (RespHeader rs)) then Ret false
              else if (MaxEntryBytes <? slen (RespBody rs)) || ReadFails rs then Ret false
              else
                again <~ KeyFunc s ;;
                if negb (again =s storeKey) then Ret false
                else
                  ok <~ act (Permit key) ;;
                  if negb ok then Ret false
                  else
                    stored <~ act (CacheSet storeKey
                      (mkEntry (StatusCode rs) (HGet (RespHeader rs) "Content-Type")
                         (SafeHeaders (RespHeader rs)) (RespBody rs)) (Warmer.TTL s)) ;;
                    if negb stored then Ret false
                    else do when (negb (storeKey =s key)) (act (CacheDelete key)) ;; Ret true
          end
      end.

(** ** What every execution respects *)

Section execution.
Context (h : Options) (i : inbound) (id : string).

Notation r0 := (request i).
Notation class0 := (ClassOf (Path r0)).
Notation token0 := (Trace.ExtractToken r0).

(** The caller's fingerprint, and the scope its identity gives. *)
Definition fp0 : string := if token0 =s "" then "" else Trace.Fingerprint (secret h) token0.
Definition scope_of (res : Identity.Resolved) : string :=
  if negb (Identity.IdentityID res =s "") then UserScope (Identity.IdentityID res)
  else if negb (Identity.Scope res =s "") then Identity.Scope res else "tok:" +:+ fp0.

(** [sc] is the scope the execution derived for its caller, whose credential
    is definitively rejected if [inv]. *)
Definition own_scope (t : list (event resp)) (sc : string) (inv : bool) : Prop :=
  if token0 =s "" then sc = "" ∧ inv = false
  else if has_identity h then
    ∃ res t', seen t (Ev (Resolve fp0 token0 (Identity.FromTrace (Trace.ExtractClient r0))) res) t' ∧ sc = scope_of res ∧
      inv = Identity.Invalid res ∧ (inv = true → ∃ t'', seen t (Ev (Revoke fp0) tt) t'')
  else sc = "tok:" +:+ fp0 ∧ inv = false.

(** The execution read the generations [sg], [gg] of the request's namespace
    in scope [sc], after [t']. *)
Definition read_gens (t : list (event resp)) (sc class : string) (sg gg : Z) (t' : list (event resp)) : Prop :=
  seen t (Ev (GensGet sc class) (Some (sg, gg))) t'.

Definition own_key (sc : string) (sg gg : Z) : string := RequestKeyGen sc class0 r0 sg gg.

Definition obs_ok (t : list (event resp)) (o : obs) : Prop :=
  fingerprint o = fp0 ∧ own_scope t (scope o) (invalid o) ∧
  (cacheable o = true →
     invalid o = false ∧ fp0 ≠ "" ∧ RequestCacheable r0 = Some (cacheTTL o) ∧
     cacheKey o = own_key (scope o) (scopeGen o) (globalGen o) ∧
     ∃ t', read_gens t (scope o) class0 (scopeGen o) (globalGen o) t').

(** The request the boundary lets pass for the public one. *)
Definition boundary_ok (t : list (event resp)) (r : Request) : Prop :=
  match boundaryPolicy h with
  | None => r = r0
  | Some hk =>
      let partID := Playback.PartIDFromPath (Path r0) in
      if negb (partID =s "") || IsManifest (Path r0) then
        ∃ sess sub reason t', seen t (Ev (CallPolicy hk r0 partID sess) (sub, false, reason)) t' ∧
          r = if sub =s "" then r0 else substitutePartRequest r0 sub
      else r = r0
  end.

(** The request may go on to the origin as [r], as control or media. *)
Definition admitted (t : list (event resp)) (r : Request) (control : bool) : Prop :=
  urlHost i = "" ∧ HasPrefix (Path r0) "//" = false ∧
  if control then
    r = r0 ∧ (Classify (Path r0) = ActionControl ∨ Classify (Path r0) = ActionPlayQueueObserve ∨
              (Classify (Path r0) = ActionDenyUnknownMedia ∧ mode h = direct))
  else mode h = direct ∧ Classify (Path r0) = ActionMediaRedirect ∧ boundary_ok t r.

(** A negotiation reaches the origin only when the engine passed it on. *)
Definition negotiated (t : list (event resp)) (control : bool) : Prop :=
  control = true → has_playback h = true → IsDecision (Path r0) = true →
  ∃ sess iid cid t', seen t (Ev (PlaybackDecision r0 fp0 sess iid cid) NotHandled) t'.

Definition fetch_ok (t : list (event resp)) (out : outbound) : Prop :=
  ∃ r control, admitted t r control ∧ negotiated t control ∧
    oMethod out = Method r ∧ oPath out = singleJoin (originPath h) (Path r) ∧ oRawQuery out = RawQuery r.

Definition entry_of (rs : Response) : Entry :=
  mkEntry (StatusCode rs) (HGet (RespHeader rs) "Content-Type") (SafeHeaders (RespHeader rs)) (RespBody rs).

(** A stored response: fetched after its key's generations were read, which
    were still current after the fetch. *)
Definition fill_ok (t : list (event resp)) (key : string) (e : Entry) (ttl : Z) : Prop :=
  ∃ sc sg gg out rs r control t1 t2 t3,
    key = own_key sc sg gg ∧ own_scope t sc false ∧ RequestCacheable r0 = Some ttl ∧ admitted t r control ∧
    read_gens t sc (ClassOf (Path r)) sg gg t1 ∧
    seen t1 (Ev (Origin out) (Some rs)) t2 ∧ read_gens t2 sc class0 sg gg t3 ∧
    oPath out = singleJoin (originPath h) (Path r) ∧
    StatusCode rs = 200 ∧ StorableResponse (RespHeader rs) = true ∧ ReadFails rs = false ∧
    slen (RespBody rs) <= MaxEntryBytes ∧ e = entry_of rs.

(** A served stored response. *)
Definition hit_ok (t : list (event resp)) (e : Entry) : Prop :=
  ∃ sc sg gg r control t1 t2 t3 t4 t5,
    own_scope t sc false ∧ admitted t r control ∧
    read_gens t sc (ClassOf (Path r)) sg gg t1 ∧
    seen t1 (Ev LoadBroken false) t2 ∧
    seen t2 (Ev (CacheGet (own_key sc sg gg)) (Some e)) t3 ∧
    seen t3 (Ev (Authorized fp0 (own_key sc sg gg)) true) t4 ∧
    read_gens t4 sc class0 sg gg t5.

(** A served artwork file. *)
Definition art_ok (t : list (event resp)) (body : string) : Prop :=
  ∃ sc ct t1 t2, own_scope t sc false ∧ artworkMatch (Path r0) = true ∧
    seen t (Ev (ArtGet (artworkCacheKey sc r0)) (Some (ct, body))) t1 ∧
    seen t1 (Ev (Authorized fp0 (artworkCacheKey sc r0)) true) t2.

(** A lease is given only after the origin itself answered this caller. *)
Definition grant_ok (t : list (event resp)) (fp key : string) : Prop :=
  fp = fp0 ∧ ∃ sc out rs t1, own_scope t sc false ∧ seen t (Ev (Origin out) (Some rs)) t1 ∧ StatusCode rs = 200 ∧
    ((∃ sg gg, key = own_key sc sg gg) ∨ key = artworkCacheKey sc r0).

(** The generation of an acknowledged watch write was retired, or the cache
    was marked broken, before anything was relayed. *)
Definition retired (t : list (event resp)) (rs : Response) : Prop :=
  token0 ≠ "" → state_write_acknowledged r0 (StatusCode rs) = true → artworkMatch (Path r0) = false →
  Classify (Path r0) ≠ ActionMediaRedirect →
  ∃ sc inv ok t1 out t2, own_scope t sc inv ∧ seen t (Ev (GensBump (Generations.BumpScope sc)) ok) t1 ∧
    seen t1 (Ev (Origin out) (Some rs)) t2 ∧
    (ok = false → ∃ t3, seen t (Ev (StoreBroken true) tt) t3 ∧ (length t1 < length t3)%nat).

Definition relay_ok (t : list (event resp)) (rs : Response) : Prop :=
  (∃ out t1, seen t (Ev (Origin out) (Some rs)) t1) ∧ retired t rs ∧
  (mode h = cloudflare_tunnel → isBulkMediaResponse (RespHeader rs) = true →
   artworkMatch (Path r0) = true ∨ isSSE r0 = true).

Definition guard (t : list (event resp)) (o : op) : Prop :=
  match o with
  | Origin out => fetch_ok t out
  | CacheSet key e ttl => fill_ok t key e ttl
  | Grant fp key => grant_ok t fp key
  | StoreBroken b => b = true
  | Write (CachedReply _ e) => hit_ok t e
  | Write (ArtworkReply _ body) => art_ok t body
  | Write (OriginReply _ rs) => relay_ok t rs
  | _ => True
  end.

(** These facts only mention earlier actions, so they persist. *)
Lemma own_scope_later t sc inv e : own_scope t sc inv → own_scope (e :: t) sc inv.
Proof.
  unfold own_scope. case_match; [done|]. case_match; [|done].
  intros (res & t' & H1 & -> & -> & H2). exists res, t'. split; [by apply seen_later|]. split; [done|]. split; [done|].
  intros Hi. destruct (H2 Hi) as [t'' ?]. exists t''. by apply seen_later.
Qed.

Lemma obs_ok_later t o e : obs_ok t o → obs_ok (e :: t) o.
Proof.
  intros (H1 & H2 & H3). split; [done|]. split; [by apply own_scope_later|].
  intros Hc. destruct (H3 Hc) as (? & ? & ? & ? & t' & ?). repeat (split; [done|]). exists t'. by apply seen_later.
Qed.

Lemma admitted_later t r c e : admitted t r c → admitted (e :: t) r c.
Proof.
  intros (H1 & H2 & H3). split; [done|]. split; [done|]. destruct c; [done|].
  destruct H3 as (H3 & H4 & H5). split; [done|]. split; [done|]. revert H5. unfold boundary_ok.
  case_match; [|done]. cbv zeta. case_match; [|done]. intros (sess & sub & reason & t' & ? & ?).
  exists sess, sub, reason, t'. split; [by apply seen_later|done].
Qed.

Lemma negotiated_later t c e : negotiated t c → negotiated (e :: t) c.
Proof.
  intros H Hc Hp Hd. destruct (H Hc Hp Hd) as (? & ? & ? & t' & ?). do 3 eexists. exists t'. by apply seen_later.
Qed.


Notation safe p t Q := (always guard p t Q).

#[local] Hint Resolve own_scope_later obs_ok_later admitted_later negotiated_later : replx.

(** Run a program up to the next branch or component. *)
Ltac go := unfold when; cbn [always pbind act guard negb].

(** A component's triple inside a larger program. *)
Lemma safe_bind {A B} (p : code A) (f : A → code B) t (Q : list (event resp) → A → Prop) R :
  safe p t Q → (∀ t' a, Q t' a → safe (f a) t' R) → safe (pbind p f) t R.
Proof.
  intros Hp Hf. apply always_bind. eapply always_mono; [done| |exact Hp]. apply Hf.
Qed.

Lemma observe_identity_safe t :
  safe (observe_identity h r0 (Trace.ExtractClient r0)) t
    (λ t' '(fp, sc, _, _, _, inv), fp = fp0 ∧ own_scope t' sc inv ∧ (token0 =s "" = true → fp = "")).
Proof.
  unfold observe_identity, own_scope. cbv zeta.
  assert (Hfp : fp0 = if token0 =s "" then "" else Trace.Fingerprint (secret h) token0) by done.
  destruct (token0 =s "") eqn:Et; [by rewrite Hfp|]. rewrite <- Hfp.
  destruct (has_identity h) eqn:Ei; cbn [negb]; [|done].
  go. split; [done|]. intros res. apply always_bind. fold (scope_of res).
  destruct (Identity.Invalid res) eqn:Einv; go.
  - split; [done|]. intros []. destruct (has_warmer h); go; [split; [done|]; intros []|];
      (split; [done|]; split; [|done]; eexists res, _; split; [eauto 6 with replx|];
       split; [done|]; split; [done|]; intros _; eauto 6 with replx).
  - split; [done|]. split; [|done]. exists res, t. split; [eauto with replx|]. split; [done|]. split; congruence.
Qed.

Lemma observe_safe t : safe (observe h r0) t (λ t' o, obs_ok t' o).
Proof.
  unfold observe. cbv zeta. eapply safe_bind; [apply observe_identity_safe|].
  intros t' [[[[[fp sc] iid] cid] fr] inv] (-> & Hsc & Hempty).
  assert (Hoff : ∀ t o, fingerprint o = fp0 → own_scope t (scope o) (invalid o) → cacheable o = false → obs_ok t o).
  { intros ? ? ? ? E. split; [done|]. split; [done|]. by rewrite E. }
  destruct (has_cache h && negb (fp0 =s "") && negb (sc =s "") && negb inv) eqn:Eg; [|by apply Hoff].
  destruct (RequestCacheable r0) as [ttl|] eqn:Er; [|by apply Hoff].
  unfold refreshCacheGeneration. go. split; [done|]. intros [[sg gg]|]; go; [|apply Hoff; cbn; eauto with replx].
  split; [done|]. intros []; [apply Hoff; cbn; eauto with replx|]. zbool.
  split; [done|]. split; [cbn; eauto with replx|]. intros _. cbn. repeat (split; [done|]).
  exists t'. apply seen_later, seen_now.
Qed.

(** What is known once the request was admitted. *)
Definition ctx (r : Request) (c : bool) (o : obs) (t : list (event resp)) : Prop :=
  obs_ok t o ∧ admitted t r c ∧ negotiated t c.

Lemma ctx_later r c o e t : ctx r c o t → ctx r c o (e :: t).
Proof. intros (? & ? & ?). unfold ctx. auto with replx. Qed.

Lemma ctx_state r c o st t : ctx r c o t → ctx r c (with_state o st) t.
Proof. done. Qed.

#[local] Hint Resolve ctx_later ctx_state : replx.

Lemma safe_keep {A B} (P : list (event resp) → Prop) (p : code A) (f : A → code B) t
    (Q : list (event resp) → A → Prop) R :
  (∀ e t, P t → P (e :: t)) → P t → safe p t Q →
  (∀ t' a, P t' → Q t' a → safe (f a) t' R) → safe (pbind p f) t R.
Proof.
  intros HP Ht Hp Hf. eapply safe_bind; [by apply (always_keep P)|]. cbn. intros t' a [? ?]. auto.
Qed.

(** The programs below only promise their guards. *)
Notation quiet p t := (safe p t (λ _ _, True)).

Lemma quiet_bind {A B} (p : code A) (f : A → code B) t R :
  quiet p t → (∀ t' a, safe (f a) t' R) → safe (pbind p f) t R.
Proof. intros Hp Hf. eapply safe_bind; [exact Hp|]. auto. Qed.

Lemma currentCacheGeneration_safe r o t :
  safe (currentCacheGeneration r o) t (λ t' b, b = true →
    t' = Ev (GensGet (scope o) (ClassOf (Path r))) (Some (scopeGen o, globalGen o)) :: t).
Proof.
  unfold currentCacheGeneration. go. split; [done|]. intros [[sg gg]|]; [|done]. cbn. intros E. zbool. by subst.
Qed.

Lemma serveCache_safe r c o t :
  ctx r c o t → safe (serveCache r id o) t (λ _ '(_, o'), o' = o ∨ ∃ st, o' = with_state o st).
Proof.
  intros Hc. unfold serveCache. destruct (negb (cacheable o) || invalid o) eqn:E0; [go; by left|].
  apply orb_false_elim in E0 as [E0 _]. apply negb_false_iff in E0.
  go. split; [done|]. intros []; [right; eauto|]. go. split; [done|]. intros []; [|right; eauto].
  go. split; [done|]. intros [e|]; [|right; eauto]. go. split; [done|]. intros []; [right; eauto|].
  eapply safe_bind; [apply currentCacheGeneration_safe|]. intros t' [] Ht; [|right; eauto].
  specialize (Ht eq_refl). subst t'. go. split; [|intros x; right; eauto].
  destruct Hc as (Ho & Ha & _). pose proof Ho as (Hfp & Hsc & Hcc). destruct (Hcc E0) as (Hinv & _ & _ & Hk & t' & Ht').
  rewrite Hinv in Hsc.
  exists (scope o), (scopeGen o), (globalGen o), r, c. do 5 eexists.
  split; [by auto 6 with replx|]. split; [by auto 6 with replx|]. split; [apply seen_now|].
  split; [apply seen_now|]. rewrite <- Hk, <- Hfp. split; [apply seen_now|]. split; [apply seen_now|].
  apply seen_later, Ht'.
Qed.

Lemma revoke_safe o status t : quiet (revokeRejectedAuthorization h o status) t.
Proof. unfold revokeRejectedAuthorization. case_match; go; [done|]. split; [done|]. intros x. by case_match; go. Qed.

Lemma write_error_safe status hd a b l t : quiet (write_error status id hd a b l) t.
Proof. by go. Qed.
#[local] Hint Resolve revoke_safe write_error_safe : replx.

(** Relaying, in a context that has seen the fetch. *)
Lemma copyBody_safe r c o out rs hd t t1 :
  ctx r c o t → seen t (Ev (Origin out) (Some rs)) t1 → oPath out = singleJoin (originPath h) (Path r) →
  obs_ok t1 o → relay_ok t rs → quiet (copyBody h r o hd rs) t.
Proof.
  intros Hc Ht Hp Ho1 Hrel. unfold copyBody. go. split; [done|]. intros written.
  destruct (negb (cacheable o) || negb (StatusCode rs =? 200) || negb (StorableResponse (RespHeader rs))) eqn:E1; [done|].
  destruct (Z.ltb_spec MaxEntryBytes (slen (RespBody rs))) as [|Hlen]; [done|].
  destruct (ReadFails rs || negb written) eqn:E2; [done|]. zbool.
  go. split; [done|]. intros []; [done|]. eapply safe_bind; [apply currentCacheGeneration_safe|].
  intros t' [] Ht'; [|done]. specialize (Ht' eq_refl). subst t'. cbn [negb].
  destruct Hc as (Ho & Ha & _). pose proof Ho as (Hfp & Hsc & Hcc).
  assert (Eco : cacheable o = true) by done.
  destruct (Hcc Eco) as (Hinv & _ & Httl & Hk & _). rewrite Hinv in Hsc. destruct Ho1 as (_ & _ & Ho1).
  destruct (Ho1 Eco) as (_ & _ & _ & _ & t3 & Ht3).
  assert (Est : StatusCode rs = 200) by done.
  go. split.
  { exists (scope o), (scopeGen o), (globalGen o), out, rs, r, c. do 3 eexists.
    split; [done|]. split; [by auto 6 with replx|]. split; [done|]. split; [by auto 6 with replx|].
    split; [apply seen_now|]. split; [by do 2 apply seen_later|]. split; [exact Ht3|]. done. }
  intros []; [|done]. go. split.
  { split; [done|]. exists (scope o), out, rs, t1. split; [by auto 8 with replx|].
    split; [by do 4 apply seen_later|]. split; [done|]. left. eauto. }
  intros x. by case_match; go.
Qed.

Lemma bump_safe sc t :
  sc ≠ "" →
  safe (bumpStateGeneration sc) t (λ t' _, ∃ ok,
    t' = Ev (GensBump (Generations.BumpScope sc)) ok :: t ∧ ok = true ∨
    t' = Ev (StoreBroken true) tt :: Ev (GensBump (Generations.BumpScope sc)) ok :: t).
Proof.
  intros Hsc. unfold bumpStateGeneration. rewrite (proj2 (String.eqb_neq _ _) Hsc). go. split; [done|].
  intros []; go; [exists true; by left|]. split; [done|]. intros []. exists false. by right.
Qed.

Lemma own_scope_nonempty t sc inv : own_scope t sc inv → token0 ≠ "" → sc ≠ "".
Proof.
  unfold own_scope. intros H Ht. rewrite (proj2 (String.eqb_neq _ _) Ht) in H.
  destruct (has_identity h); [|by destruct H as [-> _]]. destruct H as (res & t' & _ & -> & _). unfold scope_of.
  destruct (String.eqb_spec (Identity.IdentityID res) ""); [|done]. by destruct (String.eqb_spec (Identity.Scope res) "").
Qed.

(** The retirement before a relayed write. *)
Lemma retire_safe r c o out rs t t1 :
  ctx r c o t → seen t (Ev (Origin out) (Some rs)) t1 →
  safe (when (state_write_acknowledged r (StatusCode rs)) (bumpStateGeneration (scope o))) t
    (λ t' _, retired t' rs).
Proof.
  intros ((Hfp & Hsc & _) & (_ & _ & Ha) & _) Ht. unfold when.
  destruct (state_write_acknowledged r (StatusCode rs)) eqn:Ew.
  2: { go. intros _ Hw _ Hm. destruct c; [|by destruct Ha as (_ & ? & _)]. destruct Ha as [-> _]. congruence. }
  destruct (decide (token0 = "")) as [Et|Et].
  { apply (always_mono guard guard _ _ (λ _ _, True)); [done|by intros ? ? _ Hn|].
    unfold bumpStateGeneration. destruct (scope o =s ""); go; [done|]. split; [done|]. by intros []; go. }
  eapply always_mono; [done| |apply bump_safe, (own_scope_nonempty t _ (invalid o)); done].
  intros t' _ [ok Hok] _ _ _ _. exists (scope o), (invalid o), ok, t, out, t1. destruct Hok as [[-> ->]| ->].
  - split; [by apply own_scope_later|]. split; [apply seen_now|]. split; done.
  - split; [by do 2 apply own_scope_later|]. split; [apply seen_later, seen_now|]. split; [done|]. intros _.
    eexists. split; [apply seen_now|]. cbn. lia.
Qed.

Lemma proxy_safe r c o t : ctx r c o t → quiet (proxy h i r id o c) t.
Proof.
  intros Hc. unfold proxy. cbv zeta. set (out := if cacheable o then _ else _).
  assert (Hout : oMethod out = Method r ∧ oPath out = singleJoin (originPath h) (Path r) ∧ oRawQuery out = RawQuery r).
  { unfold out. by destruct (cacheable o). }
  clearbody out. go. split; [done|]. intros []; go; [|done]. split.
  { destruct Hc as (_ & Ha & Hn). exists r, c. auto with replx. }
  intros [rs|]; [|by go].
  set (t1 := Ev (NewRequest out) true :: t).
  eapply (safe_keep (λ t', ctx r c o t' ∧ seen t' (Ev (Origin out) (Some rs)) t1)); [| |apply revoke_safe|].
  { intros e t' [? ?]. auto with replx. }
  { unfold t1. auto 6 with replx. }
  intros t' _ [Hc' Hs] _.
  eapply (safe_keep (λ t', ctx r c o t' ∧ seen t' (Ev (Origin out) (Some rs)) t1)); [| |by eapply retire_safe|].
  { intros e t'' [? ?]. auto with replx. }
  { done. }
  intros t'' _ [Hc'' Hs''] Hret.
  destruct (bool_decide (mode h = cloudflare_tunnel) && c && isBulkMediaResponse (RespHeader rs)) eqn:Eb.
  { apply write_error_safe. }
  eapply copyBody_safe; [done|done|apply Hout|destruct Hc as [? _]; unfold t1; auto with replx|].
  split; [eauto|]. split; [done|]. intros Hm Hb. rewrite bool_decide_true, Hb, andb_true_r in Eb by done.
  destruct c; [done|]. destruct Hc as (_ & (_ & _ & Hd & _) & _). congruence.
Qed.

Lemma wait_loop_safe n key t : quiet (wait_loop n key) t.
Proof.
  revert t. induction n as [|n IH]; intros t; cbn [wait_loop]; [done|].
  go. split; [done|]. intros []; go; [|done]. split; [done|]. intros []; go; [|done]. split; [done|].
  intros [e|]; go; [done|]. split; [done|]. intros []; go; [apply IH|done].
Qed.

Lemma waitForFlight_safe key t : quiet (waitForFlight key) t.
Proof. unfold waitForFlight. go. split; [done|]. intros []; [apply wait_loop_safe|done]. Qed.

(** A look-up inside the control flow: it serves, or goes on in the same context. *)
Lemma serveCache_then r c o t (f : bool * obs → code unit) :
  ctx r c o t → (∀ b o' t', ctx r c o' t' → quiet (f (b, o')) t') → quiet (pbind (serveCache r id o) f) t.
Proof.
  intros Hc Hf. eapply (safe_keep (ctx r c o)); [by eauto with replx|done|by eapply serveCache_safe|].
  intros t' [b o'] Hc' [->|[st ->]]; apply Hf; auto with replx.
Qed.

Lemma serve_proxied_safe r c o t : ctx r c o t → quiet (serve_proxied h i r id o c) t.
Proof.
  intros Hc. unfold serve_proxied.
  assert (Hrest : ∀ b o t, ctx r c o t → quiet (if b : bool then Ret tt else
    if cacheable o && has_cache h then
      waited <~ waitForFlight (cacheKey o) ;;
      s <~ (if waited : bool then serveCache r id o else Ret (false, o)) ;;
      let '(served, o) := s in
      if served : bool then Ret tt
      else
        won <~ act (TryBegin (cacheKey o)) ;;
        if won : bool then do proxy h i r id o c ;; act (EndFlight (cacheKey o))
        else
          s <~ serveCache r id o ;;
          let '(served, o) := s in
          if served : bool then Ret tt else proxy h i r id o c
    else proxy h i r id o c) t).
  { clear Hc o t. intros b o t Hc. destruct b; [done|]. destruct (cacheable o && has_cache h); [|by apply proxy_safe].
    eapply (safe_keep (ctx r c o)); [by eauto with replx|done|apply waitForFlight_safe|].
    intros t' w Hc' _.
    assert (Hbegin : ∀ b o t, ctx r c o t → quiet (if b : bool then Ret tt else
        won <~ act (TryBegin (cacheKey o)) ;;
        if won : bool then do proxy h i r id o c ;; act (EndFlight (cacheKey o))
        else
          s <~ serveCache r id o ;;
          let '(served, o) := s in
          if served : bool then Ret tt else proxy h i r id o c) t).
    { clear. intros b o t Hc. destruct b; [done|]. go. split; [done|]. intros []; go.
      - apply quiet_bind; [by apply proxy_safe, ctx_later|]. by intros; go.
      - apply (serveCache_then r c); [auto with replx|]. intros b o' t' Hc'. destruct b; [done|].
        by apply proxy_safe. }
    destruct w; [|by apply (Hbegin false)]. apply (serveCache_then r c); [done|]. apply Hbegin. }
  destruct c; [|by apply (Hrest false)]. apply (serveCache_then r true); [done|]. apply Hrest.
Qed.

(** The headers aside, an outbound request is the admitted one. *)
Lemma fetch_admitted r c o t fwd :
  ctx r c o t → fetch_ok t (origin_request h i r id fwd).
Proof. intros (_ & Ha & Hn). exists r, c. done. Qed.

Lemma serveArtwork_safe o t : ctx r0 true o t → quiet (serveArtwork h i r0 id o) t.
Proof.
  intros Hc. unfold serveArtwork. destruct (artwork_refuses h r0 o) eqn:Er; [done|].
  assert (Hm : artworkMatch (Path r0) = true).
  { unfold artwork_refuses in Er. cbv zeta in Er. rewrite !orb_false_iff in Er.
    destruct Er as [[[_ Er] _] _]. by apply negb_false_iff in Er. }
  assert (Hinv : invalid o = false).
  { unfold artwork_refuses in Er. cbv zeta in Er. rewrite !orb_false_iff in Er. by destruct Er as [_ [? _]]. }
  go. split; [done|]. intros []; go; [|done].
  set (key := artworkCacheKey (scope o) r0). set (out := origin_request h i r0 id true).
  assert (Hfetch : ∀ t, ctx r0 true o t → quiet (
    built <~ act (NewRequest out) ;;
    if negb built then Ret false
    else
      reserved <~ act (ArtReserve key (artworkPriority r0)) ;;
      if negb reserved then Ret false
      else done <~ artwork_fill h id key o out ;; do act (ArtCancel key) ;; Ret done) t).
  { clear t Hc. intros t Hc. go. split; [done|]. intros []; go; [|done]. split; [done|]. intros []; go; [|done].
    apply quiet_bind; [|by intros; go]. unfold artwork_fill. go.
    split; [apply (fetch_admitted r0 true o); auto with replx|]. intros [rs|]; [|done].
    set (Hs := λ t', ctx r0 true o t' ∧ ∃ t1, seen t' (Ev (Origin out) (Some rs)) t1).
    assert (HsK : ∀ e t', Hs t' → Hs (e :: t')) by (intros e t' [? [t1 ?]]; split; eauto with replx).
    eapply (safe_keep Hs); [done|split; eauto 6 with replx|apply revoke_safe|]. intros t' _ H1 _.
    destruct (_ || ReadFails rs); [done|].
    eapply (safe_keep Hs _ _ _ (λ _ _, True)); [done|done| |].
    - destruct ((StatusCode rs =? 200) && _ && _) eqn:E; [|done]. go. split; [done|]. intros []; go; [|done].
      split; [|done]. destruct H1 as [((Hfp & Hsc & _) & _) [t1 Ht1]]. rewrite Hinv in Hsc. zbool. split; [done|].
      exists (scope o), out, rs, t1. split; [by apply own_scope_later|]. split; [by apply seen_later|].
      split; [done|]. by right.
    - intros t'' _ [Hc' [t1 Ht1]] _. go. split; [|done]. split; [eauto|]. split; [|by left].
      intros _ _ Hf. congruence. }
  clearbody out. split; [done|]. intros []; go; [|apply Hfetch; auto with replx].
  split; [done|]. intros [[ct body]|]; go; [|apply Hfetch; auto with replx].
  split; [|done]. destruct Hc as ((Hfp & Hsc & _) & _). rewrite Hinv in Hsc.
  exists (scope o), ct. do 2 eexists. split; [by auto with replx|]. split; [done|]. rewrite <- Hfp.
  split; apply seen_now.
Qed.

Lemma serveStreaming_safe r c o t :
  obs_ok t o → admitted t r c → quiet (serveStreaming h i r id o) t.
Proof.
  intros Ho Ha. unfold serveStreaming.
  assert (Hr : c = true → r = r0) by (intros ->; by destruct Ha as (_ & _ & ? & _)). destruct (isWebSocket r).
  { apply quiet_bind; [|by intros; go]. unfold tunnelWebSocket. go.
    split; [done|]. intros []; go; [done|done|]. split; [done|]. by intros []; go. }
  destruct (isSSE r) eqn:Es; [|done].
  assert (Hc : ctx r c o t).
  { split; [done|]. split; [done|]. intros -> _ Hd. rewrite (Hr eq_refl) in Es. unfold isSSE in Es. zbool.
    by rewrite Es in Hd. }
  apply quiet_bind; [|by intros; go].
  unfold streamSSE. cbv zeta. go. split; [done|]. intros []; go; [|done].
  split; [apply (fetch_admitted r c o); auto with replx|]. intros [rs|]; go; [|done]. split; [done|].
  intros []; go; [|done]. split; [|done]. split; [do 2 eexists; apply seen_later, seen_now|]. split.
  - intros _ Hw _ Hm. destruct c; [|by destruct Ha as (_ & _ & _ & ? & _)].
    rewrite (Hr eq_refl) in Es. unfold isSSE in Es. zbool. unfold state_write_acknowledged in Hw.
    zbool. rewrite Es in *. done.
  - intros Hm _. destruct c; [right; by rewrite <- (Hr eq_refl)|].
    destruct Ha as (_ & _ & Hd & _). congruence.
Qed.

Lemma serve_playback_safe o t :
  obs_ok t o → admitted t r0 true →
  safe (serve_playback h r0 id o) t (λ t' fin, fin = false → negotiated t' true).
Proof.
  intros (Hfp & _) Ha. unfold serve_playback. destruct (has_playback h) eqn:Ep; cbn [negb].
  2: { intros _ _ Hp. congruence. }
  apply quiet_bind; [by destruct (IsSessionStop (Path r0)); go|]. intros t' _.
  destruct (IsDecision (Path r0)) eqn:Ed; cbn [negb]; [|intros _ _ _; congruence]. go. split; [done|].
  intros []; go; [|done|by split].
  intros _ _ _ _. rewrite <- Hfp. eauto 8 with replx.
Qed.

Lemma serve_routed_safe r c o t :
  obs_ok t o → admitted t r c → quiet (serve_routed h i r id o c) t.
Proof.
  intros Ho Ha. unfold serve_routed.
  set (P := λ t, obs_ok t o ∧ admitted t r c).
  assert (HP : ∀ e t, P t → P (e :: t)) by (intros ? ? [? ?]; split; auto with replx).
  eapply (safe_keep P); [done|done|by eapply serveStreaming_safe|]. intros t1 [] [Ho1 Ha1] _; [done|].
  assert (Hend : ∀ (b : bool) t, ctx r c o t → quiet (if b then Ret tt else serve_proxied h i r id o c) t).
  { intros [] ? ?; [done|]. by apply serve_proxied_safe. }
  destruct c; [|apply (Hend false); by split].
  assert (r = r0) as -> by (by destruct Ha as (_ & _ & ? & _)).
  eapply (safe_keep P); [done|done|by apply serve_playback_safe|]. intros t2 [] [Ho2 Ha2] Hn; [done|].
  eapply (safe_keep (ctx r0 true o)); [eauto with replx| |by apply serveArtwork_safe; split; auto|];
    [split; auto|]. intros t3 b Hc _. by apply Hend.
Qed.

Lemma enforce_boundary_safe o t :
  mode h = direct → Classify (Path r0) = ActionMediaRedirect → urlHost i = "" → HasPrefix (Path r0) "//" = false →
  safe (enforce_boundary h r0 id o) t (λ t' r, ∀ r', r = Some r' → admitted t' r' false).
Proof.
  intros Hm Hcl Hu Hp. unfold enforce_boundary, admitted, boundary_ok.
  destruct (boundaryPolicy h) as [hk|]; [|go; by intros r' [= <-]].
  cbv zeta. destruct (negb _ || IsManifest (Path r0)); [|go; by intros r' [= <-]].
  go. split; [done|]. intros [[sub []] reason]; go.
  - split; [done|]. discriminate.
  - intros r' [= <-]. repeat (split; [done|]). eauto 8 with replx.
Qed.

Lemma serve_safe t : quiet (serve h i id) t.
Proof.
  unfold serve. cbv zeta. eapply safe_bind; [apply observe_safe|]. intros t1 o Ho.
  destruct (negb (urlHost i =s "") || HasPrefix (Path r0) "//") eqn:Eh; [apply write_error_safe|]. zbool.
  assert (Hctl : (Classify (Path r0) = ActionControl ∨ Classify (Path r0) = ActionPlayQueueObserve ∨
      (Classify (Path r0) = ActionDenyUnknownMedia ∧ mode h = direct)) → quiet (serve_routed h i r0 id o true) t1).
  { intros Hcl. by apply serve_routed_safe. }
  destruct (Classify (Path r0)) eqn:Ec; try by apply Hctl; auto.
  - destruct (decide (mode h = cloudflare_tunnel)) as [|Hm].
    + unfold serve_tunnel_media. apply quiet_bind; [by destruct (has_spike h); go|].
      intros t2 [loc|]; [by go|]. destruct (mediaFallback h); by go.
    + eapply (safe_keep (λ t, obs_ok t o)); [eauto with replx|done|apply enforce_boundary_safe; try done|].
      { by destruct (mode h). }
      intros t2 [r|] Ho2 Hr; [|done]. apply serve_routed_safe; auto.
  - destruct (decide (mode h = cloudflare_tunnel)) as [|Hm]; [apply write_error_safe|].
    apply Hctl. right. right. by destruct (mode h).
  - apply write_error_safe.
Qed.

Lemma ServeHTTP_safe t : quiet (ServeHTTP h i id) t.
Proof.
  unfold ServeHTTP. apply quiet_bind; [by destruct (has_warmer h); go|]. intros t1 _.
  apply quiet_bind; [apply serve_safe|]. intros t2 _. by destruct (has_warmer h); go.
Qed.

Lemma ServeHTTP_guard t res n a x :
  trace_of (ServeHTTP h i id) t res → t !! n = Some (Ev a x) → guard (rev (take n t)) a.
Proof. apply always_at with (Q := λ _ _, True), ServeHTTP_safe. Qed.

End execution.

(** ** Properties *)

(** Bulk media by its type: video, audio and the manifests of streams,
    whatever the case and the parameters of the header. *)
Definition media_type (h : Header) : string :=
  let raw := HGet h "Content-Type" in
  ToLower (TrimSpace (match Cut raw ";" with Some (a, _) => a | None => raw end)).
Definition bulk_type (ct : string) : Prop :=
  HasPrefix ct "video/" = true ∨ HasPrefix ct "audio/" = true ∨
  ct ∈ ["application/vnd.apple.mpegurl"; "application/x-mpegurl"; "application/dash+xml"].

Lemma bulk_type_is_refused h : bulk_type (media_type h) → isBulkMediaResponse h = true.
Proof.
  unfold bulk_type, isBulkMediaResponse, media_type. cbv zeta. intros [->|[->|H]]; rewrite ?orb_true_r; [done..|].
  rewrite !elem_of_cons, elem_of_nil in H. destruct H as [->|[->|[->|[]]]]; rewrite ?String.eqb_refl, ?orb_true_r; done.
Qed.

(** C5: In tunnel mode bulk media does not travel: every request sent to
    the origin keeps the path of a public request that is classified as
    control traffic, and a relayed response is not bulk media unless it
    answers the artwork transcoder or the notification stream. *)
Theorem tunnel_carries_no_media h i id t res :
  mode h = cloudflare_tunnel → trace_of (ServeHTTP h i id) t res →
  (∀ n out x, t !! n = Some (Ev (Origin out) x) →
     (Classify (Path (request i)) = ActionControl ∨ Classify (Path (request i)) = ActionPlayQueueObserve) ∧
     oPath out = singleJoin (originPath h) (Path (request i)) ∧ oRawQuery out = RawQuery (request i)) ∧
  (∀ n hd rs x, t !! n = Some (Ev (Write (OriginReply hd rs)) x) →
     bulk_type (media_type (RespHeader rs)) →
     artworkMatch (Path (request i)) = true ∨ isSSE (request i) = true).
Proof.
  intros Hm Ht. split.
  - intros n out x Hn. destruct (ServeHTTP_guard h i id t res n _ x Ht Hn) as (r & c & (_ & _ & Ha) & _ & _ & Hp & Hq).
    destruct c; [|destruct Ha; congruence]. destruct Ha as (-> & Ha). split; [|done].
    destruct Ha as [?|[?|[_ ?]]]; [auto..|congruence].
  - intros n hd rs x Hn. destruct (ServeHTTP_guard h i id t res n _ x Ht Hn) as (_ & _ & Hb).
    intros Hbulk%bulk_type_is_refused. auto.
Qed.


(** With a playback engine, a negotiation request reaches the origin
    through the transparent path only after the engine itself answered that
    it does not handle it: no failure of the engine lets it through. *)
Theorem negotiation_needs_engine h i id t res n out x :
  has_playback h = true → IsDecision (Path (request i)) = true → Classify (Path (request i)) = ActionControl →
  trace_of (ServeHTTP h i id) t res → t !! n = Some (Ev (Origin out) x) →
  ∃ k sess iid cid, (k < n)%nat ∧
    t !! k = Some (Ev (PlaybackDecision (request i) (fp0 h i) sess iid cid) NotHandled).
Proof.
  intros Hp Hd Hc Ht Hn.
  destruct (ServeHTTP_guard h i id t res n _ x Ht Hn) as (r' & c & (_ & _ & Ha) & Hneg & _).
  destruct c; [|destruct Ha as (_ & ? & _); congruence].
  destruct (Hneg eq_refl Hp Hd) as (sess & iid & cid & t' & Hs). apply seen_at in Hs as (k & ? & ? & _). eauto 8.
Qed.

(** C3: Read your own writes, first half.  When the origin acknowledges a
    watch write of an identified caller, the generation of the caller's
    scope is bumped after the origin's answer and before anything is
    relayed; when the bump fails, the cache is marked broken before that. *)
Theorem watch_write_retires_first h i id t res n hd rs x :
  Trace.ExtractToken (request i) ≠ "" → Classify (Path (request i)) ≠ ActionMediaRedirect →
  artworkMatch (Path (request i)) = false → state_write_acknowledged (request i) (StatusCode rs) = true →
  trace_of (ServeHTTP h i id) t res → t !! n = Some (Ev (Write (OriginReply hd rs)) x) →
  ∃ a b out sc inv ok, (a < b)%nat ∧ (b < n)%nat ∧ own_scope h i (rev (take n t)) sc inv ∧ sc ≠ "" ∧
    t !! a = Some (Ev (Origin out) (Some rs)) ∧
    t !! b = Some (Ev (GensBump (Generations.BumpScope sc)) ok) ∧
    (ok = false → ∃ c, (b < c)%nat ∧ (c < n)%nat ∧ t !! c = Some (Ev (StoreBroken true) tt)).
Proof.
  intros Htok Hc Hart Hw Ht Hn.
  destruct (ServeHTTP_guard h i id t res n _ x Ht Hn) as (_ & Hr & _).
  destruct (Hr Htok Hw Hart Hc) as (sc & inv & ok & t1 & out & t2 & Hsc & H1 & H2 & H3).
  apply seen_at in H1 as (b & Hb & Eb & ->). apply seen_at in H2 as (a & Ha & Ea & _).
  exists a, b, out, sc, inv, ok. split; [done|]. split; [done|]. split; [done|].
  split; [by eapply own_scope_nonempty|]. split; [done|]. split; [done|]. intros Hok.
  destruct (H3 Hok) as (t3 & H4 & Hl). apply seen_at in H4 as (c & Hcn & Ec & ->). exists c.
  split; [|done]. pose proof (lookup_lt_Some _ _ _ Hn).
  rewrite !length_rev, !length_take in Hl. lia.
Qed.

(** Serving a stored response.  A stored response is written only to a
    caller whose credential was not rejected, and only after, in this order:
    the generations of the caller's own namespace gave the key, the caller
    held a lease for that key, the entry was read under it, the cache was
    not broken, and the generations were still the same. *)
Theorem hit_is_checked h i id t res n hd e x :
  trace_of (ServeHTTP h i id) t res → t !! n = Some (Ev (Write (CachedReply hd e)) x) →
  ∃ k1 k2 k3 k4 k5 sc sg gg r c, (k1 < k2 < k3)%nat ∧ (k3 < k4 < k5)%nat ∧ (k5 < n)%nat ∧
    own_scope h i (rev (take n t)) sc false ∧ admitted h i (rev (take n t)) r c ∧
    let key := RequestKeyGen sc (ClassOf (Path (request i))) (request i) sg gg in
    t !! k1 = Some (Ev (GensGet sc (ClassOf (Path (request i)))) (Some (sg, gg))) ∧
    t !! k2 = Some (Ev (Authorized (fp0 h i) key) true) ∧
    t !! k3 = Some (Ev (CacheGet key) (Some e)) ∧
    t !! k4 = Some (Ev LoadBroken false) ∧
    t !! k5 = Some (Ev (GensGet sc (ClassOf (Path r))) (Some (sg, gg))).
Proof.
  intros Ht Hn.
  destruct (ServeHTTP_guard h i id t res n _ x Ht Hn)
    as (sc & sg & gg & r & c & t1 & t2 & t3 & t4 & t5 & Hsc & Ha & H5 & H4 & H3 & H2 & H1).
  apply seen_at in H5 as (k5 & ? & ? & ->). apply seen_at in H4 as (k4 & ? & ? & ->).
  apply seen_at in H3 as (k3 & ? & ? & ->). apply seen_at in H2 as (k2 & ? & ? & ->).
  apply seen_at in H1 as (k1 & ? & ? & ->). exists k1, k2, k3, k4, k5, sc, sg, gg, r, c. auto 12 with lia.
Qed.

(** C7: Storing a response.  What a request stores is the complete body of a
    storable 200 within the size limit that the origin gave to this very
    request, under the caller's own key, and the generations in the key were
    read before the fetch and found unchanged after it. *)
Theorem store_is_checked h i id t res n key e ttl x :
  trace_of (ServeHTTP h i id) t res → t !! n = Some (Ev (CacheSet key e ttl) x) →
  ∃ k1 k2 k3 sc sg gg out rs r c, (k1 < k2 < k3)%nat ∧ (k3 < n)%nat ∧
    own_scope h i (rev (take n t)) sc false ∧ admitted h i (rev (take n t)) r c ∧
    key = RequestKeyGen sc (ClassOf (Path (request i))) (request i) sg gg ∧
    t !! k1 = Some (Ev (GensGet sc (ClassOf (Path (request i)))) (Some (sg, gg))) ∧
    t !! k2 = Some (Ev (Origin out) (Some rs)) ∧
    t !! k3 = Some (Ev (GensGet sc (ClassOf (Path r))) (Some (sg, gg))) ∧
    oPath out = singleJoin (originPath h) (Path r) ∧ RequestCacheable (request i) = Some ttl ∧
    StatusCode rs = 200 ∧ StorableResponse (RespHeader rs) = true ∧ ReadFails rs = false ∧
    slen (RespBody rs) <= MaxEntryBytes ∧ e = entry_of rs.
Proof.
  intros Ht Hn.
  destruct (ServeHTTP_guard h i id t res n _ x Ht Hn)
    as (sc & sg & gg & out & rs & r & c & t1 & t2 & t3 & Hk & Hsc & Httl & Ha & H3 & H2 & H1 & Hrest).
  apply seen_at in H3 as (k3 & ? & ? & ->). apply seen_at in H2 as (k2 & ? & ? & ->).
  apply seen_at in H1 as (k1 & ? & ? & ->). exists k1, k2, k3, sc, sg, gg, out, rs, r, c.
  destruct Hrest as (? & ? & ? & ? & ? & ?). auto 16 with lia.
Qed.

(** ** Forwarded headers *)

Lemma hlookup_hadd d k v k' : hlookup (hadd d k v) k' = hlookup d k' ++ (if k' =s k then [v] else []).
Proof.
  induction d as [|[a vv] d IH]; cbn [hadd hlookup]; [by destruct (k' =s k)|].
  destruct (String.eqb_spec k a) as [->|Hne]; cbn [hlookup].
  - destruct (k' =s a); [done|]. by rewrite app_nil_r.
  - destruct (String.eqb_spec k' a) as [->|]; [|done].
    rewrite (proj2 (String.eqb_neq a k)) by congruence. by rewrite app_nil_r.
Qed.

Lemma hlookup_add_all d k vv k' :
  hlookup (foldl (λ d v, HAdd d k v) d vv) k' = hlookup d k' ++ (if k' =s CanonicalHeaderKey k then vv else []).
Proof.
  revert d. induction vv as [|v vv IH]; intros d; cbn [foldl].
  - by destruct (_ =s _); rewrite app_nil_r.
  - rewrite IH. unfold HAdd. rewrite hlookup_hadd, <- app_assoc. by destruct (k' =s CanonicalHeaderKey k).
Qed.

Lemma hop_by_hop_spec k :
  existsb (String.eqb (textprotoCanonical k)) hopByHop = true ↔ ∃ hop, hop ∈ hopByHop ∧ EqualFold k hop = true.
Proof.
  unfold textprotoCanonical. destruct (List.find (EqualFold k) hopByHop) as [hop|] eqn:E.
  - apply List.find_some in E as [E1 E2]. apply list_elem_of_In in E1. split; [eauto|]. intros _.
    apply existsb_exists. exists hop. split; [by apply list_elem_of_In|apply String.eqb_refl].
  - split.
    + intros (hop & Hin & Hk)%existsb_exists. apply String.eqb_eq in Hk as <-.
      pose proof (List.find_none _ _ E _ Hin) as Hn. unfold EqualFold in Hn. by rewrite String.eqb_refl in Hn.
    + intros (hop & Hin & Hk). apply list_elem_of_In in Hin. rewrite (List.find_none _ _ E _ Hin) in Hk. done.
Qed.

(** Forwarding of headers.  Copying appends, for each name, exactly the
    values of the source entries that are neither hop-by-hop (in any letter
    case) nor named by a token of the [Connection] header, in order. *)
Theorem copyHeaders_spec dst src k :
  hlookup (copyHeaders dst src) k =
    hlookup dst k ++
    concat (snd <$> filter (λ e, dropped_header src e.1 = false ∧ k = CanonicalHeaderKey e.1) src) ∧
  ∀ name, dropped_header src name = true ↔
    (∃ hop, hop ∈ hopByHop ∧ EqualFold name hop = true) ∨
    ∃ tok, tok ∈ Split (HGet src "Connection") "," ∧ TrimSpace tok ≠ "" ∧ ToLower name = ToLower (TrimSpace tok).
Proof.
  split.
  - unfold copyHeaders. set (dr := dropped_header src). clearbody dr. revert dst.
    induction src as [|[a vv] src IH]; intros dst; cbn [foldl fst snd]; [by rewrite app_nil_r|].
    rewrite IH, filter_cons. cbn [fst]. destruct (dr a) eqn:Ed.
    + rewrite decide_False by naive_solver. done.
    + rewrite hlookup_add_all. destruct (String.eqb_spec k (CanonicalHeaderKey a)).
      * rewrite decide_True by done. rewrite fmap_cons. cbn [concat snd]. by rewrite <- app_assoc.
      * rewrite decide_False by naive_solver. by rewrite app_nil_r.
  - intros name. unfold dropped_header. rewrite orb_true_iff, hop_by_hop_spec. apply or_iff_compat_l.
    rewrite existsb_exists. unfold connected. split.
    + intros (x & Hx & E). apply list_elem_of_In in Hx. apply String.eqb_eq in E.
      apply list_elem_of_fmap in Hx as (y & -> & Hy). apply list_elem_of_filter in Hy as [Hy1 Hy2].
      apply list_elem_of_fmap in Hy2 as (tok & -> & Htok). eauto.
    + intros (tok & Htok & Hne & E). exists (ToLower (TrimSpace tok)). split; [|by apply String.eqb_eq].
      apply list_elem_of_In, list_elem_of_fmap. exists (TrimSpace tok). split; [done|].
      apply list_elem_of_filter. split; [done|]. apply list_elem_of_fmap. eauto.
Qed.

(** ** Flights *)

Create HintDb flightless.

(** Anything but the acquisition and the release of a flight. *)
Definition flightless (o : op) : bool :=
  match o with TryBegin _ | EndFlight _ => false | _ => true end.

Ltac flights :=
  lazymatch goal with
  | |- only _ (pbind _ _) => apply only_bind; [flights|intros; flights]
  | |- only _ (Ret _) => exact I
  | |- only _ (act _) => split; [reflexivity|intros; exact I]
  | |- only _ (when _ _) => unfold when; flights
  | |- only _ (match ?x with _ => _ end) => destruct x; flights
  | |- _ => auto with flightless
  end.

Lemma fl_error s id hd a b l : only flightless (write_error s id hd a b l).
Proof. unfold write_error. flights. Qed.
#[local] Hint Resolve fl_error : flightless.

Lemma fl_observe h r : only flightless (observe h r).
Proof. unfold observe, observe_identity, refreshCacheGeneration. cbv zeta. flights. Qed.

Lemma fl_current r o : only flightless (currentCacheGeneration r o).
Proof. unfold currentCacheGeneration. flights. Qed.
#[local] Hint Resolve fl_observe fl_current : flightless.

Lemma fl_serveCache r id o : only flightless (serveCache r id o).
Proof. unfold serveCache. cbv zeta. flights. Qed.

Lemma fl_wait_loop n key : only flightless (wait_loop n key).
Proof. induction n; cbn [wait_loop]; flights. Qed.
#[local] Hint Resolve fl_serveCache fl_wait_loop : flightless.

Lemma fl_revoke h o s : only flightless (revokeRejectedAuthorization h o s).
Proof. unfold revokeRejectedAuthorization. flights. Qed.

Lemma fl_copyBody h r o hd rs : only flightless (copyBody h r o hd rs).
Proof. unfold copyBody. flights. Qed.
#[local] Hint Resolve fl_revoke fl_copyBody : flightless.

Lemma fl_proxy h i r id o c : only flightless (proxy h i r id o c).
Proof. unfold proxy, bumpStateGeneration, writeBadGateway, writeMediaUnavailable. cbv zeta. flights. Qed.

Lemma fl_serveStreaming h i r id o : only flightless (serveStreaming h i r id o).
Proof. unfold serveStreaming, tunnelWebSocket, streamSSE, writeBadGateway. cbv zeta. flights. Qed.

Lemma fl_serveArtwork h i r id o : only flightless (serveArtwork h i r id o).
Proof. unfold serveArtwork, artwork_fill. cbv zeta. flights. Qed.

Lemma fl_serve_playback h r id o : only flightless (serve_playback h r id o).
Proof. unfold serve_playback, writePolicyDeny. flights. Qed.

Lemma fl_boundary h r id o : only flightless (enforce_boundary h r id o).
Proof. unfold enforce_boundary, writePartDeny. cbv zeta. flights. Qed.

Lemma fl_tunnel h r id o : only flightless (serve_tunnel_media h r id o).
Proof.
  unfold serve_tunnel_media, WriteMediaRedirect, writeMediaGatewayRedirect, writeMediaUnavailable, WriteMediaRedirect.
  flights.
Qed.
#[local] Hint Resolve fl_proxy fl_serveStreaming fl_serveArtwork fl_serve_playback fl_boundary fl_tunnel : flightless.

(** A request begins at most one flight, ends only the one it won, and has
    ended it when it is finished. *)
Definition flight_guard (t : list (event resp)) (o : op) : Prop :=
  match o with
  | TryBegin _ => outside flightless t = []
  | EndFlight key => outside flightless t = [Ev (TryBegin key) true]
  | _ => True
  end.
Definition flight_done (t : list (event resp)) : Prop :=
  outside flightless t = [] ∨
  ∃ key, outside flightless t = [Ev (TryBegin key) false] ∨
         outside flightless t = [Ev (EndFlight key) tt; Ev (TryBegin key) true].

Lemma flight_only {A} (p : code A) t :
  only flightless p → always flight_guard p t (λ t' _, outside flightless t' = outside flightless t).
Proof. apply only_always. by intros ? []. Qed.

Lemma flight_bind {A B} (p : code A) (f : A → code B) t Q :
  only flightless p →
  (∀ t' a, outside flightless t' = outside flightless t → always flight_guard (f a) t' Q) →
  always flight_guard (pbind p f) t Q.
Proof. intros Hp Hf. apply always_bind. eapply always_mono; [done|exact Hf|by apply flight_only]. Qed.

(** A program without flights, where none was begun. *)
Lemma flight_none {A} (p : code A) t :
  outside flightless t = [] → only flightless p → always flight_guard p t (λ t' _, flight_done t').
Proof.
  intros Ht Hp. eapply always_mono; [done| |by apply flight_only]. intros t' a E. left. congruence.
Qed.

Lemma flight_proxied h i r id o c t :
  outside flightless t = [] → always flight_guard (serve_proxied h i r id o c) t (λ t' _, flight_done t').
Proof.
  intros Ht. unfold serve_proxied. apply flight_bind; [flights|]. intros t1 [s o1] H1. rewrite Ht in H1.
  destruct s; [by left|]. destruct (cacheable o1 && has_cache h); [|by apply flight_none, fl_proxy].
  apply flight_bind; [unfold waitForFlight; flights|]. intros t2 w H2. rewrite H1 in H2.
  apply flight_bind; [flights|]. intros t3 [s o3] H3. rewrite H2 in H3. destruct s; [by left|].
  cbn [always pbind act]. split; [done|]. intros [].
  - apply flight_bind; [apply fl_proxy|]. intros t4 x H4. rewrite outside_cons_out, H3 in H4 by done.
    cbn [always act]. split; [done|]. intros []. right. exists (cacheKey o3). right.
    by rewrite outside_cons_out, H4.
  - assert (E : outside flightless (Ev (TryBegin (cacheKey o3)) (false : resp (TryBegin (cacheKey o3))) :: t3) =
        [Ev (TryBegin (cacheKey o3)) false]) by (by rewrite outside_cons_out, H3).
    apply flight_bind; [flights|]. intros t4 [s o4] H4. rewrite E in H4.
    destruct s; [right; eauto|]. eapply always_mono; [done| |apply flight_only, fl_proxy].
    cbn. intros t5 _ H5. right. exists (cacheKey o3). left. congruence.
Qed.

Lemma flight_routed h i r id o c t :
  outside flightless t = [] → always flight_guard (serve_routed h i r id o c) t (λ t' _, flight_done t').
Proof.
  intros Ht. unfold serve_routed. apply flight_bind; [flights|]. intros t1 [] H1; rewrite Ht in H1; [by left|].
  apply flight_bind; [flights|]. intros t2 [] H2; rewrite H1 in H2; [by left|].
  apply flight_bind; [flights|]. intros t3 [] H3; rewrite H2 in H3; [by left|]. by apply flight_proxied.
Qed.

Lemma flight_serve h i id t :
  outside flightless t = [] → always flight_guard (serve h i id) t (λ t' _, flight_done t').
Proof.
  intros Ht. unfold serve. cbv zeta. apply flight_bind; [flights|]. intros t1 o H1. rewrite Ht in H1.
  destruct (negb _ || _); [by apply flight_none, fl_error|].
  destruct (Classify _); try (apply flight_routed; done); try (by apply flight_none, fl_error).
  - destruct (decide _); [by apply flight_none, fl_tunnel|].
    apply flight_bind; [flights|]. intros t2 [r|] H2; rewrite H1 in H2; [by apply flight_routed|by left].
  - destruct (decide _); [by apply flight_none, fl_error|by apply flight_routed].
Qed.

Lemma flight_shape h i id : always flight_guard (ServeHTTP h i id) [] (λ t' _, flight_done t').
Proof.
  unfold ServeHTTP. apply flight_bind; [flights|]. intros t1 _ H1. apply always_bind.
  eapply always_mono; [done| |by apply flight_serve].
  intros t2 a H2. eapply always_mono; [done| |apply flight_only; flights]. cbn. intros t3 _ E.
  unfold flight_done. by rewrite E.
Qed.

(** C18: A finished request holds no flight: every flight it won was ended
    afterwards, and it ended no other. *)
Theorem flight_is_released h i id t :
  trace_of (ServeHTTP h i id) t (Some tt) →
  (∀ n key, t !! n = Some (Ev (TryBegin key) true) → ∃ m, (n < m)%nat ∧ t !! m = Some (Ev (EndFlight key) tt)) ∧
  (∀ m key, t !! m = Some (Ev (EndFlight key) tt) → ∃ n, (n < m)%nat ∧ t !! n = Some (Ev (TryBegin key) true)).
Proof.
  intros Ht.
  assert (Hg : ∀ n a x, t !! n = Some (Ev a x) → flight_guard (rev (take n t)) a).
  { intros n a x. by eapply always_at, Ht; apply flight_shape. }
  split.
  - intros n key Hn. destruct (always_trace _ _ _ _ _ _ (flight_shape h i id) Ht) as [_ Hd].
    specialize (Hd tt eq_refl). rewrite app_nil_r in Hd. rewrite <- (take_ge t (length t)) in Hd by lia.
    assert (Hin : Ev (TryBegin key) true ∈ outside flightless (rev (take (length t) t))).
    { apply (outside_at _ t _ n); [done|by eapply lookup_lt_Some|done]. }
    destruct Hd as [Hd|[k [Hd|Hd]]]; rewrite Hd in Hin; [set_solver|..].
    { apply list_elem_of_singleton in Hin. assert (k = key) as -> by (by injection Hin). by apply Ev_inj in Hin. }
    assert (k = key) as ->.
    { apply elem_of_cons in Hin as [Hin|Hin%list_elem_of_singleton]; [discriminate|]. by injection Hin. }
    destruct (outside_in flightless t (length t) (Ev (EndFlight key) tt)) as (m & _ & Hm); [rewrite Hd; set_solver|].
    exists m. split; [|done]. destruct (decide (n < m)%nat) as [|Hnm]; [done|]. exfalso.
    assert (m ≠ n) by (intros ->; rewrite Hn in Hm; discriminate).
    pose proof (Hg n _ _ Hn) as He. cbn in He.
    assert (Ev (EndFlight key) tt ∈ outside flightless (rev (take n t))) as Hbad.
    { apply (outside_at _ t _ m); [done|lia|done]. }
    rewrite He in Hbad. set_solver.
  - intros m key Hm. pose proof (Hg m _ _ Hm) as He. cbn in He. apply (outside_in flightless).
    rewrite He. set_solver.
Qed.

(** ** Witnesses *)

Definition w_resp : Response :=
  mkResponse 200 [("Content-Type", ["application/xml"])] "<MediaContainer/>" false.
Definition w_options (m : ingress) : Options :=
  mkOptions m "" "k" true true true true false true false false None.
Definition w_request (method path : string) : inbound :=
  mkInbound (mkRequest method path "" [("X-Plex-Token", ["tok"])] 0) "" "192.0.2.1" false.

(** A friendly environment: the identity is known, the generations are 3
    and 1, leases are valid, and [found] is what the store holds. *)
Definition w_answers (found : option Entry) : ∀ o, resp o := λ o,
  match o return resp o with
  | Resolve _ _ _ => Identity.mkResolved "acct:7" "42" "c" 7 true true false false
  | GensGet _ _ => Some (3, 1)
  | LoadBroken => false
  | GensBump _ | Authorized _ _ | CacheSet _ _ _ | Permit _ => true
  | CacheGet _ => found
  | InFlight _ => false
  | TryBegin _ | BeforeDeadline | Pause | NewRequest _ => true
  | Origin _ => Some w_resp
  | SpikeResolve _ _ _ => None
  | CallPolicy _ _ _ _ => ("/library/parts/9/1/file.mkv", false, "substituted")
  | PlaybackDecision _ _ _ _ _ => NotHandled
  | ArtReady | ArtReserve _ _ | ArtCommit _ _ _ | HasFlusher | DialOrigin | Write _ => true
  | ArtGet _ => None
  | HijackClient => NoHijacker
  | _ => tt
  end.

Definition w_trace (m : ingress) (method path : string) (found : option Entry) : list (event resp) :=
  (answered (w_answers found) (ServeHTTP (w_options m) (w_request method path) "id")).1.

Lemma w_trace_of m method path found :
  trace_of (ServeHTTP (w_options m) (w_request method path) "id") (w_trace m method path found) (Some tt).
Proof.
  unfold w_trace. pose proof (answered_trace (w_answers found) (ServeHTTP (w_options m) (w_request method path) "id")) as H.
  by destruct (answered _ _).2.
Qed.

Definition is_origin (o : op) : bool := match o with Origin _ => true | _ => false end.
Definition is_relay (o : op) : bool := match o with Write (OriginReply _ rs) => StatusCode rs =? 200 | _ => false end.
Definition is_begin (o : op) : bool := match o with TryBegin _ => true | _ => false end.
Definition is_cached (o : op) : bool := match o with Write (CachedReply _ _) => true | _ => false end.
Definition is_store (o : op) : bool := match o with CacheSet _ _ _ => true | _ => false end.

Lemma tunnel_carries_no_media_witness :
  Classify "/library/sections/1/all" = ActionControl ∨
  Classify "/library/sections/1/all" = ActionPlayQueueObserve.
Proof.
  destruct (find_at is_origin (w_trace cloudflare_tunnel "GET" "/library/sections/1/all" None))
    as (n & o & x & Hn & Ho); [vm_compute; reflexivity|]. destruct o; try discriminate Ho.
  exact (proj1 (proj1 (tunnel_carries_no_media (w_options cloudflare_tunnel) (w_request "GET" "/library/sections/1/all")
    "id" _ _ eq_refl (w_trace_of _ _ _ _)) n _ x Hn)).
Defined.


Lemma negotiation_needs_engine_witness :
  ∃ n out x k sess iid cid,
    let t := w_trace cloudflare_tunnel "GET" "/video/:/transcode/universal/decision" None in
    let i := w_request "GET" "/video/:/transcode/universal/decision" in
    t !! n = Some (Ev (Origin out) x) ∧ (k < n)%nat ∧
    t !! k = Some (Ev (PlaybackDecision (request i) (fp0 (w_options cloudflare_tunnel) i) sess iid cid) NotHandled).
Proof.
  destruct (find_at is_origin (w_trace cloudflare_tunnel "GET" "/video/:/transcode/universal/decision" None))
    as (n & o & x & Hn & Ho); [vm_compute; reflexivity|]. destruct o; try discriminate Ho.
  destruct (negotiation_needs_engine (w_options cloudflare_tunnel) (w_request "GET" "/video/:/transcode/universal/decision")
    "id" (w_trace cloudflare_tunnel "GET" "/video/:/transcode/universal/decision" None) (Some tt) n out x)
    as (k & sess & iid & cid & Hk & Hp); [reflexivity|vm_compute; reflexivity|vm_compute; reflexivity|
      apply w_trace_of|exact Hn|].
  exists n, out, x, k, sess, iid, cid. split; [exact Hn|]. split; [exact Hk|]. exact Hp.
Defined.

Lemma watch_write_retires_first_witness :
  ∃ n hd rs x a b sc, let t := w_trace cloudflare_tunnel "GET" "/:/timeline" None in
    t !! n = Some (Ev (Write (OriginReply hd rs)) x) ∧ (a < b < n)%nat ∧ sc ≠ "" ∧
    ∃ ok, t !! b = Some (Ev (GensBump (Generations.BumpScope sc)) ok).
Proof.
  destruct (find_at is_relay (w_trace cloudflare_tunnel "GET" "/:/timeline" None))
    as (n & o & x & Hn & Ho); [vm_compute; reflexivity|]. destruct o; try discriminate Ho.
  destruct w; try discriminate Ho. cbn in Ho. apply Z.eqb_eq in Ho.
  destruct (watch_write_retires_first (w_options cloudflare_tunnel) (w_request "GET" "/:/timeline") "id"
    (w_trace cloudflare_tunnel "GET" "/:/timeline" None) (Some tt) n h resp0 x)
    as (a & b & out & sc & inv & ok & Hab & Hbn & _ & Hsc & _ & Hb & _);
    [by vm_compute|by vm_compute|by vm_compute|rewrite Ho; by vm_compute|apply w_trace_of|exact Hn|].
  exists n, h, resp0, x, a, b, sc. split; [exact Hn|]. split; [split; assumption|]. split; [exact Hsc|].
  exists ok. exact Hb.
Defined.

Lemma hit_is_checked_witness :
  ∃ n hd e x k key, let t := w_trace cloudflare_tunnel "GET" "/library/sections/1/all" (Some (entry_of w_resp)) in
    t !! n = Some (Ev (Write (CachedReply hd e)) x) ∧ (k < n)%nat ∧ t !! k = Some (Ev (CacheGet key) (Some e)).
Proof.
  destruct (find_at is_cached (w_trace cloudflare_tunnel "GET" "/library/sections/1/all" (Some (entry_of w_resp))))
    as (n & o & x & Hn & Ho); [vm_compute; reflexivity|]. destruct o; try discriminate Ho.
  destruct w; try discriminate Ho.
  destruct (hit_is_checked (w_options cloudflare_tunnel) (w_request "GET" "/library/sections/1/all") "id" _ _ n h e x
    (w_trace_of _ _ _ _) Hn) as (k1 & k2 & k3 & k4 & k5 & sc & sg & gg & r & c & H1 & H2 & H3 & _ & _ & _ & _ & H4 & _).
  exists n, h, e, x, k3. eexists. split; [exact Hn|]. split; [|exact H4]. lia.
Defined.

Lemma store_is_checked_witness :
  ∃ n key e ttl x k out rs, let t := w_trace cloudflare_tunnel "GET" "/library/sections/1/all" None in
    t !! n = Some (Ev (CacheSet key e ttl) x) ∧ (k < n)%nat ∧ t !! k = Some (Ev (Origin out) (Some rs)) ∧ e = entry_of rs.
Proof.
  destruct (find_at is_store (w_trace cloudflare_tunnel "GET" "/library/sections/1/all" None))
    as (n & o & x & Hn & Ho); [vm_compute; reflexivity|]. destruct o; try discriminate Ho.
  destruct (store_is_checked (w_options cloudflare_tunnel) (w_request "GET" "/library/sections/1/all") "id" _ _ n key e ttl x
    (w_trace_of _ _ _ _) Hn) as (k1 & k2 & k3 & sc & sg & gg & out & rs & r & c & H1 & H2 & _ & _ & _ & _ & H3 & _ & _ & _ & _ & _ & _ & _ & H4).
  exists n, key, e, ttl, x, k2, out, rs. split; [exact Hn|]. split; [lia|]. split; [exact H3|exact H4].
Defined.

Lemma flight_is_released_witness :
  ∃ n m key, let t := w_trace cloudflare_tunnel "GET" "/library/sections/1/all" None in
    (n < m)%nat ∧ t !! m = Some (Ev (EndFlight key) tt).
Proof.
  destruct (find_at (λ o, match o with EndFlight _ => true | _ => false end)
    (w_trace cloudflare_tunnel "GET" "/library/sections/1/all" None))
    as (m & o & x & Hm & Ho); [vm_compute; reflexivity|]. destruct o; try discriminate Ho. destruct x.
  destruct (proj2 (flight_is_released (w_options cloudflare_tunnel) (w_request "GET" "/library/sections/1/all") "id" _
    (w_trace_of _ _ _ _)) m key Hm) as (n & Hlt & _).
  exists n, m, key. split; [exact Hlt|exact Hm].
Defined.

(** ** Deviations of the code from its comments *)

Definition is_policy (o : op) : bool := match o with CallPolicy _ _ _ _ => true | _ => false end.

(** A raw part whose path also contains the play-queue marker is classified
    as an observed play queue, so in direct mode the part is fetched without
    asking the boundary, and in tunnel mode it is fetched at all. *)
Lemma playqueue_part_bypasses_boundary :
  let path := "/library/parts/7/1/playqueue.mkv" in
  let t := w_trace direct "GET" path None in
  Playback.PartIDFromPath path = "7" ∧ Classify path = ActionPlayQueueObserve ∧
  existsb (λ e, is_origin (op_of e)) t = true ∧ existsb (λ e, is_policy (op_of e)) t = false ∧
  existsb (λ e, is_origin (op_of e)) (w_trace cloudflare_tunnel "GET" path None) = true.
Proof. vm_compute. done. Qed.

(** Only the first [Connection] line is read: a header named in a second
    line is forwarded. *)
Lemma second_connection_line_ignored :
  hlookup (copyHeaders [] [("Connection", ["close"; "X-Secret"]); ("X-Secret", ["v"])]) "X-Secret" = ["v"].
Proof. vm_compute. reflexivity. Qed.

Definition w_video : Response := mkResponse 200 [("Content-Type", ["video/mp4"])] "bytes" false.

(** The artwork path relays what the origin answers without the tunnel's
    media guard. *)
Lemma artwork_relays_media_in_tunnel :
  let h := mkOptions cloudflare_tunnel "" "k" true true true true true true false false None in
  let ans : ∀ o, resp o := λ o,
    match o return resp o with
    | Origin out => Some w_video
    | Authorized fp key => false
    | o => w_answers None o
    end in
  let t := (answered ans (ServeHTTP h (w_request "GET" "/photo/:/transcode") "id")).1 in
  existsb (λ e, match op_of e with Write (OriginReply _ rs) => isBulkMediaResponse (RespHeader rs) | _ => false end) t = true.
Proof. vm_compute. reflexivity. Qed.

End Proxy.
