(* ===== verification/ProxyLog.v ===== *)
(** * What a proxied request leaves behind (internal/proxy/proxy.go: emit)

    Every answer of the gateway ends in [emit]: a log line, and for a captured
    request a capture event and a diagnostic line.  The request's token is
    not among its inputs; the request URI, which may carry one, is redacted
    first. *)

From S2P Require Import Prelude GoStrings GoHttp Rings Logging Trace Capture Proxy.

Module ProxyLog.
Import Logging Proxy.

(** What [emit] is given besides the observation: the request's method, URI
    and [Range] header, the route class, the status and the milliseconds
    since the start. *)
Record answered := mkAnswered {
  a_method : string; a_uri : string; a_range : string; a_route : string; a_status : Z; a_millis : Z;
}.

Definition add_field (k v : string) (f : gmap string any) : gmap string any := if v =s "" then f else <[k := AString v]> f.

(** The identity of the request, over the fields of the caller. *)
Definition identity_fields (o : obs) (f : gmap string any) : gmap string any :=
  add_field "ratingKey" (ratingKey o) (add_field "playbackTraceId" (playback o)
    (add_field "clientVersion" (Trace.Version (client o)) (add_field "clientPlatform" (Trace.Platform (client o))
      (add_field "clientProduct" (Trace.Product (client o)) (add_field "client" (Trace.ID (client o))
        (add_field "clientInstanceId" (clientUUID o) (add_field "identityId" (identityID o)
          (add_field "userFingerprint" (fingerprint o) f)))))))).

Definition request_entry (id : string) (o : obs) (a : answered) (fields : gmap string any) : Entry :=
  mkEntry "info" "" "gateway" id (a_method a) (RedactURLString (a_uri a)) (a_status a) (a_millis a) (cacheState o) (a_route a)
    (identity_fields o fields).

Definition capture_event (id : string) (o : obs) (a : answered) : Capture.Event :=
  Capture.mkEvent "" id (playback o) (a_method a) (RedactURLString (a_uri a)) (Trace.ID (client o)) (Trace.Product (client o)) (ratingKey o) "".

Definition diagnostic_entry (id : string) (o : obs) (a : answered) : Entry :=
  mkEntry "debug" "" "diagnostics.protocol" id (a_method a) (RedactURLString (a_uri a)) (a_status a) (a_millis a) "" (a_route a)
    (list_to_map
      [("capture", ABool true); ("playbackTraceId", AString (playback o)); ("client", AString (Trace.ID (client o)));
       ("clientProduct", AString (Trace.Product (client o))); ("clientPlatform", AString (Trace.Platform (client o)));
       ("clientVersion", AString (Trace.Version (client o))); ("ratingKey", AString (ratingKey o));
       ("session", ABool (negb (session o =s ""))); ("range", ABool (negb (a_range a =s "")))]).

(** [emit]: the lines written and the capture store afterwards; [logging] says
    whether a logger is wired, [captured] whether the request matched a
    capture target. *)
Definition emit (now : string) (logging captured : bool) (id : string) (o : obs) (a : answered) (fields : gmap string any)
    (cap : Capture.Store) : list Entry * Capture.Store :=
  if negb logging then ([], cap)
  else if captured then
    ([Log now (request_entry id o a fields); Log now (diagnostic_entry id o a)], Capture.Record_ now cap (capture_event id o a))
  else ([Log now (request_entry id o a fields)], cap).

(** ** Properties *)

Definition own_fields : list string :=
  ["userFingerprint"; "identityId"; "clientInstanceId"; "client"; "clientProduct"; "clientPlatform"; "clientVersion"; "playbackTraceId"; "ratingKey"].

Lemma add_field_lookup k v f k' :
  add_field k v f !! k' = if decide (k = k' ∧ v ≠ "") then Some (AString v) else f !! k'.
Proof.
  unfold add_field. destruct (String.eqb_spec v ""); case_decide as H.
  - by destruct H.
  - done.
  - destruct H as [-> _]. apply lookup_insert_eq.
  - rewrite lookup_insert_ne; [done|]. intros ->. by apply H.
Qed.

Lemma identity_fields_lookup o f k : k ∉ own_fields → identity_fields o f !! k = f !! k.
Proof.
  intros Hk. unfold identity_fields, own_fields in *. rewrite !not_elem_of_cons in Hk. rewrite !add_field_lookup.
  repeat case_decide; try done; naive_solver.
Qed.

(** A line carries the caller's fields and the identity of the request and
    nothing else; the URI in it, and in a capture event, is redacted; and
    nothing is captured of a request that matched no target. *)
Lemma emit_discloses now logging captured id o a fields cap :
  let '(lines, cap') := emit now logging captured id o a fields cap in
  Forall (λ e, Path e = RedactURLString (RedactURLString (a_uri a))) lines ∧
  (captured = false → cap' = cap) ∧
  (∀ e, e ∈ Capture.events cap' → e ∈ Capture.events cap ∨ Capture.Path e = RedactURLString (a_uri a)).
Proof.
  unfold emit. destruct logging; cbn [negb]; [|split_and!; auto]. destruct captured.
  - split; [by repeat apply Forall_cons_2|]. split; [done|]. intros e He. unfold Capture.Record_ in He.
    cbn in He. apply push_elem in He as [He| ->]; [by left|by right].
  - split; [by apply Forall_cons_2|]. split; [done|auto].
Qed.

(** The fields of the line of an answered request: the identity of the
    request and the caller's fields, each as the logger redacts it. *)
Lemma emit_fields now id o a fields cap k :
  k ∉ own_fields →
  option_map (λ e, Fields e !! k) (head (emit now true false id o a fields cap).1) = Some (log_field k <$> fields !! k).
Proof.
  intros Hk. cbn. rewrite map_lookup_imap, identity_fields_lookup by done. by destruct (fields !! k).
Qed.

End ProxyLog.
