(* ===== verification/Startup.v ===== *)
(** * Program wiring (cmd/replx-edge/main.go, internal/proxy New, internal/valkey/valkey.go)

    What [runServe] puts together from a configuration: the proxy's options,
    the admin multiplexer, the artwork store's limits, the listeners; the
    loop that brings up the database and the generation store; the hooks
    through which background workers get the owner's account and token; and
    the probes of the command line.

    Goroutine scheduling, signal delivery and the listeners themselves are
    not modelled. *)

From S2P Require Import Prelude GoStrings GoHttp GoNet GoUrl Config Secrets Generations Valkey Onboarding OnboardingSystem Database Artwork Effects Threads Admin Panels AdminHandlers Proxy.

Module Startup.

(** ** Commands and probes *)

Inductive command := Serve | MediaGateway | Probe (url : string) (timeout : Z) | ShowVersion | Unknown (cmd : string).

Definition adminHealthURL (env : gmap string string) (path : string) : string :=
  let port := default "" (env !! "REPLX_EDGE_ADMIN_PORT") in
  "http://127.0.0.1:" +:+ (if port =s "" then "8080" else port) +:+ path.
Definition mediaHealthURL : string := "http://127.0.0.1:32402/health/live".

(** [main]: what the arguments after the program's name ask for. *)
Definition command_of (env : gmap string string) (args : list string) : command :=
  let cmd := default "serve" (head args) in
  if cmd =s "serve" then Serve
  else if cmd =s "media-gateway" then MediaGateway
  else if cmd =s "healthcheck" then Probe (adminHealthURL env "/health/live") (2 * Second)
  else if cmd =s "readycheck" then Probe (adminHealthURL env "/health/ready") (5 * Second)
  else if cmd =s "media-gateway-healthcheck" then Probe mediaHealthURL (2 * Second)
  else if (cmd =s "version") || (cmd =s "--version") || (cmd =s "-v") then ShowVersion
  else Unknown cmd.

(** [runProbe]: the exit code; [status] is the answer's, if there was one. *)
Definition runProbe (status : option Z) : Z := match status with Some 200 => 0 | _ => 1 end.

(** [runMediaGateway]: it refuses or opens its listener. *)
Definition runMediaGateway (cfg : outcome Config.Config) : outcome string :=
  match cfg with
  | Ok c => if negb (Config.MediaFallbackEnabled c) then Err "media gateway disabled (REPLX_EDGE_MEDIA_FALLBACK_ENABLED=false)" else Ok ":32402"
  | Err e => Err e
  | Panic => Panic
  end.

(** [publicHostOf] *)
Definition publicHostOf (publicURL : string) : string :=
  match Parse publicURL with Some u => ToLower (Hostname u) | None => "" end.

(** [valkey.Ping]: [dial] is the stream of a connection, [wrote] whether the
    command could be sent. *)
Definition Ping (addr : string) (dial : option string) (wrote : bool) : bool :=
  if addr =s "" then false
  else match dial with
  | None => false
  | Some stream =>
      if negb wrote then false
      else match Valkey.ReadString stream with
           | Some (line, _) => TrimSpace line =s "+PONG"
           | None => false
           end
  end.

(** ** Migrations and generations *)

Section loop.
Context {Schema : Type} (exec_ddl : string → Schema → option Schema) (files : list Database.file).
Import Database.

(** What the loop brings up: the pool, the generation store, and
    [generationsLoaded]. *)
Record up := mkUp { pool_ : Database.pool (Schema := Schema); gens : Generations.Postgres; loaded : bool }.
(** How the database behaves in one attempt. *)
Record attempt := mkAttempt { fates : nat → Database.fate; load_fails : bool }.

(** [migrate] *)
Definition migrate (a : attempt) (u : up) : up :=
  match Database.Migrate exec_ddl (fates a) files (pool_ u) with
  | (p, Ok _) =>
      let '(g, ok) := Generations.pg_Load (load_fails a) (gens u) in
      mkUp p g (if ok : bool then true else loaded u)
  | (p, _) => mkUp p (gens u) (loaded u)
  end.
Definition finished (u : up) : bool := completed (pool_ u) && loaded u.

(** The goroutine: an attempt at once and one per tick until both are
    done. *)
Fixpoint bring_up (l : list attempt) (u : up) : up :=
  match l with
  | [] => u
  | a :: r => let u := migrate a u in if finished u then u else bring_up r u
  end.

Lemma migrate_keeps a u t :
  target exec_ddl files (durable (pool_ u)) = Some t →
  target exec_ddl files (durable (pool_ (migrate a u))) = Some t ∧
  (completed (pool_ u) = true → completed (pool_ (migrate a u)) = true) ∧ (loaded u = true → loaded (migrate a u) = true) ∧
  (loaded (migrate a u) = true → loaded u = true ∨ target exec_ddl files (durable (pool_ u)) = Some (durable (pool_ (migrate a u)))).
Proof.
  intros Ht. unfold migrate. destruct (Migrate_spec exec_ddl (fates a) files (pool_ u)) as (H1 & H2 & H3).
  destruct (Migrate exec_ddl (fates a) files (pool_ u)) as [p r]. cbn [fst snd] in *.
  assert (Hd : target exec_ddl files (durable p) = Some t).
  { destruct H1 as [->|H1]; [done|]. rewrite Ht in H1. injection H1 as <-. by apply (target_twice exec_ddl files _ _ Ht). }
  destruct r as [[]|e|]; cbn.
  - destruct (H2 eq_refl) as [H2a H2b]. destruct (Generations.pg_Load _ _) as [g ok]. cbn. split_and!; [done|done|by destruct ok|auto].
  - split_and!; [done| |done|auto]. rewrite H3; done.
  - split_and!; [done| |done|auto]. rewrite H3; done.
Qed.

(** The edge comes up by itself: as long as the embedded migrations can be
    applied, any number of failed attempts is harmless, and the first attempt
    during which the database answers finishes the loop with every migration
    recorded and the generations loaded. *)
Lemma startup_recovers l r a u t :
  migrations files ≠ [] → Generations.has_db (gens u) = true → target exec_ddl files (durable (pool_ u)) = Some t →
  (∀ i, fates a i = Works) → load_fails a = false → finished (bring_up (l ++ a :: r) u) = true.
Proof.
  intros Hne Hdb Ht Ha Hl. revert u Hdb Ht. induction l as [|b l IH]; intros u Hdb Ht; cbn [app bring_up].
  - cbv zeta. assert (E : finished (migrate a u) = true); [|by rewrite E].
    unfold finished, migrate. rewrite (Migrate_works exec_ddl (fates a) files _ t Ha Hne Ht). unfold Generations.pg_Load. by rewrite Hdb, Hl.
  - cbv zeta. destruct (finished (migrate b u)) eqn:Ef; [done|]. apply IH.
    + unfold migrate. destruct (Migrate _ _ _ _) as [p [[]|e|]]; cbn; try done. unfold Generations.pg_Load.
      destruct (_ || _); cbn; done.
    + by apply (migrate_keeps b u t Ht).
Qed.

End loop.

(** ** The owner's account and token *)

Section owner.
Context (seal : list Z → string → string → string) (open : list Z → string → string → option string).
Context `{Haead : !Secrets.AEAD seal open}.
Context (claims_exp : string → option Z) (Secret PublicURL InternalURL ControlBase : string).
Import Onboarding OnboardingSystem.

(** [ownerAccount]: the account of the enabled server's credentials;
    [fails] says that the statement fails. *)
Definition ownerAccount (fails : bool) (w : world) : option Z :=
  if fails then None
  else match enabled_server w with Some (n, _) => cr_account <$> creds w !! n | None => None end.

(** [ownerPMSToken] *)
Definition ownerPMSToken (first_fails second_fails : bool) (w : world) : option string :=
  if first_fails then None
  else match enabled_server w with
  | None => None
  | Some (n, _) =>
      if second_fails then None
      else match creds w !! n with
      | None => None
      | Some cr => match Secrets.Decrypt open Secret PurposePMSToken (cr_pms cr) with Ok t => Some t | _ => None end
      end
  end.

Notation reached := (OnboardingSystem.reached seal open claims_exp Secret PublicURL InternalURL ControlBase).

(** C12: The background workers hold the right credential.  Whatever onboarding
    calls run or ran, when the workers are given an owner token, a server is
    enabled whose internal origin is the configured one, the token is the
    access token that plex.tv listed for a machine to an account whose own
    token it accepted, and the internal origin, asked with that token, named
    itself that machine; and where a server is enabled and the database
    answers, the workers do get a token. *)
Theorem workers_get_the_bound_servers_token s f1 f2 :
  reached s →
  (∀ tok, ownerPMSToken f1 f2 (mem s) = Some tok →
     ∃ n sv cid owner u rs r o, enabled_server (mem s) = Some (n, sv) ∧ sv_internal sv = InternalURL ∧
       Ev (GetUser cid owner) (TvOk u) ∈ log (mem s) ∧ Ev (TVListServers cid owner) (TvOk rs) ∈ log (mem s) ∧ r ∈ rs ∧
       AccessToken r = tok ∧ tok ≠ "" ∧ ClientIdentifier r = sv_machine sv ∧
       Ev (FetchIdentity InternalURL tok) (Some o) ∈ log (mem s) ∧ MachineIdentifier o = sv_machine sv) ∧
  (f1 = false → f2 = false → is_Some (enabled_server (mem s)) → is_Some (ownerPMSToken f1 f2 (mem s))).
Proof.
  intros Hr. destruct (reached_invariant seal open claims_exp Secret PublicURL InternalURL ControlBase s Hr) as [HI _].
  assert (Hsv : ∀ n sv, enabled_server (mem s) = Some (n, sv) → ∃ cr, creds (mem s) !! n = Some cr ∧
    bound seal Secret PublicURL InternalURL (λ e, e ∈ log (mem s)) (sv_internal sv) (sv_media sv) (sv_machine sv) (cr_pms cr)).
  { intros n sv E%enabled_served. destruct (servers_have_creds _ _ _ _ _ _ HI _ _ E) as [cr Hc]. exists cr. split; [done|].
    destruct (creds_bound _ _ _ _ _ _ HI _ _ Hc) as (sv' & E' & _ & _ & Hb). rewrite E in E'. by injection E' as <-. }
  unfold ownerPMSToken. destruct (enabled_server (mem s)) as [[n sv]|] eqn:Ee.
  2:{ split; [by destruct f1|]. intros _ _ [? [=]]. }
  destruct (Hsv n sv eq_refl) as (cr & Hc & Hint & cid & owner & u & rs & r & o & H1 & H2 & H3 & H4 & H5 & H6 & H7 & H8 & _).
  rewrite Hc, (sealed_decrypts seal open Secret _ _ _ H6). split.
  - intros tok. destruct f1, f2; [done..|]. intros [= <-]. by exists n, sv, cid, owner, u, rs, r, o.
  - by intros -> -> _.
Qed.

End owner.

Lemma workers_get_the_bound_servers_token_witness :
  is_Some (ownerPMSToken Secrets.toy_open "root" false false (mem OnboardingSystem.w_state)).
Proof.
  apply (workers_get_the_bound_servers_token Secrets.toy_seal Secrets.toy_open (λ _, None) "root" "https://edge.example" "http://pms:32400" ""
    OnboardingSystem.w_state false false OnboardingSystem.onboarding_reached); [done|done|]. vm_compute. by eexists.
Defined.

(** ** What is put together *)

(** The limits of the shared artwork store, in 64-bit arithmetic. *)
Definition artwork_options (c : Config.Config) : Artwork.SharedOptions :=
  let budget := int64 (Z.shiftl (Config.ArtworkMaxGB c) 30) in
  Artwork.mkOptions budget (Z.shiftl 30 30) (Z.quot (int64 (budget * 9)) 10) (Z.quot budget 20) 0.

(** The artwork store, where it is enabled and its directory can be
    made. *)
Definition artwork_store (c : Config.Config) (mkdir : bool) : option Artwork.SharedOptions :=
  if Config.SharedArtworkEnabled c && mkdir && negb (Config.ArtworkDir c =s "") then Artwork.NewShared (artwork_options c) else None.

(** [MediaFallbackURL] *)
Definition fallback_url (c : Config.Config) : string := if Config.MediaFallbackEnabled c then Config.MediaPublicURL c else "".

Definition ingress_of (mode : string) : option Proxy.ingress :=
  if mode =s "cloudflare_tunnel" then Some Proxy.cloudflare_tunnel else if mode =s "direct" then Some Proxy.direct else None.

(** [proxy.New] with the options [runServe] gives it; [artwork] says whether
    there is an artwork store. *)
Definition New (c : Config.Config) (artwork : bool) : outcome Proxy.Options :=
  let origin := Config.OriginInternalURL c in
  if origin =s "" then Err "proxy: origin base is required"
  else match Parse origin with
  | None => Err "proxy: invalid origin base"
  | Some base =>
      if (Scheme base =s "") || (Host base =s "") then Err "proxy: invalid origin base"
      else if negb (Scheme base =s "http") && negb (Scheme base =s "https") then Err "proxy: origin base must be http or https"
      else match ingress_of (Config.IngressMode c) with
      | None => Err "proxy: ingress mode must be cloudflare_tunnel or direct"
      | Some mode =>
          let opts := Proxy.mkOptions mode (UPath base) (Config.SecretKey c) true true true true artwork true (Config.SpikeRouting c) true in
          let fb := fallback_url c in
          if fb =s "" then Ok (opts None)
          else match Parse fb with
          | None => Err "proxy: invalid media fallback URL"
          | Some u =>
              if (Scheme u =s "") || (Host u =s "") then Err "proxy: invalid media fallback URL"
              else if negb (Scheme u =s "https") then Err "proxy: media fallback URL must be https"
              else Ok (opts (Some (Scheme u +:+ "://" +:+ Host u, UPath u)))
          end
      end
  end.

(** The parts wired into the admin multiplexer. *)
Definition admin_wiring (c : Config.Config) (artwork : bool) : AdminHandlers.Wiring :=
  AdminHandlers.mkWiring true true true true artwork artwork true true true (Config.SpikeRouting c) true.

Record plan := mkPlan {
  p_proxy : Proxy.Options; p_wiring : AdminHandlers.Wiring; p_mux : Admin.Mux; p_artwork : option Artwork.SharedOptions;
  p_adminHost : string; p_adminPort : Z; p_control : string;
}.

(** [runServe] up to the listeners: [db] is whether the pool could be
    opened, [mkdir] the artwork directory made, [token] the setup token that
    was drawn at [now]. *)
Definition runServe (cfg : outcome Config.Config) (db mkdir : bool) (token : option string) (now : Z) : outcome plan :=
  match cfg with
  | Err e => Err e
  | Panic => Panic
  | Ok c =>
      if Config.OriginInternalURL c =s "" then Err "REPLX_EDGE_ORIGIN_INTERNAL_URL is required for serve"
      else if negb db then Err "database"
      else
        let art := artwork_store c mkdir in
        let has_art := bool_decide (is_Some art) in
        match New c has_art with
        | Err e => Err e
        | Panic => Panic
        | Ok opts =>
            match token with
            | None => Err "random"
            | Some t =>
                Ok (mkPlan opts (admin_wiring c has_art) (Admin.mkMux t now true true) art (Config.EffectiveAdminListen c)
                      (Config.AdminPort c) ":32400")
            end
        end
  end.

Lemma artwork_options_accepted c : 0 < Config.ArtworkMaxGB c <= 10000 → is_Some (Artwork.NewShared (artwork_options c)).
Proof.
  intros H. unfold Artwork.NewShared, artwork_options. cbv zeta. cbn [Artwork.MaxBytes Artwork.MinFreeBytes Artwork.LowWatermarkBytes
    Artwork.ProtectedBytes Artwork.MaxReservations]. rewrite Z.shiftl_mul_pow2 by lia. set (b := Config.ArtworkMaxGB c * 2 ^ 30).
  assert (Hb : 2 ^ 30 <= b <= 10000 * 2 ^ 30) by (unfold b; lia). clearbody b.
  rewrite !(int64_id b), (int64_id (b * 9)) by (unfold is_int64; lia).
  assert (Hlow : 0 < b * 9 ÷ 10 <= b) by (Z.to_euclidean_division_equations; lia).
  assert (Hprot : 0 < b ÷ 20 <= b) by (Z.to_euclidean_division_equations; lia).
  set (low := b * 9 ÷ 10) in *. set (prot := b ÷ 20) in *. change (Z.shiftl 30 30) with (30 * 2 ^ 30). clearbody low prot.
  assert ((b <=? 0) = false) as -> by lia. assert ((30 * 2 ^ 30 <? 0) = false) as -> by lia. cbn [orb].
  assert ((low =? 0) = false) as -> by lia. assert ((prot =? 0) = false) as -> by lia. assert ((low <? 0) = false) as -> by lia.
  assert ((b <? low) = false) as -> by lia. assert ((prot <? 0) = false) as -> by lia. assert ((b <? prot) = false) as -> by lia.
  by eexists.
Qed.

Lemma New_options c art opts :
  New c art = Ok opts →
  Proxy.has_partPolicy opts = true ∧ Proxy.has_identity opts = true ∧ Proxy.has_artwork opts = art ∧ Proxy.secret opts = Config.SecretKey c ∧
  (∀ base, Proxy.mediaFallback opts = Some base → Config.MediaFallbackEnabled c = true ∧ HasPrefix base.1 "https://" = true).
Proof.
  unfold New. cbv zeta. destruct (_ =s ""); [done|]. destruct (Parse _) as [b|]; [|done]. destruct (_ || _); [done|].
  destruct (negb _ && negb _); [done|]. destruct (ingress_of _) as [md|]; [|done]. unfold fallback_url.
  destruct (Config.MediaFallbackEnabled c); cbn [String.eqb]; [|by intros [= <-]; split_and!].
  destruct (String.eqb _ ""); [by intros [= <-]; split_and!|]. destruct (Parse _) as [u|]; [|done].
  destruct (_ || _); [done|]. destruct (String.eqb_spec (Scheme u) "https") as [->|]; [|done].
  intros [= <-]. split_and!; try done. intros base [= <-]. done.
Qed.

(** What is started is closed.  From any environment, a process that reaches
    its listeners has its admin interface on a loopback, private, link-local
    or overlay address (on the wildcard only inside a container) and behind
    authentication, with every mutation auditable; its proxy asks the
    playback engine before any media leaves and resolves identities; a media
    gateway is only redirected to when it was enabled, and only over [https];
    and an artwork store that was asked for is not lost to its own limits. *)
Theorem serving_is_closed env c db mkdir token now p :
  Config.Load env = Ok c → runServe (Ok c) db mkdir token now = Ok p →
  (∃ ip, ParseAddr (TrimSpace (p_adminHost p)) = Some ip ∧ Zone ip = "" ∧
     (Config.local_address ip = true ∨ IsUnspecified ip = true ∧ Config.InDocker c = true)) ∧
  Admin.requireAuth (p_mux p) = true ∧ Some (Admin.setupToken (p_mux p)) = token ∧
  AdminHandlers.svc (p_wiring p) = true ∧ AdminHandlers.hasInvalidator (p_wiring p) = true ∧
  Proxy.boundaryPolicy (p_proxy p) = Some Proxy.PartPolicy ∧ Proxy.has_identity (p_proxy p) = true ∧
  (∀ base, Proxy.mediaFallback (p_proxy p) = Some base → Config.MediaFallbackEnabled c = true ∧ HasPrefix base.1 "https://" = true) ∧
  (Proxy.has_artwork (p_proxy p) = true ↔ is_Some (p_artwork p)) ∧
  (Config.SharedArtworkEnabled c = true → mkdir = true → Config.ArtworkDir c ≠ "" → is_Some (p_artwork p)).
Proof.
  intros Hl Hr. destruct (Config.Load_ranges env c Hl) as (Hs & _ & _ & _ & Ha & _).
  unfold runServe in Hr. destruct (_ =s ""); [done|]. destruct db; [|done]. cbn [negb] in Hr.
  set (art := artwork_store c mkdir) in *. cbv zeta in Hr. destruct (New c _) as [opts|e|] eqn:En; [|done..].
  destruct token as [t|]; [|done]. injection Hr as <-. apply New_options in En as (E1 & E2 & E3 & E4 & E5).
  cbn. split; [apply (Config.private_listener _ Hs)|]. do 4 (split; [done|]).
  split; [unfold Proxy.boundaryPolicy; by rewrite E1|]. split; [done|]. split; [done|].
  split; [rewrite E3; apply bool_decide_eq_true|]. intros H1 H2 H3. unfold art, artwork_store. rewrite H1, H2.
  destruct (String.eqb_spec (Config.ArtworkDir c) ""); [done|]. cbn. by apply artwork_options_accepted.
Qed.

Definition w_env : gmap string string := <["REPLX_EDGE_ORIGIN_INTERNAL_URL" := "http://pms:32400"]> Config.w_env.
Definition w_plan : outcome plan := runServe (Config.Load w_env) true true (Some "setup") 0.
Lemma serving_is_closed_witness :
  match w_plan with Ok p => Proxy.boundaryPolicy (p_proxy p) = Some Proxy.PartPolicy ∧ is_Some (p_artwork p) | _ => False end.
Proof.
  destruct (Config.Load w_env) as [c|e|] eqn:El; [|vm_compute in El; discriminate El..].
  unfold w_plan. rewrite El. destruct (runServe (Ok c) true true (Some "setup") 0) as [p|e|] eqn:Ep.
  2,3: vm_compute in El; injection El as <-; vm_compute in Ep; discriminate Ep.
  destruct (serving_is_closed w_env c true true (Some "setup") 0 p El Ep) as (_ & _ & _ & _ & _ & H1 & _ & _ & _ & H2).
  split; [exact H1|]. apply H2; [|done|]; clear -El; vm_compute in El; injection El as <-; done.
Defined.

End Startup.
