(* ===== verification/System.v ===== *)
(** * Concurrent requests (internal/proxy, internal/warmer)

    The gateway as a system: any number of public requests, admin
    invalidations and background refreshes run at the same time, each a
    program of atomic actions, and their actions interleave in any order on
    one shared state.  The response store is the in-process one; the
    generation store is any implementation of its interface.

    The theorems are about every reachable history: a stored response that
    is served was fetched after the last retirement of its namespace, to a
    caller the origin itself answered in the last thirty seconds, and a key
    has at most one flight at a time. *)

From Stdlib Require Import Eqdep_dec.
From S2P Require Import Prelude GoStrings GoHttp GoCrypto Gateway CacheEntry CacheKeys.
From S2P Require Import Generations CacheStore Grants Warmer Effects Identity Proxy.

Module System.

Import CacheEntry CacheKeys Proxy.

(** Equal events have equal answers. *)
Ltac ev_inj :=
  repeat match goal with
  | E : existT ?o ?x = existT ?o ?y |- _ =>
      apply inj_pair2_eq_dec in E; [subst|intros; apply op_eq_dec]
  | E : Ev ?o ?x = Ev ?o ?y |- _ => apply Ev_inj in E; subst
  end.

Section system.
Context {G : Type} {GS : Generations.GenerationStore G} {GL : Generations.GenerationLaws G}.
Context (parse_url : string → option (string * (string → string))) (quote : list string → string).
Context (h : Options).

(** ** The shared state *)

Record world := mkWorld {
  gens : G;
  grants : gmap (string * string) Z;
  store : gmap string CacheStore.memItem;
  broken : bool;
  flight : gset string;
  warm : Warmer.Warmer;
  clock : Z;
}.

Definition boot (t0 : Z) : world :=
  mkWorld Generations.gs_empty Grants.NewResourceGrants CacheStore.NewMemory false ∅ Warmer.New t0.

(** What the environment decides at one action: how much time has passed,
    whether a fallible call fails, the iteration orders of the maps, and
    what the other systems answer. *)
Record choice := mkChoice {
  advance : Z;
  fails : bool;
  grant_order : list ((string * string) * Z);
  job_order : list (string * Warmer.tracked);
  context_order : list (string * Warmer.credentialContext);
  answers : ∀ o : op, resp o;
}.

Definition valid (c : choice) (w : world) : Prop :=
  0 <= advance c ∧ grant_order c ≡ₚ map_to_list (grants w) ∧
  job_order c ≡ₚ map_to_list (Warmer.jobs (warm w)) ∧
  context_order c ≡ₚ map_to_list (Warmer.contexts (Warmer.expireContexts (clock w + advance c) (warm w))).

Definition set_gens (w : world) (g : G) : world :=
  mkWorld g (grants w) (store w) (broken w) (flight w) (warm w) (clock w).
Definition set_grants (w : world) (g : gmap (string * string) Z) : world :=
  mkWorld (gens w) g (store w) (broken w) (flight w) (warm w) (clock w).
Definition set_store (w : world) (m : gmap string CacheStore.memItem) : world :=
  mkWorld (gens w) (grants w) m (broken w) (flight w) (warm w) (clock w).
Definition set_broken (w : world) (b : bool) : world :=
  mkWorld (gens w) (grants w) (store w) b (flight w) (warm w) (clock w).
Definition set_flight (w : world) (f : gset string) : world :=
  mkWorld (gens w) (grants w) (store w) (broken w) f (warm w) (clock w).
Definition set_warm (w : world) (m : Warmer.Warmer) : world :=
  mkWorld (gens w) (grants w) (store w) (broken w) (flight w) m (clock w).
Definition tick (w : world) (d : Z) : world :=
  mkWorld (gens w) (grants w) (store w) (broken w) (flight w) (warm w) (clock w + d).

(** One atomic action on the shared state. *)
Definition exec (c : choice) (w0 : world) (o : op) : world * resp o :=
  let w := tick w0 (advance c) in
  let now := clock w in
  match o return world * resp o with
  | Foreground => (set_warm w (Warmer.add_foreground 1 (warm w)), tt)
  | ForegroundDone => (set_warm w (Warmer.add_foreground (-1) (warm w)), tt)
  | Revoke fp => (set_grants w (Grants.Revoke (grants w) fp), tt)
  | ForgetScope sc => (set_warm w (Warmer.ForgetScope sc (warm w)), tt)
  | GensGet sc cl => (w, if fails c then None else Some (Generations.gs_get (gens w) sc cl))
  | GensBump b => let '(g, ok) := Generations.gs_step (fails c) (gens w) b in (set_gens w g, ok)
  | LoadBroken => (w, broken w)
  | StoreBroken b => (set_broken w b, tt)
  | Authorized fp k => let '(g, ok) := Grants.Authorized now (grants w) fp k in (set_grants w g, ok)
  | Grant fp k => (set_grants w (Grants.Grant (grant_order c) now (grants w) fp k), tt)
  | CacheGet k =>
      if fails c then (w, None)
      else let '(m, e) := CacheStore.mem_Get now (store w) k in (set_store w m, e)
  | CacheSet k e ttl =>
      if fails c then (w, false)
      else let '(m, ok) := CacheStore.mem_Set now (store w) k e ttl in (set_store w m, ok)
  | CacheDelete k => (set_store w (CacheStore.mem_Delete (store w) k), tt)
  | TrackAuthorized k s cr =>
      (set_warm w (Warmer.track_call parse_url quote (job_order c) (context_order c) now k s cr true (warm w)), tt)
  | InFlight k => (w, bool_decide (k ∈ flight w))
  | TryBegin k => if decide (k ∈ flight w) then (w, false) else (set_flight w ({[k]} ∪ flight w), true)
  | EndFlight k => (set_flight w (flight w ∖ {[k]}), tt)
  | o => (w, answers c o)
  end.

(** ** Threads and steps *)

Inductive kind :=
  | KRequest (i : inbound) (id : string)
  | KInvalidate (sc class : string)
  | KRefresh (key : string) (s : Warmer.Snapshot) (credential : string).

Definition program (k : kind) : prog resp unit :=
  match k with
  | KRequest i id => ServeHTTP h i id
  | KInvalidate sc class => do InvalidateCacheContext sc class ;; Ret tt
  | KRefresh key s cr => do refreshChecked key s cr ;; Ret tt
  end.

(** A refresh works on a tracked snapshot, whose class is one of the names
    [ClassOf] gives. *)
Definition kind_ok (k : kind) : Prop :=
  match k with KRefresh _ s _ => ∃ path, Warmer.Class_ s = ClassOf path | _ => True end.

Record thread := mkThread { what : kind; left : prog resp unit }.

(** An action of the history: when, by which thread, and what. *)
Notation entry := (Z * nat * event resp)%type (only parsing).

Record state := mkState { mem : world; pool : list thread; hist : list entry }.

Inductive reached : state → Prop :=
  | reached_boot t0 : 0 < t0 → reached (mkState (boot t0) [] [])
  | reached_spawn s k :
      reached s → kind_ok k → reached (mkState (mem s) (pool s ++ [mkThread k (program k)]) (hist s))
  | reached_act s c n k o next w x :
      reached s → valid c (mem s) → pool s !! n = Some (mkThread k (Act o next)) → exec c (mem s) o = (w, x) →
      reached (mkState w (<[n := mkThread k (next x)]> (pool s)) ((clock w, n, Ev o x) :: hist s)).

(** The actions of one thread. *)
Definition own (n : nat) (H : list entry) : list (event resp) := snd <$> filter (λ e, e.1.2 = n) H.

Lemma own_cons_same n t e H : own n ((t, n, e) :: H) = e :: own n H.
Proof. unfold own. by rewrite filter_cons_True. Qed.
Lemma own_cons_other n m t e H : m ≠ n → own n ((t, m, e) :: H) = own n H.
Proof. intros. unfold own. by rewrite filter_cons_False. Qed.

(** What one thread saw is in the history, in the same order. *)
Lemma own_seen n H ev t' :
  seen (own n H) ev t' → ∃ t H', seen H (t, n, ev) H' ∧ t' = own n H'.
Proof.
  intros [a Ha]. revert a Ha. induction H as [|[[t m] e] H IH]; intros a Ha.
  { symmetry in Ha. by apply app_eq_nil in Ha as [_ ?]. }
  destruct (decide (m = n)) as [->|Hne].
  - rewrite own_cons_same in Ha. destruct a as [|e' a]; cbn in Ha; injection Ha as -> Ha.
    + exists t, H. split; [apply seen_now|done].
    + destruct (IH a Ha) as (t0 & H' & ? & ?). exists t0, H'. split; [by apply seen_later|done].
  - rewrite own_cons_other in Ha by done. destruct (IH a Ha) as (t0 & H' & ? & ?).
    exists t0, H'. split; [by apply seen_later|done].
Qed.

(** Every moment of a reachable history is a reachable state in which the
    action was performed. *)
Lemma reached_at s t n o x H :
  reached s → seen (hist s) (t, n, Ev o x) H →
  ∃ s' c w k next, reached s' ∧ hist s' = H ∧ valid c (mem s') ∧ exec c (mem s') o = (w, x) ∧ clock w = t ∧
    pool s' !! n = Some (mkThread k (Act o next)) ∧ ∃ th, pool s !! n = Some th ∧ what th = k.
Proof.
  intros Hr. induction Hr as [t0 Ht0|s k Hr IH Hk|s c m k o' next w x' Hr IH Hv Hp He]; cbn [hist]; intros Hs.
  - destruct Hs as [[|] Hs]; discriminate.
  - destruct (IH Hs) as (s' & c & w & k' & next & ? & ? & ? & ? & ? & ? & th & Hth & ?).
    exists s', c, w, k', next. repeat (split; [done|]). exists th. split; [|done].
    cbn. by apply lookup_app_l_Some.
  - destruct Hs as [[|e a] Hs]; cbn in Hs.
    + injection Hs. intros. subst. ev_inj. exists s, c, w, k, next. repeat (split; [done|]).
      eexists. split; [apply list_lookup_insert_eq; by eapply lookup_lt_Some|done].
    + injection Hs as <- Hs. destruct (IH (ex_intro _ a Hs)) as (s' & c' & w' & k' & next' & ? & ? & ? & ? & ? & ? & th & Hth & ?).
      exists s', c', w', k', next'. repeat (split; [done|]). cbn.
      destruct (decide (m = n)) as [->|]; [|exists th; by rewrite list_lookup_insert_ne].
      rewrite Hp in Hth. injection Hth as <-.
      eexists. split; [apply list_lookup_insert_eq; by eapply lookup_lt_Some|done].
Qed.

(** ** What each thread respects *)

(** A stored response was fetched after the generations in its key were
    read. *)
Definition filled (t : list (event resp)) (key : string) (e : Entry) : Prop :=
  ∃ sc class r sg gg out rs t2 t3,
    free_of ":" class ∧ class ≠ "" ∧ key = RequestKeyGen sc class r sg gg ∧
    seen t (Ev (Origin out) (Some rs)) t2 ∧ seen t2 (Ev (GensGet sc class) (Some (sg, gg))) t3 ∧
    StatusCode rs = 200 ∧ e = entry_of rs.

Definition kguard (k : kind) (t : list (event resp)) (o : op) : Prop :=
  match k with
  | KRequest i _ => guard h i t o
  | _ =>
      match o with
      | CacheSet key e _ => filled t key e
      | StoreBroken false => ∃ t', seen t (Ev (GensBump Generations.BumpAll) true) t'
      | Write _ | Grant _ _ => False
      | _ => True
      end
  end.

Lemma ClassOf_nonempty path : ClassOf path ≠ "".
Proof. unfold ClassOf. cbv zeta. by repeat case_match. Qed.

Lemma kguard_filled k t key e ttl : kguard k t (CacheSet key e ttl) → filled t key e.
Proof.
  destruct k as [i id| |]; [|done..]. cbn.
  intros (sc & sg & gg & out & rs & r & c & t1 & t2 & t3 & -> & _ & _ & _ & H1 & H2 & H3 & _ & Hst & _ & _ & _ & ->).
  exists sc, (ClassOf (Path (request i))), (request i), sg, gg, out, rs, t2, t3.
  split; [apply ClassOf_free|]. split; [apply ClassOf_nonempty|]. split; [done|].
  split; [by eapply seen_trans|]. done.
Qed.

(** The key of a snapshot is the key of the plain request it stands for. *)
Definition snapshot_request (s : Warmer.Snapshot) : Request :=
  mkRequest (Warmer.sMethod s) (Warmer.sPath s) (Warmer.sRawQuery s) [("Accept", [Warmer.sAccept s])] 0.

Lemma snapshot_key s class sg gg :
  ResponseKeyGen (Warmer.Scope s) class (Warmer.sMethod s) (Warmer.sPath s)
    (ParseQuery (Warmer.sRawQuery s)) (Warmer.sAccept s) sg gg =
  RequestKeyGen (Warmer.Scope s) class (snapshot_request s) sg gg.
Proof. done. Qed.

Definition snapshot_class (s : Warmer.Snapshot) : string :=
  if Warmer.Class_ s =s "" then ClassOf (Warmer.sPath s) else Warmer.Class_ s.

Lemma KeyFunc_safe k s t (Hk : ∀ sc cl t, kguard k t (GensGet sc cl)) :
  always (kguard k) (KeyFunc s) t (λ t' key, key ≠ "" → ∃ sg gg,
    t' = Ev (GensGet (Warmer.Scope s) (snapshot_class s)) (Some (sg, gg)) :: t ∧
    key = RequestKeyGen (Warmer.Scope s) (snapshot_class s) (snapshot_request s) sg gg).
Proof.
  unfold KeyFunc. cbv zeta. cbn [always pbind act]. split; [apply Hk|]. intros [[sg gg]|]; [|done].
  intros _. exists sg, gg. split; [done|]. apply snapshot_key.
Qed.

Lemma refresh_safe key s cr :
  kind_ok (KRefresh key s cr) →
  always (kguard (KRefresh key s cr)) (refreshChecked key s cr) [] (λ _ _, True).
Proof.
  intros [path Hc]. set (k := KRefresh key s cr).
  assert (Hfree : free_of ":" (snapshot_class s) ∧ snapshot_class s ≠ "").
  { unfold snapshot_class. rewrite Hc. case_match; auto using ClassOf_free, ClassOf_nonempty. }
  unfold refreshChecked. apply always_bind. eapply always_mono; [done| |by apply KeyFunc_safe].
  intros t1 sk Hsk. destruct (String.eqb_spec sk "") as [|Hne]; [done|].
  destruct (Hsk Hne) as (sg & gg & -> & Ek). cbv zeta. cbn [always pbind act]. split; [done|].
  intros []; [|done]. cbn [negb]. destruct (RequestCacheable _); [|done]. cbn [always pbind]. split; [done|].
  intros [rs|]; [|done].
  destruct (negb (StatusCode rs =? 200) || _) eqn:E1; [done|]. destruct (_ || ReadFails rs); [done|]. zbool.
  apply always_bind. eapply always_mono; [done| |by apply KeyFunc_safe]. intros t2 again Hag.
  destruct (String.eqb_spec again sk) as [->|]; [|done]. cbn [negb].
  destruct (Hag Hne) as (sg2 & gg2 & -> & Ek2). cbn [always pbind act]. split; [done|].
  intros []; [|done]. cbn [negb always pbind]. split.
  - exists (Warmer.Scope s), (snapshot_class s), (snapshot_request s), sg, gg. do 4 eexists.
    destruct Hfree. split; [done|]. split; [done|]. split; [done|].
    split; [do 2 apply seen_later; apply seen_now|]. split; [apply seen_later, seen_now|]. done.
  - intros []; [|done]. cbn [negb]. unfold when. by destruct (sk =s key).
Qed.

Lemma program_safe k : kind_ok k → always (kguard k) (program k) [] (λ _ _, True).
Proof.
  destruct k as [i id|sc class|key s cr]; intros Hk; cbn [program].
  - apply ServeHTTP_safe.
  - unfold InvalidateCacheContext. cbv zeta.
    repeat (case_match; try (cbn [always pbind act]; split; [done|]; intros []; cbn [always pbind act]; try done)).
    split; [|done]. eexists. apply seen_now.
  - apply always_bind. eapply always_mono; [done| |by apply refresh_safe]. done.
Qed.

(** ** Invariants *)

(** A discipline all programs follow is kept along every history. *)
Lemma threads_always (K : kind → list (event resp) → op → Prop) s :
  (∀ k, kind_ok k → always (K k) (program k) [] (λ _ _, True)) → reached s →
  (∀ n, (length (pool s) <= n)%nat → own n (hist s) = []) ∧
  (∀ n k p, pool s !! n = Some (mkThread k p) → always (K k) p (own n (hist s)) (λ _ _, True)).
Proof.
  intros HK Hr. induction Hr as [t0 Ht0|s k Hr [IH1 IH2] Hk|s c m k o next w x Hr [IH1 IH2] Hv Hp He].
  - split; [done|]. intros n k p Hn. cbn [pool] in Hn. by rewrite lookup_nil in Hn.
  - cbn [pool hist]. split.
    + intros n Hn. rewrite length_app in Hn. apply IH1. lia.
    + intros n k' p Hn. apply lookup_app_Some in Hn as [Hn|[Hge Hn]]; [by apply IH2|].
      destruct (n - length (pool s))%nat eqn:E; [|done]. injection Hn as <- <-. rewrite IH1 by lia.
      by apply HK.
  - cbn [pool hist]. assert (Hm : (m < length (pool s))%nat) by (by eapply lookup_lt_Some). split.
    + intros n Hn. rewrite length_insert in Hn. rewrite own_cons_other by lia. apply IH1. lia.
    + intros n k' p Hn. destruct (decide (m = n)) as [->|Hne].
      * rewrite list_lookup_insert_eq in Hn by done. injection Hn as <- <-. rewrite own_cons_same.
        destruct (IH2 _ _ _ Hp) as [_ H]. apply H.
      * rewrite list_lookup_insert_ne in Hn by done. rewrite own_cons_other by done. by apply IH2.
Qed.

Lemma always_at_history (K : kind → list (event resp) → op → Prop) s t n o x H :
  (∀ k, kind_ok k → always (K k) (program k) [] (λ _ _, True)) →
  reached s → seen (hist s) (t, n, Ev o x) H →
  ∃ th, pool s !! n = Some th ∧ K (what th) (own n H) o.
Proof.
  intros HK Hr Hs. destruct (reached_at s t n o x H Hr Hs)
    as (s' & c & w & k & next & Hr' & <- & _ & _ & _ & Hp & th & Hth & <-).
  exists th. split; [done|]. destruct (threads_always K s' HK Hr') as [_ Hsafe]. by destruct (Hsafe _ _ _ Hp) as [? _].
Qed.

(** Every action of a history met its thread's guard. *)
Lemma guard_at s t n o x H :
  reached s → seen (hist s) (t, n, Ev o x) H →
  ∃ th, pool s !! n = Some th ∧ kguard (what th) (own n H) o.
Proof. apply always_at_history, program_safe. Qed.

(** *** The response store holds what was stored *)

Lemma exec_store c w o w' x key it :
  exec c w o = (w', x) → store w' !! key = Some it →
  store w !! key = Some it ∨ ∃ ttl, Ev o x = Ev (CacheSet key (CacheStore.entry it) ttl) true.
Proof.
  destruct o; cbn; intros E Hk; try (injection E as <- <-; by left).
  - destruct (Generations.gs_step _ _ _) as [g ok]. injection E as <- <-. by left.
  - destruct (Grants.Authorized _ _ _ _) as [g ok]. injection E as <- <-. by left.
  - destruct (fails c); [injection E as <- <-; by left|]. unfold CacheStore.mem_Get in E.
    destruct (store w !! key0) as [it0|]; [destruct (_ <? _)|]; injection E as <- <-; cbn in Hk;
      try apply lookup_delete_Some in Hk as [_ ?]; by left.
  - destruct (fails c); [injection E as <- <-; by left|]. unfold CacheStore.mem_Set in E.
    destruct (ttl <=? 0); injection E as <- <-; [by left|]. cbn in Hk.
    apply lookup_insert_Some in Hk as [[-> <-]|[_ ?]]; [right|by left]. by exists ttl.
  - injection E as <- <-. unfold CacheStore.mem_Delete in Hk. cbn in Hk. apply lookup_delete_Some in Hk as [_ ?]. by left.
  - destruct (decide _); injection E as <- <-; by left.
Qed.

Lemma store_inv s key it :
  reached s → store (mem s) !! key = Some it →
  ∃ t n ttl H, seen (hist s) (t, n, Ev (CacheSet key (CacheStore.entry it) ttl) true) H.
Proof.
  intros Hr. induction Hr as [t0 Ht0|s k Hr IH Hk|s c m k o next w x Hr IH Hv Hp He]; cbn [mem hist]; intros Hs.
  - unfold boot, CacheStore.NewMemory in Hs. cbn [store] in Hs. by rewrite lookup_empty in Hs.
  - auto.
  - destruct (exec_store _ _ _ _ _ _ _ He Hs) as [Hs'|[ttl ->]].
    + destruct (IH Hs') as (t & n & ttl & H & ?). exists t, n, ttl, H. by apply seen_later.
    + exists (clock w), m, ttl, (hist s). apply seen_now.
Qed.

(** *** Generations along a history *)

Definition is_bump (o : op) : bool := match o with GensBump _ => true | _ => false end.
Definition bumps (H : list entry) : Z := Z.of_nat (length (filter (λ e, is_bump (op_of e.2) = true) H)).

Lemma exec_gens c w o w' x :
  exec c w o = (w', x) →
  (is_bump o = false ∧ gens w' = gens w) ∨
  (∃ b, Ev o x = Ev (GensBump b) (Generations.gs_step (fails c) (gens w) b).2 ∧
        gens w' = (Generations.gs_step (fails c) (gens w) b).1).
Proof.
  destruct o; cbn; intros E; try (injection E as <- <-; by left).
  - destruct (Generations.gs_step _ _ _) as [g ok] eqn:Eg. injection E as <- <-. right. exists o. by rewrite Eg.
  - destruct (Grants.Authorized _ _ _ _) as [g ok]. injection E as <- <-. by left.
  - destruct (fails c); [injection E as <- <-; by left|]. destruct (CacheStore.mem_Get _ _ _).
    injection E as <- <-; by left.
  - destruct (fails c); [injection E as <- <-; by left|]. destruct (CacheStore.mem_Set _ _ _ _ _).
    injection E as <- <-; by left.
  - destruct (decide _); injection E as <- <-; by left.
Qed.

Lemma bumps_cons e H : bumps (e :: H) = bumps H + (if is_bump (op_of e.2) then 1 else 0).
Proof.
  unfold bumps. rewrite filter_cons. destruct (is_bump (op_of e.2)); [rewrite decide_True by done|by rewrite decide_False; [lia|]].
  cbn [length]. lia.
Qed.

Lemma bumps_nonneg H : 0 <= bumps H.
Proof. unfold bumps. lia. Qed.

(** The generations a thread read are at most the current ones, and less
    when the namespace was retired since. *)
Definition gens_ok (s : state) : Prop :=
  Generations.gs_bound (bumps (hist s)) (gens (mem s)) ∧
  ∀ A t n sc cl sg gg H, hist s = A ++ (t, n, Ev (GensGet sc cl) (Some (sg, gg))) :: H →
    let cur := Generations.gs_get (gens (mem s)) sc cl in
    sg <= cur.1 ∧ gg <= cur.2 ∧
    ∀ t' n' b, (t', n', Ev (GensBump b) true) ∈ A → Generations.covers b sc cl = true → sg < cur.1 ∨ gg < cur.2.

Lemma exec_get c w sc cl w' g :
  exec c w (GensGet sc cl) = (w', Some g) → gens w' = gens w ∧ g = Generations.gs_get (gens w) sc cl.
Proof. cbn. destruct (fails c); intros [= <- <-]. done. Qed.

Lemma gens_inv s : reached s → bumps (hist s) < 2 ^ 61 → gens_ok s.
Proof.
  intros Hr. induction Hr as [t0 Ht0|s k Hr IH Hk|s c m k o next w x Hr IH Hv Hp He]; cbn [hist]; intros Hb.
  - split; [apply Generations.gs_bound_empty|]. intros [|] ????????; discriminate.
  - apply IH, Hb.
  - rewrite bumps_cons in Hb. cbn [snd op_of] in Hb. pose proof (bumps_nonneg (hist s)) as Hnn.
    destruct IH as [IH1 IH2]; [destruct (is_bump o); lia|].
    assert (Hold : ∀ sc cl, let old := Generations.gs_get (gens (mem s)) sc cl in
        let cur := Generations.gs_get (gens w) sc cl in
        old.1 <= cur.1 ∧ old.2 <= cur.2 ∧
        ∀ b, Ev o x = Ev (GensBump b) true → Generations.covers b sc cl = true → old.1 < cur.1 ∨ old.2 < cur.2).
    { intros sc cl. destruct (exec_gens _ _ _ _ _ He) as [[Eo ->]|(b & E & ->)].
      - split; [lia|]. split; [lia|]. intros b E. injection E as E _. by subst.
      - assert (is_bump o = true) as Eo by (by injection E as -> _). rewrite Eo in Hb.
        destruct (Generations.gs_monotone (bumps (hist s)) (fails c) (gens (mem s)) b sc cl ltac:(lia) IH1).
        split; [done|]. split; [done|]. intros b' E' Hc. rewrite E in E'.
        assert (b' = b) as -> by (by injection E'). apply Ev_inj in E'. destruct (fails c).
        + rewrite (Generations.gs_fault_covers _ _ _ _ E') in Hc. done.
        + apply (Generations.gs_retires (bumps (hist s))); [lia|done..]. }
    split; cbn [hist mem].
    + rewrite bumps_cons. cbn [snd op_of]. destruct (exec_gens _ _ _ _ _ He) as [[Eo ->]|(b & E & ->)].
      * rewrite Eo. by rewrite Z.add_0_r.
      * assert (is_bump o = true) as Eo by (by injection E as -> _). rewrite Eo in *.
        apply Generations.gs_bound_step; [lia|done].
    + intros [|e A] t n sc cl sg gg H E; cbn in E.
      * injection E. intros. subst. ev_inj. destruct (exec_get _ _ _ _ _ _ He) as [-> Hg]. cbn zeta.
        rewrite <- Hg. cbn. split; [lia|]. split; [lia|]. set_solver.
      * injection E as <- E. destruct (IH2 _ _ _ _ _ _ _ _ E) as (H1 & H2 & H3).
        destruct (Hold sc cl) as (H4 & H5 & H6). cbn zeta. split; [lia|]. split; [lia|].
        intros t' n' b [Eb|Hin]%elem_of_cons Hc.
        -- apply (f_equal snd) in Eb. cbn [snd] in Eb. destruct (H6 b (eq_sym Eb) Hc); lia.
        -- destruct (H3 _ _ _ Hin Hc); lia.
Qed.

(** ** No stale response *)

Lemma bumps_seen H e H' : seen H e H' → bumps H' <= bumps H.
Proof.
  intros [a ->]. unfold bumps. rewrite filter_app, length_app, filter_cons.
  destruct (decide _); cbn [length]; lia.
Qed.

(** The request is not one that the direct-mode boundary may rewrite. *)
Definition plain (i : inbound) : Prop :=
  mode h = cloudflare_tunnel ∨ Gateway.Classify (Path (request i)) ≠ Gateway.ActionMediaRedirect.

Lemma plain_admitted i t r c : plain i → admitted h i t r c → r = request i.
Proof. intros [Hp|Hp] (_ & _ & Ha); destruct c; try by destruct Ha. all: destruct Ha as (? & ? & _); congruence. Qed.

(** Where a response found under a key comes from. *)
Lemma found_was_filled s t n key e H :
  reached s → seen (hist s) (t, n, Ev (CacheGet key) (Some e)) H →
  ∃ t1 j ttl H1, seen H (t1, j, Ev (CacheSet key e ttl) true) H1 ∧ filled (own j H1) key e.
Proof.
  intros Hr Hs. destruct (reached_at s _ _ _ _ _ Hr Hs) as (s' & c & w & k & next & Hr' & <- & _ & He & _).
  cbn in He. destruct (fails c); [discriminate|]. unfold CacheStore.mem_Get in He. cbn in He.
  destruct (store (mem s') !! key) as [it|] eqn:Es; [destruct (_ <? _)|]; try discriminate.
  injection He as _ <-. destruct (store_inv s' key it Hr' Es) as (t1 & j & ttl & H1 & Hset).
  exists t1, j, ttl, H1. split; [done|]. destruct (guard_at _ _ _ _ _ _ Hr' Hset) as (th & _ & Hg).
  by eapply kguard_filled.
Qed.

(** C1: The retirement theorem.  Whenever a stored response is served to a
    request, then at the moment its generation was validated ([Hval]) the
    response had been fetched by some request or refresh [j] that read the
    namespace's generations and went to the origin afterwards, and no
    successful retirement that covers the namespace happened between that
    read and the validation: every retirement acknowledged before the
    validation was acknowledged before the response was requested from the
    origin. *)
Theorem hit_is_not_stale s t n hd e x H i id :
  reached s → bumps (hist s) < 2 ^ 61 →
  seen (hist s) (t, n, Ev (Write (CachedReply hd e)) x) H →
  (∃ p, pool s !! n = Some (mkThread (KRequest i id) p)) → plain i →
  ∃ sc sg gg tv Hval M tq j Hq out rs,
    let class := ClassOf (Path (request i)) in
    own_scope h i (own n H) sc false ∧
    seen H (tv, n, Ev (GensGet sc class) (Some (sg, gg))) Hval ∧
    Hval = M ++ (tq, j, Ev (GensGet sc class) (Some (sg, gg))) :: Hq ∧
    (∃ tf, (tf, j, Ev (Origin out) (Some rs)) ∈ M) ∧ e = entry_of rs ∧
    ∀ t' n' b, (t', n', Ev (GensBump b) true) ∈ M → Generations.covers b sc class = false.
Proof.
  intros Hr Hb Hs [p Hn] Hpl. destruct (guard_at s t n _ x H Hr Hs) as (th & Hth & Hg).
  rewrite Hn in Hth. injection Hth as <-. cbn in Hg.
  destruct Hg as (sc & sg & gg & r & c & t1 & t2 & t3 & t4 & t5 & Hsc & Ha & G5 & G4 & G3 & _).
  assert (r = request i) as -> by (by eapply plain_admitted).
  apply own_seen in G5 as (tv & Hval & Hv & ->). apply own_seen in G4 as (? & Hb1 & Hb2 & ->).
  apply own_seen in G3 as (tg & Hg1 & Hg2 & ->).
  assert (Hv' : seen (hist s) (tv, n, Ev (GensGet sc (ClassOf (Path (request i)))) (Some (sg, gg))) Hval)
    by (by eapply seen_trans).
  assert (Hg3 : seen Hval (tg, n, Ev (CacheGet (own_key i sc sg gg)) (Some e)) Hg1) by (by eapply seen_trans).
  destruct (found_was_filled s tg n (own_key i sc sg gg) e Hg1 Hr ltac:(by eapply seen_trans))
    as (ts & j & ttl & H1 & Hset & Hfill).
  destruct Hfill as (sc' & class' & r' & sg' & gg' & out & rs & u2 & u3 & Hfree & Hne & Ek & U2 & U3 & _ & ->).
  apply RequestKeyGen_inj in Ek as (-> & Ecl & -> & -> & _); [|apply ClassOf_free|done].
  assert (class' = ClassOf (Path (request i))) as ->.
  { unfold default_class in Ecl. pose proof (ClassOf_nonempty (Path (request i))).
    destruct (String.eqb_spec class' ""); [done|].
    by destruct (String.eqb_spec (ClassOf (Path (request i))) ""). }
  apply own_seen in U2 as (tf & H2 & U2 & ->). apply own_seen in U3 as (tq & Hq & U3 & _).
  assert (HA : seen Hval (tf, j, Ev (Origin out) (Some rs)) H2).
  { eapply seen_trans; [|exact U2]. by eapply seen_trans; [|exact Hset]. }
  destruct HA as [A1 EA]. destruct U3 as [A2 EB].
  exists sc', sg', gg', tv, Hval, (A1 ++ (tf, j, Ev (Origin out) (Some rs)) :: A2), tq, j, Hq, out, rs.
  cbn zeta. split; [done|]. split; [done|]. rewrite <- app_assoc. cbn [app]. rewrite <- EB.
  split; [done|]. split; [exists tf; set_solver|]. split; [done|].
  intros t' n' b Hin. destruct (Generations.covers b sc' (ClassOf (Path (request i)))) eqn:Ec; [|done]. exfalso.
  destruct (reached_at s _ _ _ _ _ Hr Hv') as (s' & c' & w & k & next & Hr' & Eh & _ & He & _).
  destruct (gens_inv s' Hr') as [_ Hok]. { rewrite Eh. pose proof (bumps_seen _ _ _ Hv'). lia. }
  specialize (Hok (A1 ++ (tf, j, Ev (Origin out) (Some rs)) :: A2) tq j sc' (ClassOf (Path (request i))) sg' gg' Hq).
  destruct Hok as (_ & _ & Hst). { rewrite Eh, <- app_assoc. cbn [app]. by rewrite <- EB. }
  specialize (Hst t' n' b Hin Ec). apply exec_get in He as [_ He]. rewrite <- He in Hst. cbn in Hst. lia.
Qed.

(** ** Only to callers the origin answered *)

(** The calls on the leases, without the iteration order. *)
Definition erase (c : Z * Grants.call) : Z * Grants.call :=
  (c.1, match c.2 with Grants.CGrant _ fp k => Grants.CGrant [] fp k | c => c end).
Definition grant_call (e : entry) : option (Z * Grants.call) :=
  match op_of e.2 with
  | Grant fp k => Some (e.1.1, Grants.CGrant [] fp k)
  | Authorized fp k => Some (e.1.1, Grants.CCheck fp k)
  | Revoke fp => Some (e.1.1, Grants.CRevoke fp)
  | _ => None
  end.

Lemma exec_grants c w o w' x n :
  exec c w o = (w', x) →
  clock w' = clock w + advance c ∧
  match grant_call (clock w', n, Ev o x) with
  | None => grants w' = grants w
  | Some call => ∃ cl, erase (clock w', cl) = call ∧ grants w' = Grants.apply_call (clock w') (grants w) cl ∧
                   ∀ it fp k, cl = Grants.CGrant it fp k → it = grant_order c
  end.
Proof.
  destruct o; cbn; intros E; try (injection E as <- <-; done).
  - injection E as <- <-. split; [done|]. by eexists (Grants.CRevoke _).
  - destruct (Generations.gs_step _ _ _) as [g ok]. by injection E as <- <-.
  - destruct (Grants.Authorized _ _ _ _) as [g ok] eqn:Eg. injection E as <- <-. split; [done|].
    eexists (Grants.CCheck _ _). cbn in Eg |- *. by rewrite Eg.
  - injection E as <- <-. split; [done|]. eexists (Grants.CGrant (grant_order c) _ _).
    split; [done|]. split; [done|]. by intros ??? [= <- _ _].
  - destruct (fails c); [by injection E as <- <-|]. destruct (CacheStore.mem_Get _ _ _). by injection E as <- <-.
  - destruct (fails c); [by injection E as <- <-|]. destruct (CacheStore.mem_Set _ _ _ _ _). by injection E as <- <-.
  - destruct (decide _); by injection E as <- <-.
Qed.

Lemma grants_inv s :
  reached s → 0 < clock (mem s) ∧ ∃ gh, Grants.reached gh (grants (mem s)) ∧
    erase <$> gh = omap grant_call (hist s) ∧ ∀ t c, (t, c) ∈ gh → t <= clock (mem s).
Proof.
  intros Hr. induction Hr as [t0 Ht0|s k Hr IH Hk|s c m k o next w x Hr IH Hv Hp He]; cbn [mem hist].
  - split; [done|]. exists []. split; [constructor|]. split; [done|]. set_solver.
  - apply IH.
  - destruct IH as (Hpos & gh & H1 & H2 & H3). destruct (exec_grants _ _ _ _ _ m He) as [Ec Hg].
    destruct Hv as (Hadv & Hord & _). split; [lia|]. cbn [omap list_omap].
    destruct (grant_call (clock w, m, Ev o x)) as [call|].
    + destruct Hg as (cl & <- & -> & Hit). exists ((clock w, cl) :: gh). split.
      * constructor; [done|lia|intros t c' Hin; specialize (H3 _ _ Hin); lia|].
        intros it fp rk E. by rewrite (Hit _ _ _ E).
      * split; [by rewrite fmap_cons, H2|]. intros t c' [E|Hin]%elem_of_cons; [injection E; lia|].
        specialize (H3 _ _ Hin). lia.
    + rewrite Hg. exists gh. split; [done|]. split; [done|]. intros t c' Hin. specialize (H3 _ _ Hin). lia.
Qed.

Lemma omap_split {A B} (f : A → option B) l a y b :
  omap f l = a ++ y :: b → ∃ l1 x l2, l = l1 ++ x :: l2 ∧ f x = Some y ∧ omap f l1 = a ∧ omap f l2 = b.
Proof.
  revert a. induction l as [|z l IH]; intros a; cbn [omap list_omap]; [by destruct a|].
  destruct (f z) as [y'|] eqn:Ez.
  - destruct a as [|a0 a]; cbn; intros E; injection E.
    + intros <- ->. by exists [], z, l.
    + intros E' ->. destruct (IH _ E') as (l1 & x & l2 & -> & ? & <- & ?). exists (z :: l1), x, l2. cbn. by rewrite Ez.
  - intros E. destruct (IH _ E) as (l1 & x & l2 & -> & ? & <- & ?). exists (z :: l1), x, l2. cbn. by rewrite Ez.
Qed.

(** A successful check in the history has a lease in the history. *)
Lemma authorized_in_history s ta n fp key Ha :
  reached s → seen (hist s) (ta, n, Ev (Authorized fp key) true) Ha →
  ∃ B tg j key' Hg, Ha = B ++ (tg, j, Ev (Grant fp key') tt) :: Hg ∧ sha256hex key' = sha256hex key ∧
    ta < tg + Grants.ResourceAuthorizationTTL ∧ ∀ t' n', (t', n', Ev (Revoke fp) tt) ∉ B.
Proof.
  intros Hr Hs. destruct (reached_at s _ _ _ _ _ Hr Hs) as (s' & c & w & k & next & Hr' & <- & _ & He & <- & _).
  destruct (grants_inv s' Hr') as (_ & gh & G1 & G2 & _). cbn in He.
  destruct (Grants.Authorized _ _ fp key) as [g ok] eqn:Eg. injection He as <- ->.
  destruct (Grants.authorized_lease gh (grants (mem s')) (clock (mem s') + advance c) fp key G1)
    as (h1 & tg & it & key' & h2 & -> & Hk & Hlt & Hno).
  { change (grants (tick (mem s') (advance c))) with (grants (mem s')) in Eg.
    change (clock (tick (mem s') (advance c))) with (clock (mem s') + advance c) in Eg. by rewrite Eg. }
  rewrite fmap_app, fmap_cons in G2. symmetry in G2. apply omap_split in G2 as (B & [[tg' j] ev] & Hg & Eh & Eg' & EB & _).
  unfold grant_call in Eg'. cbn in Eg'. destruct ev as [o y]. cbn in Eg'. destruct o; try discriminate.
  injection Eg' as -> -> ->. destruct y. exists B, tg, j, key', Hg. split; [done|]. split; [done|]. split; [done|].
  intros t' n' Hin. apply (Hno t'). assert (Hx : (t', Grants.CRevoke fp) ∈ omap grant_call B).
  { apply list_elem_of_omap. by eexists. }
  rewrite EB in Hx. apply list_elem_of_fmap in Hx as ([t1 cl] & E & Hin'). unfold erase in E. cbn in E.
  destruct cl; try discriminate. by injection E as -> ->.
Qed.


(** ** One flight per key *)

Definition kflight (k : kind) (t : list (event resp)) (o : op) : Prop :=
  match k with KRequest _ _ => flight_guard t o | _ => flightless o = true end.

Lemma program_flights k : kind_ok k → always (kflight k) (program k) [] (λ _ _, True).
Proof.
  intros _. destruct k as [i id|sc class|key s cr]; cbn [program].
  - eapply always_mono; [done| |apply flight_shape]. done.
  - eapply always_mono; [done|done|]. apply only_always with (F := flightless); [done|].
    unfold InvalidateCacheContext. cbv zeta. flights.
  - eapply always_mono; [done|done|]. apply only_always with (F := flightless); [done|].
    unfold refreshChecked, KeyFunc. cbv zeta. flights.
Qed.

(** The thread has begun a flight for the key and not ended it. *)
Definition holds (n : nat) (key : string) (H : list entry) : Prop :=
  outside flightless (own n H) = [Ev (TryBegin key) true].

Lemma exec_flight c w o w' x :
  exec c w o = (w', x) →
  (flightless o = true ∧ flight w' = flight w) ∨
  ∃ key, (Ev o x = Ev (TryBegin key) true ∧ key ∉ flight w ∧ flight w' = {[key]} ∪ flight w) ∨
         (Ev o x = Ev (TryBegin key) false ∧ flight w' = flight w) ∨
         (Ev o x = Ev (EndFlight key) tt ∧ flight w' = flight w ∖ {[key]}).
Proof.
  destruct o; cbn; intros E; try (injection E as <- <-; by left).
  - destruct (Generations.gs_step _ _ _). injection E as <- <-. by left.
  - destruct (Grants.Authorized _ _ _ _). injection E as <- <-. by left.
  - destruct (fails c); [injection E as <- <-; by left|]. destruct (CacheStore.mem_Get _ _ _).
    injection E as <- <-; by left.
  - destruct (fails c); [injection E as <- <-; by left|]. destruct (CacheStore.mem_Set _ _ _ _ _).
    injection E as <- <-; by left.
  - right. exists key. destruct (decide _); injection E as <- <-; [right; by left|by left].
  - injection E as <- <-. right. exists key. right. by right.
Qed.

(** Two holders of a key are the same thread, and the key is in the table. *)
Definition flights_ok (s : state) : Prop :=
  ∀ n key, holds n key (hist s) →
    key ∈ flight (mem s) ∧ ∀ m, holds m key (hist s) → m = n.

Lemma holds_other n m key t e H : n ≠ m → holds n key ((t, m, e) :: H) ↔ holds n key H.
Proof. intros. unfold holds. by rewrite own_cons_other. Qed.

Lemma holds_flightless n m key t o x H :
  flightless o = true → holds n key ((t, m, Ev o x) :: H) ↔ holds n key H.
Proof.
  intros Ho. destruct (decide (n = m)) as [->|]; [|by apply holds_other].
  unfold holds. by rewrite own_cons_same, outside_cons_in.
Qed.

(** After a step on flights the acting thread holds a key only if it just
    began it. *)
Lemma holds_acted n key t o x H :
  flightless o = false → flight_guard (own n H) o → holds n key ((t, n, Ev o x) :: H) →
  Ev o x = Ev (TryBegin key) true.
Proof.
  intros Ho Hg. unfold holds. rewrite own_cons_same, outside_cons_out by done. intros E.
  apply (f_equal head) in E. cbn in E. by apply (inj Some) in E.
Qed.

Lemma flights_inv s : reached s → flights_ok s.
Proof.
  intros Hr. induction Hr as [t0 Ht0|s k Hr IH Hk|s c m k o next w x Hr IH Hv Hp He].
  - intros n key E. discriminate.
  - exact IH.
  - assert (Hg : flightless o = false → flight_guard (own m (hist s)) o).
    { intros Ho. destruct (threads_always kflight s program_flights Hr) as [_ Hs].
      destruct (Hs _ _ _ Hp) as [Hg _]. destruct k; cbn in Hg; [done|congruence..]. }
    intros n key. cbn [hist mem].
    destruct (exec_flight _ _ _ _ _ He) as [[Ho Ef]|[key0 Hcase]].
    { rewrite Ef. rewrite holds_flightless by done. intros Hn. destruct (IH n key Hn) as [? Hu].
      split; [done|]. intros m'. rewrite holds_flightless by done. apply Hu. }
    assert (Ho : flightless o = false).
    { destruct Hcase as [[E _]|[[E _]|[E _]]]; by injection E as -> _. }
    specialize (Hg Ho).
    assert (Hme : ∀ n key, holds n key ((clock w, m, Ev o x) :: hist s) →
      (n = m ∧ Ev o x = Ev (TryBegin key) true) ∨ (n ≠ m ∧ holds n key (hist s))).
    { intros n' key' Hh. destruct (decide (n' = m)) as [->|Hne]; [left|right].
      - split; [done|]. by eapply holds_acted.
      - split; [done|]. by rewrite holds_other in Hh. }
    destruct Hcase as [(E & Hfree & ->)|[(E & ->)|(E & ->)]].
    + intros Hn. destruct (Hme _ _ Hn) as [[-> E']|[Hne Hn']].
      * rewrite E in E'. assert (key0 = key) as -> by (by injection E').
        split; [set_solver|]. intros m' Hm'. destruct (Hme _ _ Hm') as [[-> _]|[_ Hm'']]; [done|].
        by destruct (IH _ _ Hm'') as [? _].
      * destruct (IH _ _ Hn') as [Hin Hu]. split; [set_solver|]. intros m' Hm'.
        destruct (Hme _ _ Hm') as [[-> E']|[_ Hm'']]; [|by apply Hu].
        rewrite E in E'. assert (key0 = key) as -> by (by injection E'). done.
    + intros Hn. destruct (Hme _ _ Hn) as [[-> E']|[Hne Hn']].
      * rewrite E in E'. assert (key0 = key) as -> by (by injection E'). by apply Ev_inj in E'.
      * destruct (IH _ _ Hn') as [Hin Hu]. split; [done|]. intros m' Hm'.
        destruct (Hme _ _ Hm') as [[-> E']|[_ Hm'']]; [|by apply Hu].
        rewrite E in E'. assert (key0 = key) as -> by (by injection E'). by apply Ev_inj in E'.
    + assert (Hhold : holds m key0 (hist s)) by (by injection E as -> _).
      intros Hn. destruct (Hme _ _ Hn) as [[-> E']|[Hne Hn']]; [by rewrite E in E'|].
      destruct (IH _ _ Hn') as [Hin Hu]. split.
      * assert (key ≠ key0) by (intros ->; by destruct (IH _ _ Hhold) as [_ Hu']; rewrite (Hu' _ Hn') in Hne).
        set_solver.
      * intros m' Hm'. destruct (Hme _ _ Hm') as [[-> E']|[_ Hm'']]; [by rewrite E in E'|by apply Hu].
Qed.

(** A thread that won a flight holds it until it ends it. *)
Lemma held_or_ended n key A t H :
  (∀ t' o x H', seen (A ++ (t, n, Ev (TryBegin key) true) :: H) (t', n, Ev o x) H' →
     flightless o = false → flight_guard (own n H') o) →
  holds n key (A ++ (t, n, Ev (TryBegin key) true) :: H) ∨ ∃ t', (t', n, Ev (EndFlight key) tt) ∈ A.
Proof.
  induction A as [|[[t1 m] [o x]] A IH]; cbn [app]; intros Hg.
  { left. unfold holds. rewrite own_cons_same, outside_cons_out by done.
    pose proof (Hg t (TryBegin key) true H (seen_now _ _) eq_refl) as Hb. cbn in Hb. by rewrite Hb. }
  destruct IH as [Hh|[t' Hin]]; [| |right; exists t'; set_solver].
  { intros t' o' x' H' Hs. by eapply Hg, seen_later. }
  destruct (decide (m = n)) as [->|Hne]; [|left; by rewrite holds_other].
  destruct (flightless o) eqn:Ho; [left; by rewrite holds_flightless|].
  pose proof (Hg t1 o x _ (seen_now _ _) Ho) as Hgd. unfold holds in Hh.
  destruct o; try discriminate; cbn in Hgd; rewrite Hgd in Hh; [discriminate|].
  injection Hh as ->. right. exists t1. destruct x. set_solver.
Qed.

(** C17: Stampede control.  Between two successful acquisitions of the same key
    the first winner has ended its flight: at any time at most one request
    is refreshing a key. *)
Theorem one_flight_per_key s A t n key B t' n' C :
  reached s →
  hist s = A ++ (t, n, Ev (TryBegin key) true) :: B ++ (t', n', Ev (TryBegin key) true) :: C →
  ∃ t'', (t'', n', Ev (EndFlight key) tt) ∈ B.
Proof.
  intros Hr E.
  assert (Hs : seen (hist s) (t, n, Ev (TryBegin key) true) (B ++ (t', n', Ev (TryBegin key) true) :: C))
    by (by exists A).
  destruct (reached_at s _ _ _ _ _ Hr Hs) as (s' & c & w & k & next & Hr' & Eh & _ & He & _).
  destruct (held_or_ended n' key B t' C) as [Hh|?]; [| |done].
  - intros t1 o x H' Hs' Ho.
    assert (Hs'' : seen (hist s) (t1, n', Ev o x) H') by (by eapply seen_trans).
    destruct (always_at_history kflight s _ _ _ _ _ program_flights Hr Hs'') as ([k' p] & _ & Hk).
    destruct k'; cbn in Hk; [done|congruence..].
  - exfalso. rewrite <- Eh in Hh. destruct (flights_inv s' Hr' _ _ Hh) as [Hin _].
    cbn in He. destruct (decide _) as [|Hn]; [discriminate|]. by apply Hn.
Qed.

(** ** A broken cache serves nothing *)

Lemma exec_broken c w o w' x :
  exec c w o = (w', x) →
  (∃ b, Ev o x = Ev (StoreBroken b) tt ∧ broken w' = b) ∨ (broken w' = broken w ∧ ∀ b y, Ev o x ≠ Ev (StoreBroken b) y).
Proof.
  destruct o; cbn; intros E; try (injection E as <- <-; by right).
  - destruct (Generations.gs_step _ _ _). injection E as <- <-. by right.
  - injection E as <- <-. left. by exists b.
  - destruct (Grants.Authorized _ _ _ _). injection E as <- <-. by right.
  - destruct (fails c); [injection E as <- <-; by right|]. destruct (CacheStore.mem_Get _ _ _).
    injection E as <- <-; by right.
  - destruct (fails c); [injection E as <- <-; by right|]. destruct (CacheStore.mem_Set _ _ _ _ _).
    injection E as <- <-; by right.
  - destruct (decide _); injection E as <- <-; by right.
Qed.

(** The flag was cleared since every moment at which it was set. *)
Lemma broken_inv s B t n C :
  reached s → hist s = B ++ (t, n, Ev (StoreBroken true) tt) :: C → broken (mem s) = false →
  ∃ t' m, (t', m, Ev (StoreBroken false) tt) ∈ B.
Proof.
  intros Hr. revert B. induction Hr as [t0 Ht0|s k Hr IH Hk|s c m k o next w x Hr IH Hv Hp He]; intros B; cbn [hist mem].
  - by destruct B.
  - apply IH.
  - intros E Hb. destruct (exec_broken _ _ _ _ _ He) as [[b [Eo Eb]]|[Eb Hno]].
    + rewrite Hb in Eb. subst b. destruct B as [|e B]; cbn in E.
      * apply (f_equal head) in E. cbn in E. apply (inj Some), (f_equal snd) in E. cbn in E. rewrite Eo in E.
        assert (false = true) by (by injection E). discriminate.
      * injection E as <- _. rewrite Eo. set_solver.
    + destruct B as [|e B]; cbn in E.
      * apply (f_equal head) in E. cbn in E. apply (inj Some), (f_equal snd) in E. cbn in E. by apply Hno in E.
      * injection E as <- E. destruct (IH B E ltac:(congruence)) as (t' & m' & ?). exists t', m'. set_solver.
Qed.


(** ** Executable schedules *)

(** A scheduler's move: start a thread, or let one perform its next action. *)
Inductive move :=
  | Spawn (k : kind)
  | Run (n : nat) (d : Z) (f : bool) (ans : ∀ o, resp o).

Definition choose (d : Z) (f : bool) (ans : ∀ o, resp o) (w : world) : choice :=
  mkChoice d f (map_to_list (grants w)) (map_to_list (Warmer.jobs (warm w)))
    (map_to_list (Warmer.contexts (Warmer.expireContexts (clock w + d) (warm w)))) ans.

Definition perform (s : state) (m : move) : state :=
  match m with
  | Spawn k => mkState (mem s) (pool s ++ [mkThread k (program k)]) (hist s)
  | Run n d f ans =>
      match pool s !! n with
      | Some (mkThread k (Act o next)) =>
          let '(w, x) := exec (choose d f ans (mem s)) (mem s) o in
          mkState w (<[n := mkThread k (next x)]> (pool s)) ((clock w, n, Ev o x) :: hist s)
      | _ => s
      end
  end.

Definition move_ok (m : move) : Prop :=
  match m with Spawn k => kind_ok k | Run _ d _ _ => 0 <= d end.

Lemma move_reached s m : reached s → move_ok m → reached (perform s m).
Proof.
  destruct m as [k|n d f ans]; cbn [perform move_ok]; intros Hr Hm; [by constructor|].
  destruct (pool s !! n) as [[k [a|o next]]|] eqn:E; [done| |done].
  destruct (exec _ _ _) as [w x] eqn:Ex. eapply reached_act; [done| |done|done]. by split.
Qed.

Lemma moves_reached ms s : reached s → Forall move_ok ms → reached (foldl perform s ms).
Proof.
  intros Hr Hm. revert s Hr. induction Hm as [|m ms Hm _ IH]; intros s Hr; [done|].
  by apply IH, move_reached.
Qed.

(** A finder for actions of one thread. *)
Lemma find_in_history (f : op → bool) n H :
  existsb (λ e : entry, (e.1.2 =? n)%nat && f (op_of e.2)) H = true →
  ∃ t o x H', seen H (t, n, Ev o x) H' ∧ f o = true.
Proof.
  intros ([[t m] [o x]] & Hin & Hf)%existsb_exists. apply andb_prop in Hf as [Hm Hf]. cbn in Hm, Hf.
  apply Nat.eqb_eq in Hm as ->. apply list_elem_of_In, in_seen in Hin as [H' ?]. eauto 8.
Qed.

End system.

(** ** Witnesses: two identical requests of one user, one after the other *)

#[local] Existing Instance Generations.Memory_store.
#[local] Existing Instance Generations.Memory_laws.
Notation GMem := Generations.Memory (only parsing).

Definition w_parse : string → option (string * (string → string)) := λ _, None.
Definition w_quote : list string → string := λ l, Join l "|".
Definition w_opts : Options := w_options cloudflare_tunnel.
Definition w_in : inbound := w_request "GET" "/library/sections/1/all".

(** The origin's status decides whether the first response is stored. *)
Definition w_world_answers (status : Z) : ∀ o, resp o := λ o,
  match o return resp o with
  | Origin out => Some (mkResponse status [("Content-Type", ["application/xml"])] "<MediaContainer/>" false)
  | o => w_answers None o
  end.

Definition w_moves (status : Z) : list (move) :=
  [Spawn (KRequest w_in "a")] ++ repeat (Run 0 1 false (w_world_answers status)) 40 ++
  [Spawn (KRequest w_in "b")] ++ repeat (Run 1 1 false (w_world_answers status)) 40.

Definition w_state (status : Z) : state (G := GMem) :=
  foldl (perform w_parse w_quote w_opts) (mkState (boot 1) [] []) (w_moves status).

Lemma w_state_reached status : reached w_parse w_quote w_opts (w_state status).
Proof.
  assert (Hm : Forall move_ok (w_moves status)).
  { unfold w_moves. rewrite !Forall_app. repeat (split; [by repeat constructor|]). by repeat constructor. }
  assert (Hb : reached w_parse w_quote w_opts (mkState (boot 1) [] [])) by (by constructor).
  unfold w_state. exact (moves_reached w_parse w_quote w_opts (w_moves status) _ Hb Hm).
Qed.

Lemma w_hit :
  ∃ t hd e x H, seen (hist (w_state 200)) (t, 1%nat, Ev (Write (CachedReply hd e)) x) H.
Proof.
  destruct (find_in_history is_cached 1 (hist (w_state 200))) as (t & o & x & H & Hs & Ho); [vm_compute; reflexivity|].
  destruct o; try discriminate Ho. destruct w; try discriminate Ho. by exists t, h, e, x, H.
Qed.

Lemma w_thread n id :
  what <$> pool (w_state 200) !! n = Some (KRequest w_in id) →
  ∃ p, pool (w_state 200) !! n = Some (mkThread (KRequest w_in id) p).
Proof. destruct (pool (w_state 200) !! n) as [[k p]|]; cbn; [|done]. intros [= ->]. eauto. Qed.

Lemma hit_is_not_stale_witness :
  ∃ t n hd e x H sc sg gg tv Hval M tq j Hq out rs,
    let class := ClassOf "/library/sections/1/all" in
    seen (hist (w_state 200)) (t, n, Ev (Write (CachedReply hd e)) x) H ∧
    seen H (tv, n, Ev (GensGet sc class) (Some (sg, gg))) Hval ∧
    Hval = M ++ (tq, j, Ev (GensGet sc class) (Some (sg, gg))) :: Hq ∧
    (∃ tf, (tf, j, Ev (Origin out) (Some rs)) ∈ M) ∧ e = entry_of rs.
Proof.
  destruct w_hit as (t & hd & e & x & H & Hs).
  destruct (hit_is_not_stale w_parse w_quote w_opts (w_state 200) t 1%nat hd e x H w_in "b" (w_state_reached 200)
    ltac:(vm_compute; reflexivity) Hs (w_thread 1 "b" ltac:(vm_compute; reflexivity)) (or_introl eq_refl))
    as (sc & sg & gg & tv & Hval & M & tq & j & Hq & out & rs & _ & H1 & H2 & H3 & H4 & _).
  exists t, 1%nat, hd, e, x, H, sc, sg, gg, tv, Hval, M, tq, j, Hq, out, rs.
  exact (conj Hs (conj H1 (conj H2 (conj H3 H4)))).
Defined.



(** When the origin fails nothing is stored, and the second request wins the
    flight the first one ended. *)
Definition w_key : string := own_key w_in "user:42" 0 0.

Definition begins (e : Z * nat * event resp) : option (Z * nat * event resp) :=
  match op_of e.2 with TryBegin _ => Some e | _ => None end.

Lemma two_begins key t n t' n' l :
  omap begins l = [(t, n, Ev (TryBegin key) true); (t', n', Ev (TryBegin key) true)] →
  ∃ A B C, l = A ++ (t, n, Ev (TryBegin key) true) :: B ++ (t', n', Ev (TryBegin key) true) :: C.
Proof.
  assert (Hf : ∀ e e', begins e = Some e' → e = e').
  { intros [[t1 n1] [o x]] e'. unfold begins. cbn. destruct o; try discriminate. by intros [= <-]. }
  intros E. apply (omap_split begins l []) in E as (A & e1 & R & -> & E1%Hf & _ & E2).
  apply (omap_split begins R []) in E2 as (B & e2 & C & -> & E2%Hf & _). rewrite E1, E2. eauto.
Qed.

Lemma w_two_flights :
  ∃ A B C, hist (w_state 500) =
    A ++ (22, 1%nat, Ev (TryBegin w_key) true) :: B ++ (9, 0%nat, Ev (TryBegin w_key) true) :: C.
Proof.
  refine (two_begins w_key 22 1%nat 9 0%nat (hist (w_state 500)) _). vm_compute. reflexivity.
Qed.

Lemma one_flight_per_key_witness :
  ∃ A B C t'',
    hist (w_state 500) = A ++ (22, 1%nat, Ev (TryBegin w_key) true) :: B ++ (9, 0%nat, Ev (TryBegin w_key) true) :: C ∧
    (t'', 0%nat, Ev (EndFlight w_key) tt) ∈ B.
Proof.
  destruct w_two_flights as (A & B & C & E).
  destruct (one_flight_per_key w_parse w_quote w_opts (w_state 500) A 22 1%nat w_key B 9 0%nat C (w_state_reached 500) E) as [t'' Hin].
  exists A, B, C, t''. exact (conj E Hin).
Defined.

(** ** A recovery that overlaps a failure *)

Inductive mark := MOrigin | MBumpAll (ok : bool) | MBumpScope (ok : bool) | MBroken (b : bool) | MHit.

Definition marked (e : Z * nat * event resp) : option (nat * mark) :=
  match e.2 with
  | Ev o x =>
      match o return resp o → option (nat * mark) with
      | Origin _ => λ _, Some (e.1.2, MOrigin)
      | GensBump Generations.BumpAll => λ ok, Some (e.1.2, MBumpAll ok)
      | GensBump (Generations.BumpScope _) => λ ok, Some (e.1.2, MBumpScope ok)
      | StoreBroken b => λ _, Some (e.1.2, MBroken b)
      | Write (CachedReply _ _) => λ _, Some (e.1.2, MHit)
      | _ => λ _, None
      end x
  end.

Definition race_moves : list move :=
  let run n k f := repeat (Run n 1 f (w_world_answers 200)) k in
  [Spawn (KRequest w_in "a"); Spawn (KInvalidate "all" "");
   Spawn (KRequest (w_request "GET" "/:/timeline") "w"); Spawn (KRequest w_in "b")] ++
  run 1%nat 1%nat false ++ run 0%nat 40%nat false ++ run 2%nat 40%nat true ++ run 1%nat 1%nat false ++
  run 3%nat 40%nat false.

Definition race_state : state (G := GMem) :=
  foldl (perform w_parse w_quote w_opts) (mkState (boot 1) [] []) race_moves.

(** The mark of a failed retirement can be taken back by an invalidation
    whose own retirement came before the failure: thread 1 retires
    everything, thread 0 fetches and stores a page, the watch write of
    thread 2 is acknowledged but its retirement fails and marks the cache
    broken, thread 1 then clears the mark, and thread 3 is served the page
    fetched before the write. *)
Lemma recovery_races_with_failure :
  omap marked (rev (hist race_state)) =
  [(1, MBumpAll true); (0, MOrigin); (2, MOrigin); (2, MBumpScope false); (2, MBroken true);
   (1, MBroken false); (3, MHit)]%nat.
Proof. vm_compute. reflexivity. Qed.

End System.
